(* ===== verification/_CoqProject ===== *)
-Q . S2P
Prelude.v
GoInt.v
Strconv.v
GoStrings.v
Message.v
Metrics.v
Reference.v
Net.v
Pair.v
Interfaces.v
Pairing.v
InterfacesTheorems.v
AddressText.v
TApp.v
TAppProofs.v
TAppTheorems.v
TAppClients.v
TGen.v
TGenStep.v
TGenProofs.v
Ledger.v
TGenRefine.v
TGenInv.v
TGenShared.v
TGenDemo.v
TGenSetup.v
TGenTheorems.v
TGenRedial.v
TGenReply.v
TGenWire.v
TGenTimeouts.v
TGenConfig.v
System.v
EndToEnd.v
EndToEndDemo.v
Config.v
TGC.v
TGCTheorems.v
Plan.v
TGCRuns.v
Streams.v
Leaks.v
Handles.v
Pod.v
PodProofs.v
PodHandles.v
PodServers.v
PodEcho.v
PodStop.v
PodTheorems.v
PodDemo.v
PodEchoDemo.v
Endpoint.v
Main.v
Process.v
