(* ===== verification/Prelude.v ===== *)
(** * GoBAT: a verification development

    GoBAT measures the reachability and quality of the network between pods.
    Every pod runs the same program (src/cmd/tgenapp/main.go).  A traffic
    controller (src/pkg/tgc/tgc.go) watches two ConfigMaps.  The profile
    ConfigMap says how traffic is generated; when it appears, the controller
    starts an echo server, the traffic terminator (src/pkg/tapp/udp.go), on
    each interface of the pod.  The pairing ConfigMap lists sources and
    destinations; for each source that is this pod the controller creates a
    stream, the traffic generator (src/pkg/tgen/udp.go), which sends numbered
    packets at a configured rate, waits for their echoes, counts sent, failed,
    received and dropped packets as prometheus metrics, and redials a
    destination given by name when packets time out.  src/pkg/util holds the
    data the parts exchange, the parsing of the profile (config.go), address
    helpers and metric constructors (util.go).

    This library translates those parts into Rocq definitions, in the order
    and under the names of the source, and proves what they do together.

    ** Where things are

    - Prelude: outcomes of Go calls ([Ok], [Err], [Panic]), the state monad
      [ST] with [recover], slices and [copy], runs of a step relation.
    - GoInt, Strconv, GoStrings: 64-bit integers, float64 counters, time
      helpers of util.go; the functions of packages strconv and strings used.
    - Message, Pair, Net, Metrics: util.go.  The wire messages and the
      interface to msgpack; BAT pairs and the JSON text of a source; [IsIPv4],
      [IsIPv6], [GetResolvableAddress] over Go 1.15's [net.ParseIP]; metric
      constructors and the interface to prometheus.
    - Reference: executable instances of the msgpack and prometheus
      interfaces with proofs of their laws, for concrete runs.
    - TApp (Module tapp): the echo server.  [udpServer] is the struct;
      [SetupServerConnection], [ReadFromSocket_datagram] (one turn of the read
      loop; [account] is its locked region), [sweep] (one round of
      [HandleIdleConnections]), [TearDownServer_begin]/[_end] (before and after
      the wait) and [CreateServer] are the functions; [tapp.step] interleaves
      both loops and the teardown.  TAppProofs has the lemmas, TAppTheorems
      the properties, TAppClients those of a client's identity.
    - TGen (Module tgen): a stream.  [udpStream] is the struct with its
      counters; [SetupConnection], also in two parts
      ([SetupConnection_begin]/[_end]), [settle_reply] (the locked region of
      [SocketRead]), [timeout_turn] and [after_drop] (a turn of
      [HandleTimeouts]), [StartPackets_prepare], [redialDestination],
      [TearDownConnection_begin]/[_end], [LoadBatProfileConfig] are its code.
      TGenStep (Module stream) interleaves the three goroutines, teardown and
      configuration reloads in [stream.step].
    - Ledger: an abstract machine for the bookkeeping of requests and its
      invariant.  TGenRefine: a stream implements it.  TGenProofs, TGenInv:
      shared lemmas (frame conditions of each operation; the set-up stream and
      the WaitGroup).  TGenDemo: a concrete run.  TGenSetup, TGenTheorems,
      TGenRedial, TGenReply, TGenWire, TGenTimeouts, TGenConfig: the
      properties.
    - System (Module system): a stream, its server and the network between
      them, a soup of datagrams that may be delivered, repeated, reordered or
      lost ([system.step]), and the specification [echo] of numbered requests.
      EndToEnd: that the one implements the other, and the books of both ends.
      EndToEndDemo: a request there and back.
    - Interfaces: [GetNetInterfaces], [GetInterfaces], [getEnv] of util.go,
      with the lines of [bufio.Scanner] and the texts of [net.IP]; app-netutil
      is the interface [NetUtil].  InterfacesTheorems has the properties of
      the latter two, AddressText those of the former and of [IP.String].
    - Pairing: [handleAddNetBatConfigMap], [getAvailableNetBatPairings].
      Config (Module util): config.go.
    - TGC (Module tgc): the controller.  The interfaces of util.go that
      protocol modules implement are the class [Protocols]; each handler of
      [StartTGC] is a definition ([AddProfile], [UpdatePairing], ...); a
      goroutine of [createNetBatTgenClients] is a [task]; [tgc.step]
      interleaves events and tasks.  TGCTheorems has the properties of the
      events, TGCRuns those of runs: what the store holds, and how the
      goroutines end.  Plan: the handlers cut where they wait, as lists of
      teardowns and code.
    - Streams: the modules [init] registers, the streams of TGen and the
      servers of TApp behind [Protocols], stores of both being the state of the
      modules; it obeys the laws TGCRuns asks of a module, and a process is run
      from its two ConfigMaps to its shutdown.  Leaks: the streams out of the
      controller's reach.
    - Pod (Module pod): the whole pod in one step relation, [pod.step]: the
      handlers by their plans, the goroutines that bring clients up, and those
      of every stream and every server.  PodProofs: a stream of a pod is a run
      of [stream.step], whatever happens beside it.  Handles: an operation
      touches the metrics of its own object only; PodHandles: in a pod no two
      objects have a metric in common.  PodEcho: so a server of a pod is a run
      of [tapp.step].  PodServers: the WaitGroups of the servers.  PodStop:
      teardowns, one after the other.  PodTheorems has the properties, PodDemo
      and PodEchoDemo a pod that comes up, echoes and stops.
    - Endpoint (Module endpoint): [RegisterPromHandler], with the listen
      address taken apart as package net does.
    - Main (Module main): main.go up to the start of the controller, and the
      wait for the informer in [StopTGC].  Process (Module process): the
      goroutines of the process from then on - the informer's, the one that
      waits for a signal, [main] - to its end.

    ** What is proved

    - End to end.  A stream and its server implement [echo], label by label,
      whatever the network does (system_refines_echo): only what was sent is
      echoed, only what was echoed is received, and each number is settled
      once.  Hence the books of the stream balance with nothing assumed of the
      network, and the server is never ahead of them (end_to_end_accounts).
    - A stream's accounts.  Every interleaving of the goroutines is a run of
      the request ledger (stream_refines_ledger); hence what is
      sent and not received or dropped is pending (packets_conserved), nothing
      is settled twice (settled_at_most_once), and the timeout handler drops
      what is late, all but the request numbered last (timeouts_swept).
    - A stream's dealings with the network: the bytes of a packet, the pacing,
      when a request may be dropped, what a reply does, the way of a request
      through the server and back (packets_on_the_wire, pacing, no_early_drop,
      reply_accounting, request_reply_settles), what happens to a stream
      whose redial fails (failed_redial_strands), and what a redial does to a
      teardown (redial_blocks_teardown).
    - A stream's set-up: what a teardown that comes during it, or after one
      that failed, does not do (teardown_during_setup_leaks,
      failed_registration_blocks_teardown).
    - The server: missing and late packets against sequence numbers, the gauge
      of active clients as an invariant of both loops, the sweep, exactly
      which datagrams panic, and what it means that a client is an IP address
      that is forgotten after a minute (missing_late_conservation,
      gauge_counts_clients, datagram_panics_iff, address_is_the_client).
    - Termination: a torn down server can always finish, in a bounded number
      of its own steps, and a stream while nobody replaces the connection that
      was closed ([teardown_completes], stream_teardown_completes); a process
      that has been sent a signal can end by the steps of [main] and of the
      goroutine it waits for (shutdown_completes).
    - The pod as a whole: streams do not get into one another's way, nor the
      controller into theirs (pod_streams_are_streams), nor any of them into
      that of a server, whose assumption that others leave its metrics alone
      is proved there (pod_servers_are_servers); a pod whose clients are up can
      stop, and leaves no goroutine and no socket behind
      (pod_stops); cutting the handlers at their waits is faithful to the
      handlers as single steps (handle_plan).
    - The controller: the two ConfigMaps may come in either order, an update
      restarts each client once (either_order_starts_clients,
      profile_update_restarts), and the events that crash it or lose clients
      (unregistered_profile_crashes, forgotten_client_runs_on).
    - Runs of the controller: no goroutine ever holds a dangling pointer
      (controller_well_typed), every pair gets a client that is set up and
      started exactly once, however the goroutines are scheduled
      (clients_come_up), and a change or a stop before that panics
      (early_change_panics).
    - The pod's interfaces: every PCI address of the environment ends up at an
      interface (pci_addresses_covered), the texts that panic the reader
      (GetInterfaces_panics_iff), what is read of the
      environment and of the kernel (environment_read, GetNetInterfaces_spec),
      and that the text of an address is read back as that address and
      classified by its family (IP_String_roundtrip).
    - Configuration: one pair per source whatever the random choice, and what
      a failed load leaves behind (one_pair_per_source,
      malformed_rate_silences).
    - Lemmas that are results of their own: each number is sent, failed or in
      the sender's hands ([sent_or_failed]), the cursor of the timeout handler
      stays behind what is pending ([cursor_behind_pending]), a reply read
      back ([reply_roundtrip]), the addresses [IsIPv4] and [IsIPv6] accept
      ([IsIP_classification]), the sweep of idle clients
      ([sweep_removes_idle_clients]), what a load leaves behind
      ([profile_loaded]), texts and events that panic ([malformed_line_panics],
      [bad_profile_then_update_panics]), a handler that waits for a stream
      ([pod_teardown_completes]), the interfaces of the annotations
      ([annotated_interfaces_kept]), when the endpoint is served
      ([endpoint_served]) and when [main] gets as far ([main_serves]).

    ** Granularity and bounds

    A step of a goroutine is a locked region, or the code between two accesses
    to what other goroutines share; the locked region of
    [SocketRead] (with the registration of the metrics inside it) and a call
    of [redialDestination] are one step each.  A handler of the controller,
    which holds the controller's lock, is one step of [tgc.step]; in Pod it is
    cut at its waits.  The set-up of a client is one step of the controller's
    goroutine there, and two in Pod and in TGenSetup, where its races are the
    subject.  A wait of a teardown that has no end is a panic in Streams: in
    both cases there is no next step.  In Pod [StopTGC] begins when no handler
    runs, that is, when the informer has stopped before the three seconds are
    over.  A read may fail at any time; what is proved of teardowns takes only
    the failures for granted whose socket has been closed ([unaided]).  In System the goroutines of the two
    ends interleave; a read takes any datagram that was ever written to the
    socket's peer.  The sender's increment of an exported counter and
    of the total beside it are separate steps, but a registration of the
    metrics is not split against them.  An unrecovered panic ends the process:
    the step relations have no step then, and theorems about panics are about
    the operations.  The clock, the network, name resolution, random numbers,
    the order of a map walk, configuration reloads and the metrics of others
    are arbitrary inputs of a step.  Sleeps bound nothing and are left out, and
    so is logging.

    Integers are 64-bit and wrap ([add64], [sub64], [mul64]).  The float64
    totals hold integers and round to 53 bits ([f64_add], [f64_rnd]): exact
    accounts are stated for totals up to 2^53, which at the default rate of
    500 packets a second takes half a million years.  [sizes_ok] (sizes below
    2^62) keeps buffer arithmetic from wrapping.  Digits of a number are
    produced with 20 turns, the digits of 2^64, hexadecimal ones of a group
    with 4, and an IPv6 text is read with eight turns, one per group.  The wait
    of [StopTGC] has 3 seconds and pauses of 0.6: [await_informer_bound] shows
    that 6 turns of fuel are enough.

    ** Parameters

    [Msgpack] and [MsgpackLaws] (the encoding of a message has a fixed size
    and is read back whatever follows it), [PromLib] and [PromLaws] (counters
    add, registration changes no value), [NetEnv] (resolving, dialling),
    [JsonSource] and [Yaml] (unmarshalling), gzip and base64 decoding, the
    result of the interface readers where the pairing parser uses it,
    [NetUtil] and [NetUtilLaws] (the annotation parsers, and that an unknown
    device type is neither host nor SR-IOV), and [Protocols] for the
    controller: [NoErrors], [reliable] and [FreshClients] say what a theorem
    asks of the modules, and Streams discharges [NoErrors] and [FreshClients].

    ** Not modelled

    - [closeFile] of util.go, which only logs, and the log lines everywhere.
    - The informer behind [StartTGC], which calls the handlers: events come in
      any order, while its goroutine is in [informer.Run].
    - What promhttp makes of a scrape, and errors of the endpoint after it has
      bound its port.
    - A registration of the metrics split against the sender's counters, and a
      [StopTGC] that no longer waits for a handler and runs beside it. *)

From stdpp Require Export base gmap strings list numbers fin_maps.
From Stdlib Require Export ZArith Lia.
From Stdlib Require Export Init.Byte Strings.Byte.

#[global] Open Scope Z_scope.

(** ** Outcomes of Go code

    A Go call ends in one of three ways that the rest of the program can tell
    apart: it returns a value, it returns a non-nil [error], or it panics (an
    index out of range, a nil dereference, a negative counter increment...).
    A panic that no [recover] stops ends the whole process. *)
Inductive outcome (A : Type) : Type :=
| Ok (a : A)
| Err (e : string)
| Panic (why : string).
Arguments Ok {A} a.
Arguments Err {A} e.
Arguments Panic {A} why.

Definition bind_outcome {A B} (m : outcome A) (f : A -> outcome B) : outcome B :=
  match m with
  | Ok a => f a
  | Err e => Err e
  | Panic w => Panic w
  end.

Declare Scope go_scope.
Delimit Scope go_scope with go.
Notation "'let*' p ':=' m 'in' k" := (bind_outcome m (fun p => k))
  (at level 10, p strict pattern, m at level 100, k at level 200) : go_scope.
#[global] Open Scope go_scope.

(** An option read as "the operation panics when there is no result". *)
Definition or_panic {A} (why : string) (o : option A) : outcome A :=
  match o with Some a => Ok a | None => Panic why end.

Definition is_panic {A} (m : outcome A) : bool :=
  match m with Panic _ => true | _ => false end.

Definition is_ok {A} (m : outcome A) : bool :=
  match m with Ok _ => true | _ => false end.

(** The value of a computation that succeeds, for concrete runs. *)
Definition ok_or {A} (d : A) (m : outcome A) : A :=
  match m with Ok a => a | _ => d end.

Lemma ok_or_eq {A} (d : A) (m : outcome A) : is_ok m = true -> m = Ok (ok_or d m).
Proof. by destruct m. Qed.

Lemma bind_outcome_Ok_inv {A B} (m : outcome A) (f : A -> outcome B) b :
  bind_outcome m f = Ok b -> exists a, m = Ok a /\ f a = Ok b.
Proof. destruct m; simpl; try done. eauto. Qed.

Lemma bind_outcome_assoc {A B C} (m : outcome A) (f : A -> outcome B) (g : B -> outcome C) :
  bind_outcome (bind_outcome m f) g = bind_outcome m (fun a => bind_outcome (f a) g).
Proof. by destruct m. Qed.

(** ** Stateful Go code

    A computation over a mutable state [S] that ends in an outcome; the state
    reached is kept on errors and panics too, since an error is handled by the
    caller and a panic may be recovered. *)
Definition ST (S A : Type) : Type := S -> outcome A * S.

Definition ret {S A} (a : A) : ST S A := fun s => (Ok a, s).
Definition fail {S A} (e : string) : ST S A := fun s => (Err e, s).
Definition panic {S A} (w : string) : ST S A := fun s => (Panic w, s).
Definition lift {S A} (m : outcome A) : ST S A := fun s => (m, s).
Definition gets {S A} (f : S -> A) : ST S A := fun s => (Ok (f s), s).
Definition modify {S} (f : S -> S) : ST S unit := fun s => (Ok tt, f s).

Definition bind {S A B} (m : ST S A) (f : A -> ST S B) : ST S B := fun s =>
  match m s with
  | (Ok a, s') => f a s'
  | (Err e, s') => (Err e, s')
  | (Panic w, s') => (Panic w, s')
  end.

Notation "'let!' p ':=' m 'in' k" := (bind m (fun p => k))
  (at level 10, p strict pattern, m at level 100, k at level 200) : go_scope.

(** [defer func() { if r := recover(); r != nil { err = r } }()] *)
Definition recover {S A} (m : ST S A) : ST S A := fun s =>
  match m s with
  | (Panic w, s') => (Err w, s')
  | r => r
  end.

Lemma bind_Ok {S A B} (m : ST S A) (f : A -> ST S B) s a s' :
  m s = (Ok a, s') -> bind m f s = f a s'.
Proof. unfold bind. by intros ->. Qed.

Lemma bind_Ok_inv {S A B} (m : ST S A) (f : A -> ST S B) s b s'' :
  bind m f s = (Ok b, s'') -> exists a s', m s = (Ok a, s') /\ f a s' = (Ok b, s'').
Proof. unfold bind. destruct (m s) as [[a|e|w] s']; try done. eauto. Qed.

(** Two computations that do the same in every state, for rewriting. *)
Definition same_run {S A} (m m' : ST S A) : Prop := forall s, m s = m' s.
Infix "≈" := same_run (at level 70, no associativity) : go_scope.

#[global] Instance same_run_equivalence {S A} : Equivalence (@same_run S A).
Proof. split; [by intros m s|by intros m m' E s|intros m1 m2 m3 E1 E2 s; by rewrite E1]. Qed.

#[global] Instance bind_proper {S A B} :
  Proper (same_run ==> pointwise_relation A same_run ==> same_run) (@bind S A B).
Proof.
  intros m m' Em f f' Ef s. unfold bind. rewrite Em. destruct (m' s) as [[a|e|w] s']; [apply Ef|done..].
Qed.

Lemma bind_assoc {S A B C} (m : ST S A) (f : A -> ST S B) (g : B -> ST S C) :
  (let! b := (let! a := m in f a) in g b) ≈ (let! a := m in let! b := f a in g b).
Proof. intros s. unfold bind. by destruct (m s) as [[]]. Qed.

Lemma bind_ret_l {S A B} (a : A) (f : A -> ST S B) : (let! x := ret a in f x) ≈ f a.
Proof. by intros s. Qed.

Lemma bind_ret_r {S} (m : ST S unit) : (let! _ := m in ret tt) ≈ m.
Proof. intros s. unfold bind. by destruct (m s) as [[[]| |]]. Qed.

(** ** Go slices

    A buffer made by [make([]byte, n)] has length and capacity [n]; the slice
    expression [s[lo:hi]] panics unless [0 <= lo <= hi <= cap(s)]. *)
Definition zlen {A} (l : list A) : Z := Z.of_nat (length l).

Definition slice {A} (s : list A) (lo hi : Z) : option (list A) :=
  if decide (0 <= lo <= hi /\ hi <= zlen s)
  then Some (take (Z.to_nat (hi - lo)) (drop (Z.to_nat lo) s))
  else None.

(** [copy(dst, src)]: overwrites the first [min(len dst, len src)] elements. *)
Definition go_copy {A} (dst src : list A) : list A :=
  take (length dst) src ++ drop (length src) dst.

(** [copy(dst[off:], src)], for an offset inside the buffer. *)
Definition go_copy_at {A} (dst : list A) (off : nat) (src : list A) : list A :=
  take off dst ++ go_copy (drop off dst) src.

Lemma zlen_nonneg {A} (l : list A) : 0 <= zlen l.
Proof. unfold zlen. lia. Qed.

Lemma length_go_copy {A} (dst src : list A) : length (go_copy dst src) = length dst.
Proof. unfold go_copy. rewrite length_app, length_take, length_drop. lia. Qed.

Lemma zlen_go_copy {A} (dst src : list A) : zlen (go_copy dst src) = zlen dst.
Proof. unfold zlen. by rewrite length_go_copy. Qed.

Lemma go_copy_fits {A} (dst src : list A) :
  (length src <= length dst)%nat -> go_copy dst src = src ++ drop (length src) dst.
Proof. intros H. unfold go_copy. by rewrite take_ge. Qed.

Lemma length_go_copy_at {A} (dst : list A) off src :
  length (go_copy_at dst off src) = length dst.
Proof.
  unfold go_copy_at. rewrite length_app, length_go_copy, length_take, length_drop. lia.
Qed.

Lemma slice_Some {A} (s : list A) lo hi :
  0 <= lo <= hi -> hi <= zlen s ->
  slice s lo hi = Some (take (Z.to_nat (hi - lo)) (drop (Z.to_nat lo) s)).
Proof. intros. unfold slice. by rewrite decide_True. Qed.

Lemma slice_None {A} (s : list A) lo hi :
  ~ (0 <= lo <= hi /\ hi <= zlen s) -> slice s lo hi = None.
Proof. intros. unfold slice. by rewrite decide_False. Qed.

Lemma slice_Some_inv {A} (s : list A) lo hi t :
  slice s lo hi = Some t -> 0 <= lo <= hi /\ hi <= zlen s /\ zlen t = hi - lo.
Proof.
  unfold slice. case_decide; [|done]. intros [= <-].
  unfold zlen in *. rewrite length_take, length_drop. lia.
Qed.

Lemma slice_prefix {A} (a b : list A) :
  slice (a ++ b) 0 (zlen a) = Some a.
Proof.
  rewrite slice_Some; unfold zlen in *; rewrite ?length_app; try lia.
  rewrite Z.sub_0_r, Nat2Z.id, drop_0. by rewrite take_app_length.
Qed.

(** A prefix that is cut out of a copy is what was copied. *)
Lemma slice_go_copy {A} (buf a b h : list A) :
  slice (go_copy buf (a ++ b)) 0 (zlen a) = Some h ->
  h = a /\ exists rest, go_copy buf (a ++ b) = a ++ rest.
Proof.
  intros Hs. pose proof (slice_Some_inv _ _ _ _ Hs) as (_ & Hle & _).
  rewrite zlen_go_copy in Hle. unfold zlen in Hle.
  assert (exists rest, go_copy buf (a ++ b) = a ++ rest) as [rest E].
  { unfold go_copy. rewrite take_app_ge by lia. rewrite <- app_assoc. by eexists. }
  split; [|by exists rest]. rewrite E, slice_prefix in Hs. by injection Hs as <-.
Qed.

Lemma slice_middle {A} (a b c : list A) :
  slice (a ++ b ++ c) (zlen a) (zlen a + zlen b) = Some b.
Proof.
  rewrite slice_Some; unfold zlen in *; rewrite ?length_app; try lia.
  replace (Z.to_nat (Z.of_nat (length a) + Z.of_nat (length b) - Z.of_nat (length a)))
    with (length b) by lia.
  rewrite Nat2Z.id, drop_app_length. by rewrite take_app_length.
Qed.

(** ** Sequences of steps *)
Section Steps.
Context {S L : Type} (R : S -> L -> S -> Prop).

(** Finite runs with the list of their labels, oldest first. *)
Inductive steps : S -> list L -> S -> Prop :=
| steps_nil s : steps s [] s
| steps_cons s l s' ls s'' : R s l s' -> steps s' ls s'' -> steps s (l :: ls) s''.

Lemma steps_one s l s' : R s l s' -> steps s [l] s'.
Proof. intros. eapply steps_cons; [done|constructor]. Qed.

Lemma steps_app s l1 s' l2 s'' : steps s l1 s' -> steps s' l2 s'' -> steps s (l1 ++ l2) s''.
Proof. induction 1; simpl; [done|]. intros. econstructor; eauto. Qed.

Lemma steps_snoc s ls s' l s'' : steps s ls s' -> R s' l s'' -> steps s (ls ++ [l]) s''.
Proof. intros. eapply steps_app; [done|]. by apply steps_one. Qed.

(** Induction on runs from their end: what safety invariants need. *)
Lemma steps_ind_r (s0 : S) (P : list L -> S -> Prop) :
  P [] s0 ->
  (forall ls s l s', steps s0 ls s -> P ls s -> R s l s' -> P (ls ++ [l]) s') ->
  forall ls s, steps s0 ls s -> P ls s.
Proof.
  intros H0 HS.
  assert (forall ls s pre s1, steps s1 ls s -> steps s0 pre s1 -> P pre s1 -> P (pre ++ ls) s)
    as Hgen.
  { intros ls s pre s1 H. revert pre. induction H as [|s l s' ls s'' HR Hst IH]; intros pre Hpre HP.
    - by rewrite app_nil_r.
    - replace (pre ++ l :: ls) with ((pre ++ [l]) ++ ls) by (rewrite <- app_assoc; done).
      apply IH; [by eapply steps_snoc|by eapply HS]. }
  intros ls s H. apply (Hgen ls s [] s0 H); [constructor|done].
Qed.

(** An invariant of the initial state preserved by each step holds at every reachable state. *)
Lemma steps_invariant (I : S -> Prop) s0 :
  I s0 -> (forall s l s', I s -> R s l s' -> I s') ->
  forall ls s, steps s0 ls s -> I s.
Proof. intros H0 HS ls s H. induction H; eauto. Qed.

Definition reachable (s0 s : S) : Prop := exists ls, steps s0 ls s.

(** Whatever is done next, [P] comes about: each run that cannot be prolonged
    passes through a state, reached with labels [ls], where it holds. *)
Inductive inevitable (P : list L -> S -> Prop) : list L -> S -> Prop :=
| inevitable_now ls s : P ls s -> inevitable P ls s
| inevitable_step ls s :
    (exists l s', R s l s') -> (forall l s', R s l s' -> inevitable P (ls ++ [l]) s') ->
    inevitable P ls s.

(** A measure that every step lowers, until [P] holds, in states that keep an
    invariant and are not stuck before. *)
Lemma inevitable_until (P I : list L -> S -> Prop) (m : S -> nat) :
  (forall ls s, I ls s -> P ls s \/
     (exists l s', R s l s') /\ forall l s', R s l s' -> I (ls ++ [l]) s' /\ (m s' < m s)%nat) ->
  forall ls s, I ls s -> inevitable P ls s.
Proof.
  intros Hp ls s. remember (m s) as n eqn:En. revert ls s En.
  induction n as [n IH] using lt_wf_ind. intros ls s -> Hi.
  destruct (Hp ls s Hi) as [HP|[Hex Hs]]; [by apply inevitable_now|]. apply inevitable_step; [done|].
  intros l s' HR. destruct (Hs _ _ HR) as [Hi' Hlt]. by eapply (IH (m s')).
Qed.

Lemma inevitable_measure (P I : list L -> S -> Prop) (m : S -> nat) :
  (forall ls s, I ls s -> P ls s \/ exists l s', R s l s') ->
  (forall ls s l s', I ls s -> R s l s' -> I (ls ++ [l]) s' /\ (m s' < m s)%nat) ->
  forall ls s, I ls s -> inevitable P ls s.
Proof.
  intros Hp Hs. apply (inevitable_until P I m). intros ls s Hi.
  destruct (Hp ls s Hi) as [HP|Hex]; [by left|right]. eauto.
Qed.
End Steps.

Lemma steps_sub {S L} (R R' : S -> L -> S -> Prop) s ls s' :
  (forall s l s', R s l s' -> R' s l s') -> steps R s ls s' -> steps R' s ls s'.
Proof. intros Hsub. induction 1; econstructor; eauto. Qed.

(** Closes [x ∉ l] for a concrete list of other constructors. *)
Ltac absent :=
  let H := fresh "Hin" in
  intros H; repeat (apply elem_of_cons in H as [H|H]; [discriminate H|]); by apply not_elem_of_nil in H.

Create HintDb gobat discriminated.
#[export] Hint Resolve zlen_nonneg : gobat.
Create Rewrite HintDb gobat.
#[export] Hint Rewrite @length_go_copy @zlen_go_copy @length_go_copy_at : gobat.
