(* ===== verification/GoInt.v ===== *)
(** * Machine integers, float64 counters and the time helpers of pkg/util

    Go's [int] and [int64] are two's-complement 64-bit integers on the targets
    the program is built for: values are [Z] and every operation wraps.  The
    float64 fields of the program (metric values) only ever hold integers, so
    a float64 is the integer it holds, with IEEE rounding to 53 significant
    bits written out. *)
From S2P Require Import Prelude.
From Stdlib Require Import Floats.SpecFloat.

(** ** int64 *)
Definition wrap64 (z : Z) : Z := (z + 2 ^ 63) `mod` 2 ^ 64 - 2 ^ 63.
Definition in64 (z : Z) : Prop := - 2 ^ 63 <= z < 2 ^ 63.

Definition add64 (a b : Z) : Z := wrap64 (a + b).
Definition sub64 (a b : Z) : Z := wrap64 (a - b).
Definition mul64 (a b : Z) : Z := wrap64 (a * b).
(** Integer division truncates towards zero and panics on a zero divisor. *)
Definition div64 (a b : Z) : outcome Z :=
  if decide (b = 0) then Panic "integer divide by zero" else Ok (wrap64 (Z.quot a b)).

#[global] Instance in64_dec z : Decision (in64 z).
Proof. unfold in64. apply _. Defined.

Lemma wrap64_range z : in64 (wrap64 z).
Proof. unfold wrap64, in64. pose proof (Z.mod_pos_bound (z + 2 ^ 63) (2 ^ 64)). lia. Qed.

Lemma wrap64_id z : in64 z -> wrap64 z = z.
Proof. unfold wrap64, in64. intros. rewrite Z.mod_small; lia. Qed.

Lemma wrap64_id_iff z : wrap64 z = z <-> in64 z.
Proof. split; [intros <-; apply wrap64_range|apply wrap64_id]. Qed.

Lemma div64_pos a b : in64 a -> 0 <= a -> 0 < b -> div64 a b = Ok (a / b).
Proof.
  intros Ha Ha' Hb. unfold div64. rewrite decide_False by lia.
  rewrite Z.quot_div_nonneg by lia. rewrite wrap64_id; [done|].
  unfold in64 in *. pose proof (Z.div_pos a b). pose proof (Z.div_le_upper_bound a b a). nia.
Qed.

(** ** float64 values that hold integers *)

(** Round to nearest, ties to even, keeping 53 significant bits. *)
Definition f64_rnd (z : Z) : Z :=
  let a := Z.abs z in
  let u := 2 ^ Z.max 0 (Z.log2 a - 52) in
  let q := a / u in
  let r := a `mod` u in
  let q' := if 2 * r <? u then q
            else if u <? 2 * r then q + 1
            else if Z.even q then q else q + 1 in
  Z.sgn z * (q' * u).

Definition f64_add (x y : Z) : Z := f64_rnd (x + y).

(** The integers a float64 holds exactly. *)
Definition f64_exact (z : Z) : Prop := Z.abs z <= 2 ^ 53.

Lemma f64_rnd_id z : f64_exact z -> f64_rnd z = z.
Proof.
  unfold f64_exact, f64_rnd. intros H.
  destruct (decide (Z.abs z = 2 ^ 53)) as [E|Hne].
  { destruct (decide (z = 2 ^ 53)) as [->|]; [done|]. by replace z with (- 2 ^ 53) by lia. }
  assert (Z.log2 (Z.abs z) <= 52) as Hl.
  { destruct (decide (z = 0)) as [->|]; [by vm_compute|].
    apply Z.lt_succ_r, Z.log2_lt_pow2; change (2 ^ Z.succ 52) with (2 ^ 53); lia. }
  rewrite Z.max_l by lia. rewrite Z.pow_0_r, Z.mod_1_r, Z.div_1_r, !Z.mul_0_r.
  change (0 <? 1) with true; cbv iota. rewrite Z.mul_1_r, Z.mul_comm. apply Z.abs_sgn.
Qed.

Lemma f64_rnd_nonneg z : 0 <= z -> 0 <= f64_rnd z.
Proof.
  intros Hz. unfold f64_rnd. set (u := 2 ^ _).
  assert (0 < u) by (subst u; apply Z.pow_pos_nonneg; lia).
  assert (0 <= Z.abs z / u) by (apply Z.div_pos; lia).
  repeat case_match; nia.
Qed.

Lemma f64_add_exact x y : f64_exact (x + y) -> f64_add x y = x + y.
Proof. apply f64_rnd_id. Qed.

(** The same rounding, by the Standard Library's float specification. *)
Definition sf_of_Z (z : Z) : spec_float := binary_normalize 53 1024 z 0 false.

Example f64_rnd_agrees :
  forallb (fun z => SFeqb (sf_of_Z (f64_rnd z)) (sf_of_Z z))
    [0; 1; -1; 2^53 - 1; 2^53; 2^53 + 1; 2^53 + 2; 2^53 + 3; 2^54 + 2; 2^54 + 6;
     - (2^60 + 129); 2^63 - 1; 2^63 - 513; 123456789012345678901] = true.
Proof. vm_compute. reflexivity. Qed.

(** ** Time helpers (pkg/util/util.go) *)

(** [time.Now().UnixNano() / int64(time.Microsecond)]: the wall clock, read as
    nanoseconds by the caller of the model. *)
Definition GetTimestampMicroSec (unixNano : Z) : Z := wrap64 (Z.quot unixNano 1000).

(** [sec * int(time.Second) / int(time.Microsecond)], in machine arithmetic. *)
Definition SecToMicroSec (sec : Z) : Z := wrap64 (Z.quot (mul64 sec 1000000000) 1000).

(** [time.Duration(msec) * time.Microsecond], a number of nanoseconds. *)
Definition MicroSecToDuration (msec : Z) : Z := mul64 msec 1000.

(** ** Durations computed in float64

    [int64((num / float64(den)) * float64(time.Second))]: the quotient and the
    product are rounded as IEEE prescribes, the conversion truncates.  None
    stands for the infinities, whose conversion Go leaves to the machine. *)
Definition sf_div (x y : spec_float) : spec_float := SFdiv 53 1024 x y.
Definition sf_mul (x y : spec_float) : spec_float := SFmul 53 1024 x y.

Definition sf_trunc (f : spec_float) : option Z :=
  match f with
  | S754_zero _ => Some 0
  | S754_finite s m e =>
      let a := if 0 <=? e then Z.pos m * 2 ^ e else Z.pos m / 2 ^ (- e) in
      Some (if s then - a else a)
  | _ => None
  end.

Definition float_seconds (num : spec_float) (den : Z) : option Z :=
  sf_trunc (sf_mul (sf_div num (sf_of_Z den)) (sf_of_Z 1000000000)).

(** The largest number of seconds [SecToMicroSec] converts exactly. *)
Definition maxSec : Z := 9223372036.

Lemma mul64_small a b : in64 (a * b) -> mul64 a b = a * b.
Proof. apply wrap64_id. Qed.

Lemma SecToMicroSec_small sec : - maxSec <= sec <= maxSec -> SecToMicroSec sec = sec * 1000000.
Proof.
  unfold SecToMicroSec, maxSec. intros H.
  rewrite mul64_small by (unfold in64; lia).
  replace (sec * 1000000000) with (sec * 1000000 * 1000) by lia.
  rewrite Z.quot_mul by lia. apply wrap64_id. unfold in64. lia.
Qed.
