(* ===== verification/Strconv.v ===== *)
(** * Package strconv, as the configuration code uses it

    [Itoa], [Atoi] and [ParseBool] of the Standard Library of Go 1.15, on
    byte strings. *)
From S2P Require Import Prelude GoInt.
From Stdlib Require Import Ascii.
#[local] Open Scope Z_scope.

Definition ascii_code (c : ascii) : Z := Z.of_N (N_of_ascii c).
Definition ascii_digit (d : Z) : ascii := ascii_of_N (Z.to_N (48 + d)).
Definition is_digit (c : ascii) : bool := (48 <=? ascii_code c) && (ascii_code c <=? 57).

(** Decimal digits, most significant first, in front of [acc].  Twenty turns
    cover every 64-bit magnitude. *)
Fixpoint utoa (fuel : nat) (n : Z) (acc : list ascii) : list ascii :=
  match fuel with
  | O => acc
  | S fuel => if n <? 10 then ascii_digit n :: acc
              else utoa fuel (n / 10) (ascii_digit (n `mod` 10) :: acc)
  end.

Definition Itoa (z : Z) : string :=
  String.string_of_list_ascii
    (if z <? 0 then "-"%char :: utoa 20 (- z) [] else utoa 20 z []).

(** The digit loop of [Atoi] and [ParseUint]; None is their syntax error. *)
Fixpoint digits (s : list ascii) (n : Z) : option Z :=
  match s with
  | [] => Some n
  | c :: s => if is_digit c then digits s (n * 10 + (ascii_code c - 48)) else None
  end.

(** Syntax and range errors are one [None]: the callers only test the error. *)
Definition Atoi (s : string) : option Z :=
  let l := String.list_ascii_of_string s in
  let '(neg, ds) := match l with
                    | "-"%char :: ds => (true, ds)
                    | "+"%char :: ds => (false, ds)
                    | _ => (false, l)
                    end in
  match ds with
  | [] => None
  | _ => match digits ds 0 with
         | None => None
         | Some n => let n := if (neg : bool) then - n else n in
                     if decide (in64 n) then Some n else None
         end
  end.

Definition ParseBool (str : string) : option bool :=
  if decide (str ∈ ["1"; "t"; "T"; "true"; "TRUE"; "True"]) then Some true
  else if decide (str ∈ ["0"; "f"; "F"; "false"; "FALSE"; "False"]) then Some false
  else None.

Example Atoi_examples :
  Atoi "500" = Some 500 /\ Atoi "-1" = Some (-1) /\ Atoi "+7" = Some 7 /\
  Atoi "9223372036854775807" = Some (2 ^ 63 - 1) /\ Atoi "9223372036854775808" = None /\
  Atoi "-9223372036854775808" = Some (- 2 ^ 63) /\
  Atoi "" = None /\ Atoi "-" = None /\ Atoi "5 " = None /\ Atoi "0x10" = None /\ Atoi "1_000" = None.
Proof. vm_compute. repeat split. Qed.

(** ** Round trip *)

Lemma ascii_code_digit d : 0 <= d < 10 -> ascii_code (ascii_digit d) = 48 + d.
Proof.
  intros Hd. unfold ascii_code, ascii_digit. rewrite N_ascii_embedding by lia. lia.
Qed.

Lemma is_digit_digit d : 0 <= d < 10 -> is_digit (ascii_digit d) = true.
Proof. intros Hd. unfold is_digit. rewrite ascii_code_digit by done. lia. Qed.

Lemma digits_utoa fuel n acc m :
  0 <= n < 10 ^ Z.of_nat fuel ->
  digits (utoa fuel n acc) m = digits acc (m * 10 ^ Z.of_nat (length (utoa fuel n acc) - length acc) + n)
  /\ (length acc <= length (utoa fuel n acc))%nat.
Proof.
  revert n acc. induction fuel as [|fuel IH]; intros n acc Hn; simpl.
  - rewrite Nat.sub_diag. simpl. split; [f_equal; lia|lia].
  - destruct (n <? 10) eqn:E.
    + simpl. rewrite is_digit_digit, ascii_code_digit by lia.
      replace (S (length acc) - length acc)%nat with 1%nat by lia.
      split; [f_equal; lia|lia].
    + rewrite Nat2Z.inj_succ, Z.pow_succ_r in Hn by lia.
      destruct (IH (n / 10) (ascii_digit (n `mod` 10) :: acc)) as [IH1 IH2].
      { split; [apply Z.div_pos; lia|]. apply Z.div_lt_upper_bound; lia. }
      pose proof (Z.mod_pos_bound n 10). simpl in IH2. rewrite IH1. simpl.
      rewrite is_digit_digit, ascii_code_digit by lia. split; [|lia].
      set (L := length (utoa _ _ _)) in *.
      replace (L - length acc)%nat with (S (L - S (length acc)))%nat by lia.
      rewrite Nat2Z.inj_succ, Z.pow_succ_r by lia. f_equal.
      pose proof (Z.div_mod n 10). lia.
Qed.

Lemma utoa_nonempty fuel n : (0 < fuel)%nat -> 0 <= n -> exists c l,
  utoa fuel n [] = c :: l /\ is_digit c = true.
Proof.
  assert (forall fuel n acc, 0 <= n -> (exists c l, acc = c :: l /\ is_digit c = true) ->
    exists c l, utoa fuel n acc = c :: l /\ is_digit c = true) as Hgen.
  { clear. induction fuel as [|fuel IH]; intros n acc Hn Hacc; simpl; [done|].
    destruct (n <? 10) eqn:E.
    - do 2 eexists. split; [done|]. apply is_digit_digit. lia.
    - apply IH; [apply Z.div_pos; lia|]. do 2 eexists. split; [done|].
      apply is_digit_digit. apply Z.mod_pos_bound. lia. }
  intros Hf Hn. destruct fuel as [|fuel]; [lia|]. simpl. destruct (n <? 10) eqn:E.
  - do 2 eexists. split; [done|]. apply is_digit_digit. lia.
  - apply Hgen; [apply Z.div_pos; lia|]. do 2 eexists. split; [done|].
    apply is_digit_digit. apply Z.mod_pos_bound. lia.
Qed.

(** What is read fits in 64 bits. *)
Lemma Atoi_in64 s z : Atoi s = Some z -> in64 z.
Proof.
  unfold Atoi. repeat case_match; try done; intros [= <-]; done.
Qed.

Lemma Atoi_digits neg ds c n :
  is_digit c = true -> digits (c :: ds) 0 = Some n ->
  Atoi (String.string_of_list_ascii (if (neg : bool) then "-"%char :: c :: ds else c :: ds)) =
  (let n := if neg then - n else n in if decide (in64 n) then Some n else None).
Proof.
  intros Hc Hd. unfold Atoi. rewrite String.list_ascii_of_string_of_list_ascii.
  destruct neg.
  - by rewrite Hd.
  - assert ((match c :: ds with
             | "-"%char :: ds0 => (true, ds0) | "+"%char :: ds0 => (false, ds0)
             | _ => (false, c :: ds) end) = (false, c :: ds)) as ->.
    { by destruct c as [[] [] [] [] [] [] [] []]. }
    by rewrite Hd.
Qed.

(** [strconv.Atoi] reads back what [strconv.Itoa] writes. *)
Lemma Atoi_Itoa z : in64 z -> Atoi (Itoa z) = Some z.
Proof.
  intros Hz.
  assert (forall n, 0 <= n <= 2 ^ 63 -> exists c ds,
    utoa 20 n [] = c :: ds /\ is_digit c = true /\ digits (c :: ds) 0 = Some n) as Hu.
  { intros n Hn. destruct (utoa_nonempty 20 n) as (c & ds & E & Hc); [lia..|].
    exists c, ds. split; [done|]. split; [done|]. rewrite <- E.
    rewrite (proj1 (digits_utoa 20 n [] 0 ltac:(simpl; lia))). done. }
  unfold Itoa, in64 in *. destruct (z <? 0) eqn:E.
  - destruct (Hu (- z)) as (c & ds & -> & Hc & Hd); [lia|].
    rewrite (Atoi_digits true ds c (- z)) by done. simpl.
    rewrite Z.opp_involutive. by rewrite decide_True.
  - destruct (Hu z) as (c & ds & -> & Hc & Hd); [lia|].
    rewrite (Atoi_digits false ds c z) by done. simpl. by rewrite decide_True.
Qed.

(** The text of a number holds digits and a sign. *)
Lemma utoa_all_digits fuel n acc :
  0 <= n -> Forall (fun c => is_digit c = true) acc -> Forall (fun c => is_digit c = true) (utoa fuel n acc).
Proof.
  revert n acc. induction fuel as [|fuel IH]; intros n acc Hn Ha; simpl; [done|].
  destruct (Z.ltb_spec n 10).
  - constructor; [apply is_digit_digit; lia|done].
  - pose proof (Z.mod_pos_bound n 10). pose proof (Z.div_pos n 10).
    apply IH; [lia|]. constructor; [apply is_digit_digit; lia|done].
Qed.

Lemma Itoa_no_char c z :
  is_digit c = false -> c <> "-"%char -> c ∉ String.list_ascii_of_string (Itoa z).
Proof.
  intros Hd Hc Hin. unfold Itoa in Hin. rewrite String.list_ascii_of_string_of_list_ascii in Hin.
  assert (forall n, 0 <= n -> c ∉ utoa 20 n []) as Hu.
  { intros n Hn Hi. pose proof (utoa_all_digits 20 n [] Hn (Forall_nil_2 _)) as Hf.
    rewrite Forall_forall in Hf. specialize (Hf c Hi). congruence. }
  destruct (Z.ltb_spec z 0); [apply elem_of_cons in Hin as [|Hin]; [done|]|]; eapply Hu; [|exact Hin| |exact Hin]; lia.
Qed.
