(* ===== verification/GoStrings.v ===== *)
(** * Package strings, as the program uses it

    Byte strings; case folding and white space are those of ASCII. *)
From S2P Require Import Prelude GoInt Strconv.
From Stdlib Require Import Ascii.
#[local] Open Scope Z_scope.

Definition chars (s : string) : list ascii := String.list_ascii_of_string s.
Definition str (l : list ascii) : string := String.string_of_list_ascii l.

Definition lower_char (c : ascii) : ascii :=
  let n := ascii_code c in
  if (65 <=? n) && (n <=? 90) then ascii_of_N (Z.to_N (n + 32)) else c.

Definition ToLower (s : string) : string := str (lower_char <$> chars s).
Definition EqualFold (s t : string) : bool := bool_decide (lower_char <$> chars s = lower_char <$> chars t).

(** [p] starts [l]. *)
Fixpoint prefix_of (p l : list ascii) : bool :=
  match p, l with
  | [], _ => true
  | c :: p, d :: l => bool_decide (c = d) && prefix_of p l
  | _ :: _, [] => false
  end.

Definition HasPrefix (s prefix : string) : bool := prefix_of (chars prefix) (chars s).

Fixpoint contains (l sub : list ascii) : bool :=
  prefix_of sub l || match l with [] => false | _ :: l => contains l sub end.

Definition Contains (s sub : string) : bool := contains (chars s) (chars sub).

Fixpoint drop_while (f : ascii -> bool) (l : list ascii) : list ascii :=
  match l with
  | [] => []
  | c :: l' => if f c then drop_while f l' else l
  end.

Definition trim_both (f : ascii -> bool) (l : list ascii) : list ascii :=
  reverse (drop_while f (reverse (drop_while f l))).

Definition is_space (c : ascii) : bool :=
  let n := ascii_code c in ((9 <=? n) && (n <=? 13)) || (n =? 32).
Definition in_cutset (cutset : string) (c : ascii) : bool := bool_decide (c ∈ chars cutset).

Definition TrimSpace (s : string) : string := str (trim_both is_space (chars s)).
Definition TrimLeft (s cutset : string) : string := str (drop_while (in_cutset cutset) (chars s)).
Definition Trim (s cutset : string) : string := str (trim_both (in_cutset cutset) (chars s)).

(** Separators are found from the left and do not overlap; [skip] characters
    of one are still to be passed over. *)
Fixpoint split_chars (sep l cur : list ascii) (skip : nat) : list (list ascii) :=
  match l with
  | [] => [reverse cur]
  | c :: l' =>
      match skip with
      | S k => split_chars sep l' cur k
      | O => if prefix_of sep l then reverse cur :: split_chars sep l' [] (length sep - 1)
             else split_chars sep l' (c :: cur) 0
      end
  end.

(** [strings.Split], for a separator that is not empty. *)
Definition Split (s sep : string) : list string := str <$> split_chars (chars sep) (chars s) [] 0.

(** [strings.ReplaceAll], of one character by another. *)
Definition replace_char (old new : ascii) (s : string) : string :=
  str ((fun c => if decide (c = old) then new else c) <$> chars s).

Definition dquote : ascii := "034"%char.
Definition squote : ascii := "'"%char.

Example split_examples :
  Split "a,b,,c" "," = ["a"; "b"; ""; "c"] /\ Split "" "," = [""] /\ Split "x--y" "--" = ["x"; "y"] /\
  Split "---" "--" = [""; "-"] /\ TrimSpace "  a b " = "a b" /\ Trim "xxaxbx" "x" = "axb" /\
  TrimLeft "xxax" "x" = "ax".
Proof. vm_compute. repeat split. Qed.

Lemma split_chars_nonempty sep l cur skip : split_chars sep l cur skip <> [].
Proof.
  revert cur skip. induction l as [|c l IH]; intros cur skip; simpl; [done|].
  destruct skip; [|apply IH]. case_match; [done|apply IH].
Qed.

Lemma Split_nonempty s sep : Split s sep <> [].
Proof. unfold Split. intros E%fmap_nil_inv. by apply split_chars_nonempty in E. Qed.

Example strings_examples :
  ToLower "E-W Pod-ClusterIP Service" = "e-w pod-clusterip service" /\
  Contains "e-w pod-clusterip service" "service" = true /\
  Contains "primary network" "service" = false /\ Contains "x" "" = true /\
  HasPrefix "tgen-tapp-c-deployment-abc" "tgen-tapp-c" = true /\ EqualFold "PoD" "pod" = true.
Proof. vm_compute. repeat split. Qed.

(** ** Splitting *)

Lemma chars_str l : chars (str l) = l.
Proof. apply String.list_ascii_of_string_of_list_ascii. Qed.
Lemma str_chars s : str (chars s) = s.
Proof. apply String.string_of_list_ascii_of_string. Qed.

(** By one character. *)
Lemma split_chars_none c l cur : c ∉ l -> split_chars [c] l cur 0 = [reverse cur ++ l].
Proof.
  revert cur. induction l as [|d l IH]; intros cur Hn; simpl; [by rewrite app_nil_r|].
  apply not_elem_of_cons in Hn as [Hd Hn]. rewrite bool_decide_eq_false_2 by done. simpl.
  rewrite IH by done. by rewrite reverse_cons, <- app_assoc.
Qed.

Lemma split_chars_at c x y cur :
  c ∉ x -> split_chars [c] (x ++ c :: y) cur 0 = (reverse cur ++ x) :: split_chars [c] y [] 0.
Proof.
  revert cur. induction x as [|d x IH]; intros cur Hn; simpl.
  - rewrite bool_decide_eq_true_2 by done. simpl. by rewrite app_nil_r.
  - apply not_elem_of_cons in Hn as [Hd Hn]. rewrite bool_decide_eq_false_2 by done. simpl.
    rewrite IH by done. by rewrite reverse_cons, <- app_assoc.
Qed.

Lemma prefix_of_elem sep l : prefix_of sep l = true -> Forall (fun c => c ∈ sep) (take (length sep) l).
Proof.
  revert l. induction sep as [|c sep IH]; intros [|d l] Hp; simpl in *; [done..|].
  apply andb_true_iff in Hp as [Hc%bool_decide_eq_true Hp]. subst d. constructor; [set_solver|].
  eapply Forall_impl; [by apply IH|]. set_solver.
Qed.

(** What is left when the separators are taken out keeps the other characters. *)
Lemma split_chars_keeps (c : ascii) sep l cur skip :
  sep <> [] -> c ∉ sep -> Forall (fun d => d ∈ sep) (take skip l) ->
  filter (fun d => d = c) (concat (split_chars sep l cur skip)) =
  filter (fun d => d = c) (reverse cur) ++ filter (fun d => d = c) l.
Proof.
  intros Hne Hc. revert cur skip. induction l as [|d l IH]; intros cur skip Hs; simpl.
  - by rewrite filter_nil, !app_nil_r.
  - destruct skip as [|k]; simpl in Hs.
    + case_match eqn:Hp.
      * assert (d ∈ sep) as Hd by (destruct sep as [|e sep]; [done|]; simpl in Hp;
          apply andb_true_iff in Hp as [He%bool_decide_eq_true _]; set_solver).
        assert (d <> c) by congruence. apply prefix_of_elem in Hp.
        rewrite filter_cons_False by done. simpl. rewrite filter_app, IH; [by rewrite reverse_nil|].
        destruct sep as [|e sep]; [by apply not_elem_of_nil in Hd|]. simpl in *.
        rewrite Nat.sub_0_r. by apply Forall_cons in Hp as [_ Hp].
      * rewrite IH by done. rewrite reverse_cons, filter_app, <- app_assoc. f_equal.
        by rewrite (filter_cons _ d l), (filter_cons _ d []); case_decide.
    + apply Forall_cons in Hs as [Hd Hs]. rewrite IH by done.
      rewrite filter_cons_False; [done|]. congruence.
Qed.
