(* ===== verification/Message.v ===== *)
(** * Messages on the wire (pkg/util/util.go)

    The data exchanged by the traffic generator and the traffic terminator,
    and the interface to the msgpack library that encodes it.  msgpack is not
    part of the repository: [Msgpack] is its interface and [MsgpackLaws] what
    the program relies on (a value is read back from its encoding, whatever
    follows it; the encoding of a [Message] has a fixed size, which is what
    [GetMessageHeaderLength] measures once and both sides slice at). *)
From S2P Require Import Prelude GoInt.

(** ** Data *)
Record Message := mkMessage {
  SequenceNumber : Z;
  SendTimeStamp : Z;
  RespondTimeStamp : Z;
  ServerInfoLength : Z;
  Length : Z
}.

Record PodInfo := mkPodInfo {
  pod_Namespace : string;
  pod_Name : string;
  pod_WorkerName : string
}.

Record Server := mkServer {
  srv_PodInfo : PodInfo;
  srv_IPAddress : string;
  srv_Port : Z
}.

#[global] Instance Message_eq_dec : EqDecision Message.
Proof. solve_decision. Defined.
#[global] Instance PodInfo_eq_dec : EqDecision PodInfo.
Proof. solve_decision. Defined.

(** The zero value of the struct, what [var msg util.Message] declares. *)
Definition zero_Message : Message := mkMessage 0 0 0 0 0.
Definition zero_PodInfo : PodInfo := mkPodInfo "" "" "".

(** Every field of a Go [Message] is an [int64] or an [int]. *)
Definition msg_ok (m : Message) : Prop :=
  in64 (SequenceNumber m) /\ in64 (SendTimeStamp m) /\ in64 (RespondTimeStamp m) /\
  in64 (ServerInfoLength m) /\ in64 (Length m).

Definition set_SequenceNumber (v : Z) (m : Message) : Message :=
  mkMessage v (SendTimeStamp m) (RespondTimeStamp m) (ServerInfoLength m) (Length m).
Definition set_SendTimeStamp (v : Z) (m : Message) : Message :=
  mkMessage (SequenceNumber m) v (RespondTimeStamp m) (ServerInfoLength m) (Length m).
Definition set_RespondTimeStamp (v : Z) (m : Message) : Message :=
  mkMessage (SequenceNumber m) (SendTimeStamp m) v (ServerInfoLength m) (Length m).
Definition set_ServerInfoLength (v : Z) (m : Message) : Message :=
  mkMessage (SequenceNumber m) (SendTimeStamp m) (RespondTimeStamp m) v (Length m).
Definition set_Length (v : Z) (m : Message) : Message :=
  mkMessage (SequenceNumber m) (SendTimeStamp m) (RespondTimeStamp m) (ServerInfoLength m) v.

(** ** The msgpack library

    [Unmarshal] fills the value it is given and returns an error or not: it
    is a pair of the value after the call and the error flag, because the
    program looks at fields before it looks at the error. *)
Class Msgpack := {
  marshal_Message : Message -> option (list byte);
  unmarshal_Message : list byte -> Message * bool;
  marshal_PodInfo : PodInfo -> option (list byte);
  unmarshal_PodInfo : list byte -> PodInfo * bool
}.

Class MsgpackLaws `{Msgpack} : Prop := {
  marshal_Message_total m : msg_ok m -> is_Some (marshal_Message m);
  marshal_Message_fixed m1 m2 b1 b2 :
    msg_ok m1 -> msg_ok m2 ->
    marshal_Message m1 = Some b1 -> marshal_Message m2 = Some b2 -> length b1 = length b2;
  marshal_Message_nonempty m b : marshal_Message m = Some b -> b <> [];
  unmarshal_marshal_Message m b rest :
    msg_ok m -> marshal_Message m = Some b -> unmarshal_Message (b ++ rest) = (m, false);
  unmarshal_Message_ok b : msg_ok (unmarshal_Message b).1;
  marshal_PodInfo_total i : is_Some (marshal_PodInfo i);
  unmarshal_marshal_PodInfo i b rest :
    marshal_PodInfo i = Some b -> unmarshal_PodInfo (b ++ rest) = (i, false)
}.

(** ** Operations *)
Definition NewMessage (sequence sendTimeStamp packetSize : Z) : Message :=
  mkMessage sequence sendTimeStamp 0 0 packetSize.

(** [make([]byte, payloadSize)] panics on a negative size. *)
Definition GetPaddingPayload (payloadSize : Z) : outcome (list byte) :=
  if decide (payloadSize < 0) then Panic "makeslice: len out of range"
  else Ok (replicate (Z.to_nat payloadSize) Byte.xff).

Definition GetMessageHeaderLength `{Msgpack} : outcome Z :=
  match marshal_Message zero_Message with
  | None => Err "marshal"
  | Some byteArr => Ok (zlen byteArr)
  end.

(** ** Facts shared by both ends *)
Lemma msg_ok_zero : msg_ok zero_Message.
Proof. unfold msg_ok, in64; simpl; lia. Qed.

Lemma GetPaddingPayload_length n p : GetPaddingPayload n = Ok p -> 0 <= n /\ zlen p = n.
Proof.
  unfold GetPaddingPayload. case_decide; [done|]. intros [= <-].
  unfold zlen. rewrite length_replicate. lia.
Qed.

Section Header.
Context `{MsgpackLaws}.

Lemma header_length_spec m b :
  msg_ok m -> marshal_Message m = Some b -> GetMessageHeaderLength = Ok (zlen b).
Proof.
  intros Hm Hb. unfold GetMessageHeaderLength.
  destruct (marshal_Message_total _ msg_ok_zero) as [b0 Hb0]. rewrite Hb0.
  unfold zlen. do 2 f_equal. by eapply marshal_Message_fixed; [apply msg_ok_zero|..].
Qed.

Lemma header_length_pos h : GetMessageHeaderLength = Ok h -> 0 < h.
Proof.
  unfold GetMessageHeaderLength. destruct (marshal_Message zero_Message) eqn:E; [|done].
  intros [= <-]. apply marshal_Message_nonempty in E. destruct l; [done|].
  unfold zlen. simpl. lia.
Qed.
End Header.
