(* ===== verification/Metrics.v ===== *)
(** * The prometheus client library, as the program uses it

    Counters, gauges and summaries are objects of a third-party library; a
    registry decides which of them a scrape reads.  [PromLib] is the
    interface the code calls (pkg/util/util.go's [NewCounter], [NewGauge],
    [NewSummary] wrap its constructors) and [PromLaws] the documented
    behaviour the theorems about exported values rest on. *)
From S2P Require Import Prelude GoInt.

Inductive metric_kind := Counter | Gauge | Summary.

#[global] Instance metric_kind_eq_dec : EqDecision metric_kind.
Proof. solve_decision. Defined.

(** prometheus.CounterOpts, GaugeOpts and SummaryOpts.  Objectives are pairs
    of float literals, kept as (quantile, error) in thousandths. *)
Record metric_opts := mkOpts {
  mo_kind : metric_kind;
  mo_Namespace : string;
  mo_Subsystem : string;
  mo_Name : string;
  mo_Help : string;
  mo_ConstLabels : gmap string string;
  mo_Objectives : list (Z * Z)
}.

Class PromLib := {
  prom : Type;                                   (* library state: metrics and registry *)
  metric : Type;                                 (* a prometheus.Collector *)
  metric_eq_dec :: EqDecision metric;            (* collectors are compared by identity *)
  prom_new : metric_opts -> prom -> metric * prom;
  prom_add : metric -> Z -> prom -> option prom; (* Counter.Add: None is a panic *)
  prom_inc : metric -> prom -> prom;
  prom_dec : metric -> prom -> prom;
  prom_observe : metric -> Z -> prom -> prom;
  prom_register : metric -> prom -> string + prom; (* MustRegister: inl is its panic *)
  prom_unregister : metric -> prom -> prom;
  prom_value : metric -> prom -> Z;              (* what a scrape of the metric reads *)
  prom_live : metric -> prom -> Prop             (* the metric has been created *)
}.

(** [q] agrees with [p] on the values of every metric of [p] other than those of [but]. *)
Definition same_values_but `{PromLib} (but : metric -> Prop) (p q : prom) : Prop :=
  (forall h, prom_live h p -> prom_live h q) /\
  (forall h, prom_live h p -> ~ but h -> prom_value h q = prom_value h p).

Abbreviation same_values := (same_values_but (fun _ => False)).

#[global] Instance same_values_preorder `{PromLib} but : PreOrder (same_values_but but).
Proof.
  split; [by split|]. intros p q r [L1 V1] [L2 V2]. split; [auto|].
  intros h Hh Hf. rewrite V2 by auto. auto.
Qed.

(** Values stay exact while they are integers below 2^53. *)
Definition small (v : Z) : Prop := 0 <= v <= 2 ^ 53.

Class PromLaws `{PromLib} : Prop := {
  prom_new_fresh o p : ~ prom_live (prom_new o p).1 p;
  prom_new_live o p : prom_live (prom_new o p).1 (prom_new o p).2;
  prom_new_value o p : prom_value (prom_new o p).1 (prom_new o p).2 = 0;
  prom_new_same o p : same_values p (prom_new o p).2;
  prom_add_panics h v p : v < 0 -> prom_add h v p = None;
  prom_add_spec h v p :
    prom_live h p -> 0 <= v ->
    exists q, prom_add h v p = Some q /\ same_values_but (eq h) p q /\
      (small (prom_value h p) -> small (prom_value h p + v) ->
       prom_value h q = prom_value h p + v);
  prom_inc_same h p : same_values_but (eq h) p (prom_inc h p);
  prom_inc_value h p :
    prom_live h p -> small (prom_value h p) -> small (prom_value h p + 1) ->
    prom_value h (prom_inc h p) = prom_value h p + 1;
  prom_dec_same h p : same_values_but (eq h) p (prom_dec h p);
  prom_dec_value h p :
    prom_live h p -> small (prom_value h p) -> small (prom_value h p - 1) ->
    prom_value h (prom_dec h p) = prom_value h p - 1;
  prom_observe_same h v p : same_values_but (eq h) p (prom_observe h v p);
  prom_register_same h p q : prom_register h p = inr q -> same_values p q;
  prom_unregister_same h p : same_values p (prom_unregister h p)
}.

(** ** The constructors of pkg/util/util.go *)
Section Constructors.
Context `{PromLib}.

Definition PromNamespace : string := "netbat".

Definition NewCounter (namespace subsystem name help : string) (labelMap : gmap string string)
    (p : prom) : metric * prom :=
  prom_new (mkOpts Counter namespace subsystem name help labelMap []) p.

Definition NewGauge (namespace subsystem name help : string) (labelMap : gmap string string)
    (p : prom) : metric * prom :=
  prom_new (mkOpts Gauge namespace subsystem name help labelMap []) p.

Definition NewSummary (namespace subsystem name help : string) (labelMap : gmap string string)
    (objectives : list (Z * Z)) (p : prom) : metric * prom :=
  prom_new (mkOpts Summary namespace subsystem name help labelMap objectives) p.
End Constructors.

(** ** What a sequence of library calls does to exported values

    [moved d p q]: between [p] and [q] the exported value of each metric [h]
    moved by [d h], as long as it stays in the exact range.  Effects that only
    count up (or only down) compose by adding. *)
Section Moved.
Context `{PromLib}.
Implicit Types (p q r : prom) (h : metric) (d : metric -> Z).

Definition at_ h (v : Z) : metric -> Z := fun k => if decide (k = h) then v else 0.
Definition plus_ d1 d2 : metric -> Z := fun h => d1 h + d2 h.
Definition zero_ : metric -> Z := fun _ => 0.

Record moved d p q : Prop := mkMoved {
  moved_live h : prom_live h p -> prom_live h q;
  moved_value h : prom_live h p -> small (prom_value h p) -> small (prom_value h p + d h) ->
                  prom_value h q = prom_value h p + d h
}.

Lemma at_eq h v : at_ h v h = v.
Proof. unfold at_. by rewrite decide_True. Qed.
Lemma at_ne h k v : k <> h -> at_ h v k = 0.
Proof. intros. unfold at_. by rewrite decide_False. Qed.
Lemma at_nonneg h v k : 0 <= v -> 0 <= at_ h v k.
Proof. unfold at_. case_decide; lia. Qed.

Lemma moved_ext d d' p q : (forall h, d h = d' h) -> moved d p q -> moved d' p q.
Proof. intros E [L V]. split; [done|]. intros h. rewrite <- E. apply V. Qed.

Lemma moved_up d1 d2 p q r :
  (forall h, 0 <= d1 h) -> (forall h, 0 <= d2 h) ->
  moved d1 p q -> moved d2 q r -> moved (plus_ d1 d2) p r.
Proof.
  intros H1 H2 [L1 V1] [L2 V2]. split; [auto|]. unfold plus_, small. intros h Hl Hs Hs'.
  specialize (H1 h). specialize (H2 h).
  rewrite V2, V1; [lia|done|unfold small; lia..|auto| |]; rewrite V1; unfold small; auto; lia.
Qed.

Lemma moved_down d1 d2 p q r :
  (forall h, d1 h <= 0) -> (forall h, d2 h <= 0) ->
  moved d1 p q -> moved d2 q r -> moved (plus_ d1 d2) p r.
Proof.
  intros H1 H2 [L1 V1] [L2 V2]. split; [auto|]. unfold plus_, small. intros h Hl Hs Hs'.
  specialize (H1 h). specialize (H2 h).
  rewrite V2, V1; [lia|done|unfold small; lia..|auto| |]; rewrite V1; unfold small; auto; lia.
Qed.

Lemma same_values_moved p q : same_values p q -> moved zero_ p q.
Proof. intros [L V]. split; [done|]. intros. rewrite V by auto. unfold zero_. lia. Qed.

Lemma moved_zero_refl p : moved zero_ p p.
Proof. apply same_values_moved. split; auto. Qed.

Lemma moved_zero_trans d p q r : moved d p q -> moved zero_ q r -> moved d p r.
Proof.
  intros [L1 V1] [L2 V2]. split; [auto|]. intros h Hl Hs Hs'.
  unfold zero_ in V2. rewrite V2, V1; auto; [lia|by rewrite V1|rewrite V1; auto].
  by rewrite Z.add_0_r.
Qed.

Lemma same_but_moved h v p q :
  same_values_but (eq h) p q ->
  (prom_live h p -> small (prom_value h p) -> small (prom_value h p + v) ->
   prom_value h q = prom_value h p + v) ->
  moved (at_ h v) p q.
Proof.
  intros [L V] Hh. split; [done|]. intros k Hl Hs Hs'. unfold at_ in *. case_decide as E.
  - subst k. auto.
  - rewrite V; [lia|done|congruence].
Qed.

(** Chains of calls that change no exported value compose by rewriting. *)
#[global] Instance moved_zero_preorder : PreOrder (moved zero_).
Proof.
  split; [intros p; apply moved_zero_refl|]. intros p q r H1 H2. by eapply moved_zero_trans.
Qed.

Section Laws.
Context `{!PromLaws}.

Lemma moved_inc h p : moved (at_ h 1) p (prom_inc h p).
Proof. apply same_but_moved; [apply prom_inc_same|apply prom_inc_value]. Qed.

Lemma moved_dec h p : moved (at_ h (-1)) p (prom_dec h p).
Proof. apply same_but_moved; [apply prom_dec_same|]. intros. by apply prom_dec_value. Qed.

Lemma moved_add h v p :
  prom_live h p -> 0 <= v -> exists q, prom_add h v p = Some q /\ moved (at_ h v) p q.
Proof.
  intros Hl Hv. destruct (prom_add_spec h v p Hl Hv) as (q & E & S & V).
  exists q. split; [done|]. by apply same_but_moved.
Qed.

(** The same with the float conversion of an integer amount. *)
Lemma moved_add_f64 h v p :
  prom_live h p -> 0 <= v -> exists q, prom_add h (f64_rnd v) p = Some q /\ moved (at_ h v) p q.
Proof.
  intros Hl Hv. pose proof (f64_rnd_nonneg v Hv).
  destruct (prom_add_spec h (f64_rnd v) p Hl) as (q & E & S & V); [done|].
  exists q. split; [done|]. apply same_but_moved; [done|]. intros _ Hs Hs'.
  assert (f64_rnd v = v) as Hv'. { apply f64_rnd_id. unfold f64_exact, small in *. lia. }
  rewrite Hv' in V. auto.
Qed.

Lemma moved_new o p : moved zero_ p (prom_new o p).2.
Proof. apply same_values_moved, prom_new_same. Qed.

Lemma moved_register h p q : prom_register h p = inr q -> moved zero_ p q.
Proof. intros. by eapply same_values_moved, prom_register_same. Qed.

Lemma moved_unregister h p : moved zero_ p (prom_unregister h p).
Proof. apply same_values_moved, prom_unregister_same. Qed.
End Laws.
End Moved.

#[export] Hint Resolve moved_zero_refl moved_live at_nonneg : gobat.
