(* ===== verification/Reference.v ===== *)
(** * Concrete instances of the library interfaces

    Small executable implementations of [Msgpack] and [PromLib] with the
    proofs of their laws.  They show the laws can hold together and give the
    witnesses something to compute with; no theorem about the program depends
    on them. *)
From S2P Require Import Prelude GoInt Message Metrics.

(** ** A fixed-width codec *)
Module codec.
Definition byte_of_Z (z : Z) : byte :=
  match Byte.of_N (Z.to_N (z `mod` 256)) with Some b => b | None => Byte.x00 end.
Definition Z_of_byte (b : byte) : Z := Z.of_N (Byte.to_N b).

Lemma Z_of_byte_of_Z z : Z_of_byte (byte_of_Z z) = z `mod` 256.
Proof.
  unfold Z_of_byte, byte_of_Z. pose proof (Z.mod_pos_bound z 256 ltac:(lia)) as Hb.
  destruct (Byte.of_N (Z.to_N (z `mod` 256))) as [b|] eqn:E.
  - apply Byte.to_of_N in E. rewrite E. lia.
  - apply Byte.of_N_None_iff in E. lia.
Qed.

(** The [n] low bytes of [z], least significant first. *)
Fixpoint put (n : nat) (z : Z) : list byte :=
  match n with O => [] | S n => byte_of_Z z :: put n (z / 256) end.

Fixpoint get (n : nat) (l : list byte) : Z :=
  match n, l with S n, b :: l => Z_of_byte b + 256 * get n l | _, _ => 0 end.

Lemma length_put n z : length (put n z) = n.
Proof. revert z. induction n; simpl; auto. Qed.

Lemma get_put n z rest : get n (put n z ++ rest) = z `mod` 256 ^ Z.of_nat n.
Proof.
  revert z. induction n as [|n IH]; intros z; simpl.
  - by rewrite Z.mod_1_r.
  - rewrite IH, Z_of_byte_of_Z, Nat2Z.inj_succ, Z.pow_succ_r by lia.
    rewrite Z.rem_mul_r by (try apply Z.pow_nonzero; lia). done.
Qed.

Lemma get_put_int64 z rest : in64 z -> wrap64 (get 8 (put 8 z ++ rest)) = z.
Proof.
  intros Hz. rewrite get_put. change (256 ^ Z.of_nat 8) with (2 ^ 64).
  unfold wrap64, in64 in *. rewrite Zplus_mod_idemp_l. rewrite Z.mod_small; lia.
Qed.

Definition fields (m : Message) : list Z :=
  [SequenceNumber m; SendTimeStamp m; RespondTimeStamp m; ServerInfoLength m; Length m].

Definition enc_Message (m : Message) : list byte := concat (put 8 <$> fields m).

Definition fld (i : nat) (l : list byte) : Z := wrap64 (get 8 (drop (8 * i) l)).

Definition dec_Message (l : list byte) : Message * bool :=
  if decide (length l < 40)%nat then (zero_Message, true)
  else (mkMessage (fld 0 l) (fld 1 l) (fld 2 l) (fld 3 l) (fld 4 l), false).

Lemma length_enc_Message m : length (enc_Message m) = 40%nat.
Proof. done. Qed.

Lemma drop_put i z rest : drop (8 + i) (put 8 z ++ rest) = drop i rest.
Proof. rewrite <- drop_drop. rewrite <- (length_put 8 z) at 1. by rewrite drop_app_length. Qed.

Lemma dec_enc_Message m rest : msg_ok m -> dec_Message (enc_Message m ++ rest) = (m, false).
Proof.
  intros (H1 & H2 & H3 & H4 & H5). unfold dec_Message.
  rewrite decide_False by (rewrite length_app, length_enc_Message; lia).
  unfold enc_Message, fld. cbn [fields fmap list_fmap concat]. rewrite <- !app_assoc.
  change (8 * 0)%nat with 0%nat. change (8 * 1)%nat with (8 + 0)%nat.
  change (8 * 2)%nat with (8 + (8 + 0))%nat. change (8 * 3)%nat with (8 + (8 + (8 + 0)))%nat.
  change (8 * 4)%nat with (8 + (8 + (8 + (8 + 0))))%nat.
  rewrite !drop_put, !drop_0. rewrite !get_put_int64 by done. by destruct m.
Qed.

Lemma dec_Message_ok l : msg_ok (dec_Message l).1.
Proof.
  unfold dec_Message. case_decide; [apply msg_ok_zero|].
  repeat split; apply wrap64_range.
Qed.

(** Strings byte by byte, each announced by [x01], closed by [x00]. *)
Fixpoint put_bytes (l : list byte) : list byte :=
  match l with [] => [Byte.x00] | b :: l => Byte.x01 :: b :: put_bytes l end.

Fixpoint get_bytes (l : list byte) : list byte * list byte :=
  match l with
  | Byte.x01 :: b :: l => let '(s, r) := get_bytes l in (b :: s, r)
  | Byte.x00 :: l => ([], l)
  | _ => ([], l)
  end.

Lemma get_put_bytes l rest : get_bytes (put_bytes l ++ rest) = (l, rest).
Proof. induction l as [|b l IH]; simpl; [done|]. by rewrite IH. Qed.

Definition put_string (s : string) : list byte := put_bytes (String.list_byte_of_string s).
Definition get_string (l : list byte) : string * list byte :=
  let '(b, r) := get_bytes l in (String.string_of_list_byte b, r).

Lemma get_put_string s rest : get_string (put_string s ++ rest) = (s, rest).
Proof.
  unfold get_string, put_string. rewrite get_put_bytes.
  by rewrite String.string_of_list_byte_of_string.
Qed.

Definition enc_PodInfo (i : PodInfo) : list byte :=
  put_string (pod_Namespace i) ++ put_string (pod_Name i) ++ put_string (pod_WorkerName i).

Definition dec_PodInfo (l : list byte) : PodInfo * bool :=
  let '(a, l) := get_string l in
  let '(b, l) := get_string l in
  let '(c, l) := get_string l in
  (mkPodInfo a b c, false).

Lemma dec_enc_PodInfo i rest : dec_PodInfo (enc_PodInfo i ++ rest) = (i, false).
Proof.
  unfold dec_PodInfo, enc_PodInfo. rewrite <- !app_assoc, !get_put_string. by destruct i.
Qed.
End codec.

#[export] Instance ref_Msgpack : Msgpack := {
  marshal_Message m := Some (codec.enc_Message m);
  unmarshal_Message := codec.dec_Message;
  marshal_PodInfo i := Some (codec.enc_PodInfo i);
  unmarshal_PodInfo := codec.dec_PodInfo
}.

#[export] Instance ref_MsgpackLaws : MsgpackLaws.
Proof.
  split; simpl.
  - eauto.
  - intros m1 m2 b1 b2 _ _ [= <-] [= <-]. by rewrite !codec.length_enc_Message.
  - intros m b [= <-] E. pose proof (codec.length_enc_Message m) as L. by rewrite E in L.
  - intros m b rest Hm [= <-]. by apply codec.dec_enc_Message.
  - apply codec.dec_Message_ok.
  - eauto.
  - intros i b rest [= <-]. apply codec.dec_enc_PodInfo.
Qed.

(** ** A metrics store *)
Module store.
Record st := mkSt { metrics : list (metric_opts * Z); registry : list nat }.

Definition value (h : nat) (p : st) : Z := from_option snd 0 (metrics p !! h).
Definition live (h : nat) (p : st) : Prop := (h < length (metrics p))%nat.

Definition bump (h : nat) (v : Z) (p : st) : st :=
  mkSt (alter (fun '(o, x) => (o, f64_add x v)) h (metrics p)) (registry p).

Definition add (h : nat) (v : Z) (p : st) : option st :=
  if decide (v < 0) then None else Some (bump h v p).

(** As the registry sees them: two metrics collide when their full names and constant labels agree. *)
Definition same_desc (a b : metric_opts) : bool :=
  bool_decide (mo_Namespace a = mo_Namespace b /\ mo_Subsystem a = mo_Subsystem b /\
               mo_Name a = mo_Name b /\ mo_ConstLabels a = mo_ConstLabels b).

Definition collides (h g : nat) (p : st) : bool :=
  match metrics p !! h, metrics p !! g with
  | Some (a, _), Some (b, _) => same_desc a b
  | _, _ => false
  end.

Definition register (h : nat) (p : st) : string + st :=
  if existsb (fun g => collides h g p) (registry p)
  then inl "duplicate metrics collector registration attempted"
  else inr (mkSt (metrics p) (h :: registry p)).

(** The registry removes what has the same description. *)
Definition unregister (h : nat) (p : st) : st :=
  mkSt (metrics p) (List.filter (fun g => negb (collides h g p)) (registry p)).

Definition new (o : metric_opts) (p : st) : nat * st :=
  (length (metrics p), mkSt (metrics p ++ [(o, 0)]) (registry p)).

Lemma value_bump_eq h v p : live h p -> value h (bump h v p) = f64_add (value h p) v.
Proof.
  unfold value, live, bump. simpl. intros Hl. rewrite list_lookup_alter_eq.
  destruct (lookup_lt_is_Some_2 _ _ Hl) as [[o x] E]. by rewrite E.
Qed.

Lemma value_bump_ne h g v p : h <> g -> value g (bump h v p) = value g p.
Proof. intros Hne. unfold value, bump. simpl. by rewrite list_lookup_alter_ne. Qed.

Lemma live_bump h g v p : live g (bump h v p) <-> live g p.
Proof. unfold live, bump. simpl. by rewrite length_alter. Qed.
End store.

#[export] Instance ref_PromLib : PromLib := {
  prom := store.st;
  metric := nat;
  prom_new := store.new;
  prom_add := store.add;
  prom_inc h := store.bump h 1;
  prom_dec h := store.bump h (-1);
  prom_observe _ _ p := p;
  prom_register := store.register;
  prom_unregister := store.unregister;
  prom_value := store.value;
  prom_live := store.live
}.

Definition ref_prom0 : @prom ref_PromLib := store.mkSt [] [].

Lemma ref_bump_same h v p : same_values_but (eq h) p (store.bump h v p).
Proof.
  split; [intros g; apply store.live_bump|]. intros g _ Hne. by apply store.value_bump_ne.
Qed.

Lemma ref_bump_value h v p :
  store.live h p -> small (store.value h p) -> small (store.value h p + v) ->
  store.value h (store.bump h v p) = store.value h p + v.
Proof.
  unfold small. intros. rewrite store.value_bump_eq by done.
  apply f64_add_exact. unfold f64_exact. lia.
Qed.

#[export] Instance ref_PromLaws : PromLaws.
Proof.
  split; simpl; try (intros; by apply ref_bump_value); try (intros; apply ref_bump_same).
  - intros o p. unfold store.live. simpl. lia.
  - intros o p. unfold store.live. simpl. rewrite length_app. simpl. lia.
  - intros o p. unfold store.value. simpl. by rewrite list_lookup_middle.
  - intros o p. split; unfold store.live, store.value; simpl.
    + intros h Hl. revert Hl. unfold store.live. simpl. rewrite length_app. lia.
    + intros h Hl _. unfold store.value; simpl. by rewrite lookup_app_l.
  - intros h v p Hv. unfold store.add. by rewrite decide_True.
  - intros h v p Hl Hv. unfold store.add. rewrite decide_False by lia. eexists.
    split; [done|]. split; [apply ref_bump_same|]. by apply ref_bump_value.
  - intros; split; auto.
  - intros h p q. unfold store.register. destruct (existsb _ _); [done|]. intros [= <-].
    split; auto.
  - intros h p. split; auto.
Qed.
