(* ===== verification/Net.v ===== *)
(** * Addresses (pkg/util/util.go and the part of package net it uses)

    [net.ParseIP] of the Go 1.15 the image is built with, byte for byte, and
    the classification [IsIPv4]/[IsIPv6] that decides how the program writes
    an address.  Sockets and name resolution are the outside world: their
    results are inputs ([NetEnv]). *)
From S2P Require Import Prelude GoInt Strconv.
From Stdlib Require Import Ascii.
#[local] Open Scope Z_scope.

(** ** net.ParseIP *)
Module net.
Definition big : Z := 16777215.            (* 0xFFFFFF, package net's overflow guard *)

Definition hex_val (c : ascii) : option Z :=
  if is_digit c then Some (ascii_code c - 48)
  else if (97 <=? ascii_code c) && (ascii_code c <=? 102) then Some (ascii_code c - 97 + 10)
  else if (65 <=? ascii_code c) && (ascii_code c <=? 70) then Some (ascii_code c - 65 + 10)
  else None.

Definition dec_val (c : ascii) : option Z := if is_digit c then Some (ascii_code c - 48) else None.

(** The loop of [dtoi] ([base] 10) and [xtoi] ([base] 16): the number read and
    what follows it; None where they report failure.  [seen] is [i > 0]. *)
Fixpoint toi (val : ascii -> option Z) (base : Z) (s : list ascii) (n : Z) (seen : bool)
    : option (Z * list ascii) :=
  match s with
  | [] => if seen then Some (n, []) else None
  | c :: s' =>
      match val c with
      | None => if seen then Some (n, s) else None
      | Some v =>
          let n' := n * base + v in
          if big <=? n' then None else toi val base s' n' true
      end
  end.

Definition dtoi (s : list ascii) : option (Z * list ascii) := toi dec_val 10 s 0 false.
Definition xtoi (s : list ascii) : option (Z * list ascii) := toi hex_val 16 s 0 false.

(** [parseIPv4]: [k] octets still to read, [first] before the first of them. *)
Fixpoint parseIPv4_octets (k : nat) (first : bool) (s : list ascii) : option (list Z) :=
  match k with
  | O => match s with [] => Some [] | _ => None end
  | S k =>
      match (if first then Some s
             else match s with "."%char :: s' => Some s' | _ => None end) with
      | None => None
      | Some s1 =>
          match dtoi s1 with
          | None => None
          | Some (n, s2) =>
              if 255 <? n then None
              else match parseIPv4_octets k false s2 with
                   | None => None
                   | Some p => Some (n :: p)
                   end
          end
      end
  end.

Definition parseIPv4 (s : list ascii) : option (list Z) := parseIPv4_octets 4 true s.

(** The loop of [parseIPv6]: [ip] is what is filled so far, [ell] the position
    of the ellipsis.  Each turn fills two bytes, so eight turns reach 16. *)
Fixpoint parseIPv6_loop (fuel : nat) (s : list ascii) (ip : list Z) (ell : option nat)
    : option (list ascii * list Z * option nat) :=
  match fuel with
  | O => Some (s, ip, ell)
  | S fuel =>
      match xtoi s with
      | None => None
      | Some (n, rest) =>
          if 65535 <? n then None else
          let ip' := ip ++ [n / 256; n `mod` 256] in
          match rest with
          | [] => Some ([], ip', ell)
          | c :: rest' =>
              if decide (c = "."%char) then
                if decide (ell = None /\ length ip <> 12%nat) then None
                else if decide (16 < length ip + 4)%nat then None
                else match parseIPv4 s with
                     | None => None
                     | Some ip4 => Some ([], ip ++ ip4, ell)
                     end
              else if decide (c <> ":"%char \/ rest' = []) then None
              else match rest' with
                   | ":"%char :: rest'' =>
                       if decide (ell <> None) then None
                       else if decide (rest'' = []) then Some ([], ip', Some (length ip'))
                       else parseIPv6_loop fuel rest'' ip' (Some (length ip'))
                   | _ => parseIPv6_loop fuel rest' ip' ell
                   end
          end
      end
  end.

(** After the loop: all of the text is used, and an ellipsis is expanded. *)
Definition parseIPv6_end (r : option (list ascii * list Z * option nat)) : option (list Z) :=
  match r with
  | None => None
  | Some (rest, ip, ell) =>
      if decide (rest <> []) then None
      else if decide (length ip < 16)%nat then
        match ell with
        | None => None
        | Some e => Some (take e ip ++ replicate (16 - length ip) 0 ++ drop e ip)
        end
      else match ell with Some _ => None | None => Some ip end
  end.

Definition parseIPv6 (s : list ascii) : option (list Z) :=
  let '(s1, ell0) :=
    match s with ":"%char :: ":"%char :: s' => (s', Some 0%nat) | _ => (s, None) end in
  if decide (ell0 <> None /\ s1 = []) then Some (replicate 16 0)
  else parseIPv6_end (parseIPv6_loop 8 s1 [] ell0).

(** [ParseIP] looks for the first dot or colon. *)
Fixpoint ParseIP_scan (whole s : list ascii) : option (list Z) :=
  match s with
  | [] => None
  | "."%char :: _ => parseIPv4 whole
  | ":"%char :: _ => parseIPv6 whole
  | _ :: s' => ParseIP_scan whole s'
  end.

Definition ParseIP (s : string) : option (list Z) :=
  let l := String.list_ascii_of_string s in ParseIP_scan l l.
End net.

(** ** pkg/util/util.go *)

(** [strings.Count(s, ":")] *)
Definition count_colons (l : list ascii) : nat := length (filter (fun c => c = ":"%char) l).
Definition CountColons (s : string) : nat := count_colons (String.list_ascii_of_string s).

Definition IsIPv6 (ipAddress : string) : bool :=
  match net.ParseIP ipAddress with None => false | Some _ => bool_decide (2 <= CountColons ipAddress)%nat end.

Definition IsIPv4 (ipAddress : string) : bool :=
  match net.ParseIP ipAddress with None => false | Some _ => bool_decide (CountColons ipAddress < 2)%nat end.

Definition GetResolvableAddress (ip : string) : outcome string :=
  if decide (ip = "") then Err "ip address can't be empty"
  else if IsIPv6 ip then Ok ("[" +:+ ip +:+ "]:0")
  else Ok (ip +:+ ":0").

(** ** Sockets *)
Record UDPAddr := mkUDPAddr { addr_IP : string; addr_Port : Z }.

(** A [*net.UDPConn]: its ends, and whether [Close] has been called on it. *)
Record UDPConn := mkUDPConn { conn_local : UDPAddr; conn_remote : option UDPAddr; conn_closed : bool }.

#[global] Instance UDPAddr_eq_dec : EqDecision UDPAddr.
Proof. solve_decision. Defined.
#[global] Instance UDPConn_eq_dec : EqDecision UDPConn.
Proof. solve_decision. Defined.

Definition close_conn (c : UDPConn) : UDPConn := mkUDPConn (conn_local c) (conn_remote c) true.

(** What the network stack answers to the calls of one operation. *)
Record NetEnv := mkNetEnv {
  ResolveUDPAddr : string -> string + UDPAddr;
  ListenUDP : UDPAddr -> string + UDPConn;
  DialUDP : option UDPAddr -> UDPAddr -> string + UDPConn;   (* nil local address allowed *)
  SetReadBuffer : UDPConn -> Z -> option string
}.

(** An error result of a network call ends the operation with that error. *)
Definition net_result {A} (r : string + A) : outcome A :=
  match r with inl e => Err e | inr a => Ok a end.
Definition net_error (r : option string) : outcome unit :=
  match r with Some e => Err e | None => Ok () end.

Example ParseIP_examples :
  net.ParseIP "192.168.167.138" = Some [192; 168; 167; 138] /\
  net.ParseIP "::" = Some (replicate 16 0) /\
  net.ParseIP "fe80::1" = Some ([254; 128] ++ replicate 13 0 ++ [1]) /\
  net.ParseIP "::ffff:10.0.0.1" = Some (replicate 10 0 ++ [255; 255; 10; 0; 0; 1]) /\
  net.ParseIP "1:2:3:4:5:6:7:8" = Some [0;1;0;2;0;3;0;4;0;5;0;6;0;7;0;8] /\
  net.ParseIP "1:2:3:4:5:6:7" = None /\ net.ParseIP "1::2::3" = None /\
  net.ParseIP "1:2:3:4:5:6:7:8:9" = None /\ net.ParseIP "256.1.1.1" = None /\
  net.ParseIP "tgen-tapp-c-headless-service" = None /\ net.ParseIP "a.b.c.d" = None /\
  net.ParseIP "1:2:3:4:5:6:7::8" = None /\ net.ParseIP "1.2.3" = None.
Proof. vm_compute. repeat split. Qed.

(** ** The colon count agrees with the parser that accepted the address *)

Lemma count_colons_app l k : count_colons (l ++ k) = (count_colons l + count_colons k)%nat.
Proof. unfold count_colons. by rewrite filter_app, length_app. Qed.

Lemma count_colons_cons_ne c l : c <> ":"%char -> count_colons (c :: l) = count_colons l.
Proof. intros. unfold count_colons. by rewrite filter_cons_False. Qed.

Lemma count_colons_cons_eq l : count_colons (":"%char :: l) = S (count_colons l).
Proof. done. Qed.

(** What a digit loop consumes contains no colon. *)
Lemma toi_colons val base s n seen m rest :
  val ":"%char = None -> net.toi val base s n seen = Some (m, rest) ->
  count_colons s = count_colons rest.
Proof.
  intros Hv. revert n seen. induction s as [|c s IH]; intros n seen; simpl.
  - destruct seen; [|done]. by intros [= _ <-].
  - destruct (val c) as [v|] eqn:E.
    + destruct (net.big <=? n * base + v); [done|]. intros H%IH.
      rewrite count_colons_cons_ne; [done|]. by intros ->; congruence.
    + destruct seen; [|done]. by intros [= _ <-].
Qed.

Lemma parseIPv4_octets_colons k first s p :
  net.parseIPv4_octets k first s = Some p -> count_colons s = 0%nat.
Proof.
  revert first s p. induction k as [|k IH]; intros first s p; simpl; [by destruct s|].
  destruct (if first then _ else _) as [s1|] eqn:E; [|done].
  destruct (net.dtoi s1) as [[n s2]|] eqn:Ed; [|done].
  destruct (255 <? n); [done|].
  destruct (net.parseIPv4_octets k false s2) eqn:E4; [|done]. intros _.
  apply toi_colons in Ed; [|done]. apply IH in E4.
  destruct first; [simplify_eq; congruence|].
  destruct s as [|c s]; [done|].
  destruct (decide (c = "."%char)) as [->|Hc].
  - simplify_eq. rewrite count_colons_cons_ne by done. congruence.
  - exfalso. destruct c as [[] [] [] [] [] [] [] []]; done.
Qed.

Lemma parseIPv4_octets_length k first s p :
  net.parseIPv4_octets k first s = Some p -> length p = k.
Proof.
  revert first s p. induction k as [|k IH]; intros first s p; simpl.
  - destruct s; [|done]. by intros [= <-].
  - intros H. repeat case_match; simplify_eq; simpl; f_equal; eauto.
Qed.

(** The colons a run of the IPv6 loop reads: an ellipsis met on the way costs
    two of them; without one, each group but the last is followed by one. *)
Lemma parseIPv6_loop_colons fuel s ip ell rest ip' ell' :
  net.parseIPv6_loop fuel s ip ell = Some (rest, ip', ell') ->
  (count_colons rest <= count_colons s)%nat /\
  (ell <> None -> ell' <> None) /\
  (ell = None -> ell' <> None -> 2 + count_colons rest <= count_colons s)%nat /\
  (ell' = None -> length ip' <= length ip + 4 + 2 * (count_colons s - count_colons rest))%nat.
Proof.
  revert s ip ell. induction fuel as [|fuel IH]; intros s ip ell; simpl.
  { intros [= <- <- <-]. repeat split; try congruence; lia. }
  destruct (net.xtoi s) as [[n r]|] eqn:Ex; [|done].
  destruct (65535 <? n); [done|].
  apply toi_colons in Ex; [|done]. rewrite Ex. clear Ex.
  destruct r as [|c r].
  { intros [= <- <- <-]. rewrite length_app. repeat split; try congruence; simpl; lia. }
  case_decide.
  { do 2 (case_decide; [done|]). destruct (net.parseIPv4 _) eqn:E4; [|done].
    intros [= <- <- <-]. apply parseIPv4_octets_length in E4. rewrite length_app, E4.
    change (count_colons []) with 0%nat. repeat split; try congruence; simpl; lia. }
  case_decide as Hc; [done|]. apply Decidable.not_or in Hc as [Hc Hr].
  assert (c = ":"%char) as -> by (by apply dec_stable). rewrite count_colons_cons_eq.
  destruct r as [|c r]; [done|].
  destruct (decide (c = ":"%char)) as [->|Hc'].
  - rewrite count_colons_cons_eq. case_decide as Hell; [done|]. subst ell.
    case_decide as Hr'.
    + intros [= <- <- <-]. subst r. repeat split; try congruence; simpl; lia.
    + intros (Hle & Hne & _ & _)%IH. specialize (Hne ltac:(done)).
      repeat split; try done; lia.
  - intros Hl.
    assert (net.parseIPv6_loop fuel (c :: r) (ip ++ [n / 256; n `mod` 256]) ell
            = Some (rest, ip', ell')) as Hl'.
    { by destruct c as [[] [] [] [] [] [] [] []]. }
    apply IH in Hl' as (Hle & Hne & H1 & H2). rewrite length_app in H2. simpl in H2.
    repeat split; [lia|done|intros; specialize (H1 ltac:(done) ltac:(done)); lia|
      intros; specialize (H2 ltac:(done)); lia].
Qed.

Lemma parseIPv6_colons l p : net.parseIPv6 l = Some p -> (2 <= count_colons l)%nat.
Proof.
  unfold net.parseIPv6.
  set (d := match l with ":"%char :: ":"%char :: s' => (s', Some 0%nat) | _ => (l, None) end).
  assert ((d.2 = Some 0%nat /\ 2 <= count_colons l)%nat \/ d = (l, None)) as Hd.
  { subst d. destruct l as [|c1 [|c2 l]].
    - by right.
    - right. by destruct c1 as [[] [] [] [] [] [] [] []].
    - destruct (decide (c1 = ":"%char)) as [->|H1], (decide (c2 = ":"%char)) as [->|H2].
      + left. rewrite !count_colons_cons_eq. split; [done|lia].
      + right. by destruct c2 as [[] [] [] [] [] [] [] []].
      + right. by destruct c1 as [[] [] [] [] [] [] [] []].
      + right. by destruct c1 as [[] [] [] [] [] [] [] []]. }
  destruct d as [s1 ell0]. simpl in Hd. destruct Hd as [[-> H]|[= -> ->]]; [done|].
  case_decide as Hc; [by destruct Hc|].
  unfold net.parseIPv6_end. destruct (net.parseIPv6_loop 8 l [] None) as [[[rest ip] ell]|] eqn:E; [|done].
  apply parseIPv6_loop_colons in E as (Hle & _ & H1 & H2). simpl in H2.
  case_decide as Hrest; [done|].
  destruct ell as [e|]; [specialize (H1 ltac:(done) ltac:(done)); lia|].
  specialize (H2 ltac:(done)). case_decide; [done|]. lia.
Qed.

(** The separator [ParseIP] dispatches on. *)
Fixpoint first_separator (l : list ascii) : option ascii :=
  match l with
  | [] => None
  | c :: l => if decide (c = "."%char \/ c = ":"%char) then Some c else first_separator l
  end.

Lemma ParseIP_scan_dispatch whole l :
  net.ParseIP_scan whole l =
  match first_separator l with
  | Some c => if decide (c = "."%char) then net.parseIPv4 whole else net.parseIPv6 whole
  | None => None
  end.
Proof.
  induction l as [|c l IH]; [done|]. simpl first_separator. case_decide as Hc.
  - by destruct Hc as [-> | ->].
  - apply Decidable.not_or in Hc as [H1 H2].
    by destruct c as [[] [] [] [] [] [] [] []].
Qed.

(** The classification the program makes by counting colons is the one
    package net makes by parsing.  An address is IPv6 for the program exactly
    when its first separator is a colon and the IPv6 parser accepts it, IPv4
    exactly when its first separator is a dot and the IPv4 parser accepts it,
    and everything else is a domain name (neither). *)
Lemma IsIP_classification (s : string) :
  let l := String.list_ascii_of_string s in
  IsIPv6 s = bool_decide (first_separator l = Some ":"%char /\ is_Some (net.parseIPv6 l)) /\
  IsIPv4 s = bool_decide (first_separator l = Some "."%char /\ is_Some (net.parseIPv4 l)).
Proof.
  intros l. unfold IsIPv6, IsIPv4, net.ParseIP, CountColons. fold l.
  rewrite ParseIP_scan_dispatch.
  destruct (first_separator l) as [c|] eqn:E;
    [|split; symmetry; apply bool_decide_eq_false; by intros [[=] _]].
  assert (c = "."%char \/ c = ":"%char) as Hc.
  { clear -E. induction l as [|a l IH]; simpl in E; [done|]. case_decide; [by simplify_eq|auto]. }
  destruct Hc as [-> | ->].
  - rewrite (decide_True (P := _ = _)) by done. destruct (net.parseIPv4 l) as [p|] eqn:E4.
    + rewrite (parseIPv4_octets_colons _ _ _ _ E4).
      split; apply bool_decide_ext; split; try (by intros [[=] _]); try lia; eauto.
    + split; symmetry; apply bool_decide_eq_false; [by intros [[=] _]|by intros [_ [? [=]]]].
  - rewrite (decide_False (P := _ = _)) by done. destruct (net.parseIPv6 l) as [p|] eqn:E6.
    + apply parseIPv6_colons in E6.
      split; apply bool_decide_ext; split; try (by intros [[=] _]); try lia; eauto.
    + split; symmetry; apply bool_decide_eq_false; [by intros [_ [? [=]]]|by intros [[=] _]].
Qed.
