(* ===== verification/Pair.v ===== *)
(** * BAT pairs (pkg/util/util.go) and their JSON form

    The source, the remote and the pair a traffic stream is created for.
    [ClientConnection] is a Go interface holding a pointer: here the address
    of a client object, None for nil. *)
From S2P Require Import Prelude GoInt.
From Stdlib Require Import Ascii.
#[local] Open Scope Z_scope.

Record Source := mkSource {
  src_Type : string;
  src_Namespace : string;
  src_Name : string;
  src_Net : string;
  src_Interface : string;
  src_IP : string
}.

Record Remote := mkRemote {
  IsDN : bool;
  rem_Name : string;
  rem_IP : string
}.

Record BatPair := mkBatPair {
  pair_Source : Source;
  pair_Destination : Remote;
  TrafficProfile : string;
  TrafficScenario : string;
  PendingRequestsMap : gmap Z Z;
  ClientConnection : option nat
}.

#[global] Instance Source_eq_dec : EqDecision Source.
Proof. solve_decision. Defined.
#[global] Instance Remote_eq_dec : EqDecision Remote.
Proof. solve_decision. Defined.
#[global] Instance BatPair_eq_dec : EqDecision BatPair.
Proof. solve_decision. Defined.

Definition set_PendingRequestsMap (m : gmap Z Z) (p : BatPair) : BatPair :=
  mkBatPair (pair_Source p) (pair_Destination p) (TrafficProfile p) (TrafficScenario p) m
    (ClientConnection p).
Definition set_Destination (d : Remote) (p : BatPair) : BatPair :=
  mkBatPair (pair_Source p) d (TrafficProfile p) (TrafficScenario p) (PendingRequestsMap p)
    (ClientConnection p).
Definition set_ClientConnection (c : option nat) (p : BatPair) : BatPair :=
  mkBatPair (pair_Source p) (pair_Destination p) (TrafficProfile p) (TrafficScenario p)
    (PendingRequestsMap p) c.

Definition set_IsDN (b : bool) (r : Remote) : Remote := mkRemote b (rem_Name r) (rem_IP r).
Definition set_IP (ip : string) (r : Remote) : Remote := mkRemote (IsDN r) (rem_Name r) ip.

(** ** encoding/json on a Source

    Escapes of the encoder for bytes below 0x80; others are copied, as they
    are for valid UTF-8 outside U+2028 and U+2029. *)
Definition hex_digit (n : nat) : ascii := nth n (String.list_ascii_of_string "0123456789abcdef") "0"%char.

Definition json_escape (c : ascii) : list ascii :=
  let n := nat_of_ascii c in
  if decide (n = 34%nat) then ["\"; c]%char
  else if decide (n = 92%nat) then ["\"; c]%char
  else if decide (n = 10%nat) then ["\"; "n"]%char
  else if decide (n = 13%nat) then ["\"; "r"]%char
  else if decide (n = 9%nat) then ["\"; "t"]%char
  else if decide (n < 32 \/ n = 60 \/ n = 62 \/ n = 38)%nat then
    ["\"; "u"; "0"; "0"; hex_digit (n / 16); hex_digit (n mod 16)]%char
  else [c].

Definition quote_char : ascii := ascii_of_nat 34.

Definition json_string (s : string) : string :=
  String.string_of_list_ascii
    (quote_char :: concat (json_escape <$> String.list_ascii_of_string s) ++ [quote_char]).

Definition json_field (name value : string) : string :=
  json_string name +:+ ":" +:+ json_string value.

(** A field tagged [omitempty]. *)
Definition json_opt_field (name value : string) : list string :=
  if decide (value = "") then [] else [json_field name value].

Definition json_Source (s : Source) : string :=
  "{" +:+ String.concat ","
    ([json_field "type" (src_Type s); json_field "ns" (src_Namespace s);
      json_field "name" (src_Name s)] ++
     json_opt_field "net" (src_Net s) ++ json_opt_field "interface" (src_Interface s) ++
     json_opt_field "ip" (src_IP s)) +:+ "}".
