(* ===== verification/Interfaces.v ===== *)
(** * The network interfaces of the pod (pkg/util/util.go)

    [GetNetInterfaces] asks the kernel, [GetInterfaces] reads the annotations
    file and the environment of the process, both line by line through a
    [bufio.Scanner].  Files, the kernel's answers and the order of a map walk
    are inputs; the annotation parsers of app-netutil are the interface
    [NetUtil]. *)
From S2P Require Import Prelude GoInt Strconv GoStrings Net.
From Stdlib Require Import Ascii.
#[local] Open Scope Z_scope.

(** ** Data of the libraries, the fields the program uses *)

(** A device, with the PciAddress of its Pci and Vdpa parts where not nil. *)
Record DeviceInfo := mkDeviceInfo {
  di_Type : string;
  di_Version : string;
  di_Pci : option string;
  di_Vdpa : option string
}.

Record NetworkStatus := mkNetworkStatus {
  ns_Name : string;
  ns_Interface : string;
  ns_Default : bool;
  ns_DeviceInfo : option DeviceInfo
}.

Record InterfaceData := mkInterfaceData { DeviceType : string; netStatus : NetworkStatus }.

Definition set_DeviceType (t : string) (d : InterfaceData) : InterfaceData :=
  mkInterfaceData t (netStatus d).
Definition set_DeviceInfo (i : DeviceInfo) (d : InterfaceData) : InterfaceData :=
  let n := netStatus d in
  mkInterfaceData (DeviceType d)
    (mkNetworkStatus (ns_Name n) (ns_Interface n) (ns_Default n) (Some i)).

(** app-netutil and the network attachment types. *)
Class NetUtil := {
  INTERFACE_TYPE_UNKNOWN : string;
  INTERFACE_TYPE_HOST : string;
  INTERFACE_TYPE_SRIOV : string;
  DeviceInfoTypePCI : string;
  DeviceInfoVersion : string;
  NetStatData : Type;
  netStatData0 : NetStatData;
  networkstatus_ParseAnnotations : string -> string -> NetStatData -> NetStatData;
  networkstatus_AppendInterfaceData : NetStatData -> list InterfaceData -> list InterfaceData;
  UserspacePlugin : Type;
  usrspData0 : UserspacePlugin;
  userplugin_ParseAnnotations : string -> string -> UserspacePlugin -> UserspacePlugin;
  userplugin_AppendInterfaceData : UserspacePlugin -> list InterfaceData -> list InterfaceData
}.

(** The types of a device are told apart. *)
Class NetUtilLaws `{NetUtil} : Prop := {
  type_unknown_host : INTERFACE_TYPE_UNKNOWN <> INTERFACE_TYPE_HOST;
  type_unknown_sriov : INTERFACE_TYPE_UNKNOWN <> INTERFACE_TYPE_SRIOV
}.

(** ** bufio.Scanner over lines *)

Definition nl : ascii := "010"%char.
Definition cr : ascii := "013"%char.
Definition nul : ascii := "000"%char.

Definition dropCR (l : list ascii) : list ascii :=
  match reverse l with
  | c :: r => if decide (c = cr) then reverse r else l
  | [] => l
  end.

(** A line that fills the buffer of [MaxScanTokenSize] bytes before its end
    has been seen stops the scan. *)
Definition maxScanTokenSize : Z := 65536.

Fixpoint scan (pieces : list (list ascii)) : list string :=
  match pieces with
  | [] => []
  | p :: pieces => if maxScanTokenSize <=? zlen p then [] else str (dropCR p) :: scan pieces
  end.

(** What is between the newlines; nothing after the last one is no line. *)
Definition pieces (l : list ascii) : list (list ascii) :=
  let ps := split_chars [nl] l [] 0 in
  match reverse ps with
  | [] :: r => reverse r
  | _ => ps
  end.

Definition scan_lines (content : string) : list string := scan (pieces (chars content)).

(** [strings.Replace(s, old, "", -1)] *)
Definition Remove (old s : string) : string := str (concat (split_chars (chars old) (chars s) [] 0)).

Section GetInterfaces.
Context `{NetUtil}.

(** ** The annotations file *)

Definition annotations : Type := NetStatData * UserspacePlugin.

(** The value of an annotation, without the indentation of the marshaling. *)
Definition unindent (v : string) : string := Remove " " (Remove "\" (Remove "\n" v)).

(** One annotation; it panics when what is left of the value has no room for
    two quotes. *)
Definition parse_annotation (s : string) (a : annotations) : outcome annotations :=
  match Split s "=" with
  | [key; v] =>
      let v := unindent v in
      let* inner := or_panic "slice bounds out of range" (slice (chars v) 1 (zlen (chars v) - 1)) in
      Ok (networkstatus_ParseAnnotations key (str inner) a.1,
          userplugin_ParseAnnotations key (str inner) a.2)
  | _ => Ok a
  end.

Fixpoint for_lines {A B} (l : list A) (body : A -> B -> outcome B) (b : B) : outcome B :=
  match l with
  | [] => Ok b
  | x :: l => let* b := body x b in for_lines l body b
  end.

Definition parse_annotations (content : string) : outcome annotations :=
  for_lines (scan_lines content)
    (fun line => for_lines (Split (TrimSpace line) (str [nl])) parse_annotation)
    (netStatData0, usrspData0).

(** What [os.Stat] and [os.Open] say of the file. *)
Inductive file := NoFile | OpenError (e : string) | Content (s : string).

(** The interfaces of the annotations. *)
Definition annotated (f : file) : outcome (list InterfaceData) :=
  match f with
  | NoFile => Ok []
  | OpenError e => Err e
  | Content s =>
      let* a := parse_annotations s in
      Ok (userplugin_AppendInterfaceData a.2 (networkstatus_AppendInterfaceData a.1 []))
  end.

(** ** The environment *)

Definition env_entry (m : gmap string string) (e : string) : gmap string string :=
  match Split e "=" with [k; v] => <[k := v]> m | _ => m end.

(** [environ] is the file of the process, or the error of opening it. *)
Definition getEnv (environ : outcome string) : outcome (gmap string string) :=
  let* content := environ in
  Ok (fold_left (fun m line => fold_left env_entry (Split (TrimSpace line) (str [nul])) m)
        (scan_lines content) ∅).

(** ** PCI addresses *)

Definition same_address (o : option string) (id : string) : bool :=
  match o with Some a => EqualFold a id | None => false end.

(** The search for an address among the interfaces; a match by Pci is marked. *)
Fixpoint find_pci (id : string) (l : list InterfaceData) : bool * list InterfaceData :=
  match l with
  | [] => (false, [])
  | d :: l =>
      let next := let '(found, l') := find_pci id l in (found, d :: l') in
      match ns_DeviceInfo (netStatus d) with
      | Some info =>
          if same_address (di_Pci info) id then (true, set_DeviceType INTERFACE_TYPE_SRIOV d :: l)
          else if same_address (di_Vdpa info) id then (true, d :: l)
          else next
      | None => next
      end
  end.

Definition add_id (st : list string * list InterfaceData) (id : string)
    : list string * list InterfaceData :=
  let '(found, l) := find_pci id st.2 in
  (if (found : bool) then st.1 else st.1 ++ [id], l).

(** [walk] is the environment in the order [range] visits it. *)
Definition collect_pci (walk : list (string * string)) (l : list InterfaceData)
    : list string * list InterfaceData :=
  fold_left (fun st '(k, v) =>
      if HasPrefix k "PCIDEVICE" then fold_left add_id (Split v ",") st else st) walk ([], l).

Definition is_unknown (d : InterfaceData) : bool := bool_decide (DeviceType d = INTERFACE_TYPE_UNKNOWN).
Definition count_unknown (l : list InterfaceData) : Z := zlen (filter (fun d => is_unknown d = true) l).

Definition pci_device (addr : string) : DeviceInfo :=
  mkDeviceInfo DeviceInfoTypePCI DeviceInfoVersion (Some addr) None.

(** The pass over the interfaces of unknown type: the interfaces, and how many
    of the addresses it has given away. *)
Fixpoint assign_types (pcis : list string) (unknownCnt pciIndex : Z) (l : list InterfaceData)
    : list InterfaceData * Z :=
  match l with
  | [] => ([], pciIndex)
  | d :: l =>
      let go d' cnt i := let '(l', n) := assign_types pcis cnt i l in (d' :: l', n) in
      if is_unknown d then
        if ns_Default (netStatus d) && (zlen pcis <? unknownCnt) then
          go (set_DeviceType INTERFACE_TYPE_HOST d) (unknownCnt - 1) pciIndex
        else match pcis !! Z.to_nat pciIndex with
        | Some addr =>
            match ns_DeviceInfo (netStatus d) with
            | None => go (set_DeviceInfo (pci_device addr) (set_DeviceType INTERFACE_TYPE_SRIOV d))
                        (unknownCnt - 1) (pciIndex + 1)
            | Some _ => go d unknownCnt pciIndex
            end
        | None => go (set_DeviceType INTERFACE_TYPE_HOST d) (unknownCnt - 1) pciIndex
        end
      else go d unknownCnt pciIndex
  end.

(** An interface for an address that no other took. *)
Definition new_interface (addr : string) : InterfaceData :=
  mkInterfaceData INTERFACE_TYPE_SRIOV (mkNetworkStatus "" "" false (Some (pci_device addr))).

Definition add_pci (walk : list (string * string)) (l : list InterfaceData) : list InterfaceData :=
  let '(pcis, l) := collect_pci walk l in
  let '(l, n) := assign_types pcis (count_unknown l) 0 l in
  l ++ (new_interface <$> drop (Z.to_nat n) pcis).

Definition GetInterfaces (annotation_file : file) (environ : outcome string)
    (walk : gmap string string -> list (string * string)) : outcome (list InterfaceData) :=
  let* l := annotated annotation_file in
  let* env := getEnv environ in
  Ok (add_pci (walk env) l).

End GetInterfaces.

(** ** net.IP *)

(** A group of 16 bits in hexadecimal, without leading zeros ([appendHex]). *)
Definition hex_digit (d : Z) : ascii :=
  nth (Z.to_nat d) (chars "0123456789abcdef") "0"%char.
Fixpoint utox (fuel : nat) (n : Z) (acc : list ascii) : list ascii :=
  match fuel with
  | O => acc
  | S fuel => let acc := hex_digit (n `mod` 16) :: acc in
              if n <? 16 then acc else utox fuel (n / 16) acc
  end.
Definition hex (n : Z) : list ascii := utox 4 n [].

Fixpoint join (sep : list ascii) (l : list (list ascii)) : list ascii :=
  match l with
  | [] => []
  | [x] => x
  | x :: l => x ++ sep ++ join sep l
  end.

Definition To4 (ip : list Z) : option (list Z) :=
  if decide (length ip = 4%nat) then Some ip
  else if decide (length ip = 16%nat /\ take 12 ip = replicate 10 0 ++ [255; 255])
  then Some (drop 12 ip) else None.

(** The 16-bit groups of an address. *)
Fixpoint groups (ip : list Z) : list Z :=
  match ip with
  | a :: b :: ip => Z.lor (Z.shiftl a 8) b :: groups ip
  | _ => []
  end.

(** How many zero groups [l] starts with. *)
Fixpoint zeros (l : list Z) : nat :=
  match l with
  | g :: l => if g =? 0 then S (zeros l) else O
  | [] => O
  end.

(** The first longest run of zeros among the groups from position [i] on, if
    longer than [best]: where it starts and its length. *)
Fixpoint longest_run (i : nat) (l : list Z) (best : nat * nat) : nat * nat :=
  match l with
  | [] => best
  | _ :: l' => longest_run (S i) l' (if (best.2 <? zeros l)%nat then (i, zeros l) else best)
  end.

(** [IP.String] of an address of 4 or 16 bytes. *)
Definition IP_String (ip : list Z) : string :=
  match To4 ip with
  | Some ip4 => str (join ["."%char] ((fun b => chars (Itoa b)) <$> ip4))
  | None =>
      let gs := groups ip in
      let '(e0, n) := longest_run 0 gs (0%nat, 0%nat) in
      let colon := [":"%char] in
      if (n <=? 1)%nat then str (join colon (hex <$> gs))
      else str (join colon (hex <$> take e0 gs) ++ [":"; ":"]%char ++
                join colon (hex <$> drop (e0 + n) gs))
  end.

Definition IsLoopback (ip : list Z) : bool :=
  match To4 ip with
  | Some ip4 => match ip4 with b :: _ => b =? 127 | [] => false end
  | None => bool_decide (ip = replicate 15 0 ++ [1])
  end.

Example IP_String_examples :
  IP_String [10; 0; 0; 200] = "10.0.0.200" /\
  IP_String (replicate 10 0 ++ [255; 255; 192; 168; 0; 7]) = "192.168.0.7" /\
  IP_String (replicate 15 0 ++ [1]) = "::1" /\ IP_String (replicate 16 0) = "::" /\
  IP_String [32; 1; 13; 184; 0; 0; 0; 0; 0; 1; 0; 0; 0; 0; 0; 1] = "2001:db8::1:0:0:1" /\
  IP_String [254; 128; 0; 0; 0; 1; 0; 2; 0; 3; 0; 4; 0; 0; 0; 0] = "fe80:0:1:2:3:4::" /\
  IP_String [32; 1; 13; 184; 0; 0; 0; 1; 0; 1; 0; 1; 0; 1; 0; 1] = "2001:db8:0:1:1:1:1:1" /\
  IsLoopback [127; 0; 0; 1] = true /\ IsLoopback (replicate 15 0 ++ [1]) = true.
Proof. vm_compute. repeat split. Qed.

(** ** GetNetInterfaces

    [ifaces] is what [net.Interfaces] returns, each interface with the result
    of its [Addrs], whose elements are all [*net.IPNet] on Linux. *)
Definition add_interface (m : gmap string string) (iface : string * outcome (list (list Z)))
    : gmap string string :=
  match iface.2 with
  | Ok (ip :: _) => if IsLoopback ip then m else <[iface.1 := IP_String ip]> m
  | _ => m
  end.

Definition GetNetInterfaces (ifaces : outcome (list (string * outcome (list (list Z)))))
    : outcome (gmap string string) :=
  let* ifaces := ifaces in
  match ifaces with
  | [] => Err "no interfaces present"
  | _ => Ok (fold_left add_interface ifaces ∅)
  end.
