(* ===== verification/Pairing.v ===== *)
(** * The pairing ConfigMap (pkg/tgc/tgc.go)

    Each line pairs a source, a single-quoted JSON object, with a
    destination, a profile and a scenario.  A pod keeps the lines whose source
    it is, gives the source its address, and picks one destination at random
    for each source.  Unmarshalling a source, the pod's interfaces, the order
    in which a Go map is walked and the random numbers are inputs. *)
From S2P Require Import Prelude GoInt Strconv GoStrings Net Pair.
From Stdlib Require Import Ascii.
#[local] Open Scope Z_scope.

(** [json.Unmarshal] into a [Source]: None when it returns an error. *)
Class JsonSource := { json_unmarshal_Source : string -> option Source }.

Definition set_Interface (i : string) (s : Source) : Source :=
  mkSource (src_Type s) (src_Namespace s) (src_Name s) (src_Net s) i (src_IP s).
Definition set_src_IP (ip : string) (s : Source) : Source :=
  mkSource (src_Type s) (src_Namespace s) (src_Name s) (src_Net s) (src_Interface s) ip.

Definition dquotes : string := String dquote EmptyString.
(** The string that ends a source: a brace, a quote, a comma. *)
Definition sourceEnd : string := "}" +:+ dquotes +:+ ",".

Section Pairing.
Context `{JsonSource}.

(** [sourceStr] of a line split at [sourceEnd]. *)
Definition source_string (element : string) : string :=
  replace_char squote dquote (TrimLeft (TrimSpace element) dquotes +:+ "}").

(** The source is this pod. *)
Definition source_matches (namespace podName : string) (source : Source) : bool :=
  let isPod := EqualFold (src_Type source) "pod" in
  let isDeployment := EqualFold (src_Type source) "deployment" in
  let isDaemonSet := EqualFold (src_Type source) "daemonset" in
  if negb (bool_decide (src_Namespace source = namespace)) then false
  else if negb isPod && negb isDeployment && negb isDaemonSet then false
  else if isPod && negb (bool_decide (src_Name source = podName)) then false
  else if (isDeployment || isDaemonSet) && negb (HasPrefix podName (src_Name source)) then false
  else true.

(** Interface and address, by network, by interface name, or the primary. *)
Definition assign_address (namespace : string) (netIfNameMap ifNameAddressMap : gmap string string)
    (source : Source) : Source :=
  if negb (bool_decide (src_Net source = "")) then
    match netIfNameMap !! (namespace +:+ "/" +:+ src_Net source) with
    | None => source
    | Some srcIface =>
        let source := set_Interface srcIface source in
        match ifNameAddressMap !! srcIface with
        | None => source
        | Some ip => set_src_IP ip source
        end
    end
  else if negb (bool_decide (src_Interface source = "")) then
    match ifNameAddressMap !! src_Interface source with
    | None => source
    | Some ip => set_src_IP ip source
    end
  else
    match ifNameAddressMap !! "eth0" with
    | None => source
    | Some ip => set_Interface "eth0" (set_src_IP ip source)
    end.

Definition trimSlice (strs : list string) : list string :=
  (fun s => Trim (TrimSpace s) dquotes) <$> strs.

Definition index_panic : string := "runtime error: index out of range".

(** One turn of the loop over the lines: the group it adds to and the pair, or
    nothing when the line is skipped. *)
Definition parse_line (namespace podName : string) (netIfNameMap ifNameAddressMap : gmap string string)
    (line : string) : outcome (option (string * BatPair)) :=
  let pair := TrimSpace line in
  if bool_decide (pair = "") || HasPrefix pair "#" then Ok None else
  let elements := Split pair sourceEnd in
  let* element0 := or_panic index_panic (elements !! 0%nat) in
  let sourceStr := source_string element0 in
  match json_unmarshal_Source sourceStr with
  | None => Ok None
  | Some source =>
      if negb (source_matches namespace podName source) then Ok None else
      let source := assign_address namespace netIfNameMap ifNameAddressMap source in
      let* element1 := or_panic index_panic (elements !! 1%nat) in
      let elements := trimSlice (Split element1 ",") in
      let* name := or_panic index_panic (elements !! 0%nat) in
      let* profile := or_panic index_panic (elements !! 1%nat) in
      let* scenario := or_panic index_panic (elements !! 2%nat) in
      Ok (Some (sourceStr, mkBatPair source (mkRemote false name "") profile scenario ∅ None))
  end.

(** [pairMap[sourceStr] = append(pairMap[sourceStr], batPair)] *)
Definition add_pair (sourceStr : string) (p : BatPair) (pairMap : gmap string (list BatPair))
    : gmap string (list BatPair) :=
  <[sourceStr := default [] (pairMap !! sourceStr) ++ [p]]> pairMap.

Fixpoint parse_lines (namespace podName : string) (netIfNameMap ifNameAddressMap : gmap string string)
    (lines : list string) (pairMap : gmap string (list BatPair))
    : outcome (gmap string (list BatPair)) :=
  match lines with
  | [] => Ok pairMap
  | line :: lines =>
      let* r := parse_line namespace podName netIfNameMap ifNameAddressMap line in
      parse_lines namespace podName netIfNameMap ifNameAddressMap lines
        (match r with Some (s, p) => add_pair s p pairMap | None => pairMap end)
  end.

(** The groups in the order the map is walked; [intn] is [rand.Intn]. *)
Fixpoint pick_pairs (intn : Z -> Z) (groups : list (list BatPair)) : outcome (list BatPair) :=
  match groups with
  | [] => Ok []
  | tempPairs :: groups =>
      let* p := or_panic index_panic
        (if decide (length tempPairs = 1%nat) then tempPairs !! 0%nat
         else tempPairs !! Z.to_nat (intn (zlen tempPairs))) in
      let* ps := pick_pairs intn groups in
      Ok (p :: ps)
  end.

(** [GetInterfaces] (the name and interface of each network status) and
    [GetNetInterfaces] may fail. [walk] lists the groups of the final map. *)
Definition getAvailableNetBatPairings (namespace podName pairingStr : string)
    (ifaceResponse : outcome (list (string * string)))
    (netInterfaces : outcome (gmap string string))
    (walk : gmap string (list BatPair) -> list (list BatPair)) (intn : Z -> Z)
    : outcome (list BatPair) :=
  let lines := Split pairingStr (String "010"%char EmptyString) in
  let* ifaces := ifaceResponse in
  let* ifNameAddressMap := netInterfaces in
  let netIfNameMap := fold_left (fun m i => <[i.1 := i.2]> m) ifaces (∅ : gmap string string) in
  let* pairMap := parse_lines namespace podName netIfNameMap ifNameAddressMap lines ∅ in
  pick_pairs intn (walk pairMap).

(** The data of the ConfigMap: plain, or compressed and encoded. [gunzip] is
    base64 decoding followed by gzip decompression. *)
Definition handleAddNetBatConfigMap (data : gmap string string) (gunzip : string -> outcome string)
    (namespace podName : string) (ifaceResponse : outcome (list (string * string)))
    (netInterfaces : outcome (gmap string string))
    (walk : gmap string (list BatPair) -> list (list BatPair)) (intn : Z -> Z)
    : outcome (list BatPair) :=
  let* pairsStr :=
    match data !! "net-bat-pairing.cfg" with
    | Some val => Ok val
    | None =>
        match data !! "net-bat-pairing.cfg.gz" with
        | Some val => gunzip val
        | None => Err "no pairing config present"
        end
    end in
  getAvailableNetBatPairings namespace podName pairsStr ifaceResponse netInterfaces walk intn.
End Pairing.

(** ** What is picked *)
Section Picked.
Context `{JsonSource} (namespace podName : string) (netIfNameMap ifNameAddressMap : gmap string string).

Local Abbreviation parse := (parse_line namespace podName netIfNameMap ifNameAddressMap).

(** The pairs the lines give for a source, in their order. *)
Definition group (lines : list string) (s : string) : list BatPair :=
  omap (fun line => match parse line with
                    | Ok (Some (s', p)) => if decide (s' = s) then Some p else None
                    | _ => None
                    end) lines.

Definition entry (g : list BatPair) : option (list BatPair) := match g with [] => None | _ => Some g end.

Lemma or_panic_no_err {A} why (o : option A) e : or_panic why o <> Err e.
Proof. by destruct o. Qed.

Lemma parse_line_no_err line e : parse line <> Err e.
Proof.
  unfold parse_line, or_panic, bind_outcome. repeat case_match; congruence.
Qed.

Lemma entry_app g g' : entry g = None -> entry (g ++ g') = entry g'.
Proof. by destruct g. Qed.

Lemma default_entry g : default [] (entry g) = g.
Proof. by destruct g. Qed.

Lemma parse_lines_spec lines seen m :
  (forall s, m !! s = entry (group seen s)) ->
  Forall (fun line => is_panic (parse line) = false) lines ->
  exists m', parse_lines namespace podName netIfNameMap ifNameAddressMap lines m = Ok m' /\
    forall s, m' !! s = entry (group (seen ++ lines) s).
Proof.
  intros Hm Hl. revert seen m Hm. induction Hl as [|line lines Hp _ IH]; intros seen m Hm; simpl.
  - exists m. split; [done|]. intros s. by rewrite app_nil_r.
  - destruct (parse line) as [r|e|w] eqn:E; [|by apply parse_line_no_err in E|done]. simpl.
    destruct (IH (seen ++ [line]) (match r with Some (s, p) => add_pair s p m | None => m end))
      as (m' & E' & Hm').
    + intros s. unfold group. rewrite omap_app. fold (group seen s). simpl. rewrite E.
      destruct r as [[s' p]|]; [|by rewrite app_nil_r].
      unfold add_pair. destruct (decide (s' = s)) as [->|Hne].
      * rewrite lookup_insert_eq, Hm, default_entry. by destruct (group seen s).
      * by rewrite lookup_insert_ne, app_nil_r.
    + exists m'. split; [done|]. intros s. by rewrite Hm', <- app_assoc.
Qed.

Lemma parse_lines_panics lines m :
  is_panic (parse_lines namespace podName netIfNameMap ifNameAddressMap lines m) =
  existsb (fun line => is_panic (parse line)) lines.
Proof.
  revert m. induction lines as [|line lines IH]; intros m; simpl; [done|].
  destruct (parse line) as [r|e|w] eqn:E; [|by apply parse_line_no_err in E|done]. simpl. apply IH.
Qed.

(** A new pair has no client yet. *)
Lemma parse_line_fresh line s p : parse line = Ok (Some (s, p)) -> ClientConnection p = None.
Proof.
  unfold parse_line, or_panic, bind_outcome. repeat case_match; try done; intros [= <- <-]; done.
Qed.

Definition fresh (p : BatPair) : Prop := ClientConnection p = None.

Lemma parse_lines_fresh lines m m' :
  parse_lines namespace podName netIfNameMap ifNameAddressMap lines m = Ok m' ->
  map_Forall (fun _ => Forall fresh) m -> map_Forall (fun _ => Forall fresh) m'.
Proof.
  revert m. induction lines as [|line lines IH]; intros m; simpl; [by intros [= ->]|].
  intros (r & E & E')%bind_outcome_Ok_inv Hm. eapply IH; [exact E'|].
  destruct r as [[s p]|]; [|done]. unfold add_pair. apply map_Forall_insert_2; [|done].
  apply Forall_app. split; [|constructor; [by eapply parse_line_fresh|constructor]].
  destruct (m !! s) eqn:Es; simpl; [by eapply Hm|constructor].
Qed.

Lemma pick_pairs_fresh intn groups ps :
  pick_pairs intn groups = Ok ps -> Forall (Forall fresh) groups -> Forall fresh ps.
Proof.
  intros E Hg. revert ps E. induction Hg as [|g groups Hg _ IH]; intros ps E; simpl in E.
  - injection E as <-. constructor.
  - apply bind_outcome_Ok_inv in E as (p & Ep & E). apply bind_outcome_Ok_inv in E as (ps' & E' & [= <-]).
    constructor; [|by apply IH]. revert Ep. unfold or_panic.
    destruct (if decide _ then _ else _) as [p'|] eqn:Ed; [|done]. intros [= ->].
    case_decide; by eapply Forall_lookup in Ed.
Qed.

(** [rand.Intn(n)] for [n > 0]. *)
Definition intn_ok (intn : Z -> Z) : Prop := forall n, 0 < n -> 0 <= intn n < n.

Lemma pick_pairs_spec intn groups :
  intn_ok intn -> Forall (fun g => g <> []) groups ->
  exists ps, pick_pairs intn groups = Ok ps /\ Forall2 (fun p g => p ∈ g) ps groups.
Proof.
  intros Hi. induction 1 as [|g groups Hg _ (ps & E & Hps)]; simpl; [by exists []|].
  assert (exists p, (if decide (length g = 1%nat) then g !! 0%nat else g !! Z.to_nat (intn (zlen g))) = Some p
                    /\ p ∈ g) as (p & Ep & Hp).
  { destruct g as [|p g]; [done|]. case_decide; [exists p; split; [done|set_solver]|].
    assert (0 < zlen (p :: g)) as Hpos by (unfold zlen; simpl; lia).
    destruct (Hi _ Hpos) as [H1 H2]. unfold zlen in *.
    destruct (lookup_lt_is_Some_2 (p :: g) (Z.to_nat (intn (Z.of_nat (length (p :: g)))))) as [x Hx]; [lia|].
    exists x. split; [done|]. by apply list_elem_of_lookup_2 in Hx. }
  rewrite Ep, E. simpl. exists (p :: ps). split; [done|]. by constructor.
Qed.
End Picked.

(** The walk over a Go map: every group once. *)
Definition walk_ok (walk : gmap string (list BatPair) -> list (list BatPair)) : Prop :=
  forall m, walk m ≡ₚ (map_to_list m).*2.

Lemma walk_nonempty walk m (f : string -> list BatPair) :
  walk_ok walk -> (forall s, m !! s = entry (f s)) -> Forall (fun g => g <> []) (walk m).
Proof.
  intros Hw Hm. apply Forall_forall. intros g Hg. rewrite (Hw m) in Hg.
  apply list_elem_of_fmap in Hg as ([s g'] & -> & Hg). apply elem_of_map_to_list in Hg.
  rewrite Hm in Hg. by destruct (f s); simplify_eq/=.
Qed.

Definition net_map (ifaces : list (string * string)) : gmap string string :=
  fold_left (fun m i => <[i.1 := i.2]> m) ifaces ∅.
Definition newline : string := String "010"%char EmptyString.

Lemma handleAddNetBatConfigMap_fresh `{JsonSource} data gunzip ns pod ifaces addrs walk intn ps :
  walk_ok walk ->
  handleAddNetBatConfigMap data gunzip ns pod ifaces addrs walk intn = Ok ps -> Forall fresh ps.
Proof.
  intros Hw E. unfold handleAddNetBatConfigMap in E. apply bind_outcome_Ok_inv in E as (text & _ & E).
  unfold getAvailableNetBatPairings in E. apply bind_outcome_Ok_inv in E as (ifs & _ & E).
  apply bind_outcome_Ok_inv in E as (ads & _ & E). apply bind_outcome_Ok_inv in E as (m & Em & E).
  eapply pick_pairs_fresh; [exact E|]. apply parse_lines_fresh in Em; [|apply map_Forall_empty].
  apply Forall_forall. intros g Hg. rewrite (Hw m) in Hg.
  apply list_elem_of_fmap in Hg as ([s g'] & -> & Hg). apply elem_of_map_to_list in Hg. by eapply Em.
Qed.

Section PairingTheorems.
Context `{JsonSource}.

(** C28: from a well-formed pairing text a pod gets exactly one pair for each
    source string that is the pod: whatever order Go walks the map in and
    whatever the random numbers are, the pairs are those of one line each,
    chosen among the lines of the same source. *)
Theorem one_pair_per_source ns pod text ifaces addrs walk intn :
  walk_ok walk -> intn_ok intn ->
  Forall (fun line => is_panic (parse_line ns pod (net_map ifaces) addrs line) = false)
    (Split text newline) ->
  exists pairs m,
    getAvailableNetBatPairings ns pod text (Ok ifaces) (Ok addrs) walk intn = Ok pairs /\
    (forall s, m !! s = entry (group ns pod (net_map ifaces) addrs (Split text newline) s)) /\
    Forall2 (fun p g => p ∈ g) pairs (walk m) /\ length pairs = size m.
Proof.
  intros Hw Hi Hl. unfold getAvailableNetBatPairings. simpl. fold (net_map ifaces). fold newline.
  destruct (parse_lines_spec ns pod (net_map ifaces) addrs (Split text newline) [] ∅) as (m & E & Hm);
    [done|done|]. rewrite E. simpl.
  destruct (pick_pairs_spec intn (walk m)) as (ps & Ep & Hps); [done| |].
  - by eapply walk_nonempty.
  - exists ps, m. split_and!; [done|done|done|].
    rewrite (Forall2_length _ _ _ Hps), (Permutation_length (Hw m)), length_fmap. apply length_map_to_list.
Qed.

(** A single malformed line of the shared ConfigMap takes the process
    down: the parser panics exactly when some line that names this pod as its
    source has no destination, profile or scenario after it (an index out of
    range). *)
Lemma malformed_line_panics ns pod text ifaces addrs walk intn :
  walk_ok walk -> intn_ok intn ->
  is_panic (getAvailableNetBatPairings ns pod text (Ok ifaces) (Ok addrs) walk intn) =
  existsb (fun line => is_panic (parse_line ns pod (net_map ifaces) addrs line)) (Split text newline).
Proof.
  intros Hw Hi. destruct (existsb _ _) eqn:E.
  - unfold getAvailableNetBatPairings. simpl. fold (net_map ifaces). fold newline.
    rewrite <- (parse_lines_panics ns pod (net_map ifaces) addrs (Split text newline) ∅) in E.
    by destruct (parse_lines _ _ _ _ _ _).
  - assert (Forall (fun line => is_panic (parse_line ns pod (net_map ifaces) addrs line) = false)
              (Split text newline)) as Hl.
    { apply Forall_forall. intros line Hline. apply not_true_is_false. intros Hp.
      enough (true = false) by done. rewrite <- E. symmetry. apply existsb_exists.
      exists line. split; [by apply list_elem_of_In|done]. }
    clear E.
    pose proof (parse_lines_spec ns pod (net_map ifaces) addrs (Split text newline) [] ∅) as (m & E & Hm);
      [done|done|].
    unfold getAvailableNetBatPairings. simpl. fold (net_map ifaces). fold newline. rewrite E. simpl.
    destruct (pick_pairs_spec intn (walk m)) as (ps & -> & _); [done|by eapply walk_nonempty|done].
Qed.
End PairingTheorems.

(** ** A concrete text *)
Definition quoted (s : string) : string := dquotes +:+ s +:+ dquotes.
Definition demo_line (name dest : string) : string :=
  quoted ("{'type': 'pod', 'ns': 'default', 'name': '" +:+ name +:+ "'}") +:+ ", " +:+ quoted dest +:+
  ", udp, " +:+ quoted "primary network".
Definition demo_json (name : string) : string :=
  "{" +:+ quoted "type" +:+ ": " +:+ quoted "pod" +:+ ", " +:+ quoted "ns" +:+ ": " +:+ quoted "default" +:+
  ", " +:+ quoted "name" +:+ ": " +:+ quoted name +:+ "}".

(** The two objects of the text. *)
#[local] Instance demo_JsonSource : JsonSource := {|
  json_unmarshal_Source s :=
    if decide (s = demo_json "pod-a") then Some (mkSource "pod" "default" "pod-a" "" "" "")
    else if decide (s = demo_json "pod-b") then Some (mkSource "pod" "default" "pod-b" "" "" "")
    else None
|}.

Definition demo_text : string :=
  demo_line "pod-a" "10.0.0.1" +:+ newline +:+ "# a comment" +:+ newline +:+
  demo_line "pod-b" "10.0.0.2" +:+ newline +:+ demo_line "pod-a" "10.0.0.3" +:+ newline.
Definition demo_walk (m : gmap string (list BatPair)) : list (list BatPair) := (map_to_list m).*2.
Definition demo_intn (n : Z) : Z := n - 1.
Definition demo_addrs : gmap string string := {["eth0" := "192.168.0.7"]}.

Lemma one_pair_per_source_witness :
  exists p, getAvailableNetBatPairings "default" "pod-a" demo_text (Ok []) (Ok demo_addrs) demo_walk demo_intn
            = Ok [p] /\ rem_Name (pair_Destination p) = "10.0.0.3" /\ src_IP (pair_Source p) = "192.168.0.7".
Proof.
  destruct (one_pair_per_source "default" "pod-a" demo_text [] demo_addrs demo_walk demo_intn)
    as (ps & m & E & _).
  - intros m. reflexivity.
  - intros n Hn. unfold demo_intn. lia.
  - apply (bool_decide_unpack _). vm_compute. exact I.
  - exists (default (mkBatPair (mkSource "" "" "" "" "" "") (mkRemote false "" "") "" "" ∅ None) (ps !! 0%nat)).
    rewrite E. vm_compute in E. injection E as <-. vm_compute. repeat split.
Defined.
