(* ===== verification/InterfacesTheorems.v ===== *)
(** * Properties of the pod's network interfaces

    Which annotations panic, how the environment is read, what becomes of the
    PCI addresses in it, and the addresses of the kernel as text. *)
From S2P Require Import Prelude GoInt Strconv GoStrings Net Pair Interfaces Pairing.
From Stdlib Require Import Ascii.
#[local] Open Scope Z_scope.

(** ** Annotations *)
Section Annotations.
Context `{NetUtil}.

Lemma for_lines_panics {A B} (l : list A) (body : A -> B -> outcome B) (bad : A -> bool) b :
  (forall x b, is_panic (body x b) = bad x) -> (forall x b, is_ok (body x b) = negb (bad x)) ->
  is_panic (for_lines l body b) = existsb bad l /\ is_ok (for_lines l body b) = negb (existsb bad l).
Proof.
  intros Hp Ho. revert b. induction l as [|x l IH]; intros b; simpl; [done|].
  specialize (Hp x b). specialize (Ho x b).
  destruct (body x b) as [b'|e|w], (bad x); simpl in *; done.
Qed.

(** A value that has no room for two quotes once its indentation is gone. *)
Definition bad_annotation (s : string) : bool :=
  match Split s "=" with
  | [_; v] => zlen (chars (unindent v)) <? 2
  | _ => false
  end.

Lemma parse_annotation_panics s a :
  is_panic (parse_annotation s a) = bad_annotation s /\ is_ok (parse_annotation s a) = negb (bad_annotation s).
Proof.
  unfold parse_annotation, bad_annotation.
  destruct (Split s "=") as [|k [|v [|? ?]]]; try done.
  destruct (Z.ltb_spec (zlen (chars (unindent v))) 2).
  - by rewrite slice_None by lia.
  - by rewrite slice_Some by lia.
Qed.

(** The annotations of the file, in the order they are read. *)
Definition annotation_texts (content : string) : list string :=
  mjoin ((fun line => Split (TrimSpace line) (str [nl])) <$> scan_lines content).

Lemma existsb_mjoin {A B} (f : B -> bool) (g : A -> list B) (l : list A) :
  existsb f (mjoin (g <$> l)) = existsb (fun x => existsb f (g x)) l.
Proof. induction l as [|x l IH]; csimpl; [done|]. by rewrite existsb_app, IH. Qed.

Lemma parse_annotations_panics content :
  is_panic (parse_annotations content) = existsb bad_annotation (annotation_texts content) /\
  is_ok (parse_annotations content) = negb (existsb bad_annotation (annotation_texts content)).
Proof.
  unfold parse_annotations, annotation_texts. rewrite existsb_mjoin.
  apply for_lines_panics; intros x b; apply for_lines_panics; intros; apply parse_annotation_panics.
Qed.

(** A quoted value always has the room: what the kubelet writes never panics. *)
Lemma Remove_keeps (c : ascii) old s :
  chars old <> [] -> c ∉ chars old ->
  filter (fun d => d = c) (chars (Remove old s)) = filter (fun d => d = c) (chars s).
Proof.
  intros Hne Hc. unfold Remove. rewrite chars_str, split_chars_keeps by done.
  by rewrite reverse_nil.
Qed.

Lemma quoted_annotation_ok s key v :
  Split s "=" = [key; v] -> (2 <= length (filter (fun d => d = dquote) (chars v)))%nat ->
  bad_annotation s = false.
Proof.
  intros Hs Hq. unfold bad_annotation. rewrite Hs. apply Z.ltb_ge. unfold unindent.
  set (r := Remove " " _). transitivity (zlen (filter (fun d => d = dquote) (chars r))).
  - unfold r, zlen. rewrite !Remove_keeps by (by apply (bool_decide_unpack _); vm_compute). lia.
  - unfold zlen. apply inj_le, length_filter.
Qed.

(** C36: reading the interfaces panics exactly when the annotations file has
    a line [key=value], with one equals sign, whose value is shorter than two
    characters once backslashes, [\n] and blanks are taken out of it. *)
Theorem GetInterfaces_panics_iff f environ walk :
  is_panic environ = false ->
  is_panic (GetInterfaces f environ walk) =
    match f with
    | Content s => existsb bad_annotation (annotation_texts s)
    | _ => false
    end.
Proof.
  intros He. unfold GetInterfaces.
  assert (is_panic (getEnv environ) = false) as Hg by (unfold getEnv; by destruct environ).
  destruct f as [|e|s]; simpl; [|done|].
  - by destruct (getEnv environ).
  - destruct (parse_annotations_panics s) as [Hp Ho].
    destruct (parse_annotations s) as [a|e|w]; simpl in *; [|by rewrite <- Hp in Ho|done].
    rewrite <- Hp. by destruct (getEnv environ).
Qed.

End Annotations.

(** ** PCI addresses *)
Section Pci.
Context `{NetUtil}.

(** The interface is the device with this address. *)
Definition has_address (id : string) (d : InterfaceData) : bool :=
  match ns_DeviceInfo (netStatus d) with
  | Some info => same_address (di_Pci info) id || same_address (di_Vdpa info) id
  | None => false
  end.

(** [d'] is [d], with another type and perhaps the device it lacked. *)
Record same_network (d d' : InterfaceData) : Prop := mkSameNetwork {
  sn_Name : ns_Name (netStatus d') = ns_Name (netStatus d);
  sn_Interface : ns_Interface (netStatus d') = ns_Interface (netStatus d);
  sn_Default : ns_Default (netStatus d') = ns_Default (netStatus d);
  sn_Device i : ns_DeviceInfo (netStatus d) = Some i -> ns_DeviceInfo (netStatus d') = Some i
}.

#[local] Instance same_network_preorder : PreOrder same_network.
Proof.
  split; [by split|]. intros d1 d2 d3 [A1 A2 A3 A4] [B1 B2 B3 B4]. split; [congruence..|auto].
Qed.
#[local] Instance same_networks_preorder : PreOrder (Forall2 same_network).
Proof. split; apply _. Qed.

Lemma same_network_address id d d' :
  same_network d d' -> has_address id d = true -> has_address id d' = true.
Proof.
  intros [_ _ _ Hd]. unfold has_address. destruct (ns_DeviceInfo (netStatus d)) as [i|]; [|done].
  by rewrite (Hd i eq_refl).
Qed.

Lemma same_network_addresses id l l' :
  Forall2 same_network l l' -> existsb (has_address id) l = true -> existsb (has_address id) l' = true.
Proof.
  induction 1 as [|d d' l l' Hd _ IH]; simpl; [done|]. rewrite !orb_true_iff.
  intros [Ha|Ha]; [left|right; auto]. by eapply same_network_address.
Qed.

Lemma find_pci_spec id l :
  Forall2 same_network l (find_pci id l).2 /\
  ((find_pci id l).1 = true -> existsb (has_address id) l = true).
Proof.
  induction l as [|d l [IH1 IH2]]; simpl; [by split|].
  unfold has_address at 1. destruct (find_pci id l) as [found l']; simpl in *.
  destruct (ns_DeviceInfo (netStatus d)) as [i|]; simpl.
  - destruct (same_address (di_Pci i) id); simpl; [by split; [constructor|]|].
    destruct (same_address (di_Vdpa i) id); simpl; [by split; [constructor|]|].
    by split; [constructor|].
  - by split; [constructor|].
Qed.

(** The address is among those collected, or an interface has it. *)
Definition covered (id : string) (st : list string * list InterfaceData) : Prop :=
  id ∈ st.1 \/ existsb (has_address id) st.2 = true.

(** A step of the collection: addresses are added, interfaces keep their networks. *)
Definition extends (st st' : list string * list InterfaceData) : Prop :=
  st.1 ⊆ st'.1 /\ Forall2 same_network st.2 st'.2.

#[local] Instance extends_preorder : PreOrder extends.
Proof.
  split; [intros st; by split|]. intros st1 st2 st3 [A1 A2] [B1 B2]. split; [set_solver|]. by etrans.
Qed.

Lemma covered_extends id st st' : covered id st -> extends st st' -> covered id st'.
Proof.
  intros [Hc|Hc] [Hs Hn]; [left; set_solver|right]. by eapply same_network_addresses.
Qed.

Lemma add_id_spec st id : extends st (add_id st id) /\ covered id (add_id st id).
Proof.
  unfold add_id, extends, covered. destruct (find_pci_spec id st.2) as [Hn Hf].
  destruct (find_pci id st.2) as [[] l]; simpl in *.
  - split; [by split|right]. by eapply same_network_addresses; [|apply Hf].
  - split; [split; [set_solver|done]|left; set_solver].
Qed.

Lemma fold_extends {A} (f : list string * list InterfaceData -> A -> _) (l : list A) st :
  (forall st x, extends st (f st x)) -> extends st (fold_left f l st).
Proof.
  intros Hf. revert st. induction l as [|x l IH]; intros st; simpl; [done|].
  etrans; [apply Hf|apply IH].
Qed.

Lemma fold_covers {A} (f : list string * list InterfaceData -> A -> _) (l : list A) st x id :
  (forall st x, extends st (f st x)) -> x ∈ l -> (forall st, covered id (f st x)) ->
  covered id (fold_left f l st).
Proof.
  intros Hf Hx Hc. revert st. induction Hx as [l|x y l Hx IH]; intros st; simpl; [|by apply IH].
  eapply covered_extends; [apply Hc|]. by apply fold_extends.
Qed.

Lemma collect_pci_spec walk l :
  Forall2 same_network l (collect_pci walk l).2 /\
  forall k v id, (k, v) ∈ walk -> HasPrefix k "PCIDEVICE" = true -> id ∈ Split v "," ->
    covered id (collect_pci walk l).
Proof.
  unfold collect_pci. set (f := fun st '(k, v) => if HasPrefix k "PCIDEVICE" then _ else st).
  assert (forall st x, extends st (f st x)) as Hf.
  { intros st [k v]. unfold f. case_match; [|done]. apply fold_extends. intros. apply add_id_spec. }
  split; [by apply (fold_extends f walk ([], l) Hf)|].
  intros k v id Hin Hp Hid. apply (fold_covers f walk _ (k, v)); [done..|].
  intros st. unfold f. rewrite Hp. eapply fold_covers; [|exact Hid|]; intros; apply add_id_spec.
Qed.

(** Only an interface that came with a device may stay of unknown type. *)
Definition decided (d : InterfaceData) : Prop :=
  is_unknown d = true -> is_Some (ns_DeviceInfo (netStatus d)).

(** What the pass over the interfaces returns, started at address [i]. *)
Record assigned (pcis : list string) (i : Z) (l : list InterfaceData) (r : list InterfaceData * Z)
    : Prop := mkAssigned {
  as_networks : Forall2 same_network l r.1;
  as_index : i <= r.2 <= zlen pcis;
  as_given j addr : i <= j < r.2 -> pcis !! Z.to_nat j = Some addr ->
    existsb (has_address addr) r.1 = true;
  as_decided : Forall decided r.1
}.

Lemma same_address_refl a : same_address (Some a) a = true.
Proof. by apply bool_decide_eq_true. Qed.

Lemma assigned_nil pcis i : i <= zlen pcis -> assigned pcis i [] ([], i).
Proof. intros. split; simpl; [done|lia|lia|done]. Qed.

(** One interface in front, which takes the address at [i] or none. *)
Lemma assigned_cons pcis i k d d' l r :
  same_network d d' -> decided d' -> i <= k ->
  (forall addr, k = i + 1 -> pcis !! Z.to_nat i = Some addr -> has_address addr d' = true) ->
  k <= i + 1 -> assigned pcis k l r -> assigned pcis i (d :: l) (d' :: r.1, r.2).
Proof.
  intros Hs Hd Hik Hi Hk [A1 A2 A3 A4]. split; simpl; [by constructor|lia| |by constructor].
  intros j addr Hj Ha. apply orb_true_iff.
  destruct (decide (k <= j)); [right; by apply (A3 j); [lia|]|left].
  assert (j = i /\ k = i + 1) as [-> ->] by lia. by apply Hi.
Qed.

Lemma assign_types_spec `{!NetUtilLaws} pcis cnt i l :
  0 <= i <= zlen pcis -> assigned pcis i l (assign_types pcis cnt i l).
Proof.
  revert cnt i. induction l as [|d l IH]; intros cnt i Hi; [apply assigned_nil; lia|].
  assert (forall d' c k, 0 <= k <= zlen pcis ->
    (let '(l', n) := assign_types pcis c k l in (d' :: l', n)) =
    (d' :: (assign_types pcis c k l).1, (assign_types pcis c k l).2)) as Ego
    by (intros; by destruct (assign_types pcis c k l)).
  assert (decided (set_DeviceType INTERFACE_TYPE_HOST d)) as Hhost.
  { intros Hu%bool_decide_eq_true. by destruct type_unknown_host. }
  simpl. destruct (is_unknown d) eqn:Hu.
  - destruct (ns_Default (netStatus d) && (zlen pcis <? cnt)).
    + rewrite Ego by lia. by apply (assigned_cons pcis i i d); try lia; [..|by apply IH].
    + destruct (pcis !! Z.to_nat i) as [addr|] eqn:Ea.
      * apply lookup_lt_Some in Ea as Hlt. unfold zlen in *.
        destruct (ns_DeviceInfo (netStatus d)) as [info|] eqn:Ed.
        -- rewrite Ego by (unfold zlen; lia). apply (assigned_cons pcis i i d); try lia;
             [done|unfold decided; rewrite Ed; by eexists|by apply IH].
        -- rewrite Ego by (unfold zlen; lia). apply (assigned_cons pcis i (i + 1) d); try lia.
           ++ split; simpl; [done..|]. by rewrite Ed.
           ++ by intros _.
           ++ intros addr' _ E'. assert (addr' = addr) as -> by congruence. unfold has_address. simpl. apply orb_true_iff. left. apply same_address_refl.
           ++ apply IH. lia.
      * rewrite Ego by lia. by apply (assigned_cons pcis i i d); try lia; [..|by apply IH].
  - rewrite Ego by lia. apply (assigned_cons pcis i i d); try lia; [done| |by apply IH].
    intros Hu'. congruence.
Qed.

Lemma add_pci_covers `{!NetUtilLaws} walk l k v id :
  (k, v) ∈ walk -> HasPrefix k "PCIDEVICE" = true -> id ∈ Split v "," ->
  existsb (has_address id) (add_pci walk l) = true.
Proof.
  intros Hin Hp Hid. destruct (collect_pci_spec walk l) as [_ Hc].
  specialize (Hc k v id Hin Hp Hid). unfold add_pci. destruct (collect_pci walk l) as [pcis l1].
  pose proof (assign_types_spec pcis (count_unknown l1) 0 l1) as [A1 A2 A3 _]; [unfold zlen; lia|].
  destruct (assign_types _ _ _ l1) as [l2 n]; simpl in *. rewrite existsb_app. apply orb_true_iff.
  destruct Hc as [Hc|Hc]; [|left; by eapply same_network_addresses]. simpl in Hc.
  apply list_elem_of_lookup in Hc as [j Hj]. destruct (decide (Z.of_nat j < n)) as [Hlt|Hge].
  - left. apply (A3 (Z.of_nat j)); [lia|]. by rewrite Nat2Z.id.
  - right. apply existsb_exists. exists (new_interface id). split.
    + apply list_elem_of_In, list_elem_of_fmap_2, (list_elem_of_lookup_2 _ (j - Z.to_nat n)).
      rewrite lookup_drop. by replace (Z.to_nat n + (j - Z.to_nat n))%nat with j by lia.
    + unfold has_address. simpl. apply orb_true_iff. left. apply same_address_refl.
Qed.

(** The names of the networks and their interfaces, as the pairing parser reads them. *)
Definition networks (l : list InterfaceData) : list (string * string) :=
  (fun d => (ns_Name (netStatus d), ns_Interface (netStatus d))) <$> l.

Lemma same_networks l l' : Forall2 same_network l l' -> networks l' = networks l.
Proof.
  induction 1 as [|d d' l l' [E1 E2 _ _] _ IH]; csimpl; [done|]. by rewrite E1, E2, IH.
Qed.

Lemma net_map_unnamed l l' k :
  k <> "" -> Forall (fun x => x.1 = "") l' -> net_map (l ++ l') !! k = net_map l !! k.
Proof.
  intros Hk Hl. unfold net_map. rewrite fold_left_app. generalize (fold_left (fun (m : gmap string string) i => <[i.1 := i.2]> m) l ∅).
  induction Hl as [|[n i] l' En _ IH]; intros m; simpl in *; [done|].
  rewrite IH, En. by apply lookup_insert_ne.
Qed.

Lemma add_pci_keeps `{!NetUtilLaws} walk l :
  exists l' new, add_pci walk l = l' ++ new /\ Forall2 same_network l l' /\
    Forall (fun d => ns_Name (netStatus d) = "" /\ DeviceType d = INTERFACE_TYPE_SRIOV) new /\
    Forall decided (l' ++ new).
Proof.
  destruct (collect_pci_spec walk l) as [Hn _]. unfold add_pci.
  destruct (collect_pci walk l) as [pcis l1]. simpl in Hn.
  pose proof (assign_types_spec pcis (count_unknown l1) 0 l1) as [A1 _ _ A4]; [unfold zlen; lia|].
  destruct (assign_types _ _ _ l1) as [l2 n]; simpl in *.
  eexists l2, _. split; [done|]. split; [by etrans|]. split.
  - apply Forall_fmap, Forall_true. by intros addr.
  - apply Forall_app. split; [done|]. apply Forall_fmap, Forall_true. intros addr _. by eexists.
Qed.

(** The order [range] visits the environment in. *)
Definition walks (walk : gmap string string -> list (string * string)) : Prop :=
  forall m, walk m ≡ₚ map_to_list m.

Lemma GetInterfaces_Ok f environ walk r :
  GetInterfaces f environ walk = Ok r ->
  exists l env, annotated f = Ok l /\ getEnv environ = Ok env /\ r = add_pci (walk env) l.
Proof.
  unfold GetInterfaces. intros (l & El & E)%bind_outcome_Ok_inv.
  apply bind_outcome_Ok_inv in E as (env & Ee & [= <-]). by exists l, env.
Qed.

(** C37: no PCI address gets lost: each address listed by an environment
    variable [PCIDEVICE...] is, when [GetInterfaces] returns, the address of
    one of the interfaces (up to letter case), be it one of the annotations
    that had it, one of unknown type that was given it, or one added for it,
    in whatever order the environment is visited. *)
Theorem pci_addresses_covered `{!NetUtilLaws} f environ walk r env k v id :
  walks walk -> GetInterfaces f environ walk = Ok r -> getEnv environ = Ok env ->
  env !! k = Some v -> HasPrefix k "PCIDEVICE" = true -> id ∈ Split v "," ->
  existsb (has_address id) r = true.
Proof.
  intros Hw (l & env' & _ & Ee & ->)%GetInterfaces_Ok He Hk Hp Hid.
  assert (env' = env) as -> by congruence. apply (add_pci_covers _ _ k v); [|done..].
  rewrite (Hw env). by apply elem_of_map_to_list.
Qed.

(** What [GetInterfaces] does to the interfaces of the annotations: they
    come first, in their order, each with its name, interface and device; what
    is added behind them has no name and is an SR-IOV device; none is left of
    unknown type unless it came with a device; and so a network of the
    annotations resolves to the same interface as before the environment was
    looked at. *)
Lemma annotated_interfaces_kept `{!NetUtilLaws} f environ walk r :
  GetInterfaces f environ walk = Ok r ->
  exists l l' new, annotated f = Ok l /\ r = l' ++ new /\ Forall2 same_network l l' /\
    Forall (fun d => ns_Name (netStatus d) = "" /\ DeviceType d = INTERFACE_TYPE_SRIOV) new /\
    Forall decided r /\
    forall k, k <> "" -> net_map (networks r) !! k = net_map (networks l) !! k.
Proof.
  intros (l & env & El & _ & ->)%GetInterfaces_Ok.
  destruct (add_pci_keeps (walk env) l) as (l' & new & E & Hs & Hn & Hd).
  exists l, l', new. rewrite E. split_and!; try done. intros k Hk.
  unfold networks at 1. rewrite fmap_app. fold (networks l') (networks new).
  rewrite (same_networks _ _ Hs). apply net_map_unnamed; [done|].
  apply Forall_fmap. eapply Forall_impl; [exact Hn|]. by intros d [? _].
Qed.
End Pci.

(** ** The environment *)

Lemma split_terminated c xs :
  Forall (fun x => c ∉ x) xs ->
  split_chars [c] (concat ((fun x => x ++ [c]) <$> xs)) [] 0 = xs ++ [[]].
Proof.
  induction 1 as [|x xs Hx _ IH]; csimpl; [done|].
  rewrite <- app_assoc. simpl. rewrite split_chars_at, IH by done. by rewrite reverse_nil.
Qed.

Lemma terminated_shape (c : ascii) x xs :
  exists y, concat ((fun x => x ++ [c]) <$> (x :: xs)) = x ++ y ++ [c].
Proof.
  revert x. induction xs as [|x' xs IH]; intros x; [exists []; csimpl; by rewrite app_nil_r|].
  destruct (IH x') as [y E]. exists ([c] ++ x' ++ y). rewrite (fmap_cons _ x (x' :: xs)), concat_cons, E. by rewrite <- !app_assoc.
Qed.

Lemma terminated_free (c d : ascii) xs :
  c <> d -> Forall (fun x => c ∉ x) xs -> c ∉ concat ((fun x => x ++ [d]) <$> xs).
Proof.
  intros Hcd. induction 1 as [|x xs Hx _ IH]; csimpl; [apply not_elem_of_nil|].
  rewrite !not_elem_of_app, list_elem_of_singleton. by split_and!.
Qed.

Lemma trim_both_id f c l d : f c = false -> f d = false -> trim_both f (c :: l ++ [d]) = c :: l ++ [d].
Proof.
  intros Hc Hd. unfold trim_both. simpl. rewrite Hc. rewrite app_comm_cons, reverse_snoc. simpl.
  rewrite Hd. by rewrite reverse_cons, reverse_involutive.
Qed.

Lemma pieces_one l : nl ∉ l -> l <> [] -> pieces l = [l].
Proof.
  intros Hn Hl. unfold pieces. rewrite split_chars_none by done. rewrite reverse_nil. simpl.
  by destruct l.
Qed.

Lemma dropCR_last l c : c <> cr -> dropCR (l ++ [c]) = l ++ [c].
Proof. intros Hc. unfold dropCR. rewrite reverse_snoc. by rewrite decide_False. Qed.

(** A variable as the kernel shows it, and the file of a process. *)
Definition environ_entry (kv : string * string) : list ascii := chars kv.1 ++ "="%char :: chars kv.2.
Definition environ_of (vars : list (string * string)) : string :=
  str (concat ((fun x => x ++ [nul]) <$> (environ_entry <$> vars))).

(** A name, which does not begin with white space, and a value, free of the
    characters that delimit them. *)
Definition var_ok (kv : string * string) : Prop :=
  (match chars kv.1 with c :: _ => is_space c = false | [] => False end) /\
  Forall (fun c => c <> nl /\ c <> nul /\ c <> "="%char) (chars kv.1 ++ chars kv.2).

Lemma var_free c kv :
  var_ok kv -> c = nl \/ c = nul \/ c = "="%char -> (c ∉ chars kv.1) /\ (c ∉ chars kv.2).
Proof.
  intros [_ Hf] Hc. rewrite <- not_elem_of_app. intros Hin.
  rewrite Forall_forall in Hf. apply Hf in Hin as (?&?&?). intuition congruence.
Qed.

Lemma environ_entry_free kv : var_ok kv -> (nl ∉ environ_entry kv) /\ (nul ∉ environ_entry kv).
Proof.
  intros Hv. destruct (var_free nl kv Hv) as [? ?]; [auto|]. destruct (var_free nul kv Hv) as [? ?]; [auto|].
  unfold environ_entry. rewrite !not_elem_of_app, !not_elem_of_cons. by split_and!.
Qed.

Lemma env_entry_insert m kv : var_ok kv -> env_entry m (str (environ_entry kv)) = <[kv.1 := kv.2]> m.
Proof.
  intros Hv. destruct (var_free "="%char kv Hv) as [Nk Nv]; [auto|].
  unfold env_entry, Split. rewrite chars_str. unfold environ_entry.
  change (chars "=") with ["="%char]. rewrite split_chars_at, split_chars_none by done.
  rewrite reverse_nil. csimpl. by rewrite !str_chars.
Qed.

Lemma fold_env_entries m vars :
  Forall var_ok vars ->
  fold_left env_entry (str <$> ((environ_entry <$> vars) ++ [[]])) m =
  fold_left (fun m kv => <[kv.1 := kv.2]> m) vars m.
Proof.
  intros Hv. revert m. induction Hv as [|kv vars Hkv _ IH]; intros m; csimpl; [done|].
  by rewrite env_entry_insert, IH.
Qed.

Lemma fold_inserts_NoDup (vars : list (string * string)) (m : gmap string string) :
  NoDup vars.*1 -> fold_left (fun m kv => <[kv.1 := kv.2]> m) vars m = list_to_map vars ∪ m.
Proof.
  revert m. induction vars as [|[k v] vars IH]; intros m; csimpl; [by rewrite (left_id_L ∅ (∪))|].
  intros [Hn Hd]%NoDup_cons. rewrite IH by done. simpl.
  rewrite <- insert_union_r by (by apply not_elem_of_list_to_map). by rewrite insert_union_l.
Qed.

(** C38: the environment of the process, whatever its variables (with distinct
    names, and no newline or second equals sign in their texts): [getEnv]
    returns exactly those variables when the file is shorter than 64 KiB, and
    no variable at all, without an error, when it is not: the file is one line
    for the scanner, whose error is not looked at. *)
Theorem environment_read vars :
  Forall var_ok vars -> NoDup vars.*1 ->
  getEnv (Ok (environ_of vars)) =
    Ok (if maxScanTokenSize <=? zlen (chars (environ_of vars)) then ∅ else list_to_map vars).
Proof.
  intros Hv Hd. unfold getEnv. simpl. f_equal.
  destruct vars as [|[k v] vars]; [done|]. unfold environ_of in *. set (vs := (k, v) :: vars) in *.
  assert (Forall (fun x => (nl ∉ x) /\ (nul ∉ x)) (environ_entry <$> vs)) as [Hnl Hnul]%Forall_and.
  { apply Forall_fmap. eapply Forall_impl; [exact Hv|]. intros kv. apply environ_entry_free. }
  pose proof (terminated_free nl nul _ ltac:(done) Hnl) as Hfree.
  destruct (terminated_shape nul (environ_entry (k, v)) (environ_entry <$> vars)) as [y Ey].
  rewrite <- fmap_cons in Ey. fold vs in Ey.
  assert (exists c l, concat ((fun x => x ++ [nul]) <$> (environ_entry <$> vs)) = c :: l ++ [nul] /\
    is_space c = false) as (c & l & El & Hc).
  { apply Forall_cons in Hv as [[Hc _] _]. simpl in Hc. destruct (chars k) as [|c ck] eqn:Ek; [done|].
    exists c, (ck ++ "="%char :: chars v ++ y). split; [|done]. rewrite Ey. unfold environ_entry.
    cbn [fst snd]. rewrite Ek. by rewrite <- !app_assoc; simpl; rewrite <- !app_assoc. }
  pose proof (split_terminated nul (environ_entry <$> vs) Hnul) as Es.
  unfold scan_lines. rewrite chars_str.
  revert Hfree El Es. generalize (concat ((fun x => x ++ [nul]) <$> (environ_entry <$> vs))).
  intros L Hfree -> Es. rewrite pieces_one by done. cbn [scan].
  destruct (maxScanTokenSize <=? zlen (c :: l ++ [nul])); [done|]. cbn [fold_left].
  rewrite app_comm_cons, dropCR_last, <- app_comm_cons by done.
  unfold TrimSpace. rewrite chars_str, trim_both_id by done.
  unfold Split. change (chars (String nul "")) with [nul]. rewrite chars_str, Es.
  rewrite fold_env_entries, fold_inserts_NoDup by done. apply (right_id_L ∅ (∪)).
Qed.

(** ** Concrete files

    Annotations whose key is [network] name an interface each. *)
#[local] Instance demo_NetUtil : NetUtil := {|
  INTERFACE_TYPE_UNKNOWN := "unknown";
  INTERFACE_TYPE_HOST := "host";
  INTERFACE_TYPE_SRIOV := "sriov";
  DeviceInfoTypePCI := "pci";
  DeviceInfoVersion := "1.0.0";
  NetStatData := list string;
  netStatData0 := [];
  networkstatus_ParseAnnotations k v l := if decide (k = "network") then l ++ [v] else l;
  networkstatus_AppendInterfaceData names l :=
    l ++ ((fun n => mkInterfaceData "unknown" (mkNetworkStatus ("default/" +:+ n) n false None)) <$> names);
  UserspacePlugin := unit;
  usrspData0 := ();
  userplugin_ParseAnnotations _ _ u := u;
  userplugin_AppendInterfaceData _ l := l
|}.

#[local] Instance demo_NetUtilLaws : NetUtilLaws.
Proof. by split. Qed.

Definition demo_line_end : string := str [nl].
Definition demo_annotations : file :=
  Content ("network=" +:+ quoted "net1" +:+ demo_line_end +:+ "note=" +:+ quoted "a=b" +:+ demo_line_end).
Definition demo_vars : list (string * string) :=
  [("HOME", "/root"); ("PCIDEVICE_NET", "0000:af:06.0,0000:af:06.1")].
Definition demo_env_walk (m : gmap string string) : list (string * string) := map_to_list m.
Definition demo_response : list InterfaceData :=
  ok_or [] (GetInterfaces demo_annotations (Ok (environ_of demo_vars)) demo_env_walk).

Example demo_response_value :
  demo_response =
    [mkInterfaceData "sriov" (mkNetworkStatus "default/net1" "net1" false (Some (pci_device "0000:af:06.0")));
     new_interface "0000:af:06.1"].
Proof. vm_compute. reflexivity. Qed.

Lemma demo_response_ok :
  GetInterfaces demo_annotations (Ok (environ_of demo_vars)) demo_env_walk = Ok demo_response.
Proof. apply ok_or_eq. vm_compute. reflexivity. Qed.

Lemma GetInterfaces_panics_iff_witness :
  is_panic (GetInterfaces (Content "note=x") (Ok "") demo_env_walk) = true /\
  is_panic (GetInterfaces demo_annotations (Ok "") demo_env_walk) = false.
Proof.
  pose proof (fun f => GetInterfaces_panics_iff f (Ok "") demo_env_walk eq_refl) as Hx.
  split; [etransitivity; [apply (Hx (Content "note=x"))|]|etransitivity; [apply (Hx demo_annotations)|]];
    vm_compute; reflexivity.
Defined.

Lemma demo_getEnv : getEnv (Ok (environ_of demo_vars)) = Ok (list_to_map demo_vars).
Proof. vm_compute. reflexivity. Qed.

Lemma pci_addresses_covered_witness : existsb (has_address "0000:af:06.1") demo_response = true.
Proof.
  apply (pci_addresses_covered demo_annotations (Ok (environ_of demo_vars)) demo_env_walk demo_response
    (list_to_map demo_vars) "PCIDEVICE_NET" "0000:af:06.0,0000:af:06.1").
  - intros m. reflexivity.
  - exact demo_response_ok.
  - exact demo_getEnv.
  - reflexivity.
  - reflexivity.
  - apply (bool_decide_unpack _). vm_compute. exact I.
Defined.

Definition long_var : string * string := ("A", str (replicate (Z.to_nat 65533) "b"%char)).

Lemma long_var_ok : var_ok long_var.
Proof.
  split; [reflexivity|]. unfold long_var. cbn [fst snd]. rewrite chars_str. apply Forall_cons_2; [done|].
  by apply Forall_replicate.
Qed.

Lemma environ_of_one kv : chars (environ_of [kv]) = environ_entry kv ++ [nul].
Proof. unfold environ_of. rewrite chars_str. csimpl. by rewrite app_nil_r. Qed.

Lemma environment_read_witness :
  getEnv (Ok (environ_of demo_vars)) = Ok (list_to_map demo_vars) /\
  getEnv (Ok (environ_of [long_var])) = Ok ∅.
Proof.
  split; (etransitivity; [apply environment_read|]).
  - repeat (apply Forall_cons_2; [split; [reflexivity|]|]); [..|apply Forall_nil_2];
      apply (bool_decide_unpack _); vm_compute; exact I.
  - apply (bool_decide_unpack _). vm_compute. exact I.
  - vm_compute. reflexivity.
  - apply Forall_cons_2; [exact long_var_ok|apply Forall_nil_2].
  - apply (bool_decide_unpack _). vm_compute. exact I.
  - assert ((maxScanTokenSize <=? zlen (chars (environ_of [long_var]))) = true) as ->; [|reflexivity].
    rewrite environ_of_one. unfold environ_entry, long_var, zlen, maxScanTokenSize. cbn [fst snd].
    rewrite chars_str, !length_app. cbn [length]. rewrite length_replicate.
    change (length (chars "A")) with 1%nat. apply Z.leb_le. lia.
Defined.
