(* ===== verification/AddressText.v ===== *)
(** * Addresses as text, and the interfaces of the kernel

    [net.ParseIP] reads back what [IP.String] writes, IPv4 and IPv6, so the
    addresses [GetNetInterfaces] hands out are classified by [IsIPv4] and
    [IsIPv6] as what they are. *)
From S2P Require Import Prelude GoInt Strconv GoStrings Net Interfaces.
From Stdlib Require Import Ascii.
#[local] Open Scope Z_scope.
Import net.

Definition dot : ascii := "."%char.
Definition colon : ascii := ":"%char.

(** ** Reading numbers *)

(** The text that follows a number does not continue it. *)
Definition stops (val : ascii -> option Z) (rest : list ascii) : Prop :=
  match rest with [] => True | c :: _ => val c = None end.

Lemma toi_app val base ds rest n seen m :
  toi val base ds n seen = Some (m, []) -> stops val rest ->
  toi val base (ds ++ rest) n seen = Some (m, rest).
Proof.
  revert n seen. induction ds as [|c ds IH]; intros n seen E Hs; simpl in *.
  - destruct seen; [|done]. injection E as ->. destruct rest as [|c rest]; [done|].
    simpl in *. by rewrite Hs.
  - destruct (val c) as [v|]; [|by destruct seen].
    destruct (big <=? n * base + v); [done|]. by apply IH.
Qed.

(** Numbers of one byte in decimal and of two in hexadecimal, by evaluation. *)
Definition no_separator (l : list ascii) : bool :=
  forallb (fun c => bool_decide (c <> dot /\ c <> colon)) l.
Definition byte_text_ok (b : Z) : bool :=
  bool_decide (dtoi (chars (Itoa b)) = Some (b, [])) && no_separator (chars (Itoa b)).
Lemma byte_texts : forallb byte_text_ok (seqZ 0 256) = true.
Proof. vm_compute. reflexivity. Qed.
Definition digit_ok (d : Z) : bool :=
  bool_decide (hex_val (hex_digit d) = Some d) && no_separator [hex_digit d].
Lemma hex_digits : forallb digit_ok (seqZ 0 16) = true.
Proof. vm_compute. reflexivity. Qed.

Lemma forallb_seqZ (f : Z -> bool) n : forallb f (seqZ 0 n) = true -> forall i, 0 <= i < n -> f i = true.
Proof.
  intros Hf i Hi. eapply forallb_forall; [exact Hf|]. apply list_elem_of_In, elem_of_seqZ. lia.
Qed.

Definition is_byte (b : Z) : Prop := 0 <= b < 256.
Definition is_group (g : Z) : Prop := 0 <= g < 65536.

Lemma no_separator_spec l : no_separator l = true -> (dot ∉ l) /\ (colon ∉ l).
Proof.
  unfold no_separator. rewrite forallb_forall. intros Hf.
  split; intros Hin%list_elem_of_In%Hf; apply bool_decide_eq_true in Hin; tauto.
Qed.

Lemma byte_text b :
  is_byte b ->
  (forall rest, stops dec_val rest -> dtoi (chars (Itoa b) ++ rest) = Some (b, rest)) /\
  (dot ∉ chars (Itoa b)) /\ (colon ∉ chars (Itoa b)).
Proof.
  intros Hb. pose proof (forallb_seqZ _ _ byte_texts b Hb) as [E Hn]%andb_true_iff.
  apply bool_decide_eq_true in E. split; [|by apply no_separator_spec].
  intros rest Hs. by apply toi_app.
Qed.

Lemma hex_digit_spec d : 0 <= d < 16 -> hex_val (hex_digit d) = Some d /\ no_separator [hex_digit d] = true.
Proof.
  intros Hd. pose proof (forallb_seqZ _ _ hex_digits d Hd) as [E Hn]%andb_true_iff.
  by apply bool_decide_eq_true in E.
Qed.

Lemma xtoi_utox fuel n acc :
  0 <= n < 16 ^ Z.of_nat fuel -> n < big -> (0 < fuel)%nat ->
  toi hex_val 16 (utox fuel n acc) 0 false = toi hex_val 16 acc n true.
Proof.
  revert n acc. induction fuel as [|fuel IH]; intros n acc Hn Hb Hf; [lia|]. cbn [utox].
  assert (0 <= n `mod` 16 < 16) as Hm by (apply Z.mod_pos_bound; lia).
  destruct (hex_digit_spec _ Hm) as [Ed _]. destruct (Z.ltb_spec n 16).
  - cbn [toi]. rewrite Ed, Z.mod_small by lia. destruct (Z.leb_spec big (0 * 16 + n)); [lia|done].
  - assert (0 <= n / 16 < n) by (split; [apply Z.div_pos|apply Z.div_lt]; lia).
    pose proof (Z.div_mod n 16 ltac:(lia)) as En.
    assert (0 < fuel)%nat by (destruct fuel; [simpl in Hn; lia|lia]).
    rewrite IH; [|split; [lia|]|lia|done].
    + cbn [toi]. rewrite Ed. replace (n / 16 * 16 + n `mod` 16) with n by lia.
      destruct (Z.leb_spec big n); [lia|done].
    + rewrite Nat2Z.inj_succ, Z.pow_succ_r in Hn by lia. apply Z.div_lt_upper_bound; lia.
Qed.

Lemma utox_no_separator fuel n acc :
  no_separator acc = true -> no_separator (utox fuel n acc) = true.
Proof.
  revert n acc. induction fuel as [|fuel IH]; intros n acc Ha; [done|]. cbn [utox].
  assert (no_separator (hex_digit (n `mod` 16) :: acc) = true) as Hd.
  { destruct (hex_digit_spec (n `mod` 16)) as [_ Hd]; [apply Z.mod_pos_bound; lia|].
    unfold no_separator in *. simpl in *. rewrite andb_true_r in Hd. by rewrite Hd. }
  case_match; [done|]. by apply IH.
Qed.

Lemma group_text g :
  is_group g ->
  (forall rest, stops hex_val rest -> xtoi (hex g ++ rest) = Some (g, rest)) /\
  (dot ∉ hex g) /\ (colon ∉ hex g) /\ (exists c l, hex g = c :: l).
Proof.
  intros Hg. unfold is_group in Hg.
  assert (xtoi (hex g) = Some (g, [])) as E.
  { unfold xtoi, hex. rewrite xtoi_utox; [done|simpl; lia|unfold big; lia|lia]. }
  destruct (no_separator_spec (hex g)) as [Hd Hc]; [by apply utox_no_separator|]. split_and!; [|done..|].
  - intros rest Hs. by apply toi_app.
  - destruct (hex g) as [|c l]; [done|]. by exists c, l.
Qed.

(** ** IPv4 *)

Definition v4_text (l : list Z) : list ascii := join [dot] ((fun b => chars (Itoa b)) <$> l).

Lemma parseIPv4_octets_first k s : parseIPv4_octets (S k) false (dot :: s) = parseIPv4_octets (S k) true s.
Proof. reflexivity. Qed.

Lemma parseIPv4_octets_S k s b rest :
  dtoi s = Some (b, rest) -> is_byte b ->
  parseIPv4_octets (S k) true s = match parseIPv4_octets k false rest with
                                  | None => None | Some p => Some (b :: p) end.
Proof.
  intros E Hb. cbn [parseIPv4_octets]. rewrite E. unfold is_byte in Hb.
  destruct (Z.ltb_spec 255 b); [lia|done].
Qed.

Lemma parseIPv4_text l :
  l <> [] -> Forall is_byte l -> parseIPv4_octets (length l) true (v4_text l) = Some l.
Proof.
  intros Hne Hl. induction Hl as [|b l Hb Hl IH]; [done|]. destruct (byte_text b Hb) as (Hd & _ & _).
  destruct l as [|b' l].
  - specialize (Hd [] I). rewrite app_nil_r in Hd. change (v4_text [b]) with (chars (Itoa b)).
    change (length [b]) with 1%nat. by rewrite (parseIPv4_octets_S _ _ _ _ Hd).
  - change (v4_text (b :: b' :: l)) with (chars (Itoa b) ++ dot :: v4_text (b' :: l)).
    change (length (b :: b' :: l)) with (S (length (b' :: l))).
    rewrite (parseIPv4_octets_S _ _ b (dot :: v4_text (b' :: l))) by (done || by apply Hd).
    change (length (b' :: l)) with (S (length l)) in *. rewrite parseIPv4_octets_first.
    by rewrite IH.
Qed.

(** [ParseIP] decides by the first separator. *)
Lemma ParseIP_scan_at whole x c y :
  (dot ∉ x) -> (colon ∉ x) ->
  (c = dot -> ParseIP_scan whole (x ++ c :: y) = parseIPv4 whole) /\
  (c = colon -> ParseIP_scan whole (x ++ c :: y) = parseIPv6 whole).
Proof.
  intros Hd Hc. assert (ParseIP_scan whole (x ++ c :: y) = ParseIP_scan whole (c :: y)) as ->.
  { induction x as [|d x IH]; [done|]. apply not_elem_of_cons in Hd as [Hd Hdx].
    apply not_elem_of_cons in Hc as [Hc Hcx]. rewrite <- IH by done. simpl.
    destruct d as [[] [] [] [] [] [] [] []]; try done; by exfalso; (apply Hd || apply Hc). }
  by split; intros ->.
Qed.

Lemma ParseIP_v4 l : length l = 4%nat -> Forall is_byte l -> ParseIP (str (v4_text l)) = Some l.
Proof.
  intros Hlen Hl. unfold ParseIP. fold (chars (str (v4_text l))). rewrite chars_str.
  destruct l as [|b [|b' l]]; [done..|]. pose proof Hl as [Hb _]%Forall_cons.
  destruct (byte_text b Hb) as (_ & Hd & Hc). unfold v4_text at 2. csimpl.
  rewrite (proj1 (ParseIP_scan_at _ _ dot _ Hd Hc)) by done. unfold parseIPv4.
  by rewrite <- Hlen, parseIPv4_text.
Qed.

(** ** IPv6 *)

Definition v6_text (gs : list Z) : list ascii := join [colon] (hex <$> gs).
Definition group_bytes (gs : list Z) : list Z := concat ((fun g => [g / 256; g `mod` 256]) <$> gs).

Lemma length_group_bytes gs : length (group_bytes gs) = (2 * length gs)%nat.
Proof. unfold group_bytes. induction gs as [|g gs IH]; csimpl; lia. Qed.

Lemma v6_text_head g gs :
  is_group g -> exists c l, v6_text (g :: gs) = c :: l /\ c <> colon.
Proof.
  intros Hg. destruct (group_text g Hg) as (_ & _ & Hn & c & l & E). unfold v6_text.
  exists c. rewrite E in Hn. apply not_elem_of_cons in Hn as [Hn _].
  destruct gs as [|g' gs]; csimpl; rewrite E; simpl; by eexists.
Qed.

(** The loop over the groups behind an ellipsis, or when there is none. *)
Lemma parseIPv6_loop_tail fuel gs ip ell :
  gs <> [] -> Forall is_group gs -> (length gs <= fuel)%nat ->
  parseIPv6_loop fuel (v6_text gs) ip ell = Some ([], ip ++ group_bytes gs, ell).
Proof.
  revert gs ip. induction fuel as [|fuel IH]; intros gs ip Hne Hg Hl; [destruct gs; [done|simpl in *; lia]|].
  destruct gs as [|g gs]; [done|]. apply Forall_cons in Hg as [Hg Hgs].
  destruct (group_text g Hg) as (Hx & _). assert ((65535 <? g) = false) as Eg by (unfold is_group in Hg; lia).
  destruct gs as [|g' gs].
  - unfold v6_text. csimpl. specialize (Hx []). rewrite app_nil_r in Hx. rewrite Hx, Eg by done. done.
  - change (v6_text (g :: g' :: gs)) with (hex g ++ (colon :: v6_text (g' :: gs))).
    cbn [parseIPv6_loop]. rewrite Hx, Eg by done. rewrite decide_False by done.
    pose proof Hgs as [Hg' _]%Forall_cons. destruct (v6_text_head g' gs Hg') as (c & l & El & Hc).
    rewrite decide_False by (rewrite El; intros [?|?]; done).
    simpl in Hl. specialize (IH (g' :: gs) (ip ++ [g / 256; g `mod` 256]) ltac:(done) Hgs ltac:(simpl; lia)).
    rewrite El in *. transitivity (parseIPv6_loop fuel (c :: l) (ip ++ [g / 256; g `mod` 256]) ell).
    + by destruct c as [[] [] [] [] [] [] [] []].
    + rewrite IH. unfold group_bytes. csimpl. by rewrite <- app_assoc.
Qed.

(** The loop over the groups in front of the ellipsis. *)
Lemma parseIPv6_loop_head fuel gs t ip :
  gs <> [] -> Forall is_group gs -> (length gs <= fuel)%nat ->
  parseIPv6_loop fuel (v6_text gs ++ colon :: colon :: t) ip None =
    let ip' := ip ++ group_bytes gs in
    if decide (t = []) then Some ([], ip', Some (length ip'))
    else parseIPv6_loop (fuel - length gs) t ip' (Some (length ip')).
Proof.
  revert gs ip. induction fuel as [|fuel IH]; intros gs ip Hne Hg Hl; [destruct gs; [done|simpl in *; lia]|].
  destruct gs as [|g gs]; [done|]. apply Forall_cons in Hg as [Hg Hgs].
  destruct (group_text g Hg) as (Hx & _). assert ((65535 <? g) = false) as Eg by (unfold is_group in Hg; lia).
  destruct gs as [|g' gs].
  - change (v6_text [g]) with (hex g). cbn [parseIPv6_loop]. rewrite Hx, Eg by done.
    rewrite decide_False by done. rewrite decide_False by (intros [?|?]; done). simpl.
    by rewrite Nat.sub_0_r.
  - change (v6_text (g :: g' :: gs)) with (hex g ++ (colon :: v6_text (g' :: gs))).
    rewrite <- app_assoc. cbn [app parseIPv6_loop]. rewrite Hx, Eg by done. rewrite decide_False by done.
    pose proof Hgs as [Hg' _]%Forall_cons. destruct (v6_text_head g' gs Hg') as (c & l & El & Hc).
    rewrite decide_False by (rewrite El; intros [?|?]; done).
    simpl in Hl. specialize (IH (g' :: gs) (ip ++ [g / 256; g `mod` 256]) ltac:(done) Hgs ltac:(simpl; lia)).
    rewrite El in *. transitivity (parseIPv6_loop fuel (c :: l ++ colon :: colon :: t) (ip ++ [g / 256; g `mod` 256]) None).
    + by destruct c as [[] [] [] [] [] [] [] []].
    + simpl in IH. rewrite IH. unfold group_bytes. csimpl. by rewrite <- app_assoc.
Qed.

(** *** The elided run *)

Lemma zeros_split l : l = replicate (zeros l) 0 ++ drop (zeros l) l.
Proof.
  induction l as [|g l IH]; simpl; [done|]. destruct (Z.eqb_spec g 0); simpl; [|done].
  subst. by f_equal.
Qed.

(** A position and a length that stand for zero groups of [gs]. *)
Definition zero_run (gs : list Z) (r : nat * nat) : Prop :=
  r.2 = 0%nat \/ gs = take r.1 gs ++ replicate r.2 0 ++ drop (r.1 + r.2) gs.

Lemma longest_run_zero gs i l best :
  drop i gs = l -> zero_run gs best -> zero_run gs (longest_run i l best).
Proof.
  revert i best. induction l as [|g l IH]; intros i best El Hb; [done|]. cbn [longest_run].
  apply IH.
  - by rewrite <- Nat.add_1_r, <- drop_drop, El.
  - case_match; [|done]. right. cbn [fst snd]. rewrite <- drop_drop, El, <- zeros_split, <- El. by rewrite take_drop.
Qed.

Lemma Z_lor_shiftl_byte a b : is_byte a -> is_byte b -> Z.lor (Z.shiftl a 8) b = a * 256 + b.
Proof.
  unfold is_byte. intros Ha Hb. rewrite <- Z.add_nocarry_lor.
  - rewrite Z.shiftl_mul_pow2 by lia. lia.
  - apply Z.bits_inj'. intros n Hn. rewrite Z.land_spec, Z.shiftl_spec, Z.bits_0 by lia.
    destruct (Z.ltb_spec n 8); [rewrite Z.testbit_neg_r by lia; done|].
    apply andb_false_iff. right. destruct (decide (b = 0)) as [->|]; [apply Z.bits_0|].
    apply Z.bits_above_log2; [lia|]. apply Z.log2_lt_pow2; [lia|].
    assert (2 ^ 8 <= 2 ^ n) by (apply Z.pow_le_mono_r; lia). lia.
Qed.

Lemma groups_spec ip k :
  length ip = (2 * k)%nat -> Forall is_byte ip ->
  length (groups ip) = k /\ Forall is_group (groups ip) /\ group_bytes (groups ip) = ip.
Proof.
  revert ip. induction k as [|k IH]; intros ip Hl Hb; [by destruct ip|].
  destruct ip as [|a [|b ip]]; simpl in Hl; [lia..|].
  apply Forall_cons in Hb as [Ha Hb]. apply Forall_cons in Hb as [Hb Hip].
  destruct (IH ip) as (L & G & E); [lia|done|]. cbn [groups].
  rewrite Z_lor_shiftl_byte by done. unfold is_byte in *. split_and!.
  - simpl. by rewrite L.
  - constructor; [unfold is_group; lia|done].
  - unfold group_bytes in *. csimpl. rewrite E.
    rewrite Z.div_add_l, Z.div_small, Z.add_0_r by lia. do 2 f_equal.
    rewrite Z.add_comm, Z_mod_plus_full. by apply Z.mod_small.
Qed.

Lemma parseIPv6_start c l :
  c <> colon -> parseIPv6 (c :: l) = parseIPv6_end (parseIPv6_loop 8 (c :: l) [] None).
Proof. intros Hc. by destruct c as [[] [] [] [] [] [] [] []]. Qed.

(** An ellipsis at [e] that stands for [n] groups. *)
Lemma parseIPv6_end_gap ip e n :
  (0 < n)%nat -> (length ip + 2 * n = 16)%nat ->
  parseIPv6_end (Some ([], ip, Some e)) = Some (take e ip ++ replicate (2 * n) 0 ++ drop e ip).
Proof.
  intros Hn Hl. unfold parseIPv6_end. rewrite decide_False by (intros Hx; by apply Hx).
  rewrite decide_True by lia. by replace (16 - length ip)%nat with (2 * n)%nat by lia.
Qed.

Lemma parseIPv6_plain gs :
  length gs = 8%nat -> Forall is_group gs -> parseIPv6 (v6_text gs) = Some (group_bytes gs).
Proof.
  intros Hl Hg. assert (gs <> []) as Hne by (by intros ->).
  pose proof (parseIPv6_loop_tail 8 gs [] None Hne Hg ltac:(lia)) as E.
  destruct gs as [|g gs]; [done|]. pose proof Hg as [Hg1 _]%Forall_cons.
  destruct (v6_text_head g gs Hg1) as (c & l & El & Hc). rewrite El in *.
  rewrite parseIPv6_start, E by done. unfold parseIPv6_end.
  rewrite decide_False by (intros Hn; by apply Hn).
  by rewrite decide_False by (cbn [app]; rewrite length_group_bytes, Hl; lia).
Qed.

Lemma group_bytes_app gs gs' : group_bytes (gs ++ gs') = group_bytes gs ++ group_bytes gs'.
Proof. unfold group_bytes. by rewrite fmap_app, concat_app. Qed.

Lemma group_bytes_zeros n : group_bytes (replicate n 0) = replicate (2 * n) 0.
Proof.
  induction n as [|n IH]; [done|]. replace (2 * S n)%nat with (S (S (2 * n))) by lia.
  cbn [replicate]. rewrite <- IH. reflexivity.
Qed.

Lemma parseIPv6_elided h n t :
  (0 < n)%nat -> (length h + n + length t = 8)%nat -> Forall is_group h -> Forall is_group t ->
  parseIPv6 (v6_text h ++ colon :: colon :: v6_text t) = Some (group_bytes (h ++ replicate n 0 ++ t)).
Proof.
  intros Hn Hl Hh Ht. rewrite !group_bytes_app, group_bytes_zeros.
  assert (forall g gs ip ell, t = g :: gs -> (length h <= 8)%nat ->
    parseIPv6_loop (8 - length h) (v6_text t) ip ell = Some ([], ip ++ group_bytes t, ell)) as Htail.
  { intros g gs ip ell -> Hh8. apply parseIPv6_loop_tail; [done..|cbn [length] in *; lia]. }
  destruct h as [|g h].
  - change (parseIPv6 (v6_text [] ++ colon :: colon :: v6_text t)) with
      (if decide (Some 0%nat <> None /\ v6_text t = []) then Some (replicate 16 0)
       else parseIPv6_end (parseIPv6_loop 8 (v6_text t) [] (Some 0%nat))).
    destruct t as [|g t]; [simpl in Hl; by replace n with 8%nat by lia|].
    pose proof Ht as [Hg _]%Forall_cons. destruct (v6_text_head g t Hg) as (c & l & El & _).
    rewrite decide_False by (rewrite El; by intros [_ ?]).
    specialize (Htail g t [] (Some 0%nat) eq_refl ltac:(cbn [length]; lia)). cbn [length Nat.sub] in Htail.
    rewrite Htail. cbn [app]. rewrite (parseIPv6_end_gap _ _ n); [done..|].
    rewrite length_group_bytes. cbn [length] in *. lia.
  - pose proof Hh as [Hg _]%Forall_cons. destruct (v6_text_head g h Hg) as (c & l & El & Hc).
    pose proof (parseIPv6_loop_head 8 (g :: h) (v6_text t) [] ltac:(done) Hh ltac:(cbn [length] in *; lia)) as E.
    cbv zeta in E. rewrite El in *. cbn [app] in *. rewrite parseIPv6_start, E by done.
    destruct t as [|g' t].
    + rewrite decide_True by done. rewrite (parseIPv6_end_gap _ _ n), take_ge, drop_ge; [done|lia..|done|].
      rewrite length_group_bytes. cbn [length] in *. lia.
    + pose proof Ht as [Hg' _]%Forall_cons. destruct (v6_text_head g' t Hg') as (c' & l' & El' & _).
      rewrite decide_False by (by rewrite El'). rewrite (Htail g' t) by (done || cbn [length] in *; lia).
      rewrite (parseIPv6_end_gap _ _ n), take_app_length, drop_app_length; [done..|].
      rewrite length_app, !length_group_bytes. cbn [length] in *. lia.
Qed.

(** ** Both *)

Lemma ParseIP_v6 g x y :
  is_group g -> x = hex g ++ colon :: y -> ParseIP (str x) = parseIPv6 x.
Proof.
  intros Hg ->. destruct (group_text g Hg) as (_ & Hd & Hc & _). unfold ParseIP.
  fold (chars (str (hex g ++ colon :: y))). rewrite chars_str.
  by apply (ParseIP_scan_at _ _ colon _ Hd Hc).
Qed.

Lemma ParseIP_v6_groups gs e n :
  length gs = 8%nat -> Forall is_group gs -> zero_run gs (e, n) ->
  ParseIP (if (n <=? 1)%nat then str (v6_text gs)
           else str (v6_text (take e gs) ++ colon :: colon :: v6_text (drop (e + n) gs))) =
  Some (group_bytes gs).
Proof.
  intros Hl Hg Hz. destruct (Nat.leb_spec n 1).
  - destruct gs as [|g [|g' gs]]; [done..|]. pose proof Hg as [Hg1 _]%Forall_cons.
    rewrite (ParseIP_v6 g _ (v6_text (g' :: gs))) by done. by apply parseIPv6_plain.
  - destruct Hz as [Hz|Hz]; simpl in Hz; [lia|]. pose proof (f_equal length Hz) as Hlen.
    rewrite !length_app, length_replicate, Hl in Hlen.
    assert (Forall is_group (take e gs)) as Hh by by apply Forall_take.
    assert (Forall is_group (drop (e + n) gs)) as Ht by by apply Forall_drop.
    assert (forall x, x = v6_text (take e gs) ++ colon :: colon :: v6_text (drop (e + n) gs) ->
      ParseIP (str x) = parseIPv6 x) as Hp.
    { intros x Ex. destruct (take e gs) as [|g h].
      - rewrite Ex. unfold ParseIP. fold (chars (str (v6_text [] ++ colon :: colon :: v6_text (drop (e + n) gs)))).
        by rewrite chars_str.
      - apply Forall_cons in Hh as [Hg1 _]. destruct h as [|g' h].
        + by apply (ParseIP_v6 g _ (colon :: v6_text (drop (e + n) gs))).
        + apply (ParseIP_v6 g _ (v6_text (g' :: h) ++ colon :: colon :: v6_text (drop (e + n) gs))); [done|].
          rewrite Ex. change (v6_text (g :: g' :: h)) with (hex g ++ (colon :: v6_text (g' :: h))).
          by rewrite <- app_assoc. }
    rewrite (Hp _ eq_refl), (parseIPv6_elided _ n) by (done || lia). by rewrite <- Hz.
Qed.

(** An address as the kernel gives it. *)
Definition kernel_address (ip : list Z) : Prop :=
  (length ip = 4 \/ length ip = 16)%nat /\ Forall is_byte ip.

Lemma To4_bytes ip l : kernel_address ip -> To4 ip = Some l -> length l = 4%nat /\ Forall is_byte l.
Proof.
  intros [Hl Hb]. unfold To4. case_decide; [by intros [= <-]|]. case_decide as H16; [|done].
  intros [= <-]. split; [rewrite length_drop; lia|by apply Forall_drop].
Qed.

Lemma IP_String_v6 ip : kernel_address ip -> To4 ip = None -> ParseIP (IP_String ip) = Some ip.
Proof.
  intros [Hl Hb] E. unfold IP_String. rewrite E.
  assert (length ip = (2 * 8)%nat) as H16 by (unfold To4 in E; case_decide; [done|lia]).
  destruct (groups_spec ip 8 H16 Hb) as (L & G & B).
  pose proof (longest_run_zero (groups ip) 0 (groups ip) (0%nat, 0%nat) (drop_0 _) (or_introl eq_refl)) as Hz.
  destruct (longest_run 0 (groups ip) (0%nat, 0%nat)) as [e n].
  pose proof (ParseIP_v6_groups (groups ip) e n L G Hz) as Hp. rewrite B in Hp. exact Hp.
Qed.

(** C40: the text of an address is read back as the address, in both
    families and wherever zeros are elided (an IPv4 address in its short
    form), and the program's own classification of the text is the family:
    what decides whether an address is written in brackets in front of a port
    is right for every address of an interface. *)
Theorem IP_String_roundtrip ip :
  kernel_address ip ->
  ParseIP (IP_String ip) = Some (default ip (To4 ip)) /\
  IsIPv4 (IP_String ip) = bool_decide (is_Some (To4 ip)) /\
  IsIPv6 (IP_String ip) = bool_decide (To4 ip = None).
Proof.
  intros Hk. unfold IsIPv4, IsIPv6. destruct (To4 ip) as [l|] eqn:E.
  - destruct (To4_bytes ip l Hk E) as [Hl Hb]. assert (IP_String ip = str (v4_text l)) as -> by (unfold IP_String; by rewrite E).
    rewrite ParseIP_v4 by done. simpl. unfold CountColons. fold (chars (str (v4_text l))). rewrite chars_str.
    assert (parseIPv4 (v4_text l) = Some l) as E4 by (unfold parseIPv4; rewrite <- Hl; apply parseIPv4_text; [by intros ->|done]).
    rewrite (parseIPv4_octets_colons _ _ _ _ E4). split_and!; [done| |].
    + reflexivity.
    + reflexivity.
  - pose proof (IP_String_v6 ip Hk E) as Hp. rewrite Hp. simpl. split; [done|].
    unfold ParseIP in Hp. rewrite ParseIP_scan_dispatch in Hp.
    assert (2 <= CountColons (IP_String ip))%nat.
    { unfold CountColons. destruct (first_separator _) as [c|]; [|done]. case_decide.
      - apply parseIPv4_octets_length in Hp. unfold To4 in E. rewrite decide_True in E by done. done.
      - by eapply parseIPv6_colons. }
    split; [rewrite !bool_decide_eq_false_2|rewrite !bool_decide_eq_true_2]; try done; try lia.
Qed.

Lemma IP_String_roundtrip_witness :
  kernel_address [32; 1; 13; 184; 0; 0; 0; 0; 0; 1; 0; 0; 0; 0; 0; 1] /\
  ParseIP (IP_String [32; 1; 13; 184; 0; 0; 0; 0; 0; 1; 0; 0; 0; 0; 0; 1]) =
    Some [32; 1; 13; 184; 0; 0; 0; 0; 0; 1; 0; 0; 0; 0; 0; 1] /\
  IsIPv6 "2001:db8::1:0:0:1" = true.
Proof.
  assert (kernel_address [32; 1; 13; 184; 0; 0; 0; 0; 0; 1; 0; 0; 0; 0; 0; 1]) as Hk.
  { split; [by right|]. apply (bool_decide_unpack _). vm_compute. exact I. }
  split; [exact Hk|]. destruct (IP_String_roundtrip _ Hk) as (Hp & _ & H6). split; [exact Hp|exact H6].
Defined.

(** ** GetNetInterfaces *)

(** What an interface contributes: its first address, unless that is a loopback. *)
Definition net_address (addrs : outcome (list (list Z))) : option (list Z) :=
  match addrs with
  | Ok (ip :: _) => if IsLoopback ip then None else Some ip
  | _ => None
  end.

Lemma add_interface_address m iface :
  add_interface m iface =
    match net_address iface.2 with Some ip => <[iface.1 := IP_String ip]> m | None => m end.
Proof.
  unfold add_interface, net_address. destruct (iface.2) as [[|ip rest]|e|w]; [done| |done..].
  by destruct (IsLoopback ip).
Qed.

Lemma fold_interfaces ifaces m name :
  NoDup ifaces.*1 -> (forall x, x ∈ ifaces.*1 -> m !! x = None) ->
  fold_left add_interface ifaces m !! name =
    match list_find (fun i => i.1 = name) ifaces with
    | Some (_, i) => IP_String <$> net_address i.2
    | None => m !! name
    end.
Proof.
  revert m. induction ifaces as [|[x a] ifaces IH]; intros m Hd Hm; csimpl in *; [done|].
  apply NoDup_cons in Hd as [Hx Hd]. rewrite IH; [|done|].
  - rewrite add_interface_address. simpl. destruct (decide (x = name)) as [->|Hne].
    + assert (list_find (fun i : string * outcome (list (list Z)) => i.1 = name) ifaces = None) as ->.
      { apply list_find_None, Forall_forall. intros [y b] Hin Hy. simpl in Hy. subst y.
        apply Hx, list_elem_of_fmap. by exists (name, b). }
      simpl. destruct (net_address a) as [ip|]; simpl; [by rewrite lookup_insert_eq|]. apply Hm. set_solver.
    + destruct (list_find _ ifaces) as [[? i]|]; simpl; [done|].
      destruct (net_address a); [by rewrite lookup_insert_ne|done].
  - intros y Hy. rewrite add_interface_address. simpl. assert (x <> y) by congruence.
    destruct (net_address a); [rewrite lookup_insert_ne by done|]; apply Hm; set_solver.
Qed.

(** C39: [GetNetInterfaces] returns, for interfaces of distinct names, exactly
    those whose first address can be read and is no loopback, each with that
    address as text; an interface whose addresses cannot be read, or that has
    none, is left out without an error, and so are further addresses. *)
Theorem GetNetInterfaces_spec ifaces :
  ifaces <> [] -> NoDup ifaces.*1 ->
  exists m, GetNetInterfaces (Ok ifaces) = Ok m /\
    forall name v, m !! name = Some v <->
      exists addrs ip, (name, addrs) ∈ ifaces /\ net_address addrs = Some ip /\ v = IP_String ip.
Proof.
  intros Hne Hd. exists (fold_left add_interface ifaces ∅). split; [by destruct ifaces|].
  intros name v. rewrite fold_interfaces by done.
  destruct (list_find _ ifaces) as [[j [x a]]|] eqn:E.
  - apply list_find_Some in E as (Hj & Hx & _). simpl in *. subst x. split.
    + simpl. intros (ip & Ea & ->)%fmap_Some. exists a, ip. split_and!; [by eapply list_elem_of_lookup_2|done|done].
    + intros (a' & ip & Hin & Ea & ->). apply list_elem_of_lookup in Hin as [j' Hj'].
      assert (j' = j) as ->.
      { eapply (NoDup_lookup ifaces.*1 _ _ name); [done|by rewrite list_lookup_fmap, Hj'|by rewrite list_lookup_fmap, Hj]. }
      rewrite Hj in Hj'. injection Hj' as <-. by rewrite Ea.
  - apply list_find_None in E. split; [done|]. intros (a & ip & Hin & _).
    rewrite Forall_forall in E. by destruct (E _ Hin).
Qed.

Lemma GetNetInterfaces_spec_witness :
  exists m, GetNetInterfaces (Ok [("lo", Ok [[127; 0; 0; 1]]); ("eth0", Ok [[10; 0; 0; 7]; [10; 0; 0; 8]]);
                                  ("net1", Err "no such device")]) = Ok m /\
    m !! "eth0" = Some "10.0.0.7" /\ m !! "lo" = None.
Proof.
  destruct (GetNetInterfaces_spec [("lo", Ok [[127; 0; 0; 1]]); ("eth0", Ok [[10; 0; 0; 7]; [10; 0; 0; 8]]);
                                   ("net1", Err "no such device")]) as (m & E & Hm).
  - discriminate.
  - apply (bool_decide_unpack _). vm_compute. exact I.
  - exists m. split; [exact E|]. split.
    + apply Hm. exists (Ok [[10; 0; 0; 7]; [10; 0; 0; 8]]), [10; 0; 0; 7]. split_and!; [set_solver|reflexivity|reflexivity].
    + injection E as <-. vm_compute. reflexivity.
Defined.
