(* ===== verification/TApp.v ===== *)
(** * The traffic terminator: the UDP echo server (pkg/tapp/udp.go)

    [tapp] holds the server's state and operations in the order of the file:
    [SetupServerConnection], [HandleIdleConnections], [ReadFromSocket],
    [TearDownServer], [CreateServer], [LoadBatProfileConfig], [newUDPServer].
    A server runs two goroutines that share its state under a mutex; [step]
    is the transition relation of the two loops, of the caller of
    [TearDownServer] and of the rest of the process. *)
From S2P Require Import Prelude GoInt Strconv Message Metrics Net.

Module tapp.

Definition UDPProtocolStr : string := "udp".
Definition UDPServerPort : Z := 8890.

Definition activeClientStreamsStr : string := "active_client_streams".
Definition srvPacketsMissingStr : string := "srv_packets_missing".
Definition srvPacketsLateStr : string := "srv_packets_late".

Record clientInfo := mkClientInfo { lastSeen : Z; arrivedMaxSeq : Z }.

Record config := mkConfig { socketReadBufSize : Z }.

Section Server.
Context `{Msgpack} `{PromLib}.

(** Pointers and interfaces that start as nil are options. *)
Record udpServer := mkUdpServer {
  server : Server;
  readBufferSize : Z;
  podInfoByteArr : list byte;
  connection : option UDPConn;
  isStopped : Z;                               (* the WaitGroup's counter *)
  msgHeaderLength : Z;
  stop : bool;
  activeClientStreams : option metric;
  packetsMissing : option metric;
  packetsLate : option metric;
  metrics : list metric;
  activeClientsMap : gmap string clientInfo
}.

Definition set_connection (c : option UDPConn) (s : udpServer) : udpServer :=
  mkUdpServer (server s) (readBufferSize s) (podInfoByteArr s) c (isStopped s)
    (msgHeaderLength s) (stop s) (activeClientStreams s) (packetsMissing s) (packetsLate s)
    (metrics s) (activeClientsMap s).
Definition set_isStopped (n : Z) (s : udpServer) : udpServer :=
  mkUdpServer (server s) (readBufferSize s) (podInfoByteArr s) (connection s) n
    (msgHeaderLength s) (stop s) (activeClientStreams s) (packetsMissing s) (packetsLate s)
    (metrics s) (activeClientsMap s).
Definition set_stop (b : bool) (s : udpServer) : udpServer :=
  mkUdpServer (server s) (readBufferSize s) (podInfoByteArr s) (connection s) (isStopped s)
    (msgHeaderLength s) b (activeClientStreams s) (packetsMissing s) (packetsLate s)
    (metrics s) (activeClientsMap s).
Definition set_metrics (g m l : option metric) (ms : list metric) (s : udpServer) : udpServer :=
  mkUdpServer (server s) (readBufferSize s) (podInfoByteArr s) (connection s) (isStopped s)
    (msgHeaderLength s) (stop s) g m l ms (activeClientsMap s).
Definition set_activeClientsMap (m : gmap string clientInfo) (s : udpServer) : udpServer :=
  mkUdpServer (server s) (readBufferSize s) (podInfoByteArr s) (connection s) (isStopped s)
    (msgHeaderLength s) (stop s) (activeClientStreams s) (packetsMissing s) (packetsLate s)
    (metrics s) m.

Definition nil_deref : string :=
  "runtime error: invalid memory address or nil pointer dereference".

Definition deref {A} (o : option A) : outcome A := or_panic nil_deref o.

(** ** Setup *)

Definition serverAddress (s : udpServer) : string :=
  let ip := srv_IPAddress (server s) in
  let port := Itoa (srv_Port (server s)) in
  if IsIPv6 ip then "[" +:+ ip +:+ "]:" +:+ port else ip +:+ ":" +:+ port.

Definition labelMap (s : udpServer) : gmap string string :=
  let info := srv_PodInfo (server s) in
  <["worker_name" := pod_WorkerName info]>
    (<["server_name" := pod_Name info]>
      (<["server_namespace" := pod_Namespace info]>
        (<["server_ip" := srv_IPAddress (server s)]> ∅))).

(** [MustRegister] panics; nothing on the server side recovers. *)
Definition registerMetric (m : metric) (p : prom) : outcome prom :=
  match prom_register m p with inl e => Panic e | inr q => Ok q end.

Definition SetupServerConnection (env : NetEnv) (conf : config) (s : udpServer) (p : prom)
    : outcome (udpServer * prom) :=
  let* listeningAddress := net_result (ResolveUDPAddr env (serverAddress s)) in
  let* conn := net_result (ListenUDP env listeningAddress) in
  let* _ := net_error (SetReadBuffer env conn (socketReadBufSize conf)) in
  let s := set_connection (Some conn) s in
  let labels := labelMap s in
  let '(g, p) := NewGauge PromNamespace UDPProtocolStr activeClientStreamsStr
                   "active client streams" labels p in
  let* p := registerMetric g p in
  let '(m, p) := NewCounter PromNamespace UDPProtocolStr srvPacketsMissingStr
                   "packets missing or arrive later" labels p in
  let* p := registerMetric m p in
  let '(l, p) := NewCounter PromNamespace UDPProtocolStr srvPacketsLateStr
                   "packets late" labels p in
  let* p := registerMetric l p in
  let s := set_metrics (Some g) (Some m) (Some l) (metrics s ++ [g; m; l]) s in
  Ok (set_activeClientsMap ∅ s, p).

(** ** HandleIdleConnections *)

Definition connectionTimeout : Z := 60.
Definition connectionTimeoutinMicros : Z := SecToMicroSec connectionTimeout.

(** The pause between two turns, in nanoseconds. *)
Definition idle_sleepDuration : option Z := float_seconds (sf_of_Z 10) connectionTimeout.

Definition idle (now : Z) (c : clientInfo) : bool :=
  add64 (lastSeen c) connectionTimeoutinMicros <? now.

(** The locked loop of one turn.  [order] is the order in which [range]
    visits the map, which Go leaves unspecified. *)
Fixpoint sweep (now : Z) (order : list (string * clientInfo)) (s : udpServer) (p : prom)
    : outcome (udpServer * prom) :=
  match order with
  | [] => Ok (s, p)
  | (clientIP, c) :: order =>
      if idle now c then
        let s := set_activeClientsMap (delete clientIP (activeClientsMap s)) s in
        let* g := deref (activeClientStreams s) in
        sweep now order s (prom_dec g p)
      else sweep now order s p
  end.

(** ** ReadFromSocket *)

(** The locked region: the client's entry, the gauge and the two counters.
    [now] is the clock read inside it. *)
Definition account (now : Z) (clientIP : string) (seq : Z) (s : udpServer) (p : prom)
    : outcome (udpServer * prom) :=
  let* c_p :=
    match activeClientsMap s !! clientIP with
    | Some c => Ok (c, p)
    | None => let* g := deref (activeClientStreams s) in Ok (mkClientInfo 0 0, prom_inc g p)
    end in
  let '(c, p) := c_p in
  if arrivedMaxSeq c <? seq then
    let seqDiff := sub64 (sub64 seq (arrivedMaxSeq c)) 1 in
    let* p :=
      (if 0 <? seqDiff then
         let* m := deref (packetsMissing s) in
         or_panic "counter cannot decrease in value" (prom_add m (f64_rnd seqDiff) p)
       else Ok p) in
    Ok (set_activeClientsMap (<[clientIP := mkClientInfo now seq]> (activeClientsMap s)) s, p)
  else
    let* l := deref (packetsLate s) in
    Ok (set_activeClientsMap
          (<[clientIP := mkClientInfo now (arrivedMaxSeq c)]> (activeClientsMap s)) s,
        prom_inc l p).

(** What the read loop does with a datagram of [size > 0] bytes already in
    the buffer: the reply written to the socket if it gets that far, the
    buffer it leaves, the state.  [t1] and [t2] are its two clock reads. *)
Definition handle (t1 t2 : Z) (clientIP : string) (buf : list byte) (s : udpServer) (p : prom)
    : outcome (option (list byte) * list byte * udpServer * prom) :=
  let* hdr := or_panic "slice bounds out of range" (slice buf 0 (msgHeaderLength s)) in
  let '(msg, err) := unmarshal_Message hdr in
  if (err : bool) then Ok (None, buf, s, p) else
  let msg := set_RespondTimeStamp t1 msg in
  let msg := set_ServerInfoLength (zlen (podInfoByteArr s)) msg in
  match marshal_Message msg with
  | None => Ok (None, buf, s, p)
  | Some byteArr =>
      let buf := go_copy buf byteArr in
      let* tail := or_panic "slice bounds out of range" (slice buf (zlen byteArr) (zlen buf)) in
      let buf := take (length byteArr) buf ++ go_copy tail (podInfoByteArr s) in
      let pktLength := zlen byteArr + zlen (podInfoByteArr s) in
      let msg := if Length msg <? pktLength then set_Length pktLength msg else msg in
      let* sp := account t2 clientIP (SequenceNumber msg) s p in
      let '(s, p) := sp in
      let* out := or_panic "slice bounds out of range" (slice buf 0 (Length msg)) in
      Ok (Some out, buf, s, p)
  end.

(** One [ReadFromUDP] into the buffer, which keeps what the datagram does
    not overwrite (and cuts a datagram that is longer), then [handle]. *)
Definition ReadFromSocket_datagram (t1 t2 : Z) (clientIP : string) (data : list byte)
    (buf : list byte) (s : udpServer) (p : prom)
    : outcome (option (list byte) * list byte * udpServer * prom) :=
  let buf := go_copy buf data in
  let size := Nat.min (length data) (length buf) in
  if decide (size = 0)%nat then Ok (None, buf, s, p) else handle t1 t2 clientIP buf s p.

(** ** TearDownServer *)

(** Up to [isStopped.Wait()]: nothing at all when there is no connection. *)
Definition TearDownServer_begin (s : udpServer) : option udpServer :=
  match connection s with
  | None => None
  | Some c => Some (set_connection (Some (close_conn c)) (set_stop true s))
  end.

(** After the wait. *)
Definition TearDownServer_end (s : udpServer) (p : prom) : prom :=
  fold_left (fun p m => prom_unregister m p) (metrics s) p.

(** [WaitGroup.Done]. *)
Definition done (s : udpServer) : outcome udpServer :=
  if decide (isStopped s - 1 < 0) then Panic "sync: negative WaitGroup counter"
  else Ok (set_isStopped (isStopped s - 1) s).

(** ** The module: creation and configuration *)

Definition newUDPServer (namespace podName workerName ipAddress : string) (readBufferSize : Z)
    : outcome udpServer :=
  match GetMessageHeaderLength with
  | Ok hdr =>
      let info := mkPodInfo namespace podName workerName in
      match marshal_PodInfo info with
      | Some podInfoBytes =>
          Ok (mkUdpServer (mkServer info ipAddress UDPServerPort) readBufferSize podInfoBytes
                None 2 hdr false None None None [] ∅)
      | None => Panic "marshal"
      end
  | Err e => Panic e
  | Panic w => Panic w
  end.

Definition CreateServer (env : NetEnv) (conf : config)
    (namespace podName nodeName ipAddress ifName : string) (readBufferSize : Z) (p : prom)
    : outcome (udpServer * prom) :=
  let* s := newUDPServer namespace podName nodeName ipAddress readBufferSize in
  SetupServerConnection env conf s p.

(** ** The two loops, the caller of TearDownServer, and the rest of the process *)

Inductive reader_pc := RHead | RReading | RExited.
Inductive teardown_pc := TIdle | TWaiting | TFinished.

Record world := mkWorld {
  w_srv : udpServer;
  w_prom : prom;
  w_buf : list byte;          (* receivedByteArr *)
  w_reader : reader_pc;
  w_sweeper : bool;           (* the idle-connection loop still runs *)
  w_teardown : teardown_pc
}.

Inductive label :=
| LReader                                              (* loop head, failed read *)
| LDatagram (clientIP : string) (data : list byte) (reply : option (list byte))
| LSweep
| LSweeperExit
| LTearDown
| LEnv.

Definition owns (s : udpServer) (h : metric) : Prop :=
  activeClientStreams s = Some h \/ packetsMissing s = Some h \/ packetsLate s = Some h.

Inductive step : world -> label -> world -> Prop :=
| step_reader_enter s p b sw td :
    stop s = false ->
    step (mkWorld s p b RHead sw td) LReader (mkWorld s p b RReading sw td)
| step_reader_exit s s' p b sw td :
    stop s = true -> done s = Ok s' ->
    step (mkWorld s p b RHead sw td) LReader (mkWorld s' p b RExited sw td)
| step_reader_err s p b sw td :
    step (mkWorld s p b RReading sw td) LReader (mkWorld s p b RHead sw td)
| step_reader_data t1 t2 ip data out s p b s' p' b' sw td c :
    connection s = Some c -> conn_closed c = false -> in64 t1 -> in64 t2 ->
    ReadFromSocket_datagram t1 t2 ip data b s p = Ok (out, b', s', p') ->
    step (mkWorld s p b RReading sw td) (LDatagram ip data out) (mkWorld s' p' b' RHead sw td)
| step_sweep now order s p s' p' b rd td :
    stop s = false -> order ≡ₚ map_to_list (activeClientsMap s) ->
    sweep now order s p = Ok (s', p') ->
    step (mkWorld s p b rd true td) LSweep (mkWorld s' p' b rd true td)
| step_sweeper_exit s s' p b rd td :
    stop s = true -> done s = Ok s' ->
    step (mkWorld s p b rd true td) LSweeperExit (mkWorld s' p b rd false td)
| step_teardown_begin s s' p b rd sw td :
    td <> TWaiting -> TearDownServer_begin s = Some s' ->
    step (mkWorld s p b rd sw td) LTearDown (mkWorld s' p b rd sw TWaiting)
| step_teardown_end s p b rd sw :
    isStopped s = 0 ->
    step (mkWorld s p b rd sw TWaiting) LTearDown
         (mkWorld s (TearDownServer_end s p) b rd sw TFinished)
| step_env s p q b rd sw td :
    same_values_but (fun h => ~ owns s h) p q ->
    step (mkWorld s p b rd sw td) LEnv (mkWorld s q b rd sw td).

(** The state [CreateServer] leaves when it starts the two goroutines. *)
Definition started (s : udpServer) (p : prom) (bufsize : nat) : world :=
  mkWorld s p (replicate bufsize Byte.x00) RHead true TIdle.

End Server.

(** [parseIntValue] and [LoadBatProfileConfig]: the configuration the module
    is left with, and the error returned.  A nil map is [None]. *)
Definition parseIntValue (value : string) : Z * option string :=
  match Atoi value with Some v => (v, None) | None => (-1, Some "invalid syntax") end.

Definition LoadBatProfileConfig (profileMap : option (gmap string (gmap string string)))
    (conf : config) : config * option string :=
  match profileMap with
  | None => (conf, Some "error parsing the udp profile config map data")
  | Some profileMap =>
      match profileMap !! UDPProtocolStr with
      | None => (conf, None)
      | Some udpEntry =>
          match udpEntry !! "socket-read-buf-size" with
          | Some val =>
              let '(v, err) := parseIntValue val in
              (mkConfig v,
               match err with
               | Some e => Some ("parsing udp-socket-read-buf-size failed: err " +:+ e)
               | None => None
               end)
          | None => (mkConfig (512 * 1024), None)
          end
      end
  end.

End tapp.
