(* ===== verification/TAppProofs.v ===== *)
(** * Theorems about the UDP echo server

    Accounting of sequence numbers, the idle sweep, the reply, and the
    invariants of the two goroutines. *)
From S2P Require Import Prelude GoInt Strconv Message Metrics Net TApp Reference.
Import tapp.

(** ** The accounting of one datagram *)

(** What the server remembers of a client it may not know yet. *)
Definition known_max (s : gmap string clientInfo) (ip : string) : Z :=
  from_option arrivedMaxSeq 0 (s !! ip).

(** The packets skipped when [seq] arrives after a maximum of [old]. *)
Definition gap (old seq : Z) : Z := if old <? seq then seq - old - 1 else 0.
Definition late (old seq : Z) : Z := if old <? seq then 0 else 1.

Lemma gap_nonneg old seq : 0 <= gap old seq.
Proof. unfold gap. destruct (old <? seq) eqn:E; lia. Qed.

Section Accounting.
Context `{Msgpack} `{PromLaws}.
Implicit Types (s : udpServer) (p q : prom) (g m l : metric).

Record ready s g m l p : Prop := mkReady {
  ready_g : activeClientStreams s = Some g;
  ready_m : packetsMissing s = Some m;
  ready_l : packetsLate s = Some l;
  ready_distinct : NoDup [g; m; l];
  ready_live : Forall (fun h => prom_live h p) [g; m; l]
}.

(** The recorded maxima are int64 values that are never negative. *)
Definition maxima_ok (cs : gmap string clientInfo) : Prop :=
  map_Forall (fun _ c => 0 <= arrivedMaxSeq c < 2 ^ 63) cs.

Lemma known_max_ok cs ip : maxima_ok cs -> 0 <= known_max cs ip < 2 ^ 63.
Proof.
  unfold known_max. intros Hok. destruct (cs !! ip) as [c|] eqn:E; simpl; [|lia].
  by apply (Hok ip c).
Qed.

Definition mine g m l (h : metric) : Prop := h = g \/ h = m \/ h = l.

Lemma mine_owns s g m l p h : ready s g m l p -> (mine g m l h <-> owns s h).
Proof.
  intros [Hg Hm Hl _ _]. unfold mine, owns. rewrite Hg, Hm, Hl.
  split; intros [E|[E|E]]; simplify_eq; auto.
Qed.

Lemma ready_frame s s' g m l p q d :
  ready s g m l p -> moved d p q ->
  activeClientStreams s' = activeClientStreams s -> packetsMissing s' = packetsMissing s ->
  packetsLate s' = packetsLate s -> ready s' g m l q.
Proof.
  intros [Hg Hm Hl Hd Hlive] Hmv E1 E2 E3.
  split; [congruence..|done|]. eapply Forall_impl; [done|].
  intros h. by eapply moved_live.
Qed.

(** Movements of the gauge, of the missing and of the late counter. *)
Definition counts g m l (dg dm dl : Z) : metric -> Z :=
  plus_ (at_ g dg) (plus_ (at_ m dm) (at_ l dl)).

(** 1 when the datagram's source is not in the map yet. *)
Definition newcomer (cs : gmap string clientInfo) (ip : string) : Z :=
  if decide (is_Some (cs !! ip)) then 0 else 1.

Lemma newcomer_bounds cs ip : 0 <= newcomer cs ip <= 1.
Proof. unfold newcomer. case_decide; lia. Qed.

(** The map lookup at the start of the region, with the gauge it may bump. *)
Lemma account_lookup s g p ip :
  activeClientStreams s = Some g ->
  exists c q,
    match activeClientsMap s !! ip with
    | Some c => Ok (c, p)
    | None => let* g := deref (activeClientStreams s) in Ok (mkClientInfo 0 0, prom_inc g p)
    end = Ok (c, q) /\
    arrivedMaxSeq c = known_max (activeClientsMap s) ip /\
    moved (at_ g (newcomer (activeClientsMap s) ip)) p q.
Proof.
  intros Hg. unfold known_max, newcomer. destruct (activeClientsMap s !! ip) as [c|] eqn:E.
  - exists c, p. split_and!; [done..|]. rewrite decide_True by eauto.
    eapply moved_ext; [|apply moved_zero_refl]. intros h. unfold at_. by case_decide.
  - rewrite Hg. eexists _, _. split_and!; [done..|].
    rewrite decide_False by (by intros [? [=]]). apply moved_inc.
Qed.

Lemma account_spec s g m l p now ip seq :
  ready s g m l p -> maxima_ok (activeClientsMap s) -> in64 seq ->
  let old := known_max (activeClientsMap s) ip in
  exists q,
    account now ip seq s p =
      Ok (set_activeClientsMap
            (<[ip := mkClientInfo now (Z.max old seq)]> (activeClientsMap s)) s, q) /\
    moved (counts g m l (newcomer (activeClientsMap s) ip) (gap old seq) (late old seq)) p q.
Proof.
  intros [Hg Hm Hl _ Hlive] Hok Hseq old.
  pose proof (known_max_ok _ ip Hok) as Hold. fold old in Hold.
  apply Forall_cons in Hlive as [Lg [Lm [Ll _]%Forall_cons]%Forall_cons].
  pose proof (newcomer_bounds (activeClientsMap s) ip) as Hnew.
  pose proof (gap_nonneg old seq) as Hgap.
  destruct (account_lookup s g p ip Hg) as (c & p1 & E & Hc & M1).
  unfold account. rewrite E. simpl. rewrite Hc. fold old. clear E Hc.
  assert (forall x y q, 0 <= x -> 0 <= y -> moved (plus_ (at_ m x) (at_ l y)) p1 q ->
    moved (counts g m l (newcomer (activeClientsMap s) ip) x y) p q) as Hcomp.
  { intros x y q Hx Hy M2. eapply moved_up; [..|exact M1|exact M2]; unfold plus_;
      intros h; pose proof (at_nonneg m x h); pose proof (at_nonneg l y h);
      pose proof (at_nonneg g (newcomer (activeClientsMap s) ip) h); lia. }
  unfold gap, late in *. destruct (old <? seq) eqn:Ecmp.
  - rewrite Z.max_r by lia.
    assert (sub64 (sub64 seq old) 1 = seq - old - 1) as ->.
    { unfold in64, sub64 in *.
      rewrite (wrap64_id (seq - old)) by (unfold in64; lia). apply wrap64_id. unfold in64. lia. }
    destruct (0 <? seq - old - 1) eqn:Egap.
    + rewrite Hm. simpl.
      destruct (moved_add_f64 m (seq - old - 1) p1) as (q & -> & M2); [by eapply moved_live|lia|].
      simpl. eexists. split; [done|]. apply Hcomp; [lia..|].
      eapply moved_ext; [|exact M2]. intros h. unfold plus_, at_. repeat case_decide; lia.
    + simpl. eexists. split; [done|]. apply Hcomp; [lia..|].
      eapply moved_ext; [|apply moved_zero_refl].
      intros h. unfold plus_, at_, zero_. repeat case_decide; lia.
  - rewrite Z.max_l, Hl by lia. simpl. eexists. split; [done|]. apply Hcomp; [lia..|].
    eapply moved_ext; [|apply moved_inc]. intros h. unfold plus_, at_. repeat case_decide; lia.
Qed.
End Accounting.

(** ** Many datagrams *)
Section Runs.
Context `{Msgpack} `{PromLaws}.
Implicit Types (s : udpServer) (p q : prom) (g m l : metric).

Lemma ready_account s cs g m l p q d :
  ready s g m l p -> moved d p q -> ready (set_activeClientsMap cs s) g m l q.
Proof. intros. by eapply ready_frame. Qed.

Lemma maxima_ok_insert cs ip now seq :
  maxima_ok cs -> in64 seq ->
  maxima_ok (<[ip := mkClientInfo now (Z.max (known_max cs ip) seq)]> cs).
Proof.
  intros Hok Hseq. apply map_Forall_insert_2; [|done]. simpl.
  pose proof (known_max_ok _ ip Hok). unfold in64 in Hseq. lia.
Qed.

Lemma known_max_insert cs ip c ip' :
  known_max (<[ip := c]> cs) ip' = if decide (ip = ip') then arrivedMaxSeq c else known_max cs ip'.
Proof. unfold known_max. rewrite lookup_insert. by case_decide. Qed.

(** The locked region over a sequence of datagrams: (source, clock, sequence number). *)
Fixpoint account_run (pkts : list (string * Z * Z)) s p : outcome (udpServer * prom) :=
  match pkts with
  | [] => Ok (s, p)
  | (ip, now, seq) :: pkts =>
      let* sp := account now ip seq s p in account_run pkts sp.1 sp.2
  end.

(** The sum of the highest sequence numbers of the known clients. *)
Definition add_max (ip : string) (c : clientInfo) (acc : Z) : Z := arrivedMaxSeq c + acc.
Definition sum_max (cs : gmap string clientInfo) : Z := map_fold add_max 0 cs.

Lemma sum_max_new cs ip c :
  cs !! ip = None -> sum_max (<[ip := c]> cs) = arrivedMaxSeq c + sum_max cs.
Proof.
  intros. apply (map_fold_insert_L add_max 0 ip c cs); [unfold add_max; intros; lia|done].
Qed.

Lemma sum_max_delete cs ip : sum_max cs = known_max cs ip + sum_max (delete ip cs).
Proof.
  unfold known_max. destruct (cs !! ip) as [c|] eqn:E; simpl.
  - apply (map_fold_delete_L add_max 0 ip c cs); [unfold add_max; intros; lia|done].
  - by rewrite delete_id.
Qed.

Lemma sum_max_insert cs ip c :
  sum_max (<[ip := c]> cs) = sum_max cs - known_max cs ip + arrivedMaxSeq c.
Proof.
  rewrite <- insert_delete_eq, sum_max_new by apply lookup_delete_eq.
  rewrite (sum_max_delete cs ip). lia.
Qed.

Lemma size_insert_newcomer cs ip c :
  Z.of_nat (size (<[ip := c]> cs)) = Z.of_nat (size cs) + newcomer cs ip.
Proof.
  unfold newcomer. case_decide as E.
  - rewrite map_size_insert_Some by done. lia.
  - rewrite map_size_insert_None by (by apply eq_None_not_Some). lia.
Qed.

(** The values of the two counters after a move of all three metrics. *)
Lemma moved_counters s g m l p q dg dm dl :
  ready s g m l p -> moved (counts g m l dg dm dl) p q ->
  (small (prom_value m p) -> small (prom_value m p + dm) -> prom_value m q = prom_value m p + dm) /\
  (small (prom_value l p) -> small (prom_value l p + dl) -> prom_value l q = prom_value l p + dl).
Proof.
  intros [_ _ _ Hd Hlive] M.
  apply NoDup_cons in Hd as [Hd1 [Hd2 _]%NoDup_cons].
  apply Forall_cons in Hlive as [_ [Lm [Ll _]%Forall_cons]%Forall_cons].
  assert (g <> m /\ g <> l /\ m <> l) as (Ngm & Ngl & Nml) by set_solver.
  assert (counts g m l dg dm dl m = dm) as Em
    by (unfold counts, plus_; rewrite at_eq, !at_ne by congruence; lia).
  assert (counts g m l dg dm dl l = dl) as El
    by (unfold counts, plus_; rewrite at_eq, !at_ne by congruence; lia).
  split; intros; rewrite (moved_value _ _ _ M); rewrite ?Em, ?El; done.
Qed.

(** Datagrams of any number of clients in any interleaving never panic, and
    what the server counts as missing less what it counts as late is the
    progress of its clients' highest sequence numbers less the number of
    datagrams. *)
Lemma account_run_spec pkts s g m l p :
  ready s g m l p -> maxima_ok (activeClientsMap s) -> Forall (fun '(_, _, seq) => in64 seq) pkts ->
  exists s' q dg dm dl,
    account_run pkts s p = Ok (s', q) /\
    ready s' g m l q /\ maxima_ok (activeClientsMap s') /\
    moved (counts g m l dg dm dl) p q /\ 0 <= dg /\ 0 <= dm /\ 0 <= dl <= zlen pkts /\
    dm - dl = sum_max (activeClientsMap s') - sum_max (activeClientsMap s) - zlen pkts /\
    dg = Z.of_nat (size (activeClientsMap s')) - Z.of_nat (size (activeClientsMap s)).
Proof.
  intros Hr Hok Hp. revert s p Hr Hok.
  induction Hp as [|[[ip now] seq] pkts Hseq Hp IH]; intros s p Hr Hok.
  - exists s, p, 0, 0, 0. split_and!; try done; try (unfold zlen; simpl; lia).
    eapply moved_ext; [|apply moved_zero_refl].
    intros h. unfold counts, plus_, at_, zero_. repeat case_decide; lia.
  - destruct (account_spec s g m l p now ip seq Hr Hok Hseq) as (q1 & E1 & M1).
    simpl. rewrite E1. simpl.
    set (cs := activeClientsMap s) in *. set (old := known_max cs ip) in *.
    destruct (IH (set_activeClientsMap (<[ip:=mkClientInfo now (old `max` seq)]> cs) s) q1)
      as (s' & q & dg & dm & dl & E & Hr' & Hok' & M2 & P1 & P2 & P3 & Hcons & Hsize).
    { by eapply ready_account. }
    { by apply maxima_ok_insert. }
    simpl in Hcons, Hsize.
    exists s', q, (newcomer cs ip + dg), (gap old seq + dm), (late old seq + dl).
    pose proof (newcomer_bounds cs ip). pose proof (gap_nonneg old seq).
    assert (0 <= late old seq <= 1) by (unfold late; case_match; lia).
    assert (zlen ((ip, now, seq) :: pkts) = zlen pkts + 1) as Hlen by (unfold zlen; simpl length; lia).
    split_and!; try done; try lia.
    + eapply moved_ext; [|eapply moved_up; [..|exact M1|exact M2]];
        intros h; unfold counts, plus_, at_; repeat case_decide; lia.
    + rewrite sum_max_insert in Hcons. fold old in Hcons. simpl in Hcons.
      assert (gap old seq - late old seq = Z.max old seq - old - 1)
        by (unfold gap, late; destruct (old <? seq) eqn:?; lia).
      lia.
    + rewrite size_insert_newcomer in Hsize. lia.
Qed.

(** The maximum kept for a client depends on that client's datagrams only. *)
Definition seqs_of (ip : string) (pkts : list (string * Z * Z)) : list Z :=
  omap (fun '(ip', _, seq) => if decide (ip' = ip) then Some seq else None) pkts.

Lemma account_run_known_max pkts s g m l p s' q ip :
  ready s g m l p -> maxima_ok (activeClientsMap s) -> Forall (fun '(_, _, seq) => in64 seq) pkts ->
  account_run pkts s p = Ok (s', q) ->
  known_max (activeClientsMap s') ip = foldl Z.max (known_max (activeClientsMap s) ip) (seqs_of ip pkts).
Proof.
  intros Hr Hok Hp. revert s p Hr Hok.
  induction Hp as [|[[ip1 now] seq] pkts Hseq Hp IH]; intros s p Hr Hok.
  - by intros [= <- <-].
  - destruct (account_spec s g m l p now ip1 seq Hr Hok Hseq) as (q1 & E1 & M1).
    simpl. rewrite E1. simpl. intros E.
    apply IH in E; [|by eapply ready_account|by apply maxima_ok_insert].
    rewrite E. simpl. rewrite known_max_insert. unfold seqs_of. simpl.
    case_decide; [subst|]; done.
Qed.
End Runs.

(** ** The idle sweep *)
Section Sweep.
Context `{Msgpack} `{PromLaws}.
Implicit Types (s : udpServer) (p q : prom) (g m l : metric) (cs : gmap string clientInfo).

Fixpoint evict (now : Z) (order : list (string * clientInfo)) cs : gmap string clientInfo :=
  match order with
  | [] => cs
  | (ip, c) :: order => evict now order (if idle now c then delete ip cs else cs)
  end.

(** The clients a sweep at [now] keeps. *)
Definition alive (now : Z) (ic : string * clientInfo) : Prop := idle now ic.2 = false.
#[global] Instance alive_dec now ic : Decision (alive now ic).
Proof. unfold alive. apply _. Defined.

(** The visiting order lists distinct clients with the entries of the map. *)
Definition visits cs (order : list (string * clientInfo)) : Prop :=
  NoDup order.*1 /\ forall ip c, (ip, c) ∈ order -> cs !! ip = Some c.

Lemma visits_cons cs ip c order now :
  visits cs ((ip, c) :: order) ->
  cs !! ip = Some c /\ visits (if idle now c then delete ip cs else cs) order.
Proof.
  intros [[Hni Hnd]%NoDup_cons Hin]. split; [apply Hin; left|]. split; [done|].
  intros ip' c' Hin'. assert (ip <> ip') as Hne.
  { intros ->. apply Hni. apply list_elem_of_fmap. by exists (ip', c'). }
  destruct (idle now c); [rewrite lookup_delete_ne by done|]; apply Hin; by right.
Qed.

Lemma evict_lookup now order cs ip :
  visits cs order ->
  evict now order cs !! ip =
    if decide (Exists (fun ic => ic.1 = ip /\ idle now ic.2 = true) order) then None else cs !! ip.
Proof.
  revert cs. induction order as [|[ip1 c1] order IH]; intros cs Hv; [done|simpl].
  - apply (visits_cons _ _ _ _ now) in Hv as [Hc Hv]. rewrite IH by done.
    case_decide as E1; case_decide as E2; [done| | |].
    + exfalso. apply E2. by right.
    + apply Exists_cons in E2 as [[Eq Hi]|]; [|done]. simpl in Eq, Hi. subst ip1.
      rewrite Hi. apply lookup_delete_eq.
    + destruct (idle now c1) eqn:Ei; [|done]. apply lookup_delete_ne. intros ->.
      apply E2. by left.
Qed.

Lemma visits_order cs order : order ≡ₚ map_to_list cs -> visits cs order.
Proof.
  intros Hp. split.
  - rewrite Hp. apply NoDup_fst_map_to_list.
  - intros ip c. rewrite Hp. apply elem_of_map_to_list.
Qed.

Lemma evict_filter now order cs :
  order ≡ₚ map_to_list cs -> evict now order cs = filter (alive now) cs.
Proof.
  intros Hp. apply map_eq. intros ip. rewrite evict_lookup by by apply visits_order.
  rewrite map_lookup_filter. case_decide as E.
  - apply Exists_exists in E as ([ip' c] & Hin & Eq & Hi). simpl in Eq, Hi. subst ip'.
    rewrite Hp in Hin. apply elem_of_map_to_list in Hin. rewrite Hin. simpl.
    rewrite option_guard_False; [done|]. unfold alive. simpl. by rewrite Hi.
  - destruct (cs !! ip) as [c|] eqn:Ec; [|done]. simpl.
    rewrite option_guard_True; [done|]. unfold alive. simpl.
    apply not_true_is_false. intros Hi. apply E, Exists_exists. exists (ip, c).
    split; [|done]. rewrite Hp. by apply elem_of_map_to_list.
Qed.

Lemma sweep_evict now order s g m l p :
  ready s g m l p -> visits (activeClientsMap s) order ->
  let cs' := evict now order (activeClientsMap s) in
  exists q, sweep now order s p = Ok (set_activeClientsMap cs' s, q) /\
    Z.of_nat (size cs') <= Z.of_nat (size (activeClientsMap s)) /\
    moved (at_ g (Z.of_nat (size cs') - Z.of_nat (size (activeClientsMap s)))) p q.
Proof.
  revert s p. induction order as [|[ip c] order IH]; intros s p Hr Hv; simpl.
  - exists p. destruct s. split_and!; [done|done|].
    eapply moved_ext; [|apply moved_zero_refl]. intros h. unfold at_, zero_. case_decide; lia.
  - apply (visits_cons _ _ _ _ now) in Hv as [Hc Hv]. destruct (idle now c) eqn:Ei.
    + rewrite (ready_g _ _ _ _ _ Hr). simpl.
      destruct (IH (set_activeClientsMap (delete ip (activeClientsMap s)) s) (prom_dec g p))
        as (q & E & Hle & M).
      { eapply ready_account; [done|apply moved_dec]. }
      { done. }
      simpl in *. exists q. rewrite E. rewrite map_size_delete_Some in * by eauto.
      assert (0 < size (activeClientsMap s))%nat by
        by (pose proof (map_size_ne_0_lookup_2 _ _ (mk_is_Some _ _ Hc)); lia).
      split_and!; [done|lia|].
      eapply moved_ext; [|eapply moved_down; [..|apply moved_dec|exact M]];
        intros h; unfold plus_, at_; case_decide; lia.
    + by apply IH.
Qed.

Lemma sweep_spec now order s g m l p :
  ready s g m l p -> order ≡ₚ map_to_list (activeClientsMap s) ->
  let cs' := filter (alive now) (activeClientsMap s) in
  exists q, sweep now order s p = Ok (set_activeClientsMap cs' s, q) /\
    moved (at_ g (Z.of_nat (size cs') - Z.of_nat (size (activeClientsMap s)))) p q.
Proof.
  intros Hr Hp. destruct (sweep_evict now order s g m l p Hr) as (q & E & _ & M).
  { by apply visits_order. }
  rewrite evict_filter in E, M by done. eauto.
Qed.
End Sweep.

(** ** Invariants of the running server *)

(** Peel the Ok branches of a chain of calls. *)
Ltac ok_inv H :=
  repeat (let a := fresh "a" in let E := fresh "E" in
          apply bind_outcome_Ok_inv in H as (a & E & H)).

Section World.
Context `{MsgpackLaws} `{PromLaws}.
Implicit Types (s : udpServer) (p q : prom) (g m l : metric) (w : world).

(** Whatever a datagram contains, the read loop either leaves the state
    alone or runs the locked region once, with an int64 sequence number. *)
Lemma datagram_cases t1 t2 ip data b s p out b' s' p' :
  ReadFromSocket_datagram t1 t2 ip data b s p = Ok (out, b', s', p') ->
  (s' = s /\ p' = p) \/ exists seq, in64 seq /\ account t2 ip seq s p = Ok (s', p').
Proof.
  unfold ReadFromSocket_datagram. case_decide; [intros [= <- <- <- <-]; auto|].
  unfold handle. intros Hr. apply bind_outcome_Ok_inv in Hr as (hdr & _ & Hr).
  destruct (unmarshal_Message hdr) as [msg err] eqn:Eu.
  destruct err; [simplify_eq; auto|].
  destruct (marshal_Message _) as [byteArr|]; [|simplify_eq; auto].
  apply bind_outcome_Ok_inv in Hr as (tail & _ & Hr).
  apply bind_outcome_Ok_inv in Hr as ([s1 p1] & Ea & Hr).
  apply bind_outcome_Ok_inv in Hr as (o & _ & Hr). simplify_eq.
  right. eexists. split; [|exact Ea].
  pose proof (unmarshal_Message_ok hdr) as Hok. rewrite Eu in Hok.
  destruct Hok as [Hok _]. by case_match.
Qed.

Lemma TearDownServer_end_moved s p : moved zero_ p (TearDownServer_end s p).
Proof.
  unfold TearDownServer_end. revert p. induction (metrics s) as [|h hs IH]; intros p; simpl.
  - reflexivity.
  - etransitivity; [apply (moved_unregister h)|apply IH].
Qed.

Definition running (w : world) : Z :=
  (match w_reader w with RExited => 0 | _ => 1 end) + (if w_sweeper w then 1 else 0).

Record world_inv g m l (n : Z) w : Prop := mkInv {
  inv_ready : ready (w_srv w) g m l (w_prom w);
  inv_maxima : maxima_ok (activeClientsMap (w_srv w));
  inv_size : Z.of_nat (size (activeClientsMap (w_srv w))) <= n;
  inv_gauge : n <= 2 ^ 53 ->
    prom_value g (w_prom w) = Z.of_nat (size (activeClientsMap (w_srv w)));
  inv_count : isStopped (w_srv w) = running w;
  inv_teardown : w_teardown w <> TIdle ->
    stop (w_srv w) = true /\
    exists c, connection (w_srv w) = Some c /\ conn_closed c = true
}.

(** The gauge follows a change of the map's size. *)
Lemma gauge_follows d p q g (k k' : Z) n :
  moved d p q -> prom_live g p -> d g = k' - k -> 0 <= k <= n -> 0 <= k' <= n -> n <= 2 ^ 53 ->
  prom_value g p = k -> prom_value g q = k'.
Proof.
  intros [_ V] Hl Hd Hk Hk' Hn Hv. rewrite V, Hd, Hv; unfold small; try lia. done.
Qed.

Lemma counts_g g m l x y z : NoDup [g; m; l] -> counts g m l x y z g = x.
Proof.
  intros [Hg _]%NoDup_cons. unfold counts, plus_. rewrite at_eq, !at_ne; [lia|set_solver..].
Qed.

(** Steps that touch neither the map nor owned values keep the accounting part. *)
Lemma inv_frame g m l n w w' :
  world_inv g m l n w ->
  activeClientsMap (w_srv w') = activeClientsMap (w_srv w) ->
  ready (w_srv w') g m l (w_prom w') ->
  (n + 1 <= 2 ^ 53 -> prom_value g (w_prom w') = prom_value g (w_prom w)) ->
  isStopped (w_srv w') = running w' ->
  (w_teardown w' <> TIdle -> stop (w_srv w') = true /\
     exists c, connection (w_srv w') = Some c /\ conn_closed c = true) ->
  world_inv g m l (n + 1) w'.
Proof.
  intros I Em Hr Hv Hc Ht. destruct I. split; rewrite ?Em; auto; [lia|].
  intros. rewrite Hv by done. apply inv_gauge0. lia.
Qed.

Lemma inv_account g m l n s p b sw td t2 ip seq s' p' b' rd rd' :
  world_inv g m l n (mkWorld s p b rd sw td) -> rd <> RExited -> rd' <> RExited ->
  in64 seq -> account t2 ip seq s p = Ok (s', p') ->
  world_inv g m l (n + 1) (mkWorld s' p' b' rd' sw td).
Proof.
  intros [Hr Hok Hsz Hg Hc Ht] Hrd Hrd' Hseq Ea. simpl in *.
  destruct (account_spec s g m l p t2 ip seq Hr Hok Hseq) as (q & E & M).
  rewrite E in Ea. injection Ea as <- <-.
  pose proof (size_insert_newcomer (activeClientsMap s) ip
    (mkClientInfo t2 (Z.max (known_max (activeClientsMap s) ip) seq))) as Hsize.
  pose proof (newcomer_bounds (activeClientsMap s) ip).
  split; simpl; try done.
  - by eapply ready_account.
  - by apply maxima_ok_insert.
  - lia.
  - intros Hn. eapply (gauge_follows _ _ _ _ _ _ (n + 1) M); [..|done|apply Hg; lia]; try lia.
    + apply (Forall_inv (ready_live _ _ _ _ _ Hr)).
    + rewrite counts_g by apply (ready_distinct _ _ _ _ _ Hr). lia.
  - unfold running in *. simpl in *. by destruct rd, rd'.
Qed.

Lemma inv_step g m l n w lb w' :
  world_inv g m l n w -> 0 <= n -> step w lb w' -> world_inv g m l (n + 1) w'.
Proof.
  intros I Hn Hstep. pose proof I as [Hr Hok Hsz Hg Hc Ht]. destruct Hstep; simpl in *.
  - eapply inv_frame; [exact I|done..|by destruct sw|done].
  - unfold done in *. case_decide; [done|]. simplify_eq.
    eapply inv_frame; [exact I|..]; simpl; try done.
    + by eapply ready_frame; [|apply moved_zero_refl|..].
    + rewrite Hc. unfold running. simpl. lia.
  - eapply inv_frame; [exact I|done..|by destruct sw|done].
  - destruct (datagram_cases _ _ _ _ _ _ _ _ _ _ _ ltac:(eassumption))
      as [[-> ->]|(seq & Hseq & Ea)].
    + eapply inv_frame; [exact I|done..|by destruct sw|done].
    + by eapply inv_account; [exact I|..|exact Ea].
  - destruct (sweep_spec now order s g m l p Hr) as (q & E & M); [done|].
    match goal with Hs : sweep _ _ _ _ = Ok (s', p') |- _ => rewrite E in Hs; injection Hs as <- <- end.
    pose proof (map_size_filter (alive now) (activeClientsMap s)) as Hle.
    split; simpl; try done.
    + by eapply ready_frame.
    + intros k c [Hk _]%map_lookup_filter_Some. by apply (Hok k).
    + lia.
    + intros Hn'. eapply (gauge_follows _ _ _ _ _ _ (n + 1) M); [..|apply Hg; lia]; try lia.
      * apply (Forall_inv (ready_live _ _ _ _ _ Hr)).
      * apply at_eq.
  - unfold done in *. case_decide; [done|]. simplify_eq.
    eapply inv_frame; [exact I|..]; simpl; try done.
    + by eapply ready_frame; [|apply moved_zero_refl|..].
    + rewrite Hc. unfold running. simpl. lia.
  - unfold TearDownServer_begin in *. destruct (connection s) as [c|] eqn:Ec; [|done]. simplify_eq.
    eapply inv_frame; [exact I|..]; simpl; try done.
    + by eapply ready_frame; [|apply moved_zero_refl|..].
    + intros _. split; [done|]. by exists (close_conn c).
  - pose proof (TearDownServer_end_moved s p) as M.
    eapply inv_frame; [exact I|..]; simpl; try done.
    + by eapply ready_frame.
    + intros Hn'. rewrite (moved_value _ _ _ M); unfold zero_; [lia|..].
      * apply (Forall_inv (ready_live _ _ _ _ _ Hr)).
      * unfold small. rewrite Hg by lia. lia.
      * unfold small. rewrite Hg by lia. lia.
    + intros _. by apply Ht.
  - match goal with Hs : same_values_but _ _ _ |- _ => destruct Hs as [HL HV] end.
    eapply inv_frame; [exact I|..]; simpl; try done.
    + destruct Hr as [? ? ? ? Hlive]. split; [done..|]. eapply Forall_impl; [done|]. auto.
    + intros _. apply HV.
      * apply (Forall_inv (ready_live _ _ _ _ _ Hr)).
      * intros Hno. apply Hno. left. by destruct Hr.
Qed.

Lemma inv_steps g m l n w ls w' :
  world_inv g m l n w -> 0 <= n -> steps step w ls w' -> world_inv g m l (n + zlen ls) w'.
Proof.
  intros I Hn Hst. revert n I Hn. induction Hst as [w|w lb w1 ls w' Hone Hst IH]; intros n I Hn.
  - unfold zlen. simpl. by rewrite Z.add_0_r.
  - replace (n + zlen (lb :: ls)) with ((n + 1) + zlen ls) by (unfold zlen; simpl length; lia).
    apply IH; [by eapply inv_step|lia].
Qed.
(** ** Creation *)

(** A metric created and registered: fresh, live, at zero, nothing else moved. *)
Lemma create_metric o p h p1 p2 :
  prom_new o p = (h, p1) -> registerMetric h p1 = Ok p2 ->
  ~ prom_live h p /\ prom_live h p2 /\ prom_value h p2 = 0 /\ moved zero_ p p2.
Proof.
  intros E1 E2. unfold registerMetric in E2. destruct (prom_register h p1) as [|p2'] eqn:E; [done|].
  injection E2 as <-.
  pose proof (prom_new_fresh o p) as Hf. pose proof (prom_new_live o p) as Hl.
  pose proof (prom_new_value o p) as Hv. pose proof (moved_new o p) as M1.
  apply moved_register in E as M2. rewrite E1 in *. simpl in *.
  split_and!; [done|by eapply moved_live| |by etransitivity].
  rewrite (moved_value _ _ _ M2); unfold zero_; rewrite ?Hv; unfold small; try done; lia.
Qed.

Lemma moved_zero_value p q h : moved zero_ p q -> prom_live h p -> prom_value h p = 0 ->
  prom_live h q /\ prom_value h q = 0.
Proof.
  intros M Hl Hv. split; [by eapply moved_live|].
  rewrite (moved_value _ _ _ M), Hv; unfold zero_, small; rewrite ?Hv; try done; lia.
Qed.

Lemma Setup_started env conf s p s' q :
  SetupServerConnection env conf s p = Ok (s', q) ->
  exists g m l c, ready s' g m l q /\
    prom_value g q = 0 /\ prom_value m q = 0 /\ prom_value l q = 0 /\
    activeClientsMap s' = ∅ /\ connection s' = Some c /\
    isStopped s' = isStopped s /\ stop s' = stop s /\ podInfoByteArr s' = podInfoByteArr s /\
    msgHeaderLength s' = msgHeaderLength s.
Proof.
  unfold SetupServerConnection, NewGauge, NewCounter. intros Hs.
  apply bind_outcome_Ok_inv in Hs as (addr & _ & Hs).
  apply bind_outcome_Ok_inv in Hs as (c & _ & Hs).
  apply bind_outcome_Ok_inv in Hs as (_ & _ & Hs).
  destruct (prom_new _ p) as [g p1] eqn:Eg in Hs.
  apply bind_outcome_Ok_inv in Hs as (p2 & Rg & Hs).
  destruct (prom_new _ p2) as [m p3] eqn:Em in Hs.
  apply bind_outcome_Ok_inv in Hs as (p4 & Rm & Hs).
  destruct (prom_new _ p4) as [l p5] eqn:El in Hs.
  apply bind_outcome_Ok_inv in Hs as (p6 & Rl & Hs). injection Hs as <- <-.
  destruct (create_metric _ _ _ _ _ Eg Rg) as (_ & Lg & Vg & _).
  destruct (create_metric _ _ _ _ _ Em Rm) as (Fm & Lm & Vm & M2).
  destruct (create_metric _ _ _ _ _ El Rl) as (Fl & Ll & Vl & M4).
  destruct (moved_zero_value _ _ _ M2 Lg Vg) as [Lg4 Vg4].
  destruct (moved_zero_value _ _ _ M4 Lg4 Vg4) as [Lg6 Vg6].
  destruct (moved_zero_value _ _ _ M4 Lm Vm) as [Lm6 Vm6].
  exists g, m, l, c. split_and!; try done. split; try done.
  - assert (g <> m /\ g <> l /\ m <> l) as (? & ? & ?) by (split_and!; congruence).
    repeat (apply NoDup_cons_2; [set_solver|]). apply NoDup_nil_2.
  - by repeat constructor.
Qed.

Lemma CreateServer_started env conf ns pn nn ip ifn rbs p s q n :
  CreateServer env conf ns pn nn ip ifn rbs p = Ok (s, q) ->
  exists g m l, world_inv g m l 0 (started s q n).
Proof.
  unfold CreateServer, newUDPServer. intros Hc.
  apply bind_outcome_Ok_inv in Hc as (s0 & Hn & Hs).
  destruct GetMessageHeaderLength; [|done..].
  destruct (marshal_PodInfo _) as [info|]; [|done]. injection Hn as <-. apply Setup_started in Hs
    as (g & m & l & c & Hr & Hv & _ & _ & Hm & _ & His & _). simpl in *.
  exists g, m, l. split; simpl; rewrite ?Hm, ?map_size_empty; try done; try lia.
Qed.
(** ** Decoding the reply *)

(** The message a reply carries, and the length it is cut at. *)
Definition answered (t1 : Z) s (msg : Message) : Message :=
  set_ServerInfoLength (zlen (podInfoByteArr s)) (set_RespondTimeStamp t1 msg).
Definition reply_length s (msg : Message) : Z :=
  Z.max (Length msg) (msgHeaderLength s + zlen (podInfoByteArr s)).

Lemma answered_ok t1 s msg :
  in64 t1 -> zlen (podInfoByteArr s) < 2 ^ 63 -> msg_ok msg -> msg_ok (answered t1 s msg).
Proof.
  intros Ht Hp (Hs & Hst & _ & _ & Hl). pose proof (zlen_nonneg (podInfoByteArr s)).
  split_and!; simpl; try done. unfold in64. lia.
Qed.

(** A datagram that fits the buffer is handled in front of what the buffer held. *)
Lemma datagram_handle t1 t2 ip data buf s p :
  data <> [] -> zlen data <= zlen buf ->
  ReadFromSocket_datagram t1 t2 ip data buf s p =
  handle t1 t2 ip (data ++ drop (length data) buf) s p.
Proof.
  intros Hne Hfit. unfold ReadFromSocket_datagram, zlen in *.
  assert (length data <> 0%nat) by (by destruct data).
  rewrite decide_False by (rewrite length_go_copy; lia).
  by rewrite go_copy_fits by lia.
Qed.

(** A slice of known prefix, by lengths. *)
Lemma slice_take {A} (b : list A) n : 0 <= n <= zlen b -> slice b 0 n = Some (take (Z.to_nat n) b).
Proof. intros. rewrite slice_Some, Z.sub_0_r, drop_0 by lia. done. Qed.

(** What the handler does with a well-formed datagram that fills at least
    the header: it panics when the reply does not fit the buffer, and
    otherwise writes header, pod information and what follows in the buffer. *)
Lemma handle_spec t1 t2 ip (b pad : list byte) msg s g m l p :
  ready s g m l p -> maxima_ok (activeClientsMap s) -> in64 t1 ->
  GetMessageHeaderLength = Ok (msgHeaderLength s) -> zlen (podInfoByteArr s) < 2 ^ 63 ->
  msg_ok msg -> marshal_Message msg = Some b ->
  let buf := b ++ pad in
  let n := reply_length s msg in
  if decide (zlen buf < n) then is_panic (handle t1 t2 ip buf s p) = true
  else exists b' s' p' out buf',
    marshal_Message (answered t1 s msg) = Some b' /\
    account t2 ip (SequenceNumber msg) s p = Ok (s', p') /\
    handle t1 t2 ip buf s p = Ok (Some out, buf', s', p') /\
    out = b' ++ podInfoByteArr s ++
          take (Z.to_nat (n - zlen b - zlen (podInfoByteArr s))) (drop (length (podInfoByteArr s)) pad) /\
    zlen out = n.
Proof.
  intros Hr Hok Ht1 Hhdr Hpod Hm Hb buf n.
  pose proof (header_length_spec _ _ Hm Hb) as Hlen. rewrite Hhdr in Hlen. injection Hlen as Hlen.
  pose proof (answered_ok t1 s msg Ht1 Hpod Hm) as Hm'.
  destruct (marshal_Message_total _ Hm') as [b' Hb'].
  pose proof (marshal_Message_fixed _ _ _ _ Hm' Hm Hb' Hb) as Hlb.
  destruct (account_spec s g m l p t2 ip (SequenceNumber msg) Hr Hok ltac:(apply Hm))
    as (q & Ea & _).
  set (s' := set_activeClientsMap _ s) in Ea.
  unfold handle, buf. rewrite Hlen, slice_prefix. simpl.
  pose proof (unmarshal_marshal_Message msg b [] Hm Hb) as Hu. rewrite app_nil_r in Hu.
  rewrite Hu. clear Hu.
  change (set_ServerInfoLength _ _) with (answered t1 s msg). rewrite Hb'.
  rewrite go_copy_fits by (rewrite length_app; lia).
  rewrite Hlb, drop_app_length.
  pose proof (zlen_nonneg pad) as Hpad.
  assert (zlen b' = zlen b) as Hzb by (unfold zlen; lia).
  rewrite slice_Some by (unfold zlen in *; rewrite ?length_app; lia). simpl.
  assert (forall (x : nat), x = length pad ->
    take x (drop (Z.to_nat (zlen b')) (b' ++ pad)) = pad) as Hdrop.
  { intros x ->. unfold zlen. rewrite Nat2Z.id, drop_app_length. by rewrite take_ge. }
  rewrite Hdrop by (unfold zlen; rewrite length_app; lia).
  assert (take (length b) (b' ++ pad) = b') as -> by (rewrite <- Hlb; apply take_app_length).
  set (msg' := if Length msg <? zlen b' + zlen (podInfoByteArr s) then _ else _).
  assert (SequenceNumber msg' = SequenceNumber msg) as -> by (unfold msg'; by case_match).
  assert (Length msg' = n) as ->.
  { unfold msg', n, reply_length. destruct (Length msg <? _) eqn:?; simpl; lia. }
  rewrite Ea. simpl.
  case_decide as Hn.
  - rewrite slice_None; [done|]. unfold zlen in *. rewrite length_app, length_go_copy in *. lia.
  - assert (msgHeaderLength s + zlen (podInfoByteArr s) <= n) as Hn' by (unfold n, reply_length; lia).
    assert (zlen (podInfoByteArr s) <= zlen pad) as Hfit
      by (unfold zlen in *; rewrite length_app in *; lia).
    rewrite go_copy_fits by (unfold zlen in *; lia).
    pose proof (zlen_nonneg (podInfoByteArr s)).
    rewrite slice_take by (unfold zlen in *; rewrite !length_app, length_drop in *; lia).
    exists b', s', q. do 2 eexists. split_and!; [done..| |].
    + rewrite app_assoc, take_app_ge, app_assoc
        by (rewrite length_app; unfold zlen in *; lia).
      f_equal. f_equal. rewrite length_app. unfold zlen in *. lia.
    + unfold zlen in *. rewrite length_take, !length_app, length_drop in *. lia.
Qed.

(** The reply to a well-formed datagram whose answer fits the read buffer. *)
Lemma reply_shape t1 t2 ip (b rest buf : list byte) msg s g m l p :
  ready s g m l p -> maxima_ok (activeClientsMap s) -> in64 t1 ->
  GetMessageHeaderLength = Ok (msgHeaderLength s) -> zlen buf < 2 ^ 63 ->
  msg_ok msg -> marshal_Message msg = Some b -> zlen (b ++ rest) <= zlen buf ->
  reply_length s msg <= zlen buf ->
  exists out buf' s' p' b' pad,
    ReadFromSocket_datagram t1 t2 ip (b ++ rest) buf s p = Ok (Some out, buf', s', p') /\
    marshal_Message (answered t1 s msg) = Some b' /\ msg_ok (answered t1 s msg) /\
    zlen b' = msgHeaderLength s /\ out = b' ++ podInfoByteArr s ++ pad /\
    zlen out = reply_length s msg.
Proof.
  intros Hr Hok Ht Hh Hcap Hm Hb Hfit Hmax.
  pose proof (header_length_pos _ Hh) as Hhpos.
  assert (zlen (podInfoByteArr s) < 2 ^ 63) as Hpod by (unfold reply_length in *; lia).
  assert (b ++ rest <> []) as Hne
    by (apply marshal_Message_nonempty in Hb; by destruct b).
  rewrite datagram_handle, <- (app_assoc b) by done.
  pose proof (handle_spec t1 t2 ip b (rest ++ drop (length (b ++ rest)) buf) msg s g m l p
    Hr Hok Ht Hh Hpod Hm Hb) as Hs. cbv zeta in Hs.
  assert (zlen (b ++ rest ++ drop (length (b ++ rest)) buf) = zlen buf) as Hz.
  { unfold zlen in *. rewrite app_assoc, length_app, length_drop. lia. }
  rewrite Hz, decide_False in Hs by lia.
  destruct Hs as (b' & s' & p' & out & buf' & Hb' & _ & -> & Hout & Hlen).
  pose proof (answered_ok t1 s msg Ht Hpod Hm) as Hm'.
  pose proof (header_length_spec _ _ Hm' Hb') as Hhl. rewrite Hh in Hhl. injection Hhl as Hhl.
  eexists out, buf', s', p', b', _. by split_and!.
Qed.
End World.
