(* ===== verification/TAppTheorems.v ===== *)
(** * Properties of the UDP echo server

    The statements the server is trusted for, each with a concrete instance. *)
From S2P Require Import Prelude GoInt Strconv Message Metrics Reference Net TApp TAppProofs.
Import tapp.

(** ** A concrete server for the witnesses *)
Definition ok_env : NetEnv :=
  mkNetEnv (fun a => inr (mkUDPAddr a 8890)) (fun a => inr (mkUDPConn a None false))
    (fun a b => inr (mkUDPConn (default b a) (Some b) false)) (fun _ _ => None).

Definition demo_info : PodInfo := mkPodInfo "default" "pod-a" "node-1".
Definition demo_started : udpServer * store.st :=
  ok_or (mkUdpServer (mkServer demo_info "" 0) 0 [] None 0 0 false None None None [] ∅, ref_prom0)
    (CreateServer ok_env (mkConfig 524288) "default" "pod-a" "node-1" "10.10.10.2" "eth0" 1000 ref_prom0).
Definition demo_server : udpServer := demo_started.1.
Definition demo_prom : store.st := demo_started.2.

Lemma demo_created :
  CreateServer ok_env (mkConfig 524288) "default" "pod-a" "node-1" "10.10.10.2" "eth0" 1000 ref_prom0
  = Ok (demo_server, demo_prom).
Proof.
  unfold demo_server, demo_prom. rewrite <- surjective_pairing. apply ok_or_eq.
  vm_compute. reflexivity.
Qed.

(** A traffic packet: sequence number [seq], declared length [len]. *)
Definition demo_msg (seq len : Z) : Message := mkMessage seq 1000 0 0 len.
Definition demo_packet (seq len : Z) : list byte :=
  codec.enc_Message (demo_msg seq len) ++ replicate 60 Byte.xff.

Definition demo_buf : list byte := replicate 200 Byte.x00.

Section Theorems.
Context `{MsgpackLaws} `{PromLaws}.

(** C9: the exported gauge [active_client_streams] is, in every state the
    running server can reach through any interleaving of datagrams, failed
    reads, idle sweeps, teardown and activity of the rest of the process,
    the number of clients in the server's map (as long as the run is short
    enough for a float64 count to be exact). *)
Theorem gauge_counts_clients env conf ns pn nn ip ifn rbs p s q n ls w :
  CreateServer env conf ns pn nn ip ifn rbs p = Ok (s, q) ->
  steps step (started s q n) ls w -> zlen ls <= 2 ^ 53 ->
  exists g, activeClientStreams (w_srv w) = Some g /\
    prom_value g (w_prom w) = Z.of_nat (size (activeClientsMap (w_srv w))).
Proof.
  intros Hc Hst Hn. destruct (CreateServer_started _ _ _ _ _ _ _ _ _ _ _ n Hc) as (g & m & l & I).
  apply (inv_steps g m l 0 _ ls w I) in Hst; [|lia].
  exists g. split; [apply Hst|]. apply (inv_gauge _ _ _ _ _ Hst). lia.
Qed.

Definition goroutine_label (lb : label) : Prop :=
  match lb with LReader | LDatagram _ _ _ | LSweep | LSweeperExit => True | _ => False end.

(** Steps the two goroutines still take before both have called Done. *)
Definition remaining (w : world) : nat :=
  (match w_reader w with RReading => 2 | RHead => 1 | RExited => 0 end +
   if w_sweeper w then 1 else 0)%nat.

(** [TearDownServer] returns.  Once it waits, every step of the two
    goroutines brings their end closer, one of them can always step until
    both have ended, the WaitGroup never goes negative and is at zero when
    they have, which lets the wait finish. *)
Lemma teardown_completes env conf ns pn nn ip ifn rbs p s q n ls w :
  CreateServer env conf ns pn nn ip ifn rbs p = Ok (s, q) ->
  steps step (started s q n) ls w -> w_teardown w = TWaiting ->
  (forall lb w', goroutine_label lb -> step w lb w' -> (remaining w' < remaining w)%nat) /\
  ((0 < remaining w)%nat -> exists lb w', goroutine_label lb /\ step w lb w') /\
  (remaining w = 0%nat -> exists w', step w LTearDown w' /\ w_teardown w' = TFinished).
Proof.
  intros Hc Hst Hw. destruct (CreateServer_started _ _ _ _ _ _ _ _ _ _ _ n Hc) as (g & m & l & I).
  apply (inv_steps g m l 0 _ ls w I) in Hst; [|lia]. clear I Hc.
  destruct Hst as [_ _ _ _ Hcnt Htd].
  destruct Htd as (Hstop & c & Hconn & Hclosed); [by rewrite Hw|].
  destruct w as [s' p' b rd sw td]. simpl in *. subst td. unfold remaining, running in *. simpl in *.
  split_and!.
  - intros lb w' Hlb Hs. inversion Hs; subst; simpl in *; try done; try lia; congruence.
  - intros Hpos. destruct rd.
    + exists LReader. eexists. split; [done|]. apply step_reader_exit; [done|].
      unfold tapp.done. rewrite decide_False by (destruct sw; lia). done.
    + exists LReader. eexists. split; [done|]. apply step_reader_err.
    + destruct sw; [|lia]. exists LSweeperExit. eexists. split; [done|].
      apply step_sweeper_exit; [done|].
      unfold tapp.done. rewrite decide_False by lia. done.
  - intros Hzero. eexists. split; [apply step_teardown_end|done]. destruct rd, sw; lia.
Qed.

(** C18: over any sequence of datagrams, from any number of clients and in
    any order, a fresh server neither panics nor loses count: it remembers
    for each client the highest sequence number that client sent, and what
    it exports as missing less what it exports as late is the sum of these
    highest numbers less the number of datagrams. *)
Theorem missing_late_conservation env conf ns pn nn ip ifn rbs p s q pkts :
  CreateServer env conf ns pn nn ip ifn rbs p = Ok (s, q) ->
  Forall (fun '(_, _, seq) => in64 seq) pkts ->
  exists s' q', account_run pkts s q = Ok (s', q') /\
    (forall c, known_max (activeClientsMap s') c = foldl Z.max 0 (seqs_of c pkts)) /\
    (sum_max (activeClientsMap s') <= 2 ^ 53 -> zlen pkts <= 2 ^ 53 ->
     exists m l, packetsMissing s' = Some m /\ packetsLate s' = Some l /\
       prom_value m q' - prom_value l q' = sum_max (activeClientsMap s') - zlen pkts).
Proof.
  unfold CreateServer. intros Hc Hp.
  apply bind_outcome_Ok_inv in Hc as (s0 & _ & Hs).
  apply Setup_started in Hs as (g & m & l & c & Hr & _ & Vm & Vl & Hmap & _).
  assert (maxima_ok (activeClientsMap s)) as Hok by (rewrite Hmap; apply map_Forall_empty).
  destruct (account_run_spec pkts s g m l q Hr Hok Hp)
    as (s' & q' & dg & dm & dl & E & Hr' & _ & M & Pg & Pm & Pl & Hcons & _).
  exists s', q'. split; [done|]. split.
  - intros c'. rewrite (account_run_known_max _ _ _ _ _ _ _ _ c' Hr Hok Hp E), Hmap. done.
  - rewrite Hmap in Hcons. change (sum_max ∅) with 0 in Hcons. intros Hsum Hlen.
    exists m, l. split_and!; [apply Hr'..|].
    destruct (moved_counters _ _ _ _ _ _ _ _ _ Hr M) as [Wm Wl].
    rewrite Wm, Wl, Vm, Vl; unfold small; rewrite ?Vm, ?Vl; try done; lia.
Qed.

(** A sweep of the idle loop removes exactly the clients unseen for more
    than sixty seconds, in whatever order [range] visits the map, and moves
    the gauge by the number of clients it removed. *)
Lemma sweep_removes_idle_clients now order s g m l p :
  ready s g m l p -> order ≡ₚ map_to_list (activeClientsMap s) ->
  let kept := filter (alive now) (activeClientsMap s) in
  exists q, sweep now order s p = Ok (set_activeClientsMap kept s, q) /\
    (forall ip c, kept !! ip = Some c <->
       activeClientsMap s !! ip = Some c /\ now <= wrap64 (lastSeen c + 60000000)) /\
    moved (at_ g (Z.of_nat (size kept) - Z.of_nat (size (activeClientsMap s)))) p q.
Proof.
  intros Hr Hp kept. destruct (sweep_spec now order s g m l p Hr Hp) as (q & E & M).
  exists q. split; [done|]. split; [|done]. intros ip c. unfold kept.
  rewrite map_lookup_filter_Some. unfold alive, idle, add64. simpl.
  change connectionTimeoutinMicros with 60000000. rewrite Z.ltb_ge. done.
Qed.

(** C22: the server panics on a well-formed datagram exactly when the reply
    it asks for does not fit the read buffer: the declared [Length], or the
    header with the pod information, is longer than [readBufferSize]. *)
Theorem datagram_panics_iff t1 t2 ip (b rest buf : list byte) msg s g m l p :
  ready s g m l p -> maxima_ok (activeClientsMap s) -> in64 t1 ->
  GetMessageHeaderLength = Ok (msgHeaderLength s) -> zlen (podInfoByteArr s) < 2 ^ 63 ->
  msg_ok msg -> marshal_Message msg = Some b -> zlen (b ++ rest) <= zlen buf ->
  is_panic (ReadFromSocket_datagram t1 t2 ip (b ++ rest) buf s p) =
    bool_decide (zlen buf < Z.max (Length msg) (msgHeaderLength s + zlen (podInfoByteArr s))).
Proof.
  intros Hr Hok Ht Hh Hpod Hm Hb Hfit.
  assert (b ++ rest <> []) as Hne
    by (apply marshal_Message_nonempty in Hb; by destruct b).
  rewrite datagram_handle, <- (app_assoc b) by done.
  pose proof (handle_spec t1 t2 ip b (rest ++ drop (length (b ++ rest)) buf) msg s g m l p
    Hr Hok Ht Hh Hpod Hm Hb) as Hs. cbv zeta in Hs.
  assert (zlen (b ++ rest ++ drop (length (b ++ rest)) buf) = zlen buf) as Hz.
  { unfold zlen in *. rewrite app_assoc, length_app, length_drop. lia. }
  rewrite Hz in Hs. fold (reply_length s msg). case_decide as Hd.
  - rewrite Hs. by rewrite bool_decide_eq_true_2.
  - destruct Hs as (b' & s' & p' & out & buf' & _ & _ & -> & _). by rewrite bool_decide_eq_false_2.
Qed.

(** What a client decodes from the reply, by the slices [SocketRead]
    takes, is its own message with the respond timestamp and the length of
    the pod information filled in, followed by the server's pod
    information; the reply is as long as the message asked for. *)
Lemma reply_roundtrip t1 t2 ip (b rest buf : list byte) msg info s g m l p :
  ready s g m l p -> maxima_ok (activeClientsMap s) -> in64 t1 ->
  GetMessageHeaderLength = Ok (msgHeaderLength s) ->
  marshal_PodInfo info = Some (podInfoByteArr s) -> zlen buf < 2 ^ 63 ->
  msg_ok msg -> marshal_Message msg = Some b -> zlen (b ++ rest) <= zlen buf ->
  Z.max (Length msg) (msgHeaderLength s + zlen (podInfoByteArr s)) <= zlen buf ->
  exists out buf' s' p' h i,
    ReadFromSocket_datagram t1 t2 ip (b ++ rest) buf s p = Ok (Some out, buf', s', p') /\
    zlen out = Z.max (Length msg) (msgHeaderLength s + zlen (podInfoByteArr s)) /\
    slice out 0 (msgHeaderLength s) = Some h /\
    unmarshal_Message h = (answered t1 s msg, false) /\
    slice out (msgHeaderLength s)
      (add64 (msgHeaderLength s) (ServerInfoLength (answered t1 s msg))) = Some i /\
    unmarshal_PodInfo i = (info, false).
Proof.
  intros Hr Hok Ht Hh Hi Hcap Hm Hb Hfit Hmax.
  destruct (reply_shape t1 t2 ip b rest buf msg s g m l p)
    as (out & buf' & s' & p' & b' & pad & E & Hb' & Hm' & Hhl & -> & Hlen); try done.
  pose proof (unmarshal_marshal_Message _ _ [] Hm' Hb') as Hu. rewrite app_nil_r in Hu.
  pose proof (unmarshal_marshal_PodInfo _ _ [] Hi) as Hui. rewrite app_nil_r in Hui.
  eexists _, buf', s', p', b', (podInfoByteArr s). rewrite <- Hhl.
  split_and!; [exact E|by rewrite Hhl| |done| |done].
  - apply slice_prefix.
  - simpl. unfold add64. rewrite wrap64_id; [apply slice_middle|].
    pose proof (zlen_nonneg b'). pose proof (zlen_nonneg (podInfoByteArr s)).
    unfold in64. lia.
Qed.
End Theorems.

(** ** Concrete instances *)

(** The header length and pod information of the demo server are what the
    codec produces, and its metrics are live. *)
Definition metric_or (o : option nat) : nat := from_option id 0%nat o.
Definition demo_g : nat := metric_or (activeClientStreams demo_server).
Definition demo_m : nat := metric_or (packetsMissing demo_server).
Definition demo_l : nat := metric_or (packetsLate demo_server).

Lemma demo_ready : ready (demo_server : @udpServer ref_PromLib) demo_g demo_m demo_l demo_prom.
Proof.
  split; [reflexivity..| |].
  - apply (bool_decide_unpack _). vm_compute. exact I.
  - repeat constructor; unfold prom_live; simpl; unfold store.live; apply Nat.ltb_lt; vm_compute; reflexivity.
Qed.

(** One datagram of client 10.0.0.1 carrying sequence number 3. *)
Definition demo_recv :=
  ok_or (None, [], demo_server, demo_prom)
    (ReadFromSocket_datagram 5000 6000 "10.0.0.1" (demo_packet 3 100) (replicate 200 Byte.x00)
       demo_server demo_prom).

Definition demo_world : world :=
  mkWorld demo_recv.1.2 demo_recv.2 demo_recv.1.1.2 RHead true TIdle.

Lemma demo_run :
  steps step (started demo_server demo_prom 200)
    [LReader; LDatagram "10.0.0.1" (demo_packet 3 100) demo_recv.1.1.1] demo_world.
Proof.
  eapply steps_cons; [apply step_reader_enter; vm_compute; reflexivity|].
  apply steps_one.
  eapply (step_reader_data 5000 6000); [reflexivity|reflexivity|unfold in64; lia|unfold in64; lia|].
  rewrite <- !surjective_pairing. apply ok_or_eq. vm_compute. reflexivity.
Qed.

Lemma gauge_counts_clients_witness :
  exists g, activeClientStreams (w_srv demo_world) = Some g /\
    store.value g (w_prom demo_world) = Z.of_nat (size (activeClientsMap (w_srv demo_world))) /\
    size (activeClientsMap (w_srv demo_world)) = 1%nat.
Proof.
  destruct (gauge_counts_clients _ _ _ _ _ _ _ _ _ _ _ _ _ _ demo_created demo_run)
    as (g & Hg & Hv); [vm_compute; discriminate|].
  exists g. split; [exact Hg|]. split; [exact Hv|]. vm_compute. reflexivity.
Defined.

Definition demo_waiting : world :=
  mkWorld (set_connection (Some (close_conn (mkUDPConn (mkUDPAddr "10.10.10.2:8890" 8890) None false)))
             (set_stop true demo_recv.1.2))
    demo_recv.2 demo_recv.1.1.2 RHead true TWaiting.

Lemma demo_run_waiting :
  steps step (started demo_server demo_prom 200)
    [LReader; LDatagram "10.0.0.1" (demo_packet 3 100) demo_recv.1.1.1; LTearDown] demo_waiting.
Proof.
  eapply (steps_snoc _ _ _ _ _ _ demo_run). apply step_teardown_begin; [discriminate|].
  reflexivity.
Qed.

Lemma missing_late_conservation_witness :
  exists s' q' m l,
    account_run [("10.0.0.1", 100, 1); ("10.0.0.2", 110, 5); ("10.0.0.1", 120, 4); ("10.0.0.1", 130, 2)]
      demo_server demo_prom = Ok (s', q') /\
    packetsMissing s' = Some m /\ packetsLate s' = Some l /\
    store.value m q' - store.value l q' = (4 + 5) - 4.
Proof.
  destruct (missing_late_conservation _ _ _ _ _ _ _ _ _ _ _
    [("10.0.0.1", 100, 1); ("10.0.0.2", 110, 5); ("10.0.0.1", 120, 4); ("10.0.0.1", 130, 2)]
    demo_created) as (s' & q' & E & _ & Hv).
  { repeat constructor; vm_compute; discriminate. }
  assert (sum_max (activeClientsMap s') = 9) as Hsum.
  { pose proof (f_equal (fun o => match o with Ok (s, _) => sum_max (activeClientsMap s) | _ => 0 end) E) as E'.
    cbv beta iota in E'. rewrite <- E'. vm_compute. reflexivity. }
  destruct Hv as (m & l & Hm & Hl & Hv); [lia|vm_compute; discriminate|].
  exists s', q', m, l. split; [exact E|]. split; [exact Hm|]. split; [exact Hl|].
  etransitivity; [exact Hv|]. rewrite Hsum. reflexivity.
Defined.

Lemma demo_recv_ready : ready demo_recv.1.2 demo_g demo_m demo_l demo_recv.2.
Proof.
  split; [reflexivity..| |].
  - apply (bool_decide_unpack _). vm_compute. exact I.
  - repeat constructor; unfold prom_live; simpl; unfold store.live; apply Nat.ltb_lt;
      vm_compute; reflexivity.
Qed.

Lemma datagram_panics_iff_witness :
  is_panic (ReadFromSocket_datagram 5000 6000 "10.0.0.1" (demo_packet 1 1500) (replicate 1000 Byte.x00)
              demo_server demo_prom) = true.
Proof.
  unfold demo_packet. rewrite (datagram_panics_iff 5000 6000 "10.0.0.1" _ _ _ (demo_msg 1 1500)
    demo_server demo_g demo_m demo_l demo_prom demo_ready).
  - apply bool_decide_eq_true_2. vm_compute. reflexivity.
  - apply (bool_decide_unpack _). vm_compute. exact I.
  - vm_compute. split; [discriminate|reflexivity].
  - vm_compute. reflexivity.
  - vm_compute. reflexivity.
  - unfold msg_ok, in64. simpl. lia.
  - reflexivity.
  - vm_compute. discriminate.
Defined.
