(* ===== verification/TAppClients.v ===== *)
(** * Who a client is (pkg/tapp/udp.go)

    [activeClientsMap] is keyed by the address a datagram comes from, without
    its port, and an entry lasts until its client has been silent for a
    minute.  What that does to the counts when a stream is restarted, or
    pauses. *)
From S2P Require Import Prelude GoInt Message Metrics Reference Net TApp TAppProofs TAppTheorems.
Import tapp.

Section Clients.
Context `{Msgpack} `{PromLaws}.
Implicit Types (s : udpServer) (p q : prom) (g m l : metric).

(** Numbers up to the recorded maximum change no maximum. *)
Lemma stale_run pkts s g m l p ip M :
  ready s g m l p -> maxima_ok (activeClientsMap s) -> known_max (activeClientsMap s) ip = M ->
  Forall (fun '(ip', _, k) => ip' = ip /\ 0 <= k <= M) pkts ->
  exists s' q, account_run pkts s p = Ok (s', q) /\ known_max (activeClientsMap s') ip = M /\
    sum_max (activeClientsMap s') = sum_max (activeClientsMap s).
Proof.
  intros Hr Hok HM Hp. revert s p Hr Hok HM.
  induction Hp as [|[[ip' now] k] pkts [-> Hk] Hp IH]; intros s p Hr Hok HM; [by exists s, p|].
  pose proof (known_max_ok _ ip Hok) as Hb.
  assert (in64 k) as Hk64 by (unfold in64; lia).
  destruct (account_spec s g m l p now ip k Hr Hok Hk64) as (q1 & E1 & M1).
  simpl. rewrite E1. simpl. rewrite HM, Z.max_l in * by lia.
  destruct (IH (set_activeClientsMap (<[ip:=mkClientInfo now M]> (activeClientsMap s)) s) q1)
    as (s' & q & E & Hm & Hs).
  - by eapply ready_account.
  - rewrite <- HM, <- (Z.max_l (known_max (activeClientsMap s) ip) k) by lia. by apply maxima_ok_insert.
  - simpl. rewrite known_max_insert. by rewrite decide_True.
  - exists s', q. split_and!; [done|done|]. rewrite Hs. simpl. rewrite sum_max_insert, HM. simpl. lia.
Qed.

(** C19: a client is its address. When a stream is restarted (a changed
    profile does that to all of them), or a second stream has the address,
    each of its packets is counted as late, in order or not, until it numbers
    one above the highest number of the old stream, and a lost one among them is
    not counted as missing. When a stream pauses for longer than the idle timeout, the sweep
    forgets it, and its next packet charges every number before it as missing,
    whatever had arrived. *)
Theorem address_is_the_client s g m l p ip :
  ready s g m l p -> maxima_ok (activeClientsMap s) -> small (prom_value m p) ->
  (forall pkts,
     Forall (fun '(ip', _, k) => ip' = ip /\ 0 <= k <= known_max (activeClientsMap s) ip) pkts ->
     small (prom_value l p) -> small (prom_value l p + zlen pkts) ->
     exists s' q, account_run pkts s p = Ok (s', q) /\
       known_max (activeClientsMap s') ip = known_max (activeClientsMap s) ip /\
       prom_value l q = prom_value l p + zlen pkts /\ prom_value m q = prom_value m p) /\
  (forall now order c t k, order ≡ₚ map_to_list (activeClientsMap s) ->
     activeClientsMap s !! ip = Some c -> idle now c = true -> 1 <= k < 2 ^ 63 ->
     small (prom_value m p + (k - 1)) ->
     exists s1 p1 s2 p2, sweep now order s p = Ok (s1, p1) /\ account t ip k s1 p1 = Ok (s2, p2) /\
       prom_value m p2 = prom_value m p + (k - 1)).
Proof.
  intros Hr Hok Hm. split.
  - intros pkts Hp Hl Hln. pose proof (known_max_ok _ ip Hok) as Hb.
    assert (Forall (fun '(_, _, k) => in64 k) pkts) as Hp64
      by (eapply Forall_impl; [exact Hp|]; intros [[? ?] k] [_ ?]; unfold in64; lia).
    destruct (stale_run pkts s g m l p ip _ Hr Hok eq_refl Hp) as (s' & q & E & Ek & Es).
    destruct (account_run_spec pkts s g m l p Hr Hok Hp64)
      as (s1 & q1 & dg & dm & dl & E1 & _ & _ & M & _ & P2 & P3 & Hc & _).
    rewrite E in E1. injection E1 as <- <-. assert (dm = 0 /\ dl = zlen pkts) as [-> ->] by lia.
    destruct (moved_counters _ _ _ _ _ _ _ _ _ Hr M) as [Vm Vl].
    exists s', q. split_and!; [done|done|by apply Vl|]. rewrite Vm; [lia|done|by rewrite Z.add_0_r].
  - intros now order c t k Hp Hc Hi Hk Hs.
    destruct (sweep_spec now order s g m l p Hr Hp) as (q & E & M).
    set (cs := filter (alive now) (activeClientsMap s)) in *.
    assert (known_max cs ip = 0) as Hz.
    { unfold known_max. assert (cs !! ip = None) as ->; [|done]. apply map_lookup_filter_None. right.
      intros c' Hc' Ha. unfold alive in Ha. simpl in Ha. congruence. }
    assert (ready (set_activeClientsMap cs s) g m l q) as Hr1 by (by eapply ready_frame).
    assert (maxima_ok cs) as Hok1 by (intros i x [Hx _]%map_lookup_filter_Some; by apply (Hok i x)).
    destruct (account_spec (set_activeClientsMap cs s) g m l q t ip k Hr1 Hok1 ltac:(unfold in64; lia)) as (q2 & E2 & M2).
    simpl in *. rewrite Hz in *. eexists _, q, _, q2. split; [exact E|]. split; [exact E2|].
    assert (prom_value m q = prom_value m p) as Eq.
    { destruct Hr as [_ _ _ Hd Hlive]. apply NoDup_cons in Hd as [Hd _].
      apply Forall_cons in Hlive as [_ [Lm _]%Forall_cons].
      assert (m <> g) as Hne by set_solver.
      rewrite (moved_value _ _ _ M); rewrite ?(at_ne _ _ _ Hne), ?Z.add_0_r; done. }
    destruct (moved_counters _ _ _ _ _ _ _ _ _ Hr1 M2) as [Vm _].
    assert (gap 0 k = k - 1) as Eg by (unfold gap; destruct (Z.ltb_spec 0 k); lia).
    rewrite Eg, Eq in Vm. by apply Vm.
Qed.
End Clients.

(** The client of [demo_recv] has sent packet 3: a new stream's packets 1 and 2
    are late; after a minute of silence, packet 501 makes 500 missing. *)
Lemma address_is_the_client_witness :
  (exists s' q, account_run [("10.0.0.1", 7000, 1); ("10.0.0.1", 8000, 2)] demo_recv.1.2 demo_recv.2 = Ok (s', q) /\
     store.value demo_l q = store.value demo_l demo_recv.2 + 2) /\
  (exists s1 p1 s2 p2,
     sweep 60006001 (map_to_list (activeClientsMap demo_recv.1.2)) demo_recv.1.2 demo_recv.2 = Ok (s1, p1) /\
     account 60007000 "10.0.0.1" 501 s1 p1 = Ok (s2, p2) /\
     store.value demo_m p2 = store.value demo_m demo_recv.2 + 500).
Proof.
  assert (activeClientsMap demo_recv.1.2 !! "10.0.0.1" = Some (mkClientInfo 6000 3)) as E
    by (vm_compute; reflexivity).
  destruct (address_is_the_client demo_recv.1.2 demo_g demo_m demo_l demo_recv.2 "10.0.0.1" demo_recv_ready)
    as [H1 H2].
  - intros ip c Hc. destruct (decide (ip = "10.0.0.1")) as [->|Hne].
    + rewrite E in Hc. injection Hc as <-. simpl. lia.
    + exfalso. revert Hc. change (activeClientsMap demo_recv.1.2) with ({["10.0.0.1" := mkClientInfo 6000 3]} : gmap string clientInfo).
      by rewrite lookup_singleton_ne by congruence.
  - vm_compute. split; discriminate.
  - split.
    + destruct (H1 [("10.0.0.1", 7000, 1); ("10.0.0.1", 8000, 2)]) as (s' & q & E1 & _ & V & _).
      * unfold known_max. rewrite E. simpl. repeat constructor; lia.
      * vm_compute. split; discriminate.
      * vm_compute. split; discriminate.
      * exists s', q. split; [exact E1|exact V].
    + exact (H2 60006001 _ _ 60007000 501 (reflexivity _) E ltac:(vm_compute; reflexivity) ltac:(lia)
        ltac:(vm_compute; split; discriminate)).
Defined.
