(* ===== verification/TGen.v ===== *)
(** * The traffic generator: a UDP stream (pkg/tgen/udp.go)

    [tgen] holds a stream's state and operations in the order of the file.
    Code that reads and writes the stream and the metrics library is in the
    state monad [M].  A stream runs three goroutines ([SocketRead],
    [HandleTimeouts], [StartPackets]) that share it; file TGenStep gives
    their interleavings. *)
From S2P Require Import Prelude GoInt Strconv GoStrings Message Metrics Net Pair TApp.

Module tgen.

Definition trafficNotStartedStr : string := "traffic_not_started".
Definition packetSentStr : string := "packets_sent".
Definition packetSendFailedStr : string := "packet_send_failed".
Definition packetReceivedStr : string := "packets_received".
Definition packetDroppedStr : string := "packets_dropped".
Definition roundTripTimeStr : string := "total_round_trip_time".
Definition latencyStr : string := "latency".
Definition serverNamespaceStr : string := "server_namespace".
Definition serverPodStr : string := "server_pod".
Definition serverNodeStr : string := "server_node".

Definition defaultUDPPacketSize : Z := 1000.
Definition defaultUDPPacketTimeout : Z := 5.
Definition defaultUDPSendRate : Z := 500.
Definition defaultUDPRedialTimeout : Z := 5.

(** The configuration, one object shared by the module and all its streams. *)
Record config := mkConfig {
  socketReadBufSize : Z;
  sendRate : Z;
  packetSize : Z;
  packetTimeout : Z;
  redialTimeout : Z;
  suspendTraffic : bool
}.

(** What [init] registers. *)
Definition defaultConfig : config :=
  mkConfig 0 defaultUDPSendRate defaultUDPPacketSize defaultUDPPacketTimeout
    defaultUDPRedialTimeout false.

(** The float64 totals kept beside the exported counters. *)
Record totals := mkTotals {
  packetSentVal : Z;
  packetSendFailedVal : Z;
  packetReceivedVal : Z;
  packetDroppedVal : Z;
  roundTripVal : Z
}.

Section Stream.
Context `{Msgpack} `{PromLib}.

(** The metric fields, nil until [SetupConnection] creates them. *)
Record handles := mkHandles {
  packetSent : option metric;
  packetSendFailed : option metric;
  packetReceived : option metric;
  packetDropped : option metric;
  roundTrip : option metric;
  latency : option metric
}.

(** [pair] of the source is a pointer: [pairAt] is where it points, [pair] what
    is stored there.  Others hold the same pointer; where they do (file Pod)
    [pair] is fetched from the store before a step, and put back after it. *)
Record udpStream := mkStream {
  isStopped : Z;                       (* the WaitGroup's counter *)
  connection : option UDPConn;
  localAddr : option UDPAddr;
  pairAt : nat;
  pair : BatPair;
  readBufferSize : Z;
  packetSequence : Z;
  msgHeaderLength : Z;
  stop : bool;
  streamMetrics : list metric;
  metricLabelMap : gmap string string;
  trafficNotStarted : option metric;
  hs : handles;
  vals : totals
}.

Definition set_isStopped (x : Z) (c : udpStream) : udpStream :=
  mkStream x (connection c) (localAddr c) (pairAt c) (pair c) (readBufferSize c) (packetSequence c)
    (msgHeaderLength c) (stop c) (streamMetrics c) (metricLabelMap c) (trafficNotStarted c)
    (hs c) (vals c).
Definition set_connection (x : option UDPConn) (c : udpStream) : udpStream :=
  mkStream (isStopped c) x (localAddr c) (pairAt c) (pair c) (readBufferSize c) (packetSequence c)
    (msgHeaderLength c) (stop c) (streamMetrics c) (metricLabelMap c) (trafficNotStarted c)
    (hs c) (vals c).
Definition set_localAddr (x : option UDPAddr) (c : udpStream) : udpStream :=
  mkStream (isStopped c) (connection c) x (pairAt c) (pair c) (readBufferSize c) (packetSequence c)
    (msgHeaderLength c) (stop c) (streamMetrics c) (metricLabelMap c) (trafficNotStarted c)
    (hs c) (vals c).
Definition set_pair (x : BatPair) (c : udpStream) : udpStream :=
  mkStream (isStopped c) (connection c) (localAddr c) (pairAt c) x (readBufferSize c) (packetSequence c)
    (msgHeaderLength c) (stop c) (streamMetrics c) (metricLabelMap c) (trafficNotStarted c)
    (hs c) (vals c).
Definition set_packetSequence (x : Z) (c : udpStream) : udpStream :=
  mkStream (isStopped c) (connection c) (localAddr c) (pairAt c) (pair c) (readBufferSize c) x
    (msgHeaderLength c) (stop c) (streamMetrics c) (metricLabelMap c) (trafficNotStarted c)
    (hs c) (vals c).
Definition set_stop (x : bool) (c : udpStream) : udpStream :=
  mkStream (isStopped c) (connection c) (localAddr c) (pairAt c) (pair c) (readBufferSize c)
    (packetSequence c) (msgHeaderLength c) x (streamMetrics c) (metricLabelMap c)
    (trafficNotStarted c) (hs c) (vals c).
Definition set_streamMetrics (x : list metric) (c : udpStream) : udpStream :=
  mkStream (isStopped c) (connection c) (localAddr c) (pairAt c) (pair c) (readBufferSize c)
    (packetSequence c) (msgHeaderLength c) (stop c) x (metricLabelMap c)
    (trafficNotStarted c) (hs c) (vals c).
Definition set_metricLabelMap (x : gmap string string) (c : udpStream) : udpStream :=
  mkStream (isStopped c) (connection c) (localAddr c) (pairAt c) (pair c) (readBufferSize c)
    (packetSequence c) (msgHeaderLength c) (stop c) (streamMetrics c) x
    (trafficNotStarted c) (hs c) (vals c).
Definition set_trafficNotStarted (x : option metric) (c : udpStream) : udpStream :=
  mkStream (isStopped c) (connection c) (localAddr c) (pairAt c) (pair c) (readBufferSize c)
    (packetSequence c) (msgHeaderLength c) (stop c) (streamMetrics c) (metricLabelMap c)
    x (hs c) (vals c).
Definition set_hs (x : handles) (c : udpStream) : udpStream :=
  mkStream (isStopped c) (connection c) (localAddr c) (pairAt c) (pair c) (readBufferSize c)
    (packetSequence c) (msgHeaderLength c) (stop c) (streamMetrics c) (metricLabelMap c)
    (trafficNotStarted c) x (vals c).
Definition set_vals (x : totals) (c : udpStream) : udpStream :=
  mkStream (isStopped c) (connection c) (localAddr c) (pairAt c) (pair c) (readBufferSize c)
    (packetSequence c) (msgHeaderLength c) (stop c) (streamMetrics c) (metricLabelMap c)
    (trafficNotStarted c) (hs c) x.

Definition pending (c : udpStream) : gmap Z Z := PendingRequestsMap (pair c).
Definition set_pending (m : gmap Z Z) (c : udpStream) : udpStream :=
  set_pair (set_PendingRequestsMap m (pair c)) c.
Definition destination (c : udpStream) : Remote := pair_Destination (pair c).
Definition set_destination (d : Remote) (c : udpStream) : udpStream :=
  set_pair (set_Destination d (pair c)) c.

(** The state the code of a stream works on. *)
Definition state : Type := udpStream * prom.
Definition M (A : Type) : Type := ST state A.

Definition get {A} (f : udpStream -> A) : M A := gets (fun s => f s.1).
Definition upd (f : udpStream -> udpStream) : M unit := modify (fun s => (f s.1, s.2)).
Definition lib (f : prom -> prom) : M unit := modify (fun s => (s.1, f s.2)).

Definition nil_deref : string :=
  "runtime error: invalid memory address or nil pointer dereference".
Definition deref {A} (o : option A) : M A := lift (or_panic nil_deref o).

(** [m.Inc()] and [m.Add(v)] on a field of the stream. *)
Definition Inc (field : udpStream -> option metric) : M unit :=
  let! o := get field in let! m := deref o in lib (prom_inc m).
Definition Add (field : udpStream -> option metric) (v : Z) : M unit :=
  let! o := get field in
  let! m := deref o in
  fun s => match prom_add m v s.2 with
           | None => (Panic "counter cannot decrease in value", s)
           | Some q => (Ok tt, (s.1, q))
           end.

(** Creation of a metric through the constructors of pkg/util. *)
Definition create (f : prom -> metric * prom) : M metric :=
  fun s => let '(m, q) := f s.2 in (Ok m, (s.1, q)).

Definition MustRegister (m : metric) : M unit :=
  fun s => match prom_register m s.2 with
           | inl e => (Panic e, s)
           | inr q => (Ok tt, (s.1, q))
           end.

(** ** SetupConnection *)

Definition base_labels (conf : config) (c : udpStream) : gmap string string :=
  <["source" := json_Source (pair_Source (pair c))]>
    (<["packet_rate" := Itoa (sendRate conf)]>
      (<["packet_size" := Itoa (packetSize conf)]>
        (<["scenario" := TrafficScenario (pair c)]>
          (<["destination" := rem_Name (destination c)]> ∅)))).

(** [registerMetric]: registered, then remembered. *)
Definition registerMetric (m : metric) : M unit :=
  let! _ := MustRegister m in upd (fun c => set_streamMetrics (streamMetrics c ++ [m]) c).

Definition set_packetSent (m : option metric) (c : udpStream) : udpStream :=
  set_hs (mkHandles m (packetSendFailed (hs c)) (packetReceived (hs c)) (packetDropped (hs c))
            (roundTrip (hs c)) (latency (hs c))) c.
Definition set_packetSendFailed (m : option metric) (c : udpStream) : udpStream :=
  set_hs (mkHandles (packetSent (hs c)) m (packetReceived (hs c)) (packetDropped (hs c))
            (roundTrip (hs c)) (latency (hs c))) c.
Definition set_packetReceived (m : option metric) (c : udpStream) : udpStream :=
  set_hs (mkHandles (packetSent (hs c)) (packetSendFailed (hs c)) m (packetDropped (hs c))
            (roundTrip (hs c)) (latency (hs c))) c.
Definition set_packetDropped (m : option metric) (c : udpStream) : udpStream :=
  set_hs (mkHandles (packetSent (hs c)) (packetSendFailed (hs c)) (packetReceived (hs c)) m
            (roundTrip (hs c)) (latency (hs c))) c.
Definition set_roundTrip (m : option metric) (c : udpStream) : udpStream :=
  set_hs (mkHandles (packetSent (hs c)) (packetSendFailed (hs c)) (packetReceived (hs c))
            (packetDropped (hs c)) m (latency (hs c))) c.
Definition set_latency (m : option metric) (c : udpStream) : udpStream :=
  set_hs (mkHandles (packetSent (hs c)) (packetSendFailed (hs c)) (packetReceived (hs c))
            (packetDropped (hs c)) (roundTrip (hs c)) m) c.

(** The three statements [registerStreamMetrics] repeats for each counter:
    create it in its field, register it, restore the total kept so far. *)
Definition registerCounter (name help : string) (field : udpStream -> option metric)
    (set_field : option metric -> udpStream -> udpStream) (val : udpStream -> Z) : M unit :=
  let! profile := get (fun c => TrafficProfile (pair c)) in
  let! labels := get metricLabelMap in
  let! m := create (NewCounter PromNamespace profile name help labels) in
  let! _ := upd (set_field (Some m)) in
  let! _ := registerMetric m in
  let! v := get val in
  if 0 <? v then Add field v else ret tt.

(** The same for the summary, whose observations are not restored. *)
Definition registerSummary : M unit :=
  let! profile := get (fun c => TrafficProfile (pair c)) in
  let! labels := get metricLabelMap in
  let! m := create (NewSummary PromNamespace profile latencyStr "latency statistics" labels
                      [(500, 50); (900, 20); (950, 10); (990, 5)]) in
  let! _ := upd (set_latency (Some m)) in
  registerMetric m.

Definition registerStreamMetrics : M unit :=
  let! _ := registerCounter packetSentStr "total packet sent"
    (fun c => packetSent (hs c)) set_packetSent (fun c => packetSentVal (vals c)) in
  let! _ := registerCounter packetSendFailedStr "total packet send failed"
    (fun c => packetSendFailed (hs c)) set_packetSendFailed (fun c => packetSendFailedVal (vals c)) in
  let! _ := registerCounter packetReceivedStr "total packet received"
    (fun c => packetReceived (hs c)) set_packetReceived (fun c => packetReceivedVal (vals c)) in
  let! _ := registerCounter packetDroppedStr "total packet dropped"
    (fun c => packetDropped (hs c)) set_packetDropped (fun c => packetDroppedVal (vals c)) in
  let! _ := registerCounter roundTripTimeStr "total round trip time"
    (fun c => roundTrip (hs c)) set_roundTrip (fun c => roundTripVal (vals c)) in
  registerSummary.

Definition deRegisterStreamMetrics : M unit :=
  let! ms := get streamMetrics in
  lib (fun p => fold_left (fun p m => prom_unregister m p) ms p).

Definition reRegisterStreamMetrics : M unit :=
  let! _ := deRegisterStreamMetrics in registerStreamMetrics.

(** An error before the dial is counted as traffic not started. *)
Definition orNotStarted {A} (r : outcome A) : M A :=
  match r with
  | Ok a => ret a
  | Err e => let! _ := Inc trafficNotStarted in fail e
  | Panic w => panic w
  end.

Definition clientAddress (name : string) : string :=
  if IsIPv6 name then "[" +:+ name +:+ "]:" +:+ Itoa tapp.UDPServerPort
  else name +:+ ":" +:+ Itoa tapp.UDPServerPort.

(** From the first metric's registration on: resolve, dial, register the rest. *)
Definition SetupConnection_body (env : NetEnv) (conf : config) : M unit :=
  let! name := get (fun c => rem_Name (destination c)) in
  let! _ := (if negb (IsIPv6 name) && negb (IsIPv4 name)
             then upd (fun c => set_destination (set_IsDN true (destination c)) c)
             else ret tt) in
  let! raddr := orNotStarted (net_result (ResolveUDPAddr env (clientAddress name))) in
  let! _ := upd (fun c => set_destination (set_IP (addr_IP raddr) (destination c)) c) in
  let! ip := get (fun c => src_IP (pair_Source (pair c))) in
  let! srcAddress := orNotStarted (GetResolvableAddress ip) in
  let! laddr := orNotStarted (net_result (ResolveUDPAddr env srcAddress)) in
  let! conn := orNotStarted (net_result (DialUDP env (Some laddr) raddr)) in
  let! _ := lift (net_error (SetReadBuffer env conn (socketReadBufSize conf))) in
  let! _ := upd (set_connection (Some conn)) in
  let! _ := upd (set_localAddr (Some laddr)) in
  let! _ := upd (fun c => set_metricLabelMap
              (<[serverNodeStr := ""]> (<[serverPodStr := ""]>
                (<[serverNamespaceStr := ""]> (metricLabelMap c)))) c) in
  registerStreamMetrics.

(** The labels and the counter of failed set-ups, before it is registered. *)
Definition newTrafficNotStarted (conf : config) : M metric :=
  let! _ := upd (fun c => set_metricLabelMap (base_labels conf c) c) in
  let! profile := get (fun c => TrafficProfile (pair c)) in
  let! labels := get metricLabelMap in
  let! m := create (NewCounter PromNamespace profile trafficNotStartedStr "traffic not started" labels) in
  let! _ := upd (set_trafficNotStarted (Some m)) in
  ret m.

(** The deferred function makes an error of a panic. *)
Definition SetupConnection (env : NetEnv) (conf : config) : M unit :=
  let! m := newTrafficNotStarted conf in
  recover (let! _ := MustRegister m in SetupConnection_body env conf).

(** The same in two parts: up to the registration of the counter, and from the
    resolution of the destination, which may take its time, on. *)
Definition SetupConnection_begin (conf : config) : M unit :=
  let! m := newTrafficNotStarted conf in recover (MustRegister m).
Definition SetupConnection_end (env : NetEnv) (conf : config) : M unit :=
  recover (SetupConnection_body env conf).

(** ** SocketRead *)

Definition add_received (c : udpStream) : udpStream :=
  let v := vals c in
  set_vals (mkTotals (packetSentVal v) (packetSendFailedVal v) (f64_add (packetReceivedVal v) 1)
              (packetDroppedVal v) (roundTripVal v)) c.
Definition add_roundTrip (x : Z) (c : udpStream) : udpStream :=
  let v := vals c in
  set_vals (mkTotals (packetSentVal v) (packetSendFailedVal v) (packetReceivedVal v)
              (packetDroppedVal v) (f64_add (roundTripVal v) x)) c.
Definition add_dropped (c : udpStream) : udpStream :=
  let v := vals c in
  set_vals (mkTotals (packetSentVal v) (packetSendFailedVal v) (packetReceivedVal v)
              (f64_add (packetDroppedVal v) 1) (roundTripVal v)) c.
Definition add_sent (c : udpStream) : udpStream :=
  let v := vals c in
  set_vals (mkTotals (f64_add (packetSentVal v) 1) (packetSendFailedVal v) (packetReceivedVal v)
              (packetDroppedVal v) (roundTripVal v)) c.
Definition add_sendFailed (c : udpStream) : udpStream :=
  let v := vals c in
  set_vals (mkTotals (packetSentVal v) (f64_add (packetSendFailedVal v) 1) (packetReceivedVal v)
              (packetDroppedVal v) (roundTripVal v)) c.

(** A missing key of a Go map reads as the zero value. *)
Definition label (k : string) (c : udpStream) : string := default "" (metricLabelMap c !! k).

Definition server_changed (info : PodInfo) (c : udpStream) : bool :=
  negb (bool_decide (pod_Namespace info = label serverNamespaceStr c)) ||
  negb (bool_decide (pod_Name info = label serverPodStr c)) ||
  negb (bool_decide (pod_WorkerName info = label serverNodeStr c)).

Definition Observe (field : udpStream -> option metric) (v : Z) : M unit :=
  let! o := get field in let! m := deref o in lib (prom_observe m v).

(** The locked region: settle a reply whose request is pending, ignore
    another.  [now] is the clock read in it; the result tells which. *)
Definition settle_reply (now : Z) (msg : Message) (info : PodInfo) : M bool :=
  let! reqs := get pending in
  match reqs !! SequenceNumber msg with
  | None => ret false
  | Some _ =>
      let roundTripTime := f64_rnd (sub64 now (SendTimeStamp msg)) in
      let! _ := Add (fun c => roundTrip (hs c)) roundTripTime in
      let! _ := upd (add_roundTrip roundTripTime) in
      let! _ := Observe (fun c => latency (hs c)) roundTripTime in
      let! _ := Inc (fun c => packetReceived (hs c)) in
      let! _ := upd add_received in
      let! _ := upd (fun c => set_pending (delete (SequenceNumber msg) (pending c)) c) in
      let! changed := get (server_changed info) in
      let! _ := (if changed : bool then
                   let! _ := upd (fun c => set_metricLabelMap
                     (<[serverNodeStr := pod_WorkerName info]>
                       (<[serverPodStr := pod_Name info]>
                         (<[serverNamespaceStr := pod_Namespace info]> (metricLabelMap c)))) c) in
                   reRegisterStreamMetrics
                 else ret tt) in
      ret true
  end.

(** A datagram of [size > 0] bytes already in the buffer; the result is the
    sequence number it settled, if any. *)
Definition handle_datagram (now : Z) (buf : list byte) : M (option Z) :=
  let! hl := get msgHeaderLength in
  let! h := lift (or_panic "slice bounds out of range" (slice buf 0 hl)) in
  let '(msg, err) := unmarshal_Message h in
  let! b := lift (or_panic "slice bounds out of range"
                    (slice buf hl (add64 hl (ServerInfoLength msg)))) in
  let '(serverInfo, err1) := unmarshal_PodInfo b in
  if (err : bool) || (err1 : bool) then ret None else
  if SequenceNumber msg =? -1 then ret None else
  let! settled := settle_reply now msg serverInfo in
  ret (if settled : bool then Some (SequenceNumber msg) else None).

(** One [ReadFromUDP] into the goroutine's buffer, then the above. *)
Definition SocketRead_datagram (now : Z) (data buf : list byte) : M (option Z * list byte) :=
  let buf := go_copy buf data in
  let size := Nat.min (length data) (length buf) in
  if decide (size = 0)%nat then ret (None, buf) else
  let! r := handle_datagram now buf in ret (r, buf).

(** ** redialDestination *)

(** The address is the name and the port, whatever the name is. *)
Definition redialAddress (name : string) : string :=
  name +:+ ":" +:+ Itoa tapp.UDPServerPort.

Definition redialDestination (env : NetEnv) (conf : config) (force : bool) : M unit :=
  let! name := get (fun c => rem_Name (destination c)) in
  let! raddr := lift (net_result (ResolveUDPAddr env (redialAddress name))) in
  let remoteIP := addr_IP raddr in
  let! oldIP := get (fun c => rem_IP (destination c)) in
  if bool_decide (remoteIP = oldIP) && negb force then ret tt else
  let! _ :=
    (if force then
       let! ip := get (fun c => src_IP (pair_Source (pair c))) in
       let! srcAddress := lift (GetResolvableAddress ip) in
       let! laddr := lift (net_result (ResolveUDPAddr env srcAddress)) in
       upd (set_localAddr (Some laddr))
     else ret tt) in
  let! o := get connection in
  let! old := deref o in
  let! _ := upd (set_connection (Some (close_conn old))) in
  let! laddr := get localAddr in
  let! conn := lift (net_result (DialUDP env laddr raddr)) in
  let! _ := lift (net_error (SetReadBuffer env conn (socketReadBufSize conf))) in
  let! _ := upd (set_connection (Some conn)) in
  upd (fun c => set_destination (set_IP remoteIP (destination c)) c).

(** ** HandleTimeouts *)

(** The locals of the goroutine; the first three are computed once, from the
    configuration it starts with. *)
Record timeouts := mkTimeouts {
  packetTimeoutinMicros : Z;
  redialTimeoutinMicros : Z;
  redialTimeoutSuccessiveRequests : Z;
  seq : Z;
  timedoutPktCount : Z;
  startTimeout : Z
}.

Definition timeouts_init (conf : config) : timeouts :=
  mkTimeouts (SecToMicroSec (packetTimeout conf)) (SecToMicroSec (redialTimeout conf))
    (mul64 (packetTimeout conf) (sendRate conf)) 1 0 0.

Definition next_seq (t : timeouts) : timeouts :=
  mkTimeouts (packetTimeoutinMicros t) (redialTimeoutinMicros t)
    (redialTimeoutSuccessiveRequests t) (add64 (seq t) 1) (timedoutPktCount t) (startTimeout t).
Definition set_timedoutPktCount (n : Z) (t : timeouts) : timeouts :=
  mkTimeouts (packetTimeoutinMicros t) (redialTimeoutinMicros t)
    (redialTimeoutSuccessiveRequests t) (seq t) n (startTimeout t).
Definition set_startTimeout (n : Z) (t : timeouts) : timeouts :=
  mkTimeouts (packetTimeoutinMicros t) (redialTimeoutinMicros t)
    (redialTimeoutSuccessiveRequests t) (seq t) (timedoutPktCount t) n.

(** [float64(2.5) / float64(packetTimeout)] seconds: the pause between two
    rounds, in nanoseconds. *)
Definition timeouts_sleepDuration (conf : config) : option Z :=
  float_seconds (sf_div (sf_of_Z 5) (sf_of_Z 2)) (packetTimeout conf).

(** How the locked part of a turn of the inner loop ends. *)
Inductive turn :=
| TurnDropped      (* timed out: dropped, seq advanced, the redial rules follow *)
| TurnWait         (* still in time: leave the inner loop *)
| TurnAbsent.      (* no such request: seq advanced *)

(** The locked part, with the clock read in it ([seq++] follows the unlock in
    two of the branches; [seq] is local). *)
Definition timeout_turn (now : Z) (t : timeouts) : M (turn * timeouts) :=
  let! reqs := get pending in
  match reqs !! seq t with
  | Some sendTimeStamp =>
      if packetTimeoutinMicros t <? sub64 now sendTimeStamp then
        let! _ := Inc (fun c => packetDropped (hs c)) in
        let! _ := upd add_dropped in
        let! _ := upd (fun c => set_pending (delete (seq t) (pending c)) c) in
        ret (TurnDropped, next_seq t)
      else ret (TurnWait, t)
  | None =>
      let t := if 0 <? timedoutPktCount t then set_timedoutPktCount 0 t else t in
      ret (TurnAbsent, next_seq t)
  end.

(** After a drop: the first timeout starts a period, later ones are counted
    once a redial has happened. *)
Definition count_timeout (now : Z) (t : timeouts) : timeouts :=
  if startTimeout t =? 0 then set_startTimeout now t
  else if startTimeout t =? -1 then set_timedoutPktCount (add64 (timedoutPktCount t) 1) t
  else t.

Definition redial_due (now : Z) (isDN : bool) (t : timeouts) : bool :=
  isDN && (((0 <? startTimeout t) && (redialTimeoutinMicros t <? sub64 now (startTimeout t)))
           || (redialTimeoutSuccessiveRequests t <? timedoutPktCount t)).

(** Whether the redial is made, and the locals after it; [now1] and [now2] are
    the two clock reads. *)
Definition after_drop (now1 now2 : Z) (env : NetEnv) (conf : config) (t : timeouts)
    : M (bool * timeouts) :=
  let t := count_timeout now1 t in
  let! isDN := get (fun c => IsDN (destination c)) in
  if redial_due now2 isDN t then
    fun s =>
      match redialDestination env conf false s with
      | (Ok _, s') => (Ok (true, set_timedoutPktCount 0 (set_startTimeout (-1) t)), s')
      | (Err _, s') => (Ok (true, set_timedoutPktCount 0 (set_startTimeout 0 t)), s')
      | (Panic w, s') => (Panic w, s')
      end
  else ret (false, t).

(** ** StartPackets *)

(** What the goroutine prepares before its loop. *)
Record prepared := mkPrepared {
  baseMsg : Message;
  baseByteArr : list byte;
  payload : list byte;
  interval : Z
}.

Definition payloadSize (conf : config) (hl : Z) : Z :=
  let size := sub64 (packetSize conf) hl in
  if size <? 0 then add64 hl 1 else size.

(** An [Err] here is the early return that counts the traffic as not started. *)
Definition StartPackets_prepare (conf : config) (hl : Z) : outcome prepared :=
  let* payload := GetPaddingPayload (payloadSize conf hl) in
  let baseMsg := NewMessage 0 0 (packetSize conf) in
  match marshal_Message baseMsg with
  | None => Err "error in encoding the base udp client message"
  | Some baseByteArr =>
      let* interval := div64 (SecToMicroSec 1) (sendRate conf) in
      Ok (mkPrepared baseMsg (baseByteArr ++ payload) payload interval)
  end.

(** [testMsg] of [sendDummyPackets], or nothing when the scenario names no service. *)
Definition dummy_packet (now : Z) (conf : config) (payload : list byte) (scenario : string)
    : option (option (list byte)) :=
  if negb (Contains (ToLower scenario) "service") then None
  else Some (match marshal_Message (NewMessage (-1) now (packetSize conf)) with
             | None => None
             | Some b => Some (b ++ payload)
             end).

(** How many packets should have been sent [now], from the elapsed time. *)
Definition targetSeq (now start pausePeriod rate : Z) : Z :=
  wrap64 (Z.quot (mul64 (sub64 (sub64 now start) pausePeriod) rate) 1000000).

(** The packet numbered [seq], sent at [ts]: the encoded header copied over
    the start of the base packet.  None when it cannot be encoded. *)
Definition packet_bytes (len seq ts : Z) (base : list byte) : option (list byte) :=
  match marshal_Message (set_SendTimeStamp ts (set_SequenceNumber seq (NewMessage 0 0 len))) with
  | None => None
  | Some newMsgByteArr => Some (go_copy base newMsgByteArr)
  end.

(** [c.packetSequence++] *)
Definition next_packet : M Z :=
  let! n := get packetSequence in
  let! _ := upd (set_packetSequence (add64 n 1)) in
  ret (add64 n 1).

(** The two locked accesses of the sender to the pending requests. *)
Definition add_pending (ts : Z) : M unit :=
  upd (fun c => set_pending (<[packetSequence c := ts]> (pending c)) c).
Definition drop_pending : M unit :=
  upd (fun c => set_pending (delete (packetSequence c) (pending c)) c).

(** ** TearDownConnection *)

(** Up to [isStopped.Wait()]; false when it returns before. *)
Definition TearDownConnection_begin : M bool :=
  let! o := get trafficNotStarted in
  let! m := deref o in
  let! _ := lib (prom_unregister m) in
  let! conn := get connection in
  match conn with
  | None => ret false
  | Some c =>
      let! _ := upd (set_stop true) in
      let! _ := upd (set_connection (Some (close_conn c))) in
      ret true
  end.

Definition TearDownConnection_end : M unit := deRegisterStreamMetrics.

(** [WaitGroup.Done] *)
Definition done : M unit :=
  let! n := get isStopped in
  if decide (n - 1 < 0) then panic "sync: negative WaitGroup counter"
  else upd (set_isStopped (n - 1)).

(** ** The module

    For the pair at address [a], with [p] there. *)
Definition newStream (a : nat) (p : BatPair) (readBufferSize : Z) : outcome udpStream :=
  match GetMessageHeaderLength with
  | Ok hl =>
      Ok (mkStream 3 None None a p readBufferSize 0 hl false [] ∅ None
            (mkHandles None None None None None None) (mkTotals 0 0 0 0 0))
  | Err e => Panic e
  | Panic w => Panic w
  end.

Definition CreateClient (a : nat) (p : BatPair) (readBufferSize : Z) : outcome udpStream :=
  newStream a p readBufferSize.

End Stream.

(** ** LoadBatProfileConfig

    Each value is stored before its error is looked at, so the configuration
    after an error is part of the result. *)

Definition set_socketReadBufSize (x : Z) (c : config) : config :=
  mkConfig x (sendRate c) (packetSize c) (packetTimeout c) (redialTimeout c) (suspendTraffic c).
Definition set_sendRate (x : Z) (c : config) : config :=
  mkConfig (socketReadBufSize c) x (packetSize c) (packetTimeout c) (redialTimeout c) (suspendTraffic c).
Definition set_packetSize (x : Z) (c : config) : config :=
  mkConfig (socketReadBufSize c) (sendRate c) x (packetTimeout c) (redialTimeout c) (suspendTraffic c).
Definition set_packetTimeout (x : Z) (c : config) : config :=
  mkConfig (socketReadBufSize c) (sendRate c) (packetSize c) x (redialTimeout c) (suspendTraffic c).
Definition set_redialTimeout (x : Z) (c : config) : config :=
  mkConfig (socketReadBufSize c) (sendRate c) (packetSize c) (packetTimeout c) x (suspendTraffic c).
Definition set_suspendTraffic (x : bool) (c : config) : config :=
  mkConfig (socketReadBufSize c) (sendRate c) (packetSize c) (packetTimeout c) (redialTimeout c) x.

Definition parseIntValue (value : string) : Z * option string :=
  match Atoi value with Some v => (v, None) | None => (-1, Some "invalid syntax") end.

(** One optional integer entry: stored, then reported when malformed. *)
Definition load_int (entry : gmap string string) (key what : string) (store : Z -> config -> config)
    : ST config unit :=
  match entry !! key with
  | None => ret tt
  | Some val =>
      let '(v, err) := parseIntValue val in
      let! _ := modify (store v) in
      match err with
      | Some e => fail ("parsing " +:+ what +:+ " failed: err " +:+ e)
      | None => ret tt
      end
  end.

Definition load_common (profileMap : gmap string (gmap string string)) : ST config unit :=
  match profileMap !! "common" with
  | None => ret tt
  | Some commonEntry =>
      match commonEntry !! "suspend-traffic" with
      | None => ret tt
      | Some val =>
          let b := ParseBool val in
          let! _ := modify (set_suspendTraffic (default false b)) in
          match b with
          | None => fail "parsing suspend-traffic failed: err invalid syntax"
          | Some _ => ret tt
          end
      end
  end.

Definition load_udp (profileMap : gmap string (gmap string string)) : ST config unit :=
  match profileMap !! tapp.UDPProtocolStr with
  | None => ret tt
  | Some udpEntry =>
      let! _ := (match udpEntry !! "socket-read-buf-size" with
                 | Some _ => load_int udpEntry "socket-read-buf-size" "udp-socket-read-buf-size"
                               set_socketReadBufSize
                 | None => modify (set_socketReadBufSize (512 * 1024))
                 end) in
      let! _ := load_int udpEntry "send-rate" "udp-send-rate" set_sendRate in
      let! _ := load_int udpEntry "packet-size" "udp-packet-size" set_packetSize in
      let! _ := load_int udpEntry "packet-timeout" "udp-packet-timeout" set_packetTimeout in
      load_int udpEntry "redial-timeout" "udp-redial-period" set_redialTimeout
  end.

Definition LoadBatProfileConfig (profileMap : option (gmap string (gmap string string)))
    : ST config unit :=
  match profileMap with
  | None => fail "error parsing the udp profile config map data"
  | Some profileMap => let! _ := load_common profileMap in load_udp profileMap
  end.

End tgen.
