(* ===== verification/TGenStep.v ===== *)
(** * The goroutines of a UDP stream (pkg/tgen/udp.go)

    [alone_step] interleaves the sender ([StartPackets]), the timeout handler
    ([HandleTimeouts]), the receiver ([SocketRead]), the caller of
    [TearDownConnection] and the rest of the process.  A step is a locked
    region, or a piece of code between two accesses to state another
    goroutine shares.  [step] adds what others do to the stream's pair. *)
From S2P Require Import Prelude GoInt Strconv GoStrings Message Metrics Net Pair TApp TGen.

Module stream.
Import tgen.

Section Step.
Context `{Msgpack} `{PromLib}.

(** Where the sender is. [target] is the local [targetSeq]. *)
Inductive sender_pc :=
| SStart                          (* the goroutine has just been started *)
| SDummy (left : nat)             (* dummy packets still to send *)
| SLoop                           (* top of the outer loop *)
| SSend (target : Z)              (* top of the inner loop *)
| SReady (target ts : Z)          (* numbered and encoded, before the lock *)
| SInserted (target : Z)          (* pending, before the write *)
| SWriteFailed (target : Z)       (* still pending, before the second lock *)
| SFailCount (target : Z)         (* before packetSendFailed.Inc() *)
| SFailTotal (target : Z)         (* before packetSendFailedVal++ *)
| SSentCount (target : Z)         (* before packetSent.Inc() *)
| SSentTotal (target : Z)         (* before packetSentVal++ *)
| SExited.

Record sender := mkSender {
  s_pc : sender_pc;
  s_length : Z;                   (* baseMsg.Length *)
  s_base : list byte;             (* baseByteArr *)
  s_start : Z;
  s_pause : Z                     (* pausePeriod *)
}.

Definition at_pc (pc : sender_pc) (x : sender) : sender :=
  mkSender pc (s_length x) (s_base x) (s_start x) (s_pause x).

Inductive timeout_pc := TStart | THead | TInner | TLocked | TAfterDrop | TExited.

(** [RReading] is from the look at the stop flag to the return of
    [ReadFromUDP], which reads from the connection the stream then has. *)
Inductive reader_pc := RHead | RReading | RExited.
(** A stream that has been torn down may be torn down again. *)
Inductive teardown_pc := DIdle | DWaiting | DFinished.

Record world := mkWorld {
  w_c : udpStream;
  w_p : prom;
  w_conf : config;
  w_snd : sender;
  w_tpc : timeout_pc;
  w_t : timeouts;
  w_rd : reader_pc;
  w_buf : list byte;
  w_td : teardown_pc
}.

Inductive label :=
| LTau
| LSent (seq : Z) (bytes : list byte)
| LFailed (seq : Z)
| LReceived (seq : Z)
| LDropped (now seq : Z)
| LRedial
| LConf
| LEnv.

(** The connection the stream holds lets a write through. *)
Definition conn_open (c : udpStream) : bool :=
  match connection c with Some k => negb (conn_closed k) | None => false end.

(** *** The sender *)
Inductive sender_step : config -> sender -> state -> label -> sender -> state -> Prop :=
| snd_start conf x c p now n prep :
    s_pc x = SStart -> StartPackets_prepare conf (msgHeaderLength c) = Ok prep ->
    (match dummy_packet now conf (payload prep) (TrafficScenario (pair c)) with
     | Some (Some _) => (n < 10)%nat | _ => n = 0%nat end) ->
    sender_step conf x (c, p) LTau
      (mkSender (SDummy n) (Length (baseMsg prep)) (baseByteArr prep) now 0) (c, p)
| snd_start_fails conf x c p e s1 s2 :
    s_pc x = SStart -> StartPackets_prepare conf (msgHeaderLength c) = Err e ->
    done (c, p) = (Ok tt, s1) -> Inc trafficNotStarted s1 = (Ok tt, s2) ->
    sender_step conf x (c, p) LTau (at_pc SExited x) s2
| snd_dummy_done conf x s :
    s_pc x = SDummy 0 -> sender_step conf x s LTau (at_pc SLoop x) s
| snd_dummy_write_fails conf x s n :
    s_pc x = SDummy (S n) -> sender_step conf x s LTau (at_pc SLoop x) s
| snd_dummy_redial conf env x c p n s' :
    s_pc x = SDummy (S n) -> conn_open c = true ->
    redialDestination env conf true (c, p) = (Ok tt, s') ->
    sender_step conf x (c, p) LRedial (at_pc (SDummy n) x) s'
| snd_dummy_redial_fails conf env x c p n e s' :
    s_pc x = SDummy (S n) -> conn_open c = true ->
    redialDestination env conf true (c, p) = (Err e, s') ->
    sender_step conf x (c, p) LRedial (at_pc SLoop x) s'
| snd_stop conf x c p s' :
    s_pc x = SLoop -> stop c = true -> done (c, p) = (Ok tt, s') ->
    sender_step conf x (c, p) LTau (at_pc SExited x) s'
| snd_pause conf x c p t1 t2 :
    s_pc x = SLoop -> stop c = false -> suspendTraffic conf = true ->
    sender_step conf x (c, p) LTau
      (mkSender SLoop (s_length x) (s_base x) (s_start x) (add64 (s_pause x) (sub64 t2 t1))) (c, p)
| snd_target conf x c p now :
    s_pc x = SLoop -> stop c = false -> suspendTraffic conf = false ->
    sender_step conf x (c, p) LTau
      (at_pc (SSend (targetSeq now (s_start x) (s_pause x) (sendRate conf))) x) (c, p)
| snd_inner_done conf x c p target :
    s_pc x = SSend target -> target <= packetSequence c ->
    sender_step conf x (c, p) LTau (at_pc SLoop x) (c, p)
| snd_number conf x c p target ts k s' b :
    s_pc x = SSend target -> packetSequence c < target -> in64 ts ->
    next_packet (c, p) = (Ok k, s') -> packet_bytes (s_length x) k ts (s_base x) = Some b ->
    sender_step conf x (c, p) LTau
      (mkSender (SReady target ts) (s_length x) b (s_start x) (s_pause x)) s'
| snd_encode_fails conf x c p target ts k s' :
    s_pc x = SSend target -> packetSequence c < target -> in64 ts ->
    next_packet (c, p) = (Ok k, s') -> packet_bytes (s_length x) k ts (s_base x) = None ->
    sender_step conf x (c, p) LTau (at_pc (SFailCount target) x) s'
| snd_insert conf x s target ts s' :
    s_pc x = SReady target ts -> add_pending ts s = (Ok tt, s') ->
    sender_step conf x s LTau (at_pc (SInserted target) x) s'
| snd_write conf x c p target :
    s_pc x = SInserted target -> conn_open c = true ->
    sender_step conf x (c, p) (LSent (packetSequence c) (s_base x)) (at_pc (SSentCount target) x) (c, p)
| snd_write_fails conf x c p target :
    s_pc x = SInserted target ->
    sender_step conf x (c, p) (LFailed (packetSequence c)) (at_pc (SWriteFailed target) x) (c, p)
| snd_delete conf x s target s' :
    s_pc x = SWriteFailed target -> drop_pending s = (Ok tt, s') ->
    sender_step conf x s LTau (at_pc (SFailCount target) x) s'
| snd_fail_count conf x s target s' :
    s_pc x = SFailCount target -> Inc (fun c => packetSendFailed (hs c)) s = (Ok tt, s') ->
    sender_step conf x s LTau (at_pc (SFailTotal target) x) s'
| snd_fail_total conf x s target s' :
    s_pc x = SFailTotal target -> upd add_sendFailed s = (Ok tt, s') ->
    sender_step conf x s LTau (at_pc (SSend target) x) s'
| snd_sent_count conf x s target s' :
    s_pc x = SSentCount target -> Inc (fun c => packetSent (hs c)) s = (Ok tt, s') ->
    sender_step conf x s LTau (at_pc (SSentTotal target) x) s'
| snd_sent_total conf x s target s' :
    s_pc x = SSentTotal target -> upd add_sent s = (Ok tt, s') ->
    sender_step conf x s LTau (at_pc (SSend target) x) s'.

(** *** The timeout handler *)
Inductive timeout_step : config -> timeout_pc -> timeouts -> state -> label ->
    timeout_pc -> timeouts -> state -> Prop :=
| tmo_start conf t s : timeout_step conf TStart t s LTau THead (timeouts_init conf) s
| tmo_stop conf pc t c p s' :
    pc = THead \/ pc = TInner /\ seq t < packetSequence c ->
    stop c = true -> done (c, p) = (Ok tt, s') ->
    timeout_step conf pc t (c, p) LTau TExited t s'
| tmo_enter conf t c p :
    stop c = false -> timeout_step conf THead t (c, p) LTau TInner t (c, p)
| tmo_round_done conf t c p :
    packetSequence c <= seq t -> timeout_step conf TInner t (c, p) LTau THead t (c, p)
| tmo_next conf t c p :
    seq t < packetSequence c -> stop c = false ->
    timeout_step conf TInner t (c, p) LTau TLocked t (c, p)
| tmo_dropped conf now t t' s s' :
    timeout_turn now t s = (Ok (TurnDropped, t'), s') ->
    timeout_step conf TLocked t s (LDropped now (seq t)) TAfterDrop t' s'
| tmo_wait conf now t t' s s' :
    timeout_turn now t s = (Ok (TurnWait, t'), s') ->
    timeout_step conf TLocked t s LTau THead t' s'
| tmo_absent conf now t t' s s' :
    timeout_turn now t s = (Ok (TurnAbsent, t'), s') ->
    timeout_step conf TLocked t s LTau
      (if decide (seq t' = packetSequence s'.1) then THead else TInner) t' s'
| tmo_after_drop conf env now1 now2 redialled t t' s s' :
    after_drop now1 now2 env conf t s = (Ok (redialled, t'), s') ->
    timeout_step conf TAfterDrop t s (if (redialled : bool) then LRedial else LTau) TInner t' s'.

(** *** The receiver *)
Inductive reader_step : reader_pc -> list byte -> state -> label ->
    reader_pc -> list byte -> state -> Prop :=
| rd_enter b c p : stop c = false -> reader_step RHead b (c, p) LTau RReading b (c, p)
| rd_stop b c p s' :
    stop c = true -> done (c, p) = (Ok tt, s') -> reader_step RHead b (c, p) LTau RExited b s'
| rd_error b s : reader_step RReading b s LTau RHead b s
| rd_datagram now data b c p r b' s' :
    conn_open c = true ->
    SocketRead_datagram now data b (c, p) = (Ok (r, b'), s') ->
    reader_step RReading b (c, p) (match r with Some k => LReceived k | None => LTau end) RHead b' s'.

(** *** All of them

    Of a stream that is alone on its pair: nobody else writes what its [pair]
    points to, and the rest of the process moves the metrics only. *)
Inductive alone_step : world -> label -> world -> Prop :=
| step_sender c p conf x tpc t rd b td lb x' c' p' :
    sender_step conf x (c, p) lb x' (c', p') ->
    alone_step (mkWorld c p conf x tpc t rd b td) lb (mkWorld c' p' conf x' tpc t rd b td)
| step_timeout c p conf x tpc t rd b td lb tpc' t' c' p' :
    timeout_step conf tpc t (c, p) lb tpc' t' (c', p') ->
    alone_step (mkWorld c p conf x tpc t rd b td) lb (mkWorld c' p' conf x tpc' t' rd b td)
| step_reader c p conf x tpc t rd b td lb rd' b' c' p' :
    reader_step rd b (c, p) lb rd' b' (c', p') ->
    alone_step (mkWorld c p conf x tpc t rd b td) lb (mkWorld c' p' conf x tpc t rd' b' td)
| step_teardown_begin c p conf x tpc t rd b td c' p' :
    td <> DWaiting -> TearDownConnection_begin (c, p) = (Ok true, (c', p')) ->
    alone_step (mkWorld c p conf x tpc t rd b td) LTau (mkWorld c' p' conf x tpc t rd b DWaiting)
| step_teardown_end c p conf x tpc t rd b c' p' :
    isStopped c = 0 -> TearDownConnection_end (c, p) = (Ok tt, (c', p')) ->
    alone_step (mkWorld c p conf x tpc t rd b DWaiting) LTau (mkWorld c' p' conf x tpc t rd b DFinished)
| step_conf profileMap r c p conf conf' x tpc t rd b td :
    LoadBatProfileConfig profileMap conf = (r, conf') ->
    alone_step (mkWorld c p conf x tpc t rd b td) LConf (mkWorld c p conf' x tpc t rd b td)
| step_env c p q conf x tpc t rd b td :
    alone_step (mkWorld c p conf x tpc t rd b td) LEnv (mkWorld c q conf x tpc t rd b td).

(** The pair is shared: the controller's goroutine for it makes its map of
    pending requests anew when it creates another client ([p.PendingRequestsMap
    = make(...)]), and that client then works on the same map and the same
    destination.  The others may leave anything in the pair. *)
Definition with_pair (b : BatPair) (w : world) : world :=
  mkWorld (set_pair b (w_c w)) (w_p w) (w_conf w) (w_snd w) (w_tpc w) (w_t w) (w_rd w) (w_buf w) (w_td w).

Inductive step : world -> label -> world -> Prop :=
| step_alone w lb w' : alone_step w lb w' -> step w lb w'
| step_pair b w : step w LEnv (with_pair b w).

(** The state in which [createNetBatTgenClients] starts the three goroutines,
    [SetupConnection] having succeeded. *)
Definition started (c : udpStream) (p : prom) (conf : config) : world :=
  mkWorld c p conf (mkSender SStart 0 [] 0 0) TStart (mkTimeouts 0 0 0 1 0 0) RHead
    (replicate (Z.to_nat (readBufferSize c)) Byte.x00) DIdle.

End Step.
End stream.
