(* ===== verification/TGenProofs.v ===== *)
(** * What the operations of a stream leave alone (lemmas)

    [within R m]: the computation [m] moves the stream by [R], on every
    outcome.  The instances used are [same core], for code that does not touch
    the request bookkeeping, and [keeps_handles], for code that may replace
    the counters but never loses one.  The inversion lemmas that follow say
    what each locked region does when it returns. *)
From S2P Require Import Prelude GoInt Strconv GoStrings Message Metrics Net Pair TApp TGen.
Import tgen.

Section Within.
Context `{Msgpack} `{PromLib}.

Definition within (R : udpStream -> udpStream -> Prop) {A} (m : M A) : Prop :=
  forall s, R s.1 (m s).2.1.

Section Rules.
Context (R : udpStream -> udpStream -> Prop) `{!PreOrder R}.

Lemma within_bind {A B} (m : M A) (f : A -> M B) :
  within R m -> (forall a, within R (f a)) -> within R (bind m f).
Proof.
  intros Hm Hf s. specialize (Hm s). unfold bind. destruct (m s) as [[a|e|w] s1]; [|done..].
  etransitivity; [exact Hm|apply Hf].
Qed.

Lemma within_pure {A} (m : M A) : (forall s, (m s).2.1 = s.1) -> within R m.
Proof. intros E s. rewrite E. reflexivity. Qed.

Lemma within_upd f : (forall c, R c (f c)) -> within R (upd f).
Proof. intros E s. apply E. Qed.

Lemma within_ret {A} (a : A) : within R (ret a). Proof. by apply within_pure. Qed.
Lemma within_fail {A} e : within R (fail e : M A). Proof. by apply within_pure. Qed.
Lemma within_panic {A} e : within R (panic e : M A). Proof. by apply within_pure. Qed.
Lemma within_lift {A} (r : outcome A) : within R (lift r). Proof. by apply within_pure. Qed.
Lemma within_get {A} (f : udpStream -> A) : within R (get f). Proof. by apply within_pure. Qed.
Lemma within_lib f : within R (lib f). Proof. by apply within_pure. Qed.
Lemma within_create f : within R (create f).
Proof. apply within_pure. intros s. unfold create. by destruct (f s.2). Qed.
Lemma within_MustRegister m : within R (MustRegister m).
Proof. apply within_pure. intros s. unfold MustRegister. by destruct (prom_register m s.2). Qed.

Lemma within_Inc field : within R (Inc field).
Proof.
  apply within_bind; [apply within_get|intros o]. apply within_bind; [apply within_lift|].
  intros. apply within_lib.
Qed.
Lemma within_Observe field v : within R (Observe field v).
Proof.
  apply within_bind; [apply within_get|intros o]. apply within_bind; [apply within_lift|].
  intros. apply within_lib.
Qed.
Lemma within_Add field v : within R (Add field v).
Proof.
  apply within_bind; [apply within_get|intros o]. apply within_bind; [apply within_lift|].
  intros m. apply within_pure. intros s. by destruct (prom_add m v s.2).
Qed.
End Rules.

End Within.

(** Walks through a computation; what is left are the stream updates. *)
Ltac within_step :=
  first
    [ assumption | apply within_ret | apply within_fail | apply within_panic | apply within_lift
    | apply within_get | apply within_lib | apply within_create | apply within_MustRegister
    | apply within_Inc | apply within_Observe | apply within_Add
    | apply within_bind; [apply _ | | intros ?] | apply within_upd; intros ? | case_match ].
Ltac within_walk := repeat (within_step; try apply _).

Section Frames.
Context `{Msgpack} `{PromLib}.

(** The request bookkeeping and the flags the goroutines meet at. *)
Definition core (c : udpStream) :=
  (packetSequence c, pending c, vals c, stop c, isStopped c, msgHeaderLength c).
Definition same_core (c c' : udpStream) : Prop := core c = core c'.

(** Everything [SetupConnection] created is there. *)
Definition handles_set (c : udpStream) : Prop :=
  is_Some (trafficNotStarted c) /\ is_Some (packetSent (hs c)) /\
  is_Some (packetSendFailed (hs c)) /\ is_Some (packetReceived (hs c)) /\
  is_Some (packetDropped (hs c)) /\ is_Some (roundTrip (hs c)) /\ is_Some (latency (hs c)).
Definition keeps_handles (c c' : udpStream) : Prop := handles_set c -> handles_set c'.

(** The dialled connection and the addresses it is dialled with. *)
Definition network (c : udpStream) := (connection c, localAddr c, pair c).
Definition same_network (c c' : udpStream) : Prop := network c = network c'.

#[global] Instance same_core_preorder : PreOrder same_core.
Proof. unfold same_core. split; congruence. Qed.
#[global] Instance keeps_handles_preorder : PreOrder keeps_handles.
Proof. unfold keeps_handles. split; auto. Qed.
#[global] Instance same_network_preorder : PreOrder same_network.
Proof. unfold same_network. split; congruence. Qed.

Lemma registerStreamMetrics_core : within same_core registerStreamMetrics.
Proof. unfold registerStreamMetrics, registerCounter, registerSummary, registerMetric. within_walk; reflexivity. Qed.

Lemma registerStreamMetrics_network : within same_network registerStreamMetrics.
Proof. unfold registerStreamMetrics, registerCounter, registerSummary, registerMetric. within_walk; reflexivity. Qed.

Lemma registerStreamMetrics_handles : within keeps_handles registerStreamMetrics.
Proof.
  unfold registerStreamMetrics, registerCounter, registerSummary, registerMetric. within_walk;
    unfold keeps_handles, handles_set; simpl; tauto || (intros; split_and!; eauto; tauto).
Qed.

Lemma reRegisterStreamMetrics_within R `{!PreOrder R} :
  within R registerStreamMetrics -> within R reRegisterStreamMetrics.
Proof.
  intros Hr. unfold reRegisterStreamMetrics, deRegisterStreamMetrics. within_walk.
Qed.

Lemma redialDestination_core env conf force : within same_core (redialDestination env conf force).
Proof. unfold redialDestination. within_walk; reflexivity. Qed.

Lemma redialDestination_handles env conf force : within keeps_handles (redialDestination env conf force).
Proof. unfold redialDestination. within_walk; unfold keeps_handles, handles_set; simpl; tauto. Qed.

(** ** Inversions *)

Lemma Inc_inv field s s' :
  Inc field s = (Ok tt, s') -> exists m, field s.1 = Some m /\ s' = (s.1, prom_inc m s.2).
Proof.
  unfold Inc, get, deref, lib, bind, gets, lift, modify. destruct (field s.1); [|done].
  intros [= <-]. eauto.
Qed.

Lemma Inc_Some field s m : field s.1 = Some m -> Inc field s = (Ok tt, (s.1, prom_inc m s.2)).
Proof. unfold Inc, get, deref, lib, bind, gets, lift, modify. by intros ->. Qed.

Lemma done_inv s s' :
  done s = (Ok tt, s') -> s' = (set_isStopped (isStopped s.1 - 1) s.1, s.2) /\ 1 <= isStopped s.1.
Proof.
  unfold done, get, bind, gets. case_decide; [done|]. intros [= <-]. split; [done|lia].
Qed.

Lemma done_Ok s : 1 <= isStopped s.1 -> done s = (Ok tt, (set_isStopped (isStopped s.1 - 1) s.1, s.2)).
Proof. intros Hs. unfold done, get, bind, gets. by rewrite decide_False by lia. Qed.

Lemma within_inv R {A} (m : M A) s r s' : within R m -> m s = (r, s') -> R s.1 s'.1.
Proof. intros Hm E. specialize (Hm s). by rewrite E in Hm. Qed.

(** The bookkeeping after a reply has been settled. *)
Definition settled (seq rtt : Z) (c : udpStream) : udpStream :=
  set_pending (delete seq (pending c)) (add_received (add_roundTrip rtt c)).

Definition settle_within R : Prop :=
  (forall rtt c, R c (add_roundTrip rtt c)) /\ (forall c, R c (add_received c)) /\
  (forall m c, R c (set_pending m c)) /\ (forall m c, R c (set_metricLabelMap m c)) /\
  within R registerStreamMetrics.

Lemma settle_reply_within R `{!PreOrder R} now msg info :
  settle_within R -> within R (settle_reply now msg info).
Proof.
  intros (H1 & H2 & H3 & H4 & H5). unfold settle_reply.
  within_walk; auto.
Qed.

Lemma settle_reply_inv now msg info s b s' :
  settle_reply now msg info s = (Ok b, s') ->
  if b then is_Some (pending s.1 !! SequenceNumber msg) /\
            exists rtt, core s'.1 = core (settled (SequenceNumber msg) rtt s.1)
  else pending s.1 !! SequenceNumber msg = None /\ s' = s.
Proof.
  unfold settle_reply. intros E.
  apply bind_Ok_inv in E as (reqs & s1 & [= <- <-] & E).
  destruct (pending s.1 !! SequenceNumber msg) eqn:El; [|by injection E as <- <-].
  set (rtt := f64_rnd _) in E.
  apply bind_Ok_inv in E as ([] & s1 & E1 & E).
  assert (s1.1 = s.1) as H1.
  { revert E1. unfold Add, get, deref, bind, gets, lift, modify.
    destruct (roundTrip (hs s.1)); simpl; [|done]. destruct prom_add; [|done]. by intros [= <-]. }
  apply bind_Ok_inv in E as ([] & s2 & [= <-] & E).
  apply bind_Ok_inv in E as ([] & s3 & E3 & E).
  assert (s3.1 = add_roundTrip rtt s.1) as H3.
  { revert E3. unfold Observe, get, deref, lib, bind, gets, lift, modify. simpl.
    destruct (latency _); [|done]. intros [= <-]. simpl. by rewrite H1. }
  apply bind_Ok_inv in E as ([] & s4 & E4 & E). apply Inc_inv in E4 as (m & _ & ->).
  apply bind_Ok_inv in E as ([] & s5 & [= <-] & E).
  apply bind_Ok_inv in E as ([] & s6 & [= <-] & E).
  apply bind_Ok_inv in E as (ch & s7 & [= <- <-] & E).
  apply bind_Ok_inv in E as ([] & s8 & E8 & E). injection E as <- <-.
  split; [eauto|]. exists rtt. simpl in E8. rewrite H3 in E8.
  destruct (server_changed _ _); [|by injection E8 as <-].
  apply bind_Ok_inv in E8 as ([] & s9 & [= <-] & E8).
  apply (within_inv same_core) in E8;
    [|apply reRegisterStreamMetrics_within, registerStreamMetrics_core; apply _].
  unfold same_core in E8. rewrite <- E8. reflexivity.
Qed.

Lemma SocketRead_datagram_inv now data buf s r buf' s' :
  SocketRead_datagram now data buf s = (Ok (r, buf'), s') ->
  match r with
  | Some k => is_Some (pending s.1 !! k) /\ k <> -1 /\ exists rtt, core s'.1 = core (settled k rtt s.1)
  | None => s' = s
  end.
Proof.
  unfold SocketRead_datagram. case_decide; [intros E; injection E as ? ? ?; by subst|]. intros E.
  apply bind_Ok_inv in E as (r' & s1 & E & [= -> <- ->]).
  unfold handle_datagram in E. apply bind_Ok_inv in E as (hl & s1 & [= <- <-] & E).
  apply bind_Ok_inv in E as (h & s1 & E1 & E). destruct (slice _ _ _); [|done].
  injection E1 as -> ->. destruct (unmarshal_Message h) as [msg err].
  apply bind_Ok_inv in E as (b & s2 & E2 & E). destruct (slice _ _ _); [|done].
  injection E2 as -> ->. destruct (unmarshal_PodInfo b) as [info err1].
  destruct (err || err1); [by injection E as <- <-|].
  destruct (SequenceNumber msg =? -1) eqn:Eneg; [by injection E as <- <-|].
  apply bind_Ok_inv in E as (st & s3 & E3 & E). injection E as <- <-.
  apply settle_reply_inv in E3. destruct st; [|tauto].
  split; [tauto|]. split; [lia|tauto].
Qed.

Lemma SocketRead_datagram_handles now data buf : within keeps_handles (SocketRead_datagram now data buf).
Proof.
  unfold SocketRead_datagram, handle_datagram. within_walk;
    unfold keeps_handles, handles_set; simpl; first [tauto | intros; split_and!; eauto; tauto].
Qed.

Lemma timeout_turn_inv now t s tn t' s' :
  timeout_turn now t s = (Ok (tn, t'), s') ->
  match tn with
  | TurnDropped =>
      exists ts m, pending s.1 !! seq t = Some ts /\ packetTimeoutinMicros t < sub64 now ts /\
        t' = next_seq t /\ packetDropped (hs s.1) = Some m /\
        s' = (set_pending (delete (seq t) (pending s.1)) (add_dropped s.1), prom_inc m s.2)
  | TurnWait => exists ts, pending s.1 !! seq t = Some ts /\ sub64 now ts <= packetTimeoutinMicros t /\
        t' = t /\ s' = s
  | TurnAbsent => pending s.1 !! seq t = None /\ seq t' = add64 (seq t) 1 /\ s' = s
  end.
Proof.
  unfold timeout_turn. intros E. apply bind_Ok_inv in E as (reqs & s1 & [= <- <-] & E).
  destruct (pending s.1 !! seq t) as [ts|] eqn:El.
  - destruct (Z.ltb_spec (packetTimeoutinMicros t) (sub64 now ts)).
    + apply bind_Ok_inv in E as ([] & s1 & E1 & E). apply Inc_inv in E1 as (m & Hm & ->).
      apply bind_Ok_inv in E as ([] & s2 & [= <-] & E).
      apply bind_Ok_inv in E as ([] & s3 & [= <-] & E). injection E as <- <- <-. eauto 10.
    + injection E as <- <- <-. eauto.
  - injection E as <- <- <-. split; [done|]. split; [|done]. by destruct (0 <? timedoutPktCount t).
Qed.

Lemma after_drop_inv now1 now2 env conf t s r t' s' :
  after_drop now1 now2 env conf t s = (Ok (r, t'), s') ->
  seq t' = seq t /\ same_core s.1 s'.1 /\ keeps_handles s.1 s'.1 /\ (r = false -> s' = s) /\
  packetTimeoutinMicros t' = packetTimeoutinMicros t.
Proof.
  unfold after_drop. intros E. apply bind_Ok_inv in E as (b & s1 & [= <- <-] & E).
  assert (seq (count_timeout now1 t) = seq t /\
          packetTimeoutinMicros (count_timeout now1 t) = packetTimeoutinMicros t) as [Hs Hp].
  { unfold count_timeout. by repeat case_match. }
  destruct (redial_due _ _ _); [|injection E as <- <- <-; split_and!; done || reflexivity].
  pose proof (redialDestination_core env conf false s) as Hc.
  pose proof (redialDestination_handles env conf false s) as Hh.
  destruct (redialDestination env conf false s) as [[[]|e|w] s2]; simpl in *; [| |done];
    injection E as <- <- <-; split_and!; done.
Qed.

Lemma TearDownConnection_begin_inv s s' :
  TearDownConnection_begin s = (Ok true, s') ->
  exists k m, connection s.1 = Some k /\ trafficNotStarted s.1 = Some m /\
    s' = (set_connection (Some (close_conn k)) (set_stop true s.1), prom_unregister m s.2).
Proof.
  unfold TearDownConnection_begin. intros E.
  apply bind_Ok_inv in E as (o & s1 & [= <- <-] & E).
  apply bind_Ok_inv in E as (m & s2 & E2 & E). unfold deref, lift in E2.
  destruct (trafficNotStarted s.1) as [m'|]; [|done]. injection E2 as -> <-.
  apply bind_Ok_inv in E as ([] & s3 & [= <-] & E).
  apply bind_Ok_inv in E as (k & s4 & [= <- <-] & E). simpl in E.
  destruct (connection s.1) as [k|]; [|done].
  apply bind_Ok_inv in E as ([] & s5 & [= <-] & E).
  apply bind_Ok_inv in E as ([] & s6 & [= <-] & [= <-]). eauto.
Qed.
End Frames.

(** ** What a computation ensures when it returns *)
Section Ensures.
Context `{Msgpack} `{PromLib}.

Definition ensures (Q : udpStream -> Prop) {A} (m : M A) : Prop :=
  forall s a s', m s = (Ok a, s') -> Q s'.1.

Definition preserves (Q : udpStream -> Prop) (c c' : udpStream) : Prop := Q c -> Q c'.

#[global] Instance preserves_preorder Q : PreOrder (preserves Q).
Proof. unfold preserves. split; auto. Qed.

Lemma ensures_upd (Q : udpStream -> Prop) f : (forall c, Q (f c)) -> ensures Q (upd f).
Proof. intros Hf s a s' [= _ <-]. apply Hf. Qed.

Lemma ensures_first Q {A B} (m : M A) (f : A -> M B) :
  ensures Q m -> (forall a, within (preserves Q) (f a)) -> ensures Q (bind m f).
Proof.
  intros Hm Hf s b s'' E. apply bind_Ok_inv in E as (a & s' & E1 & E2).
  apply (within_inv _ _ _ _ _ (Hf a) E2). by eapply Hm.
Qed.

Lemma ensures_second Q {A B} (m : M A) (f : A -> M B) :
  (forall a, ensures Q (f a)) -> ensures Q (bind m f).
Proof.
  intros Hf s b s'' E. apply bind_Ok_inv in E as (a & s' & _ & E2). by eapply Hf.
Qed.
End Ensures.

(** Finds the update that makes the property true; the rest must preserve it. *)
Ltac ensures_search :=
  first
    [ apply ensures_upd; intros ?; simpl; eexists; reflexivity
    | apply ensures_first;
        [ ensures_search | intros ?; solve [within_walk; unfold preserves; simpl; eauto] ]
    | apply ensures_second; intros ?; ensures_search ].

Section Setup.
Context `{Msgpack} `{PromLib}.

Lemma registerStreamMetrics_ensures :
  ensures (fun c => is_Some (packetSent (hs c)) /\ is_Some (packetSendFailed (hs c)) /\
    is_Some (packetReceived (hs c)) /\ is_Some (packetDropped (hs c)) /\
    is_Some (roundTrip (hs c)) /\ is_Some (latency (hs c))) registerStreamMetrics.
Proof.
  intros s a s' E. split_and!; revert s a s' E.
  1: change (ensures (fun c => is_Some (packetSent (hs c))) registerStreamMetrics).
  2: change (ensures (fun c => is_Some (packetSendFailed (hs c))) registerStreamMetrics).
  3: change (ensures (fun c => is_Some (packetReceived (hs c))) registerStreamMetrics).
  4: change (ensures (fun c => is_Some (packetDropped (hs c))) registerStreamMetrics).
  5: change (ensures (fun c => is_Some (roundTrip (hs c))) registerStreamMetrics).
  6: change (ensures (fun c => is_Some (latency (hs c))) registerStreamMetrics).
  all: unfold registerStreamMetrics, registerCounter, registerSummary, registerMetric; ensures_search.
Qed.

Lemma within_recover R {A} (m : M A) : within R m -> within R (recover m).
Proof. intros Hm s. specialize (Hm s). unfold recover. by destruct (m s) as [[]]. Qed.

Lemma SetupConnection_core env conf : within same_core (SetupConnection env conf).
Proof.
  unfold SetupConnection, newTrafficNotStarted, SetupConnection_body, orNotStarted.
  within_walk; try reflexivity. apply within_recover. within_walk; reflexivity.
Qed.

Lemma SetupConnection_body_connection env conf :
  ensures (fun c => is_Some (connection c)) (SetupConnection_body env conf).
Proof. unfold SetupConnection_body, orNotStarted. ensures_search. Qed.

Lemma SetupConnection_body_handles env conf :
  ensures (fun c => is_Some (packetSent (hs c)) /\ is_Some (packetSendFailed (hs c)) /\
    is_Some (packetReceived (hs c)) /\ is_Some (packetDropped (hs c)) /\
    is_Some (roundTrip (hs c)) /\ is_Some (latency (hs c))) (SetupConnection_body env conf).
Proof.
  unfold SetupConnection_body, orNotStarted.
  repeat (first [apply registerStreamMetrics_ensures | apply ensures_second; intros ?]).
Qed.

Lemma SetupConnection_body_ready env conf s s' :
  SetupConnection_body env conf s = (Ok tt, s') -> is_Some (trafficNotStarted s.1) ->
  handles_set s'.1 /\ is_Some (connection s'.1).
Proof.
  intros E Hm. split; [split|].
  - apply (within_inv (preserves (fun c => is_Some (trafficNotStarted c)))) in E; [by apply E|].
    unfold SetupConnection_body, orNotStarted. within_walk; unfold preserves; simpl; eauto.
  - by apply (SetupConnection_body_handles env conf _ _ _ E).
  - by apply (SetupConnection_body_connection env conf _ _ _ E).
Qed.

Lemma recover_Ok_inv {A} (m : M A) s a s' : recover m s = (Ok a, s') -> m s = (Ok a, s').
Proof. unfold recover. by destruct (m s) as [[]]. Qed.

Lemma MustRegister_inv m s u s' : MustRegister m s = (Ok u, s') -> s'.1 = s.1.
Proof. unfold MustRegister. destruct (prom_register m s.2); [done|]. by intros [= _ <-]. Qed.

Lemma newTrafficNotStarted_spec conf s :
  exists m s', newTrafficNotStarted conf s = (Ok m, s') /\
    trafficNotStarted s'.1 = Some m /\ connection s'.1 = connection s.1.
Proof.
  unfold newTrafficNotStarted, bind, upd, modify, get, gets, create, ret. simpl.
  destruct (NewCounter _ _ _ _ _ _) as [m q]. by exists m, (set_trafficNotStarted (Some m) (set_metricLabelMap (base_labels conf s.1) s.1), q).
Qed.

Lemma newTrafficNotStarted_inv conf s m s' :
  newTrafficNotStarted conf s = (Ok m, s') ->
  trafficNotStarted s'.1 = Some m /\ connection s'.1 = connection s.1.
Proof.
  destruct (newTrafficNotStarted_spec conf s) as (m' & s2 & E & Hx). rewrite E. by intros [= <- <-].
Qed.

Lemma SetupConnection_ready env conf s s' :
  SetupConnection env conf s = (Ok tt, s') -> handles_set s'.1 /\ is_Some (connection s'.1).
Proof.
  unfold SetupConnection. intros E.
  apply bind_Ok_inv in E as (m & s1 & Em & E). apply newTrafficNotStarted_inv in Em as [Em _].
  apply recover_Ok_inv, bind_Ok_inv in E as (? & s2 & Er & E). apply MustRegister_inv in Er.
  apply SetupConnection_body_ready in E; [done|]. rewrite Er, Em. by eexists.
Qed.
End Setup.
