(* ===== verification/Ledger.v ===== *)
(** * The request ledger: what a stream promises

    An abstract specification of the bookkeeping of pkg/tgen/udp.go, without
    sockets, codec or metrics library: a sequence counter, the map of pending
    requests, four totals, the cursor of the timeout handler, and where the
    sender is with the packet it has numbered last.  TGenRefine proves that
    the goroutines of a stream implement it; the invariants of this file then
    hold of the program. *)
From S2P Require Import Prelude GoInt TGenStep.
From Stdlib Require Import Sorting.Sorted.
Import stream.

(** What has become of the packet numbered last. *)
Inductive phase := PIdle | PReady | PInserted | PWriteFailed | PFailed | PSent.

Record ledger := mkLedger {
  l_seq : Z;
  l_pending : gmap Z Z;
  l_sent : Z;
  l_failed : Z;
  l_received : Z;
  l_dropped : Z;
  l_cursor : Z;
  l_phase : phase;
  l_locked : bool
}.

Definition silent (lb : label) : Prop :=
  match lb with LTau | LRedial | LConf | LEnv => True | _ => False end.

Inductive ledger_step : ledger -> label -> ledger -> Prop :=
| led_skip lb n P s f r d k ph b :
    silent lb ->
    ledger_step (mkLedger n P s f r d k ph b) lb (mkLedger n P s f r d k ph b)
| led_number (ok : bool) n P s f r d k b :
    n < 2 ^ 63 - 1 ->
    ledger_step (mkLedger n P s f r d k PIdle b) LTau
      (mkLedger (n + 1) P s f r d k (if ok then PReady else PFailed) b)
| led_insert ts n P s f r d k b :
    ledger_step (mkLedger n P s f r d k PReady b) LTau
      (mkLedger n (<[n := ts]> P) s f r d k PInserted b)
| led_write bytes n P s f r d k b :
    ledger_step (mkLedger n P s f r d k PInserted b) (LSent n bytes) (mkLedger n P s f r d k PSent b)
| led_write_fails n P s f r d k b :
    ledger_step (mkLedger n P s f r d k PInserted b) (LFailed n) (mkLedger n P s f r d k PWriteFailed b)
| led_remove n P s f r d k b :
    ledger_step (mkLedger n P s f r d k PWriteFailed b) LTau
      (mkLedger n (delete n P) s f r d k PFailed b)
| led_count_failed n P s f r d k b :
    ledger_step (mkLedger n P s f r d k PFailed b) LTau
      (mkLedger n P s (f64_add f 1) r d k PIdle b)
| led_count_sent n P s f r d k b :
    ledger_step (mkLedger n P s f r d k PSent b) LTau
      (mkLedger n P (f64_add s 1) f r d k PIdle b)
| led_receive i n P s f r d k ph b :
    is_Some (P !! i) ->
    ledger_step (mkLedger n P s f r d k ph b) (LReceived i)
      (mkLedger n (delete i P) s f (f64_add r 1) d k ph b)
| led_lock n P s f r d k ph :
    k < n -> ledger_step (mkLedger n P s f r d k ph false) LTau (mkLedger n P s f r d k ph true)
| led_wait n P s f r d k ph :
    is_Some (P !! k) ->
    ledger_step (mkLedger n P s f r d k ph true) LTau (mkLedger n P s f r d k ph false)
| led_pass n P s f r d k ph :
    P !! k = None ->
    ledger_step (mkLedger n P s f r d k ph true) LTau (mkLedger n P s f r d (add64 k 1) ph false)
| led_drop now n P s f r d k ph :
    is_Some (P !! k) ->
    ledger_step (mkLedger n P s f r d k ph true) (LDropped now k)
      (mkLedger n (delete k P) s f r (f64_add d 1) (add64 k 1) ph false).

Definition ledger0 : ledger := mkLedger 0 ∅ 0 0 0 0 1 PIdle false.

(** ** What a run shows on the outside *)
Definition settled_of (lb : label) : list Z :=
  match lb with LReceived k | LDropped _ k => [k] | _ => [] end.
Definition sent_of (lb : label) : list Z := match lb with LSent k _ => [k] | _ => [] end.
Definition settled_keys (ls : list label) : list Z := concat (settled_of <$> ls).
Definition sent_keys (ls : list label) : list Z := concat (sent_of <$> ls).

(** The network answers only what was written to it. *)
Definition honest (ls : list label) : Prop :=
  forall pre k post, ls = pre ++ LReceived k :: post -> k ∈ sent_keys pre.

Lemma settled_keys_snoc ls lb : settled_keys (ls ++ [lb]) = settled_keys ls ++ settled_of lb.
Proof. unfold settled_keys. rewrite fmap_app, concat_app. simpl. by rewrite app_nil_r. Qed.
Lemma sent_keys_snoc ls lb : sent_keys (ls ++ [lb]) = sent_keys ls ++ sent_of lb.
Proof. unfold sent_keys. rewrite fmap_app, concat_app. simpl. by rewrite app_nil_r. Qed.

Lemma honest_snoc ls lb :
  honest (ls ++ [lb]) -> honest ls /\ (forall k, lb = LReceived k -> k ∈ sent_keys ls).
Proof.
  intros Hh. split.
  - intros pre k post ->. apply (Hh pre k (post ++ [lb])). by rewrite <- app_assoc.
  - intros k ->. by apply (Hh ls k []).
Qed.

Lemma honest_add ls lb :
  honest ls -> (forall k, lb = LReceived k -> k ∈ sent_keys ls) -> honest (ls ++ [lb]).
Proof.
  intros Hh Hlb pre k post E. destruct post as [|x post _] using rev_ind.
  - apply app_inj_tail in E as [-> ->]. by apply Hlb.
  - rewrite app_comm_cons, app_assoc in E. apply app_inj_tail in E as [-> _]. by apply (Hh pre k post).
Qed.

(** ** Invariant *)
Definition unwritten (ph : phase) : bool :=
  match ph with PReady | PInserted | PWriteFailed | PFailed => true | _ => false end.

Record ledger_inv (ls : list label) (l : ledger) : Prop := mkLedgerInv {
  li_seq : 0 <= l_seq l < 2 ^ 63;
  li_cursor : 1 <= l_cursor l <= Z.max 1 (l_seq l);
  li_numbered : unwritten (l_phase l) = true -> 1 <= l_seq l;
  li_locked : l_locked l = true -> l_cursor l < l_seq l;
  li_pending k : is_Some (l_pending l !! k) -> l_cursor l <= k <= l_seq l;
  li_ready : l_phase l = PReady -> l_pending l !! l_seq l = None;
  li_settled k : k ∈ settled_keys ls ->
    1 <= k <= l_seq l /\ l_pending l !! k = None /\ (l_phase l = PReady -> k <> l_seq l);
  li_settled_once : NoDup (settled_keys ls);
  li_sent k : k ∈ sent_keys ls -> 1 <= k <= l_seq l /\ (unwritten (l_phase l) = true -> k < l_seq l);
  li_sent_sorted : StronglySorted Z.lt (sent_keys ls)
}.

Lemma ledger_inv0 : ledger_inv [] ledger0.
Proof.
  split; simpl; try done; try lia; try set_solver.
  - intros k [x Hx]. by rewrite lookup_empty in Hx.
  - constructor.
  - constructor.
Qed.

Lemma StronglySorted_snoc l x :
  StronglySorted Z.lt l -> (forall y, y ∈ l -> y < x) -> StronglySorted Z.lt (l ++ [x]).
Proof.
  induction 1 as [|y l Hl IH Hy]; simpl; intros Hx; [repeat constructor|].
  constructor; [apply IH; set_solver|].
  apply Forall_app. split; [done|]. constructor; [apply Hx; set_solver|constructor].
Qed.

(** A key that is pending has never been settled. *)
Lemma settled_fresh ls l k :
  ledger_inv ls l -> is_Some (l_pending l !! k) -> NoDup (settled_keys ls ++ [k]).
Proof.
  intros I Hk. apply NoDup_app. split_and!; [apply I| |apply NoDup_singleton].
  intros j Hj ->%list_elem_of_singleton. destruct (li_settled _ _ I k Hj) as (_ & E & _).
  rewrite E in Hk. by destruct Hk.
Qed.

(** Steps that show nothing keep the observable part of the invariant. *)
Lemma keys_silent ls lb : silent lb ->
  settled_keys (ls ++ [lb]) = settled_keys ls /\ sent_keys (ls ++ [lb]) = sent_keys ls.
Proof.
  intros Hs. rewrite settled_keys_snoc, sent_keys_snoc. by destruct lb; rewrite ?app_nil_r.
Qed.

Lemma delete_is_Some {A} (P : gmap Z A) i k : is_Some (delete i P !! k) -> k <> i /\ is_Some (P !! k).
Proof. rewrite lookup_delete_is_Some. intros [? ?]. split; auto. Qed.

Lemma delete_None {A} (P : gmap Z A) i k : P !! k = None -> delete i P !! k = None.
Proof. rewrite lookup_delete_None. auto. Qed.

Lemma insert_is_Some_or {A} (P : gmap Z A) i (x : A) k :
  is_Some (<[i := x]> P !! k) -> k = i \/ is_Some (P !! k).
Proof. rewrite lookup_insert_is_Some'. intros [->|?]; auto. Qed.

Lemma insert_None_ne {A} (P : gmap Z A) i (x : A) k :
  k <> i -> P !! k = None -> <[i := x]> P !! k = None.
Proof. intros. by rewrite lookup_insert_ne. Qed.

(** One settled request: gone from the map, added to the settled keys. *)
Lemma settle_inv ls lb n P s f r d k ph b s' f' r' d' k' b' i :
  ledger_inv ls (mkLedger n P s f r d k ph b) -> is_Some (P !! i) ->
  settled_of lb = [i] -> sent_of lb = [] ->
  1 <= k' <= Z.max 1 n -> (b' = true -> k' < n) ->
  (forall j, j <> i -> is_Some (P !! j) -> k' <= j) ->
  ledger_inv (ls ++ [lb]) (mkLedger n (delete i P) s' f' r' d' k' ph b').
Proof.
  intros I Hi E1 E2 Hk Hb Hc. pose proof (settled_fresh _ _ _ I Hi) as Hnd.
  pose proof (li_pending _ _ I i Hi) as Hin. simpl in *.
  destruct I as [I1 I2 In I3 I4 I5 I6 I7 I8 I9]; simpl in *.
  split; simpl; rewrite ?settled_keys_snoc, ?sent_keys_snoc, ?E1, ?E2, ?app_nil_r; try done.
  - intros j [Hj Hs]%delete_is_Some. split; [auto|]. by apply I4.
  - intros ->. apply delete_None. auto.
  - intros j [Hj| ->%list_elem_of_singleton]%elem_of_app.
    + destruct (I6 j Hj) as (? & ? & ?). split_and!; try lia; [by apply delete_None|done].
    + split; [lia|]. split; [apply lookup_delete_eq|]. intros -> ->.
      rewrite (I5 eq_refl) in Hi. by destruct Hi.
Qed.

Lemma ledger_inv_step ls l lb l' :
  ledger_inv ls l -> ledger_step l lb l' -> ledger_inv (ls ++ [lb]) l'.
Proof.
  intros I Hst.
  destruct Hst as [lb n P s f r d k ph b Hs|ok n P s f r d k b Hn|ts n P s f r d k b|
    by_ n P s f r d k b|n P s f r d k b|n P s f r d k b|n P s f r d k b|n P s f r d k b|
    i n P s f r d k ph b Hi|n P s f r d k ph Hk|n P s f r d k ph Hk|n P s f r d k ph Hk|
    now n P s f r d k ph Hk].
  9: { destruct (li_cursor _ _ I), (li_seq _ _ I); simpl in *. eapply settle_inv; eauto.
       - apply (li_locked _ _ I).
       - intros j _ Hj. by apply (li_pending _ _ I). }
  12: { pose proof (li_cursor _ _ I); pose proof (li_locked _ _ I eq_refl). pose proof (li_seq _ _ I).
        simpl in *. unfold add64. rewrite wrap64_id by (unfold in64; lia).
        eapply settle_inv; eauto; try lia; try done.
        intros j Hj Hs. pose proof (li_pending _ _ I j Hs). simpl in *. lia. }
  all: destruct I as [I1 I2 In I3 I4 I5 I6 I7 I8 I9]; simpl in *.
  all: try (destruct (keys_silent ls lb Hs) as [E1 E2]; split; simpl; rewrite ?E1, ?E2; auto; fail).
  all: split; simpl; rewrite ?settled_keys_snoc, ?sent_keys_snoc; simpl; rewrite ?app_nil_r;
    try done; try lia; try (intros; lia); auto.
  - intros Hb. specialize (I3 Hb). lia.
  - intros j Hj. specialize (I4 j Hj). lia.
  - intros _. apply eq_None_not_Some. intros Hs%I4. lia.
  - intros j Hj. destruct (I6 j Hj) as (? & ? & ?). split_and!; auto; lia.
  - intros j Hj. specialize (I8 j Hj). lia.
  - intros j [->|Hj%I4]%insert_is_Some_or; lia.
  - intros j Hj. destruct (I6 j Hj) as (? & ? & ?). split_and!; try lia; [|done].
    apply insert_None_ne; auto.
  - intros j Hj. destruct (I6 j Hj) as (? & ? & ?). split_and!; done || lia.
  - intros j [Hj%I8| ->%list_elem_of_singleton]%elem_of_app; [lia|]. specialize (In eq_refl). lia.
  - apply StronglySorted_snoc; [done|]. intros j Hj%I8. destruct Hj; auto.
  - intros j Hj. destruct (I6 j Hj) as (? & ? & ?). split_and!; done || lia.
  - intros j [_ Hj]%delete_is_Some. auto.
  - intros j Hj. destruct (I6 j Hj) as (? & ? & ?). split_and!; try lia; [|done]. by apply delete_None.
  - intros j Hj. destruct (I6 j Hj) as (? & ? & ?). split_and!; done || lia.
  - intros j Hj. specialize (I8 j Hj). lia.
  - intros j Hj. destruct (I6 j Hj) as (? & ? & ?). split_and!; done || lia.
  - specialize (I3 eq_refl). unfold add64. rewrite wrap64_id; unfold in64; lia.
  - intros j Hj. pose proof (I4 j Hj). specialize (I3 eq_refl).
    unfold add64. rewrite wrap64_id by (unfold in64; lia).
    assert (j <> k) by (intros ->; rewrite Hk in Hj; by destruct Hj). lia.
Qed.

(** ** Balances *)
Definition inflight (ph : phase) : Z := match ph with PIdle => 0 | _ => 1 end.

(** The packet numbered last is in none of the other places. *)
Definition slack (ph : phase) : Z := match ph with PReady | PFailed => 1 | _ => 0 end.

Definition sent_balance (l : ledger) : Prop :=
  0 <= l_sent l /\ 0 <= l_failed l /\ l_sent l + l_failed l + inflight (l_phase l) = l_seq l.

(** All numbers but [short] of them are accounted for. *)
Definition settle_balance (short : Z) (l : ledger) : Prop :=
  0 <= l_received l /\ 0 <= l_dropped l /\ 0 <= l_failed l /\
  l_received l + l_dropped l + l_failed l + Z.of_nat (size (l_pending l)) + slack (l_phase l) + short
    = l_seq l /\
  (l_phase l = PInserted \/ l_phase l = PWriteFailed -> is_Some (l_pending l !! l_seq l)).

Lemma f64_add_1 x : 0 <= x < 2 ^ 53 -> f64_add x 1 = x + 1.
Proof. intros. apply f64_add_exact. unfold f64_exact. lia. Qed.

Lemma ledger_step_seq l lb l' : ledger_step l lb l' -> l_seq l <= l_seq l'.
Proof. destruct 1; simpl; lia. Qed.

Lemma ledger_run_seq l ls l' : steps ledger_step l ls l' -> l_seq l <= l_seq l'.
Proof. induction 1 as [|? ? ? ? ? Hst _ IH]; [done|]. apply ledger_step_seq in Hst. lia. Qed.

Lemma sent_balance_step l lb l' :
  ledger_step l lb l' -> l_seq l <= 2 ^ 53 -> sent_balance l -> sent_balance l'.
Proof.
  unfold sent_balance. destruct 1; simpl; intros Hn (H1 & H2 & H3); simpl in *;
    rewrite ?f64_add_1 by lia; try (destruct ok; simpl); lia.
Qed.

Lemma size_delete_Z (P : gmap Z Z) k :
  is_Some (P !! k) -> Z.of_nat (size (delete k P)) = Z.of_nat (size P) - 1.
Proof.
  intros Hk. pose proof (map_size_delete_Some k P Hk).
  assert (size P <> 0%nat); [|lia]. intros E%map_size_empty_inv. subst P.
  rewrite lookup_empty in Hk. by destruct Hk.
Qed.

Lemma size_insert_Z (P : gmap Z Z) k x :
  P !! k = None -> Z.of_nat (size (<[k := x]> P)) = Z.of_nat (size P) + 1.
Proof. intros Hk. rewrite map_size_insert_None by done. lia. Qed.

Lemma settle_balance_step short ls l lb l' :
  0 <= short -> ledger_inv ls l -> honest (ls ++ [lb]) -> ledger_step l lb l' -> l_seq l <= 2 ^ 53 ->
  settle_balance short l -> settle_balance short l'.
Proof.
  intros Hsh I [_ Hh]%honest_snoc Hst. destruct I as [I1 I2 In I3 I4 I5 _ _ I8 _].
  unfold settle_balance.
  destruct Hst as [| | | | | | | |i n P s f r d k ph b Hi| |n P s f r d k ph Hk| |now n P s f r d k ph Hk];
    simpl in *; intros Hn (H1 & H2 & H3 & H4 & H5).
  9: { destruct (I8 i (Hh i eq_refl)) as [_ Hlt]. pose proof (size_delete_Z P i Hi).
       rewrite f64_add_1 by (destruct ph; simpl in *; lia). split_and!; try lia.
       intros Hph. apply lookup_delete_is_Some. split; [|auto].
       destruct Hph as [-> | ->]; specialize (Hlt eq_refl); lia. }
  12: { pose proof (size_delete_Z P k Hk). specialize (I3 eq_refl).
        rewrite f64_add_1 by (destruct ph; simpl in *; lia). split_and!; try lia.
        intros Hph. apply lookup_delete_is_Some. split; [lia|auto]. }
  all: rewrite ?f64_add_1 by lia; split_and!; try lia; try done; try (intros [|]; done).
  - destruct ok; simpl; lia.
  - destruct ok; intros [|]; done.
  - rewrite size_insert_Z by auto. lia.
  - intros _. by rewrite lookup_insert_eq.
  - intros _. auto.
  - rewrite size_delete_Z by auto. lia.
Qed.

(** ** Runs *)
Lemma ledger_run_inv ls l : steps ledger_step ledger0 ls l -> ledger_inv ls l.
Proof.
  revert ls l. apply steps_ind_r; [apply ledger_inv0|]. intros ls l lb l' _ I Hst.
  by eapply ledger_inv_step.
Qed.

Lemma ledger_run_sent ls l : steps ledger_step ledger0 ls l -> l_seq l <= 2 ^ 53 -> sent_balance l.
Proof.
  revert ls l. apply (steps_ind_r ledger_step ledger0 (fun _ l => l_seq l <= 2 ^ 53 -> sent_balance l));
    [done|].
  intros ls l lb l' _ IH Hst Hn. pose proof (ledger_step_seq _ _ _ Hst).
  eapply sent_balance_step; [done|lia|apply IH; lia].
Qed.

Lemma ledger_run_short short ls l ls' l' :
  0 <= short -> ledger_inv ls l -> settle_balance short l -> steps ledger_step l ls' l' ->
  honest (ls ++ ls') -> l_seq l' <= 2 ^ 53 -> settle_balance short l'.
Proof.
  intros Hsh I B Hr. enough (ledger_inv (ls ++ ls') l' /\ (honest (ls ++ ls') -> l_seq l' <= 2 ^ 53 -> settle_balance short l')) by tauto.
  revert ls' l' Hr. apply (steps_ind_r ledger_step l (fun ls' l' => ledger_inv (ls ++ ls') l' /\ (honest (ls ++ ls') -> _ -> _))).
  - by rewrite app_nil_r.
  - intros ls' l1 lb l2 _ [I1 IH] Hst. rewrite app_assoc. split; [by eapply ledger_inv_step|].
    intros Hh Hn. pose proof (ledger_step_seq _ _ _ Hst).
    eapply settle_balance_step; [done|exact I1|done|done|lia|]. apply IH; [|lia]. by apply honest_snoc in Hh as [? _].
Qed.

Lemma ledger_run_settled ls l :
  steps ledger_step ledger0 ls l -> honest ls -> l_seq l <= 2 ^ 53 -> settle_balance 0 l.
Proof.
  intros Hr. apply (ledger_run_short 0 [] ledger0 ls l); [done|apply ledger_inv0| |done].
  unfold settle_balance. simpl. split_and!; try done. intros [|]; done.
Qed.

(** The pending requests forgotten. *)
Definition forget (l : ledger) : ledger :=
  mkLedger (l_seq l) ∅ (l_sent l) (l_failed l) (l_received l) (l_dropped l) (l_cursor l) (l_phase l) (l_locked l).

Lemma forget_inv ls l : ledger_inv ls l -> ledger_inv ls (forget l).
Proof.
  intros [I1 I2 In I3 I4 I5 I6 I7 I8 I9]. split; simpl; try done.
  - intros k [x Hx]. by rewrite lookup_empty in Hx.
  - intros k Hk. by destruct (I6 k Hk) as (? & _ & ?).
Qed.

Lemma forget_short ls l ls' l' :
  ledger_inv ls l -> settle_balance 0 l -> l_phase l <> PInserted -> l_phase l <> PWriteFailed ->
  steps ledger_step (forget l) ls' l' -> honest (ls ++ ls') -> l_seq l' <= 2 ^ 53 ->
  settle_balance (Z.of_nat (size (l_pending l))) l'.
Proof.
  intros I (B1 & B2 & B3 & B4 & _) Hp1 Hp2. apply ledger_run_short; [lia|by apply forget_inv|].
  unfold settle_balance. simpl. split_and!; [done..| |naive_solver]. rewrite map_size_empty. lia.
Qed.

(** ** Counts

    The totals of received and dropped packets are the numbers of labels. *)
Definition received_of (lb : label) : list Z := match lb with LReceived k => [k] | _ => [] end.
Definition dropped_of (lb : label) : list Z := match lb with LDropped _ k => [k] | _ => [] end.
Definition received_keys (ls : list label) : list Z := concat (received_of <$> ls).
Definition dropped_keys (ls : list label) : list Z := concat (dropped_of <$> ls).

Lemma received_keys_snoc ls lb : received_keys (ls ++ [lb]) = received_keys ls ++ received_of lb.
Proof. unfold received_keys. rewrite fmap_app, concat_app. simpl. by rewrite app_nil_r. Qed.
Lemma dropped_keys_snoc ls lb : dropped_keys (ls ++ [lb]) = dropped_keys ls ++ dropped_of lb.
Proof. unfold dropped_keys. rewrite fmap_app, concat_app. simpl. by rewrite app_nil_r. Qed.

Lemma settled_split ls : settled_keys ls ≡ₚ received_keys ls ++ dropped_keys ls.
Proof.
  induction ls as [|lb ls IH] using rev_ind; [done|].
  rewrite settled_keys_snoc, received_keys_snoc, dropped_keys_snoc, IH.
  destruct lb; simpl; rewrite ?app_nil_r; solve_Permutation.
Qed.

Lemma NoDup_range (l : list Z) n : 0 <= n -> NoDup l -> (forall k, k ∈ l -> 1 <= k <= n) -> zlen l <= n.
Proof.
  intros Hn Hd Hl. unfold zlen. assert (l ⊆+ seqZ 1 n) as Hs.
  { apply NoDup_submseteq; [done|]. intros k Hk%Hl. apply elem_of_seqZ. lia. }
  apply submseteq_length in Hs. rewrite length_seqZ in Hs. lia.
Qed.

Lemma ledger_run_counts ls l :
  steps ledger_step ledger0 ls l -> l_seq l <= 2 ^ 53 ->
  l_received l = zlen (received_keys ls) /\ l_dropped l = zlen (dropped_keys ls).
Proof.
  revert ls l. apply (steps_ind_r ledger_step ledger0 (fun ls l => l_seq l <= 2 ^ 53 -> _ /\ _)); [done|].
  intros ls l lb l' Hr IH Hst Hn. pose proof (ledger_step_seq _ _ _ Hst) as Hle.
  destruct (IH ltac:(lia)) as [Er Ed]. clear IH.
  pose proof (ledger_inv_step _ _ _ _ (ledger_run_inv _ _ Hr) Hst) as I.
  assert (zlen (received_keys (ls ++ [lb]) ++ dropped_keys (ls ++ [lb])) <= l_seq l') as Hlen.
  { apply NoDup_range; [apply I|rewrite <- settled_split; apply I|].
    intros k Hk. apply (li_settled _ _ I). by rewrite settled_split. }
  rewrite received_keys_snoc, dropped_keys_snoc in *. unfold zlen in *. rewrite !length_app in *.
  destruct Hst; simpl in *; try destruct lb; simpl in *; try done; rewrite ?length_app in *; simpl in *; rewrite ?f64_add_1 by lia; lia.
Qed.

(** Whatever the network answers, what has been dropped and what may be are
    different numbers, all of them assigned. *)
Lemma ledger_run_room ls l :
  steps ledger_step ledger0 ls l -> l_seq l <= 2 ^ 53 ->
  0 <= l_dropped l /\ l_dropped l + Z.of_nat (size (l_pending l)) <= l_seq l.
Proof.
  intros Hr Hn. destruct (ledger_run_counts _ _ Hr Hn) as [_ ->]. pose proof (ledger_run_inv _ _ Hr) as I.
  split; [unfold zlen; lia|].
  set (keys := (map_to_list (l_pending l)).*1).
  assert (zlen keys = Z.of_nat (size (l_pending l))) as <- by (unfold keys, zlen; by rewrite length_fmap, length_map_to_list).
  assert (forall k, k ∈ keys -> is_Some (l_pending l !! k)) as Hkeys.
  { intros k ([k' ts] & -> & Hin)%list_elem_of_fmap. apply elem_of_map_to_list in Hin. by eexists. }
  assert (forall k, k ∈ dropped_keys ls -> 1 <= k <= l_seq l /\ l_pending l !! k = None) as Hdrop.
  { intros k Hk. destruct (li_settled _ _ I k) as (? & ? & _); [|done]. rewrite settled_split. set_solver. }
  assert (zlen (dropped_keys ls ++ keys) <= l_seq l) as Hl; [|unfold zlen in *; rewrite length_app in Hl; lia].
  apply NoDup_range; [apply I| |].
  - apply NoDup_app. split_and!.
    + pose proof (li_settled_once _ _ I) as Hd. rewrite settled_split in Hd. by apply NoDup_app in Hd as (_ & _ & ?).
    + intros k [_ Hk]%Hdrop Hin%Hkeys. rewrite Hk in Hin. by destruct Hin.
    + apply NoDup_fst_map_to_list.
  - intros k [Hk|Hk]%elem_of_app; [by apply Hdrop|]. pose proof (li_cursor _ _ I).
    pose proof (li_pending _ _ I k (Hkeys k Hk)). lia.
Qed.

(** Checks a concrete run for [honest]. *)
Fixpoint answers_ok (seen : list Z) (ls : list label) : bool :=
  match ls with
  | [] => true
  | LReceived k :: ls => bool_decide (k ∈ seen) && answers_ok seen ls
  | lb :: ls => answers_ok (sent_of lb ++ seen) ls
  end.

Lemma answers_ok_honest ls : answers_ok [] ls = true -> honest ls.
Proof.
  assert (forall ls seen pre k post, answers_ok seen ls = true -> ls = pre ++ LReceived k :: post ->
            k ∈ seen ++ sent_keys pre) as Hgen.
  { clear ls. intros ls seen pre. revert ls seen.
    induction pre as [|lb pre IH]; intros ls seen k post Ha ->; simpl in Ha.
    - apply andb_prop in Ha as [Hk%bool_decide_eq_true _]. set_solver.
    - assert (answers_ok (sent_of lb ++ seen) (pre ++ LReceived k :: post) = true) as Ha'
        by (destruct lb; simpl in *; try done; by apply andb_prop in Ha as [_ ?]).
      pose proof (IH _ _ _ _ Ha' eq_refl). unfold sent_keys in *. simpl. set_solver. }
  intros Ha pre k post E. specialize (Hgen ls [] pre k post Ha E). set_solver.
Qed.
