(* ===== verification/TGenRefine.v ===== *)
(** * A stream implements the request ledger

    [ledger_of] reads the ledger off the state of a stream and its goroutines;
    every step of the program is a step of the ledger with the same label. *)
From S2P Require Import Prelude GoInt Metrics Message Net Pair TApp TGen TGenStep TGenProofs Ledger.
Import tgen stream.

Section Refine.
Context `{Msgpack} `{PromLib}.

Definition phase_of (pc : sender_pc) : phase :=
  match pc with
  | SStart | SDummy _ | SLoop | SSend _ | SExited => PIdle
  | SReady _ _ => PReady
  | SInserted _ => PInserted
  | SWriteFailed _ => PWriteFailed
  | SFailCount _ | SFailTotal _ => PFailed
  | SSentCount _ | SSentTotal _ => PSent
  end.

Definition locked_of (pc : timeout_pc) : bool := match pc with TLocked => true | _ => false end.

Definition ledger_of (w : world) : ledger :=
  let c := w_c w in
  mkLedger (packetSequence c) (pending c) (packetSentVal (vals c)) (packetSendFailedVal (vals c))
    (packetReceivedVal (vals c)) (packetDroppedVal (vals c)) (seq (w_t w))
    (phase_of (s_pc (w_snd w))) (locked_of (w_tpc w)).

Definition target_of (pc : sender_pc) : option Z :=
  match pc with
  | SSend t | SReady t _ | SInserted t | SWriteFailed t | SFailCount t | SFailTotal t
  | SSentCount t | SSentTotal t => Some t
  | _ => None
  end.

(** Values stay in the machine's range; the cursor starts at 1. *)
Record sane (w : world) : Prop := mkSane {
  sane_seq : 0 <= packetSequence (w_c w) < 2 ^ 63;
  sane_target t : target_of (s_pc (w_snd w)) = Some t -> t < 2 ^ 63;
  sane_cursor : w_tpc w = TStart -> seq (w_t w) = 1
}.

(** The part of the stream the ledger shows. *)
Definition book (c : udpStream) := (packetSequence c, pending c, vals c).

Lemma core_book c c' : same_core c c' -> book c = book c'.
Proof. unfold same_core, core, book. congruence. Qed.

Lemma ledger_silent l lb : silent lb -> ledger_step l lb l.
Proof. destruct l. apply led_skip. Qed.

(** A silent step of the sender that leaves the bookkeeping alone. *)
Lemma sender_stutters c p conf x tpc t rd b td lb c' p' x' :
  book c = book c' -> phase_of (s_pc x) = phase_of (s_pc x') -> silent lb ->
  (forall tg, target_of (s_pc x') = Some tg -> tg < 2 ^ 63) ->
  sane (mkWorld c p conf x tpc t rd b td) ->
  ledger_step (ledger_of (mkWorld c p conf x tpc t rd b td)) lb
    (ledger_of (mkWorld c' p' conf x' tpc t rd b td)) /\
  sane (mkWorld c' p' conf x' tpc t rd b td).
Proof.
  intros [= E1 E2 E3] E4 Hs Ht [S1 S2 S3]. split; [|split; simpl in *; [lia|auto|auto]].
  unfold ledger_of. simpl. rewrite E1, E2, E3, E4. by apply ledger_silent.
Qed.

Lemma next_packet_inv c p k s' :
  next_packet (c, p) = (Ok k, s') ->
  k = add64 (packetSequence c) 1 /\ s' = (set_packetSequence k c, p).
Proof. intros [= <- <-]. done. Qed.

Lemma targetSeq_lt now start pausePeriod rate : targetSeq now start pausePeriod rate < 2 ^ 63.
Proof. unfold targetSeq. apply wrap64_range. Qed.

(** The moves of the sender in the ledger. *)
Lemma sender_refines conf x c p lb x' c' p' tpc t rd b td :
  sender_step conf x (c, p) lb x' (c', p') ->
  sane (mkWorld c p conf x tpc t rd b td) ->
  ledger_step (ledger_of (mkWorld c p conf x tpc t rd b td)) lb
    (ledger_of (mkWorld c' p' conf x' tpc t rd b td)) /\
  sane (mkWorld c' p' conf x' tpc t rd b td).
Proof.
  intros Hst S. pose proof S as [S1 S2 S3]. destruct x as [pc len base st pa].
  inversion Hst; subst; unfold add_pending, drop_pending, upd, modify in *; simpl in *; subst;
    repeat match goal with
    | E : done _ = _ |- _ => apply done_inv in E as [E _]; simpl in E
    | E : Inc _ _ = _ |- _ => apply Inc_inv in E as (? & _ & E); simpl in E
    | E : redialDestination _ _ _ _ = _ |- _ =>
        apply (within_inv same_core), core_book in E; [|apply redialDestination_core]; simpl in E
    | E : next_packet _ = _ |- _ => apply next_packet_inv in E as [-> E]
    | E : (_, _) = (_, _) |- _ => injection E as; subst
    end.
  all: try (apply sender_stutters; done || (intros; simpl in *; auto; congruence)).
  1: { apply sender_stutters; try done. intros tg E. apply (inj Some) in E. rewrite <- E.
       apply targetSeq_lt. }
  all: match goal with Hst : sender_step _ _ _ _ _ _ |- _ => clear Hst end.
  1, 2: specialize (S2 _ eq_refl);
    assert (add64 (packetSequence c) 1 = packetSequence c + 1) as E
      by (unfold add64; apply wrap64_id; unfold in64; lia);
    unfold ledger_of; simpl; rewrite ?E;
    split; [|split; simpl; [lia|congruence|done]].
  1: by apply (led_number true); lia.
  1: by apply (led_number false); lia.
  all: split; [unfold ledger_of; simpl|split; [exact S1|exact S2|exact S3]].
  - apply led_insert.
  - apply led_write.
  - apply led_write_fails.
  - apply led_remove.
  - apply led_count_failed.
  - apply led_count_sent.
Qed.

Lemma timeout_refines conf c p conf' x tpc t rd b td lb tpc' t' c' p' :
  timeout_step conf tpc t (c, p) lb tpc' t' (c', p') ->
  sane (mkWorld c p conf' x tpc t rd b td) ->
  ledger_step (ledger_of (mkWorld c p conf' x tpc t rd b td)) lb
    (ledger_of (mkWorld c' p' conf' x tpc' t' rd b td)) /\
  sane (mkWorld c' p' conf' x tpc' t' rd b td).
Proof.
  intros Hst [S1 S2 S3]. inversion Hst; subst; simpl in *;
    match goal with Hst : timeout_step _ _ _ _ _ _ _ _ |- _ => clear Hst end.
  - split; [|split; done]. unfold ledger_of. simpl. rewrite (S3 eq_refl). by apply ledger_silent.
  - rename select (done _ = _) into E. apply done_inv in E as [E _]. injection E as -> ->.
    split; [|split; done]. unfold ledger_of. simpl. destruct_or!; destruct_and?; subst; by apply ledger_silent.
  - split; [|split; done]. by apply ledger_silent.
  - split; [|split; done]. by apply ledger_silent.
  - split; [|split; done]. by apply led_lock.
  - rename select (timeout_turn _ _ _ = _) into E1. apply timeout_turn_inv in E1.
    destruct E1 as (ts & m & E & _ & -> & _ & E2). injection E2 as -> ->.
    split; [|split; simpl; done]. unfold ledger_of. simpl. eapply led_drop. eauto.
  - rename select (timeout_turn _ _ _ = _) into E1. apply timeout_turn_inv in E1.
    destruct E1 as (ts & E & _ & -> & E2). injection E2 as -> ->.
    split; [|split; simpl; done]. unfold ledger_of. simpl. apply led_wait. eauto.
  - rename select (timeout_turn _ _ _ = _) into E1. apply timeout_turn_inv in E1.
    destruct E1 as (E & Es & E2). injection E2 as -> ->.
    split; [|split; simpl; try done; by case_decide]. unfold ledger_of. simpl. rewrite Es.
    case_decide; by apply led_pass.
  - rename select (after_drop _ _ _ _ _ _ = _) into E. apply after_drop_inv in E.
    destruct E as (Es & Hc%core_book & _). simpl in Hc. injection Hc as E1 E2 E3.
    split; [|split; simpl in *; [lia|done|done]].
    unfold ledger_of. simpl. rewrite Es, E1, E2, E3. by destruct redialled; apply ledger_silent.
Qed.

Lemma core_settled c c' k rtt : core c' = core (settled k rtt c) -> book c' = book (settled k rtt c).
Proof. apply core_book. Qed.

Lemma reader_refines c p conf x tpc t rd b td lb rd' b' c' p' :
  reader_step rd b (c, p) lb rd' b' (c', p') ->
  sane (mkWorld c p conf x tpc t rd b td) ->
  ledger_step (ledger_of (mkWorld c p conf x tpc t rd b td)) lb
    (ledger_of (mkWorld c' p' conf x tpc t rd' b' td)) /\
  sane (mkWorld c' p' conf x tpc t rd' b' td).
Proof.
  intros Hst [S1 S2 S3]. inversion Hst; subst; simpl in *.
  - split; [|split; done]. by apply ledger_silent.
  - rename select (done _ = _) into E. apply done_inv in E as [E _]. injection E as -> ->.
    split; [|split; done]. by apply ledger_silent.
  - split; [|split; done]. by apply ledger_silent.
  - rename select (SocketRead_datagram _ _ _ _ = _) into E. apply SocketRead_datagram_inv in E.
    destruct r as [k|]; simpl in *.
    + destruct E as (Hk & _ & rtt & Hc%core_settled). injection Hc as E1 E2 E3.
      split; [|split; simpl in *; [lia|done|done]].
      unfold ledger_of. simpl. rewrite E1, E2, E3. simpl. by apply led_receive.
    + injection E as -> ->. split; [|split; done]. by apply ledger_silent.
Qed.

(** The whole system. *)
Lemma alone_refines w lb w' :
  alone_step w lb w' -> sane w -> ledger_step (ledger_of w) lb (ledger_of w') /\ sane w'.
Proof.
  destruct 1; intros S.
  - by eapply sender_refines.
  - by eapply timeout_refines.
  - by eapply reader_refines.
  - rename select (TearDownConnection_begin _ = _) into E.
    apply TearDownConnection_begin_inv in E as (k & m & _ & _ & [= -> ->]).
    destruct S as [S1 S2 S3]. split; [by apply ledger_silent|split; done].
  - rename select (TearDownConnection_end _ = _) into E. injection E as <- <-.
    destruct S as [S1 S2 S3]. split; [by apply ledger_silent|split; done].
  - destruct S as [S1 S2 S3]. split; [by apply ledger_silent|split; done].
  - destruct S as [S1 S2 S3]. split; [by apply ledger_silent|split; done].
Qed.

Lemma run_refines w ls w' :
  steps alone_step w ls w' -> sane w -> steps ledger_step (ledger_of w) ls (ledger_of w') /\ sane w'.
Proof.
  induction 1 as [w|w lb w1 ls w2 Hst Hr IH]; intros S; [split; [constructor|done]|].
  destruct (alone_refines _ _ _ Hst S) as [Hl S1]. destruct (IH S1) as [Hls S2].
  split; [by econstructor|done].
Qed.

(** ** The stream a run starts from *)

(** As [newStream] makes it, for a pair without pending requests. *)
Definition unused (c : udpStream) : Prop :=
  book c = (0, ∅, mkTotals 0 0 0 0 0) /\ isStopped c = 3 /\ stop c = false.

Lemma unused_core c c' : same_core c c' -> unused c -> unused c'.
Proof. unfold same_core, core, unused, book. intros [= -> -> -> -> -> _]. done. Qed.

Lemma CreateClient_unused a p n c :
  CreateClient a p n = Ok c -> PendingRequestsMap p = ∅ -> unused c.
Proof.
  unfold CreateClient, newStream. destruct GetMessageHeaderLength as [hl|e|e]; [|done..].
  intros [= <-] Hp. unfold unused, book, pending. simpl. by rewrite Hp.
Qed.

Lemma started_sane c p conf : unused c -> sane (started c p conf).
Proof. intros [[= E _ _] _]. split; simpl; [lia|done|done]. Qed.

Lemma started_ledger c p conf : unused c -> ledger_of (started c p conf) = ledger0.
Proof. intros [[= E1 E2 E3] _]. unfold ledger_of, started. simpl. by rewrite E1, E2, E3. Qed.

Lemma started_run c p conf ls w :
  unused c -> steps alone_step (started c p conf) ls w ->
  steps ledger_step ledger0 ls (ledger_of w) /\ sane w.
Proof.
  intros Hu Hr. rewrite <- (started_ledger c p conf Hu). by apply run_refines, started_sane.
Qed.
End Refine.
