(* ===== verification/TGenInv.v ===== *)
(** * Invariants of the goroutines of a stream (lemmas)

    The metrics and the connection a set-up stream needs stay there, the
    WaitGroup counts the goroutines still running, and after the stop flag is
    raised every step of a goroutine brings all three closer to their exit. *)
From S2P Require Import Prelude GoInt Metrics Message Net Pair TApp TGen TGenStep TGenProofs Ledger TGenRefine.
Import tgen stream.

Section Inv.
Context `{Msgpack} `{PromLib}.

(** The stream [createNetBatTgenClients] starts: created for a pair without
    pending requests, its connection set up; between the two parts of that the
    metrics of others, and the configuration, may have changed. *)
Inductive set_up (conf : config) (c : udpStream) (q : prom) : Prop :=
| set_up_intro a p n conf0 env c0 q0 c1 q1 q2 :
    CreateClient a p n = Ok c0 -> PendingRequestsMap p = ∅ ->
    SetupConnection_begin conf0 (c0, q0) = (Ok tt, (c1, q1)) ->
    SetupConnection_end env conf (c1, q2) = (Ok tt, (c, q)) -> set_up conf c q.

(** The two parts, one after the other, are the whole. *)
Lemma SetupConnection_parts env conf s :
  SetupConnection env conf s =
    (let! _ := SetupConnection_begin conf in SetupConnection_end env conf) s.
Proof.
  unfold SetupConnection, SetupConnection_begin, SetupConnection_end, bind.
  destruct (newTrafficNotStarted conf s) as [[m|e|w] s1]; [|done..].
  unfold recover. by destruct (MustRegister m s1) as [[[]|e|w] s2].
Qed.

Lemma set_up_whole conf c q a p n env c0 q0 :
  CreateClient a p n = Ok c0 -> PendingRequestsMap p = ∅ ->
  SetupConnection env conf (c0, q0) = (Ok tt, (c, q)) -> set_up conf c q.
Proof.
  intros Hc Hp E. rewrite SetupConnection_parts in E. apply bind_Ok_inv in E as ([] & [c1 q1] & Eb & Ee).
  by eapply set_up_intro.
Qed.

(** What the first part leaves of a new stream. *)
Lemma SetupConnection_begin_inv conf s u s' :
  SetupConnection_begin conf s = (Ok u, s') ->
  is_Some (trafficNotStarted s'.1) /\ connection s'.1 = connection s.1 /\ same_core s.1 s'.1.
Proof.
  unfold SetupConnection_begin. intros E. apply bind_Ok_inv in E as (m & s1 & Em & E).
  apply recover_Ok_inv, MustRegister_inv in E.
  assert (same_core s.1 s1.1) as Hc.
  { apply (within_inv same_core) in Em; [done|]. unfold newTrafficNotStarted. within_walk; reflexivity. }
  apply newTrafficNotStarted_inv in Em as [Em Ec]. rewrite E, Em, Ec. split_and!; [by eexists|done|done].
Qed.

Lemma CreateClient_fields a p n c :
  CreateClient a p n = Ok c -> connection c = None /\ stop c = false /\ isStopped c = 3.
Proof.
  unfold CreateClient, newStream. destruct GetMessageHeaderLength; [|done..]. by intros [= <-].
Qed.

Lemma SetupConnection_end_inv env conf s u s' :
  SetupConnection_end env conf s = (Ok u, s') -> is_Some (trafficNotStarted s.1) ->
  handles_set s'.1 /\ is_Some (connection s'.1) /\ same_core s.1 s'.1.
Proof.
  unfold SetupConnection_end. intros E%recover_Ok_inv Hm. destruct u.
  destruct (SetupConnection_body_ready _ _ _ _ E Hm) as [Hh Hk]. split_and!; [done|done|].
  apply (within_inv same_core) in E; [done|]. unfold SetupConnection_body, orNotStarted. within_walk; reflexivity.
Qed.

(** What is set up has the counters and the map of pending requests of a new
    stream, metrics and a connection, and has not been told to stop. *)
Lemma set_up_spec conf c q :
  set_up conf c q -> exists c0, unused c0 /\ same_core c0 c /\ handles_set c /\ is_Some (connection c) /\
    stop c0 = false /\ isStopped c0 = 3.
Proof.
  intros [a p n conf0 env c0 q0 c1 q1 q2 Hc Hp Hb He]. exists c0.
  pose proof (CreateClient_unused _ _ _ _ Hc Hp). destruct (CreateClient_fields _ _ _ _ Hc) as (_ & Hs & Hi).
  apply SetupConnection_begin_inv in Hb as (Hm & _ & Hc1).
  destruct (SetupConnection_end_inv _ _ _ _ _ He Hm) as (Hh & Hk & Hc2).
  split_and!; [done|unfold same_core in *; simpl in *; congruence|done|done|done|done].
Qed.

Lemma set_up_unused conf c q : set_up conf c q -> unused c.
Proof. intros (c0 & Hu & Hc & _)%set_up_spec. by apply (unused_core c0). Qed.

(** A step of one of the stream's own goroutines. *)
Inductive own_step : world -> label -> world -> Prop :=
| own_sender c p conf x tpc t rd b td lb x' c' p' :
    sender_step conf x (c, p) lb x' (c', p') ->
    own_step (mkWorld c p conf x tpc t rd b td) lb (mkWorld c' p' conf x' tpc t rd b td)
| own_timeout c p conf x tpc t rd b td lb tpc' t' c' p' :
    timeout_step conf tpc t (c, p) lb tpc' t' (c', p') ->
    own_step (mkWorld c p conf x tpc t rd b td) lb (mkWorld c' p' conf x tpc' t' rd b td)
| own_reader c p conf x tpc t rd b td lb rd' b' c' p' :
    reader_step rd b (c, p) lb rd' b' (c', p') ->
    own_step (mkWorld c p conf x tpc t rd b td) lb (mkWorld c' p' conf x tpc t rd' b' td).

Lemma own_step_step w lb w' : own_step w lb w' -> alone_step w lb w'.
Proof. destruct 1; econstructor; eauto. Qed.

Definition running_sender (pc : sender_pc) : Z := match pc with SExited => 0 | _ => 1 end.
Definition running_timeout (pc : timeout_pc) : Z := match pc with TExited => 0 | _ => 1 end.
Definition running_reader (pc : reader_pc) : Z := match pc with RExited => 0 | _ => 1 end.
Definition running (w : world) : Z :=
  running_sender (s_pc (w_snd w)) + running_timeout (w_tpc w) + running_reader (w_rd w).

(** What the goroutines never lose. *)
Definition equipped (c : udpStream) : Prop := handles_set c /\ is_Some (connection c).

Record world_ok (w : world) : Prop := mkWorldOk {
  ok_equipped : equipped (w_c w);
  ok_running : isStopped (w_c w) = running w;
  ok_stop : w_td w <> DIdle -> stop (w_c w) = true
}.

Definition flags (c : udpStream) := (isStopped c, stop c).

Lemma core_flags c c' : same_core c c' -> flags c = flags c'.
Proof. unfold same_core, core, flags. congruence. Qed.

Lemma redialDestination_connection env conf force :
  within (preserves (fun c => is_Some (connection c))) (redialDestination env conf force).
Proof. unfold redialDestination. within_walk; unfold preserves; simpl; eauto. Qed.

Lemma redial_equipped env conf force s r s' :
  redialDestination env conf force s = (r, s') -> equipped s.1 -> equipped s'.1.
Proof.
  intros E [Hh Hc]. split.
  - by apply (within_inv _ _ _ _ _ (redialDestination_handles env conf force) E).
  - by apply (within_inv _ _ _ _ _ (redialDestination_connection env conf force) E).
Qed.

Lemma SocketRead_datagram_connection now data buf :
  within (preserves (fun c => is_Some (connection c))) (SocketRead_datagram now data buf).
Proof. unfold SocketRead_datagram, handle_datagram. within_walk; unfold preserves; simpl; eauto. Qed.

Lemma SocketRead_datagram_flags now data buf s r buf' s' :
  SocketRead_datagram now data buf s = (Ok (r, buf'), s') -> flags s.1 = flags s'.1.
Proof.
  intros E%SocketRead_datagram_inv. destruct r as [k|]; [|by subst].
  destruct E as (_ & _ & rtt & [= _ _ _ Hs Hi _]). unfold flags. by rewrite Hs, Hi.
Qed.

(** The effect of a step of the sender on the flags and the equipment. *)
Lemma sender_flags conf x c p lb x' c' p' :
  sender_step conf x (c, p) lb x' (c', p') -> equipped c ->
  equipped c' /\ stop c' = stop c /\
  isStopped c' - running_sender (s_pc x') = isStopped c - running_sender (s_pc x) /\
  s_pc x <> SExited.
Proof.
  intros Hst He. destruct x as [pc len base st pa].
  inversion Hst; subst; unfold add_pending, drop_pending, upd, modify in *; simpl in *; subst;
    repeat match goal with
    | E : done _ = _ |- _ => apply done_inv in E as [E _]; simpl in E
    | E : Inc _ _ = _ |- _ => apply Inc_inv in E as (? & _ & E); simpl in E
    | E : redialDestination _ _ _ _ = _ |- _ =>
        pose proof (redial_equipped _ _ _ _ _ _ E He);
        apply (within_inv same_core), core_flags in E; [|apply redialDestination_core];
        simpl in E; injection E as ? ?
    | E : next_packet _ = _ |- _ => apply next_packet_inv in E as [-> E]
    | E : (_, _) = (_, _) |- _ => injection E as; subst
    end; simpl in *; (split_and!; [first [assumption | exact He]|auto|lia|done]).
Qed.

Lemma after_drop_equipped now1 now2 env conf t s r t' s' :
  after_drop now1 now2 env conf t s = (Ok (r, t'), s') -> equipped s.1 -> equipped s'.1.
Proof.
  unfold after_drop. intros E. apply bind_Ok_inv in E as (b & s1 & [= <- <-] & E).
  destruct (redial_due _ _ _); [|by injection E as <- <- <-].
  destruct (redialDestination env conf false s) as [[[]|e|w] s2] eqn:Er; [| |done];
    injection E as <- <- <-; by apply (redial_equipped _ _ _ _ _ _ Er).
Qed.

Lemma timeout_flags conf c p t tpc lb tpc' t' c' p' :
  timeout_step conf tpc t (c, p) lb tpc' t' (c', p') -> equipped c ->
  equipped c' /\ stop c' = stop c /\
  isStopped c' - running_timeout tpc' = isStopped c - running_timeout tpc /\ tpc <> TExited.
Proof.
  intros Hst He. inversion Hst; subst; simpl in *.
  - split_and!; done || lia.
  - rename select (done _ = _) into E. apply done_inv in E as [[= -> ->] _].
    split_and!; try done; simpl.
    + destruct_or!; destruct_and?; subst; simpl; lia.
    + destruct_or!; destruct_and?; by subst.
  - split_and!; done || lia.
  - split_and!; done || lia.
  - split_and!; done || lia.
  - rename select (timeout_turn _ _ _ = _) into E. apply timeout_turn_inv in E.
    destruct E as (ts & m & _ & _ & _ & _ & [= -> ->]). split_and!; done || (simpl; lia).
  - rename select (timeout_turn _ _ _ = _) into E. apply timeout_turn_inv in E.
    destruct E as (ts & _ & _ & _ & [= -> ->]). split_and!; done || (simpl; lia).
  - rename select (timeout_turn _ _ _ = _) into E. apply timeout_turn_inv in E.
    destruct E as (_ & _ & [= -> ->]). split_and!; try done. case_decide; simpl; lia.
  - rename select (after_drop _ _ _ _ _ _ = _) into E.
    pose proof (after_drop_equipped _ _ _ _ _ _ _ _ _ E He) as He'.
    apply after_drop_inv in E as (_ & [= _ _ _ Es Ei _] & _). simpl in *.
    split_and!; try done; lia.
Qed.

Lemma reader_flags c p b rd lb rd' b' c' p' :
  reader_step rd b (c, p) lb rd' b' (c', p') -> equipped c ->
  equipped c' /\ stop c' = stop c /\
  isStopped c' - running_reader rd' = isStopped c - running_reader rd /\ rd <> RExited.
Proof.
  intros Hst He. inversion Hst; subst; simpl in *.
  - split_and!; done || lia.
  - rename select (done _ = _) into E. apply done_inv in E as [[= -> ->] _].
    split_and!; try done. simpl. lia.
  - split_and!; done || lia.
  - rename select (SocketRead_datagram _ _ _ _ = _) into E.
    destruct He as [Hh Hc].
    pose proof (within_inv _ _ _ _ _ (SocketRead_datagram_handles _ _ _) E Hh) as Hh'.
    pose proof (within_inv _ _ _ _ _ (SocketRead_datagram_connection _ _ _) E Hc) as Hc'.
    apply SocketRead_datagram_flags in E. injection E as Ei Es. simpl in *.
    split_and!; done || lia.
Qed.

Lemma started_ok conf c q : set_up conf c q -> world_ok (started c q conf).
Proof.
  intros Hu. pose proof (set_up_unused _ _ _ Hu) as (_ & Hi & _).
  destruct (set_up_spec _ _ _ Hu) as (c0 & _ & _ & Hh & Hk & _). split; simpl; done.
Qed.

Lemma own_ok w lb w' : own_step w lb w' -> world_ok w -> world_ok w' /\ w_td w' = w_td w.
Proof.
  intros Hst [He Hr Hs]. unfold running in *.
  destruct Hst as [c p conf x tpc t rd b td lb x' c' p' Hst|c p conf x tpc t rd b td lb tpc' t' c' p' Hst
    |c p conf x tpc t rd b td lb rd' b' c' p' Hst]; simpl in *.
  1: apply sender_flags in Hst as (He' & Es & Ei & _); [|done].
  2: apply timeout_flags in Hst as (He' & Es & Ei & _); [|done].
  3: apply reader_flags in Hst as (He' & Es & Ei & _); [|done].
  all: split; [split; unfold running; simpl in *; [done|lia|by rewrite Es]|done].
Qed.

Lemma alone_ok w lb w' : alone_step w lb w' -> world_ok w -> world_ok w'.
Proof.
  intros Hst Hok. destruct Hst.
  1-3: eapply own_ok; [|exact Hok]; by econstructor.
  all: destruct Hok as [[He Hc] Hr Hs]; unfold running in *; simpl in *.
  - rename select (TearDownConnection_begin _ = _) into E.
    apply TearDownConnection_begin_inv in E as (k & m & _ & _ & [= -> ->]).
    by split.
  - rename select (TearDownConnection_end _ = _) into E. injection E as <- <-.
    split; simpl; [done|done|]. intros _. by apply Hs.
  - by split.
  - by split.
Qed.

Lemma run_ok conf c q ls w : set_up conf c q -> steps alone_step (started c q conf) ls w -> world_ok w.
Proof.
  intros Hu Hr. eapply (steps_invariant alone_step world_ok); [by apply (started_ok conf)| |exact Hr].
  intros. by eapply alone_ok.
Qed.

(** ** Progress after the stop flag is raised *)

(** Steps left to the exit of each goroutine once [stop] is set. *)
Definition sender_left (x : sender) (n : Z) : nat :=
  match s_pc x with
  | SStart => 14
  | SDummy k => k + 3
  | SLoop => 1
  | SSend tg => 2 + 7 * Z.to_nat (tg - n)
  | SReady tg _ => 8 + 7 * Z.to_nat (tg - n)
  | SInserted tg => 7 + 7 * Z.to_nat (tg - n)
  | SWriteFailed tg => 6 + 7 * Z.to_nat (tg - n)
  | SFailCount tg | SSentCount tg => 5 + 7 * Z.to_nat (tg - n)
  | SFailTotal tg | SSentTotal tg => 4 + 7 * Z.to_nat (tg - n)
  | SExited => 0
  end%nat.
Definition timeout_left (pc : timeout_pc) : nat :=
  match pc with TStart => 5 | TLocked => 4 | TAfterDrop => 3 | TInner => 2 | THead => 1 | TExited => 0 end.
Definition reader_left (pc : reader_pc) : nat :=
  match pc with RReading => 2 | RHead => 1 | RExited => 0 end.
Definition left (w : world) : nat :=
  (sender_left (w_snd w) (packetSequence (w_c w)) + timeout_left (w_tpc w) + reader_left (w_rd w))%nat.

Lemma sender_left_decreases conf x c p lb x' c' p' tpc t rd b td :
  sender_step conf x (c, p) lb x' (c', p') -> stop c = true ->
  sane (mkWorld c p conf x tpc t rd b td) ->
  (sender_left x' (packetSequence c') < sender_left x (packetSequence c))%nat.
Proof.
  intros Hst Hs [S1 S2 _]. destruct x as [pc len base st pa].
  inversion Hst; subst; unfold add_pending, drop_pending, upd, modify in *; simpl in *; subst;
    repeat match goal with
    | E : done _ = _ |- _ => apply done_inv in E as [E _]; simpl in E
    | E : Inc _ _ = _ |- _ => apply Inc_inv in E as (? & _ & E); simpl in E
    | E : next_packet _ = _ |- _ => apply next_packet_inv in E as [-> E]
    | E : (_, _) = (_, _) |- _ => injection E as; subst
    end; try (exfalso; congruence); unfold sender_left; simpl in *; try lia.
  - destruct (dummy_packet _ _ _ _) as [[]|]; lia.
  - specialize (S2 _ eq_refl). unfold add64. rewrite wrap64_id by (unfold in64; lia). lia.
  - specialize (S2 _ eq_refl). unfold add64. rewrite wrap64_id by (unfold in64; lia). lia.
Qed.

(** Only the sender numbers packets, and nobody changes the header length. *)
Lemma timeout_keeps conf c p t tpc lb tpc' t' c' p' :
  timeout_step conf tpc t (c, p) lb tpc' t' (c', p') ->
  packetSequence c' = packetSequence c /\ msgHeaderLength c' = msgHeaderLength c.
Proof.
  intros Hst. inversion Hst; subst; try done.
  - rename select (done _ = _) into E. by apply done_inv in E as [[= -> ->] _].
  - rename select (timeout_turn _ _ _ = _) into E. apply timeout_turn_inv in E.
    by destruct E as (ts & m & _ & _ & _ & _ & [= -> ->]).
  - rename select (timeout_turn _ _ _ = _) into E. apply timeout_turn_inv in E.
    by destruct E as (ts & _ & _ & _ & [= -> ->]).
  - rename select (timeout_turn _ _ _ = _) into E. apply timeout_turn_inv in E.
    by destruct E as (_ & _ & [= -> ->]).
  - rename select (after_drop _ _ _ _ _ _ = _) into E.
    by apply after_drop_inv in E as (_ & [= E _ _ _ _ Eh] & _).
Qed.

Lemma reader_keeps c p b rd lb rd' b' c' p' :
  reader_step rd b (c, p) lb rd' b' (c', p') ->
  packetSequence c' = packetSequence c /\ msgHeaderLength c' = msgHeaderLength c.
Proof.
  intros Hst. inversion Hst; subst; try done.
  - rename select (done _ = _) into E. by apply done_inv in E as [[= -> ->] _].
  - rename select (SocketRead_datagram _ _ _ _ = _) into E. apply SocketRead_datagram_inv in E.
    destruct r as [k|]; [|by injection E as -> ->].
    by destruct E as (_ & _ & rtt & [= E _ _ _ _ Eh]).
Qed.

Lemma timeout_left_decreases conf c p t tpc lb tpc' t' c' p' :
  timeout_step conf tpc t (c, p) lb tpc' t' (c', p') -> stop c = true ->
  (timeout_left tpc' < timeout_left tpc)%nat.
Proof.
  intros Hst Hs. inversion Hst; subst; simpl in *; try (exfalso; congruence); try lia.
  - destruct_or!; destruct_and?; subst; simpl; lia.
  - case_decide; simpl; lia.
Qed.

Lemma reader_left_decreases c p b rd lb rd' b' c' p' :
  reader_step rd b (c, p) lb rd' b' (c', p') -> stop c = true ->
  (reader_left rd' < reader_left rd)%nat.
Proof. intros Hst Hs. inversion Hst; subst; simpl in *; try (exfalso; congruence); lia. Qed.

Lemma own_decreases w lb w' :
  own_step w lb w' -> stop (w_c w) = true -> sane w -> (left w' < left w)%nat.
Proof.
  intros Hst Hs S. unfold left. destruct Hst; simpl in *.
  - pose proof (sender_left_decreases _ _ _ _ _ _ _ _ _ _ _ _ _ ltac:(eassumption) Hs S). lia.
  - rename select (timeout_step _ _ _ _ _ _ _ _) into Hst.
    pose proof (timeout_left_decreases _ _ _ _ _ _ _ _ _ _ Hst Hs).
    destruct (timeout_keeps _ _ _ _ _ _ _ _ _ _ Hst) as [-> _]. lia.
  - rename select (reader_step _ _ _ _ _ _ _) into Hst.
    pose proof (reader_left_decreases _ _ _ _ _ _ _ _ _ Hst Hs).
    destruct (reader_keeps _ _ _ _ _ _ _ _ _ Hst) as [-> _]. lia.
Qed.

(** A name service that answers nothing: redials made under it give up. *)
Definition down : NetEnv :=
  mkNetEnv (fun _ => inl "no such host") (fun _ => inl "down") (fun _ _ => inl "down") (fun _ _ => None).

Lemma after_drop_down conf t s :
  exists r t', after_drop 0 0 down conf t s = (Ok (r, t'), s).
Proof.
  unfold after_drop. erewrite bind_Ok by reflexivity.
  destruct (redial_due _ _ _); [|by do 2 eexists].
  unfold redialDestination. erewrite bind_Ok by reflexivity. simpl. by do 2 eexists.
Qed.

(** A read returns when the socket it waits on has been closed, or when
    something arrives; in a step without aid it is not the latter. *)
Definition unaided (w : world) (lb : label) (w' : world) : Prop :=
  own_step w lb w' /\ (w_rd w = RReading -> w_rd w' = RReading \/ conn_open (w_c w) = false).

(** Both other goroutines have gone, and the reader waits for a socket that nobody will close. *)
Definition blocked (w : world) : Prop :=
  s_pc (w_snd w) = SExited /\ w_tpc w = TExited /\ w_rd w = RReading /\ conn_open (w_c w) = true.

Lemma reader_progress c p b rd :
  stop c = true -> 1 <= isStopped c -> rd <> RExited ->
  exists rd' c', reader_step rd b (c, p) LTau rd' b (c', p) /\ connection c' = connection c.
Proof.
  intros Hs Hi Hrd. destruct rd; [| |done].
  - exists RExited, (set_isStopped (isStopped c - 1) c). split; [|done].
    apply rd_stop; [done|]. by apply done_Ok.
  - exists RHead, c. split; [apply rd_error|done].
Qed.

(** The locked part of the handler returns. *)
Lemma timeout_turn_returns now t c p :
  equipped c -> exists tn t' c' p', timeout_turn now t (c, p) = (Ok (tn, t'), (c', p')).
Proof.
  intros [(_ & _ & _ & _ & [m Hm] & _) _]. unfold timeout_turn. erewrite bind_Ok by reflexivity. simpl.
  destruct (pending c !! seq t); [|by do 4 eexists].
  destruct (_ <? _); [|by do 4 eexists]. erewrite bind_Ok by (by apply (Inc_Some _ (c, p) m)).
  by do 4 eexists.
Qed.

Lemma timeout_progress conf c p t tpc :
  stop c = true -> 1 <= isStopped c -> equipped c -> tpc <> TExited ->
  exists lb tpc' t' c' p', timeout_step conf tpc t (c, p) lb tpc' t' (c', p') /\
    connection c' = connection c.
Proof.
  intros Hs Hi He Htpc. pose proof (done_Ok (c, p) Hi) as Hd. destruct tpc; [| | | | |done].
  - do 5 eexists. split; [apply tmo_start|done].
  - do 5 eexists. split; [apply tmo_stop; [by left|done|exact Hd]|done].
  - destruct (decide (seq t < packetSequence c)).
    + do 5 eexists. split; [apply tmo_stop; [by right|done|exact Hd]|done].
    + do 5 eexists. split; [apply tmo_round_done; lia|done].
  - destruct (timeout_turn_returns 0 t c p He) as (tn & t' & c' & p' & E).
    pose proof (timeout_turn_inv _ _ _ _ _ _ E) as Hinv.
    destruct tn; do 5 eexists; (split; [by econstructor|]).
    + by destruct Hinv as (ts & m & _ & _ & _ & _ & [= -> ->]).
    + by destruct Hinv as (ts & _ & _ & _ & [= -> ->]).
    + by destruct Hinv as (_ & _ & [= -> ->]).
  - destruct (after_drop_down conf t (c, p)) as (r & t' & E).
    do 5 eexists. split; [by eapply tmo_after_drop|done].
Qed.

(** The goroutine's own preparations cannot panic; see [StartPackets_prepare]. *)
Definition startable (conf : config) (c : udpStream) : Prop :=
  is_panic (StartPackets_prepare conf (msgHeaderLength c)) = false.

Lemma sender_progress conf c p x :
  stop c = true -> 1 <= isStopped c -> equipped c -> s_pc x <> SExited ->
  (s_pc x = SStart -> startable conf c) ->
  exists lb x' c' p', sender_step conf x (c, p) lb x' (c', p') /\ connection c' = connection c.
Proof.
  intros Hs Hi [(Ht & Hm1 & Hm2 & _) Hc] Hx Hst. pose proof (done_Ok (c, p) Hi) as Hd.
  destruct Ht as [mt Hmt], Hm1 as [m1 Hm1], Hm2 as [m2 Hm2].
  destruct x as [pc len base st pa]; simpl in *. destruct pc as [|[|n]| |tg|tg ts|tg|tg|tg|tg|tg|tg|]; [..|done].
  - specialize (Hst eq_refl). unfold startable in Hst.
    destruct (StartPackets_prepare conf (msgHeaderLength c)) as [prep|e|w] eqn:E; [| |done].
    + destruct (dummy_packet 0 conf (payload prep) (TrafficScenario (pair c))) as [[d|]|] eqn:Ed;
        do 4 eexists; (split; [apply (snd_start _ _ _ _ 0 0 prep); [done|done|by rewrite Ed; try lia]|done]).
    + do 4 eexists. split; [eapply snd_start_fails; [done|exact E|exact Hd|]|].
      * by apply (Inc_Some _ (set_isStopped _ c, p) mt).
      * done.
  - do 4 eexists. split; [by apply snd_dummy_done|done].
  - do 4 eexists. split; [by eapply snd_dummy_write_fails|done].
  - do 4 eexists. split; [by apply snd_stop|done].
  - destruct (decide (packetSequence c < tg)).
    + destruct (packet_bytes len (add64 (packetSequence c) 1) 0 base) eqn:Eb.
      * do 4 eexists. split; [by eapply (snd_number _ (mkSender _ _ _ _ _) _ _ tg 0)|done].
      * do 4 eexists. split; [by eapply (snd_encode_fails _ (mkSender _ _ _ _ _) _ _ tg 0)|done].
    + do 4 eexists. split; [apply (snd_inner_done _ _ _ _ tg); [done|lia]|done].
  - do 4 eexists. split; [by eapply snd_insert|done].
  - do 4 eexists. split; [by apply (snd_write_fails _ _ _ _ tg)|done].
  - do 4 eexists. split; [by eapply snd_delete|done].
  - do 4 eexists. split; [eapply snd_fail_count; [done|by apply (Inc_Some _ (c, p) m2)]|done].
  - do 4 eexists. split; [by eapply snd_fail_total|done].
  - do 4 eexists. split; [eapply snd_sent_count; [done|by apply (Inc_Some _ (c, p) m1)]|done].
  - do 4 eexists. split; [by eapply snd_sent_total|done].
Qed.

(** The sender and the timeout handler need nobody. *)
Lemma busy_progress w :
  world_ok w -> stop (w_c w) = true -> s_pc (w_snd w) <> SExited \/ w_tpc w <> TExited ->
  (s_pc (w_snd w) = SStart -> startable (w_conf w) (w_c w)) ->
  exists lb w', unaided w lb w' /\ w_rd w' = w_rd w /\ connection (w_c w') = connection (w_c w).
Proof.
  intros [He Hi _] Hs Hb Hst. destruct w as [c p conf x tpc t rd b td]; simpl in *.
  assert (0 <= running_sender (s_pc x) /\ 0 <= running_timeout tpc /\ 0 <= running_reader rd)
    by (unfold running_sender, running_timeout, running_reader; repeat case_match; lia).
  assert (tpc = TExited \/ tpc <> TExited) as [-> | Ht] by (destruct tpc; auto).
  - assert (s_pc x <> SExited) as Hx by naive_solver.
    assert (running_sender (s_pc x) = 1) as Hr by by destruct (s_pc x).
    destruct (sender_progress conf c p x Hs) as (lb & x' & c' & p' & Hx' & Hc); [|done..|].
    { unfold running in Hi. simpl in Hi. lia. }
    do 2 eexists. split_and!; [split; [by eapply own_sender|by left]|done|done].
  - assert (running_timeout tpc = 1) as Hr by by destruct tpc.
    destruct (timeout_progress conf c p t tpc Hs) as (lb & tpc' & t' & c' & p' & Hx & Hc); [|done..|].
    { unfold running in Hi. simpl in Hi. lia. }
    do 2 eexists. split_and!; [split; [by eapply own_timeout|by left]|done|done].
Qed.

Lemma running_split w :
  running w = 0 \/ (s_pc (w_snd w) <> SExited \/ w_tpc w <> TExited) \/
  s_pc (w_snd w) = SExited /\ w_tpc w = TExited /\ w_rd w <> RExited /\ running w = 1.
Proof.
  unfold running. destruct w as [c p conf [pc len base st pa] tpc t rd b td]; simpl.
  destruct pc; [naive_solver..|]. destruct tpc; [naive_solver..|]. destruct rd; naive_solver.
Qed.

Lemma own_progress w :
  world_ok w -> stop (w_c w) = true -> 0 < running w -> ~ blocked w ->
  (s_pc (w_snd w) = SStart -> startable (w_conf w) (w_c w)) ->
  exists lb w', unaided w lb w' /\ connection (w_c w') = connection (w_c w).
Proof.
  intros Hok Hs Hr Hb Hst. destruct (running_split w) as [E|[E|(E1 & E2 & E3 & E)]]; [lia| |].
  - destruct (busy_progress w Hok Hs E Hst) as (lb & w' & Hw & _ & Hc). eauto.
  - destruct Hok as [He Hi _]. destruct w as [c p conf x tpc t rd b td]; simpl in *.
    assert (rd = RReading -> conn_open c = false) as Hcl.
    { intros ->. apply not_true_is_false. intros Ho. by apply Hb. }
    destruct (reader_progress c p b rd Hs) as (rd' & c' & Hx & Hc); [lia|done|].
    do 2 eexists. split; [split; [by eapply own_reader|]|done]. simpl. intros ->. right. by apply Hcl.
Qed.

Lemma started_startable w lb w' :
  own_step w lb w' -> (s_pc (w_snd w) = SStart -> startable (w_conf w) (w_c w)) ->
  (s_pc (w_snd w') = SStart -> startable (w_conf w') (w_c w')).
Proof.
  intros Hst Hp. destruct Hst as [c p conf x tpc t rd b td lb x' c' p' Hst|
    c p conf x tpc t rd b td lb tpc' t' c' p' Hst|c p conf x tpc t rd b td lb rd' b' c' p' Hst]; simpl in *.
  - intros E. exfalso. destruct x as [pc len base st pa].
    inversion Hst; subst; simpl in *; congruence.
  - intros E. specialize (Hp E). unfold startable in *. by destruct (timeout_keeps _ _ _ _ _ _ _ _ _ _ Hst) as [_ ->].
  - intros E. specialize (Hp E). unfold startable in *. by destruct (reader_keeps _ _ _ _ _ _ _ _ _ Hst) as [_ ->].
Qed.

Lemma own_sane w lb w' : own_step w lb w' -> sane w -> sane w'.
Proof. intros Hst S. by apply (alone_refines _ _ _ (own_step_step _ _ _ Hst)). Qed.

Lemma own_stop w lb w' : own_step w lb w' -> equipped (w_c w) -> stop (w_c w') = stop (w_c w).
Proof.
  intros Hst He. destruct Hst as [c p conf x tpc t rd b td lb x' c' p' Hst|
    c p conf x tpc t rd b td lb tpc' t' c' p' Hst|c p conf x tpc t rd b td lb rd' b' c' p' Hst]; simpl in *.
  - by apply sender_flags in Hst as (_ & Es & _).
  - by apply timeout_flags in Hst as (_ & Es & _).
  - by apply reader_flags in Hst as (_ & Es & _).
Qed.

(** From any state with the stop flag raised the sender and the timeout
    handler can exit, and all three if the connection is closed. *)
Lemma exit_while (Q : world -> Prop) n w :
  (forall w, world_ok w -> stop (w_c w) = true -> (s_pc (w_snd w) = SStart -> startable (w_conf w) (w_c w)) ->
     Q w \/ exists lb w', unaided w lb w' /\ connection (w_c w') = connection (w_c w) /\ 
       (w_rd w' = w_rd w \/ conn_open (w_c w) = false)) ->
  (left w <= n)%nat -> world_ok w -> sane w -> stop (w_c w) = true ->
  (s_pc (w_snd w) = SStart -> startable (w_conf w) (w_c w)) ->
  exists ls w', steps unaided w ls w' /\ Q w' /\ w_td w' = w_td w /\
    connection (w_c w') = connection (w_c w) /\ world_ok w' /\ sane w' /\ stop (w_c w') = true /\
    (w_rd w' = w_rd w \/ conn_open (w_c w) = false).
Proof.
  intros Hprog. revert w. induction n as [|n IH]; intros w Hn Hok S Hs Hst;
    (destruct (Hprog w Hok Hs Hst) as [E|(lb & w1 & Hw & Hc & Hrd)];
      [exists [], w; split_and!; [constructor|done..|by left]|]);
    pose proof (own_decreases _ _ _ (proj1 Hw) Hs S) as Hlt; [lia|].
  destruct (own_ok _ _ _ (proj1 Hw) Hok) as [Hok1 Htd].
  destruct (IH w1) as (ls & w2 & Hr2 & E2 & Htd2 & Hc2 & Hok2 & S2 & Hs2 & Hrd2);
    [lia|done|by eapply own_sane, S; apply Hw| | |].
  - rewrite (own_stop _ _ _ (proj1 Hw)); [done|apply Hok].
  - eapply started_startable; [apply Hw|done].
  - exists (lb :: ls), w2. split_and!; try done; [by econstructor|congruence|congruence|].
    destruct Hrd as [Hrd|]; [|by right]. destruct Hrd2 as [Hrd2|Ho]; [left; congruence|right].
    unfold conn_open in *. by rewrite <- Hc.
Qed.

Lemma own_exit w :
  world_ok w -> sane w -> stop (w_c w) = true -> conn_open (w_c w) = false ->
  (s_pc (w_snd w) = SStart -> startable (w_conf w) (w_c w)) ->
  exists ls w', steps unaided w ls w' /\ running w' = 0 /\ w_td w' = w_td w /\
    connection (w_c w') = connection (w_c w) /\ world_ok w' /\ sane w'.
Proof.
  intros Hok S Hs Ho Hst.
  destruct (exit_while (fun w' => conn_open (w_c w') = true \/ running w' = 0) (left w) w) as
    (ls & w' & Hr & E & Htd & Hc & Hok' & S' & _); try done.
  - intros w1 Hok1 Hs1 Hst1. destruct (conn_open (w_c w1)) eqn:Ho1; [by left; left|].
    destruct (decide (running w1 = 0)) as [E|E]; [by left; right|right].
    destruct (own_progress w1) as (lb & w2 & Hw & Hc); [done|done| | |done|by exists lb, w2; auto].
    + unfold running, running_sender, running_timeout, running_reader in *. repeat case_match; lia.
    + intros (_ & _ & _ & Ht). congruence.
  - exists ls, w'. split_and!; try done. destruct E as [E|E]; [|done].
    unfold conn_open in *. rewrite Hc in E. congruence.
Qed.

Lemma busy_exit w :
  world_ok w -> sane w -> stop (w_c w) = true ->
  (s_pc (w_snd w) = SStart -> startable (w_conf w) (w_c w)) ->
  conn_open (w_c w) = true -> w_rd w = RReading ->
  exists ls w', steps unaided w ls w' /\ blocked w' /\ w_td w' = w_td w /\ world_ok w'.
Proof.
  intros Hok S Hs Hst Ho Hrd.
  destruct (exit_while (fun w' => s_pc (w_snd w') = SExited /\ w_tpc w' = TExited) (left w) w) as
    (ls & w' & Hr & [E1 E2] & Htd & Hc & Hok' & _ & _ & Hrd'); try done.
  - intros w1 Hok1 Hs1 Hst1.
    destruct (running_split w1) as [E|[E|(E1 & E2 & _)]]; [| |by left].
    + left. unfold running in E. destruct (s_pc (w_snd w1)), (w_tpc w1); simpl in E; try done;
        unfold running_reader in E; case_match; lia.
    + right. destruct (busy_progress w1 Hok1 Hs1 E Hst1) as (lb & w2 & Hw & Hr2 & Hc2). exists lb, w2. auto.
  - exists ls, w'. split_and!; [done| |done|done]. split_and!; [done|done| |].
    + destruct Hrd' as [->|]; [done|congruence].
    + unfold conn_open in *. by rewrite Hc.
Qed.
End Inv.
