(* ===== verification/TGenShared.v ===== *)
(** * A stream whose pair others use too (lemmas)

    What is left of the invariants of a stream when others write its pair:
    everything that does not depend on the requests pending there. *)
From S2P Require Import Prelude GoInt Metrics Message Net Pair TApp TGen TGenStep TGenProofs Ledger TGenRefine TGenInv.
Import tgen stream.

Section Shared.
Context `{Msgpack} `{PromLib}.

(** The stream [createNetBatTgenClients] starts, whatever the others have put
    in its pair between the two parts of the set-up. *)
Inductive connected (conf : config) (c : udpStream) (q : prom) : Prop :=
| connected_intro a p n b conf0 env c0 q0 c1 q1 q2 :
    CreateClient a p n = Ok c0 ->
    SetupConnection_begin conf0 (c0, q0) = (Ok tt, (c1, q1)) ->
    SetupConnection_end env conf (set_pair b c1, q2) = (Ok tt, (c, q)) -> connected conf c q.

Lemma set_pair_same c : set_pair (pair c) c = c.
Proof. by destruct c. Qed.

Lemma set_up_connected conf c q : set_up conf c q -> connected conf c q.
Proof.
  intros [a p n conf0 env c0 q0 c1 q1 q2 Hc _ Hb He]. rewrite <- (set_pair_same c1) in He.
  by eapply connected_intro.
Qed.

(** As a new stream is, but for the pair. *)
Definition unmoved (c : udpStream) : Prop :=
  packetSequence c = 0 /\ vals c = mkTotals 0 0 0 0 0 /\ isStopped c = 3 /\ stop c = false.

Lemma connected_spec conf c q :
  connected conf c q -> unmoved c /\ equipped c.
Proof.
  intros [a p n b conf0 env c0 q0 c1 q1 q2 Hc Hb He].
  assert (unmoved c0) as (U1 & U2 & U3 & U4).
  { revert Hc. unfold CreateClient, newStream. destruct GetMessageHeaderLength; [|done..]. by intros [= <-]. }
  apply SetupConnection_begin_inv in Hb as (Hm & _ & Hc1).
  destruct (SetupConnection_end_inv _ _ _ _ _ He Hm) as (Hh & Hk & Hc2).
  unfold same_core, core in *. simpl in *. injection Hc1 as E1 _ E2 E3 E4 _. injection Hc2 as F1 _ F2 F3 F4 _.
  split; [|done]. unfold unmoved. rewrite <- F1, <- F2, <- F3, <- F4, <- E1, <- E2, <- E3, <- E4. done.
Qed.

Lemma connected_ok conf c q : connected conf c q -> world_ok (started c q conf).
Proof. intros [(_ & _ & Hi & Hs) He]%connected_spec. split; simpl; [done|unfold running; simpl; lia|done]. Qed.

Lemma connected_sane conf c q : connected conf c q -> sane (started c q conf).
Proof. intros [(Hi & _) _]%connected_spec. split; simpl; [lia|done|done]. Qed.

(** Where the pair is, and what of it the stream only reads. *)
Definition fixed (c : udpStream) :=
  (pairAt c, pair_Source (pair c), TrafficProfile (pair c), TrafficScenario (pair c), ClientConnection (pair c)).
Definition same_fixed (c c' : udpStream) : Prop := fixed c = fixed c'.
#[global] Instance same_fixed_preorder : PreOrder same_fixed.
Proof. unfold same_fixed. split; congruence. Qed.

Lemma registerStreamMetrics_fixed : within same_fixed registerStreamMetrics.
Proof.
  unfold registerStreamMetrics, registerCounter, registerSummary, registerMetric. within_walk; reflexivity.
Qed.
Lemma deRegisterStreamMetrics_fixed : within same_fixed deRegisterStreamMetrics.
Proof. unfold deRegisterStreamMetrics. within_walk. Qed.
Lemma SetupConnection_begin_fixed conf : within same_fixed (SetupConnection_begin conf).
Proof. unfold SetupConnection_begin, newTrafficNotStarted. within_walk; try apply within_recover; within_walk; reflexivity. Qed.
Lemma SetupConnection_end_fixed env conf : within same_fixed (SetupConnection_end env conf).
Proof.
  pose proof registerStreamMetrics_fixed. unfold SetupConnection_end, SetupConnection_body, orNotStarted.
  apply within_recover. within_walk; reflexivity.
Qed.
Lemma SetupConnection_fixed env conf : within same_fixed (SetupConnection env conf).
Proof.
  intros s. rewrite SetupConnection_parts. revert s. change (within same_fixed (bind (SetupConnection_begin conf) (fun _ => SetupConnection_end env conf))).
  apply within_bind; [apply _|apply SetupConnection_begin_fixed|]. intros _. apply SetupConnection_end_fixed.
Qed.
Lemma TearDownConnection_begin_fixed : within same_fixed TearDownConnection_begin.
Proof. unfold TearDownConnection_begin, deref. within_walk; reflexivity. Qed.
Lemma redialDestination_fixed env conf force : within same_fixed (redialDestination env conf force).
Proof. unfold redialDestination, deref. within_walk; reflexivity. Qed.
Lemma after_drop_fixed now1 now2 env conf t : within same_fixed (after_drop now1 now2 env conf t).
Proof.
  unfold after_drop. apply within_bind; [apply _|apply within_get; apply _|]. intros isDN.
  destruct (redial_due _ _ _); [|within_walk]. intros s.
  pose proof (redialDestination_fixed env conf false s) as Hx. by destruct (redialDestination env conf false s) as [[]].
Qed.
Lemma timeout_turn_fixed now t : within same_fixed (timeout_turn now t).
Proof. unfold timeout_turn. within_walk; reflexivity. Qed.
Lemma SocketRead_datagram_fixed now data buf : within same_fixed (SocketRead_datagram now data buf).
Proof.
  pose proof registerStreamMetrics_fixed. pose proof deRegisterStreamMetrics_fixed.
  unfold SocketRead_datagram, handle_datagram, settle_reply, reRegisterStreamMetrics. within_walk; reflexivity.
Qed.
Lemma done_fixed : within same_fixed done.
Proof. unfold done. within_walk; reflexivity. Qed.

Lemma fixed_out {A} (m : M A) s r s' : within same_fixed m -> m s = (r, s') -> fixed s'.1 = fixed s.1.
Proof. intros Hm E. specialize (Hm s). rewrite E in Hm. by symmetry. Qed.

Lemma own_step_fixed w lb w' : own_step w lb w' -> fixed (w_c w') = fixed (w_c w).
Proof.
  assert (forall ts, within same_fixed (add_pending ts)) as Ha by (intros; unfold add_pending; within_walk; reflexivity).
  assert (within same_fixed drop_pending) as Hd by (unfold drop_pending; within_walk; reflexivity).
  assert (within same_fixed next_packet) as Hn by (unfold next_packet; within_walk; reflexivity).
  assert (forall f, within same_fixed (Inc f)) as Hi by (intros; apply within_Inc; apply _).
  destruct 1 as [c p conf x tpc t rd b td lb x' c' p' Hst|c p conf x tpc t rd b td lb tpc' t' c' p' Hst
    |c p conf x tpc t rd b td lb rd' b' c' p' Hst]; simpl; inversion Hst; subst; try done;
    repeat match goal with
    | E : done _ = _ |- _ => apply (fixed_out _ _ _ _ done_fixed) in E
    | E : Inc _ _ = _ |- _ => apply (fixed_out _ _ _ _ (Hi _)) in E
    | E : add_pending _ _ = _ |- _ => apply (fixed_out _ _ _ _ (Ha _)) in E
    | E : drop_pending _ = _ |- _ => apply (fixed_out _ _ _ _ Hd) in E
    | E : next_packet _ = _ |- _ => apply (fixed_out _ _ _ _ Hn) in E
    | E : upd _ _ = _ |- _ => injection E as <- <-
    | E : redialDestination _ _ _ _ = _ |- _ => apply (fixed_out _ _ _ _ (redialDestination_fixed _ _ _)) in E
    | E : timeout_turn _ _ _ = _ |- _ => apply (fixed_out _ _ _ _ (timeout_turn_fixed _ _)) in E
    | E : after_drop _ _ _ _ _ _ = _ |- _ => apply (fixed_out _ _ _ _ (after_drop_fixed _ _ _ _ _)) in E
    | E : SocketRead_datagram _ _ _ _ = _ |- _ => apply (fixed_out _ _ _ _ (SocketRead_datagram_fixed _ _ _)) in E
    end; simpl in *; congruence || done.
Qed.

(** What others put in the pair changes none of that. *)
Lemma step_ok w lb w' : step w lb w' -> world_ok w -> world_ok w'.
Proof.
  intros [w1 lb1 w1' Hst|b w1]; [by eapply alone_ok|]. intros [[He Hc] Hr Hs]. split; [by split|done|done].
Qed.

Lemma step_sane w lb w' : step w lb w' -> sane w -> sane w'.
Proof.
  intros [w1 lb1 w1' Hst|b w1] S; [by apply (alone_refines _ _ _ Hst)|]. by destruct S.
Qed.

Lemma shared_ok conf c q ls w :
  connected conf c q -> steps step (started c q conf) ls w -> world_ok w /\ sane w.
Proof.
  intros Hc. apply (steps_invariant step (fun w => world_ok w /\ sane w)).
  - split; [by eapply connected_ok|by eapply connected_sane].
  - intros v lb v' [Ho S] Hst. split; [by eapply step_ok|by eapply step_sane].
Qed.

Lemma alone_steps w ls w' : steps alone_step w ls w' -> steps step w ls w'.
Proof. apply steps_sub. intros. by apply step_alone. Qed.

(** Sent and failed packets together are the sequence counter, but for the
    packet in the sender's hands, whoever else uses the map. *)
Lemma step_balance w lb w' :
  step w lb w' -> sane w ->
  (packetSequence (w_c w') <= 2 ^ 53 -> sent_balance (ledger_of w) -> sent_balance (ledger_of w')) /\
  packetSequence (w_c w) <= packetSequence (w_c w').
Proof.
  intros [w1 lb1 w1' Hst|b w1] S; [|done].
  destruct (alone_refines _ _ _ Hst S) as [Hl _]. pose proof (ledger_step_seq _ _ _ Hl) as Hle. simpl in Hle.
  split; [|lia]. intros Hn. eapply sent_balance_step; [done|]. simpl. lia.
Qed.

Lemma shared_sent_or_failed conf c q ls w :
  connected conf c q -> steps step (started c q conf) ls w -> packetSequence (w_c w) <= 2 ^ 53 ->
  packetSentVal (vals (w_c w)) + packetSendFailedVal (vals (w_c w)) +
    inflight (phase_of (s_pc (w_snd w))) = packetSequence (w_c w).
Proof.
  intros Hc Hr Hn. enough (sent_balance (ledger_of w)) as (_ & _ & E) by done.
  revert ls w Hr Hn. refine (steps_ind_r step _ (fun ls w => _ -> sent_balance (ledger_of w)) _ _).
  - intros _. apply connected_spec in Hc as ((E1 & E2 & _) & _). unfold ledger_of, started, sent_balance. simpl.
    by rewrite E1, E2.
  - intros ls w lb w' Hr IH Hst Hn. destruct (shared_ok _ _ _ _ _ Hc Hr) as [_ S].
    destruct (step_balance _ _ _ Hst S) as [Hb Hle]. apply Hb; [done|]. apply IH. lia.
Qed.
End Shared.
