(* ===== verification/TGenDemo.v ===== *)
(** * A concrete stream and a run of its goroutines

    Two packets are sent: the first is dropped after its timeout, the second
    is answered, by a server whose identity makes the client register its
    metrics again.  The witnesses of TGenTheorems use it. *)
From S2P Require Import Prelude GoInt Strconv Message Metrics Reference Net Pair TApp TAppTheorems TGen TGenStep TGenProofs Ledger TGenRefine.
Import tgen stream.

Definition demo_source : Source := mkSource "pod" "default" "client" "net1" "eth1" "10.10.10.1".
Definition demo_pair : BatPair :=
  mkBatPair demo_source (mkRemote false "server.local" "") "udp" "scenario" ∅ None.
Definition demo_conf : config := mkConfig 524288 500 100 5 5 false.

Definition demo_client : udpStream :=
  ok_or (mkStream 3 None None 0 demo_pair 0 0 0 false [] ∅ None
           (mkHandles None None None None None None) (mkTotals 0 0 0 0 0))
    (CreateClient 0 demo_pair 200).
Definition demo_setup : outcome unit * state :=
  SetupConnection ok_env demo_conf (demo_client, ref_prom0).
Definition demo_c : udpStream := demo_setup.2.1.
Definition demo_q : store.st := demo_setup.2.2.

Lemma demo_client_created : CreateClient 0 demo_pair 200 = Ok demo_client.
Proof. apply ok_or_eq. vm_compute. reflexivity. Qed.

(** Computations that return, as equations for their result and state. *)
Lemma run_value {A S T} (a : A) (r : outcome A * (S * T)) :
  r.1 = Ok a -> r = (Ok a, (r.2.1, r.2.2)).
Proof. destruct r as [o [s t]]. by intros <-. Qed.

Lemma run_unit {S T} (r : outcome unit * (S * T)) :
  is_ok r.1 = true -> r = (Ok tt, (r.2.1, r.2.2)).
Proof. destruct r as [[[]|e|w] [s t]]; done. Qed.

Lemma run_some {A B S T} (d : B) (a : A) (r : outcome (option A * B) * (S * T)) :
  is_ok r.1 = true -> (ok_or (None, d) r.1).1 = Some a ->
  r = (Ok (Some a, (ok_or (None, d) r.1).2), (r.2.1, r.2.2)).
Proof. destruct r as [[[o b]|e|w] [s t]]; simpl; try done. by intros _ ->. Qed.

Lemma demo_setup_ok : SetupConnection ok_env demo_conf (demo_client, ref_prom0) = (Ok tt, (demo_c, demo_q)).
Proof. unfold demo_c, demo_q, demo_setup. apply run_unit. vm_compute. reflexivity. Qed.

(** ** The run *)
Definition demo_prep : prepared :=
  ok_or (mkPrepared zero_Message [] [] 0) (StartPackets_prepare demo_conf 40).
Definition demo_len : Z := Length (baseMsg demo_prep).
Definition demo_bytes (k ts : Z) (base : list byte) : list byte :=
  default [] (packet_bytes demo_len k ts base).

Lemma demo_bytes_ok k ts base :
  is_Some (packet_bytes demo_len k ts base) ->
  packet_bytes demo_len k ts base = Some (demo_bytes k ts base).
Proof. intros [b Hb]. unfold demo_bytes. by rewrite Hb. Qed.

Definition demo_sender (pc : sender_pc) (base : list byte) : sender := mkSender pc demo_len base 1000 0.
Definition demo_base1 : list byte := demo_bytes 1 2000 (baseByteArr demo_prep).
Definition demo_base2 : list byte := demo_bytes 2 3000 demo_base1.

(** The reply to packet 2. *)
Definition demo_reply : list byte :=
  codec.enc_Message (mkMessage 2 3000 4000 (zlen (codec.enc_PodInfo demo_info)) 100) ++
  codec.enc_PodInfo demo_info.

(** The stream after packets 1 and 2 have been sent, and after the timeout of 1. *)
Definition demo_c1 : udpStream :=
  add_sent (set_pending (<[1 := 2000]> (pending demo_c)) (set_packetSequence 1 demo_c)).
Definition demo_c2 : udpStream :=
  add_sent (set_pending (<[2 := 3000]> (pending demo_c1)) (set_packetSequence 2 demo_c1)).
Definition demo_c3 : udpStream := set_pending (delete 1 (pending demo_c2)) (add_dropped demo_c2).

(** ** Pieces of runs *)
Section Pieces.
Context `{Msgpack} `{PromLib}.

(** A turn of the sender's inner loop that succeeds. *)
Lemma send_one c p conf tpc t rd b td target len base st pa ts k bytes m :
  packetSequence c < target -> in64 ts -> k = add64 (packetSequence c) 1 ->
  packet_bytes len k ts base = Some bytes -> conn_open c = true -> packetSent (hs c) = Some m ->
  steps alone_step (mkWorld c p conf (mkSender (SSend target) len base st pa) tpc t rd b td)
    [LTau; LTau; LSent k bytes; LTau; LTau]
    (mkWorld (add_sent (set_pending (<[k := ts]> (pending c)) (set_packetSequence k c)))
       (prom_inc m p) conf (mkSender (SSend target) len bytes st pa) tpc t rd b td).
Proof.
  intros Hlt Hts Hk Hb Ho Hm. set (c1 := set_packetSequence k c).
  set (c2 := set_pending (<[k := ts]> (pending c)) c1).
  set (W := fun c p pc b1 => mkWorld c p conf (mkSender pc len b1 st pa) tpc t rd b td).
  apply (steps_cons alone_step _ _ (W c1 p (SReady target ts) bytes)).
  { subst k. by apply step_sender,
      (snd_number conf (mkSender _ len base _ _) c p target ts (add64 (packetSequence c) 1) (c1, p) bytes). }
  apply (steps_cons alone_step _ _ (W c2 p (SInserted target) bytes)).
  { by apply step_sender, (snd_insert _ (mkSender _ _ _ _ _) _ target ts). }
  apply (steps_cons alone_step _ _ (W c2 p (SSentCount target) bytes)).
  { by apply step_sender, (snd_write conf (mkSender _ len bytes st pa) c2 p target). }
  apply (steps_cons alone_step _ _ (W c2 (prom_inc m p) (SSentTotal target) bytes)).
  { apply step_sender, (snd_sent_count _ (mkSender _ _ _ _ _) _ target); [done|].
    by apply (Inc_Some _ (c2, p) m). }
  by apply steps_one, step_sender, (snd_sent_total _ (mkSender _ _ _ _ _) _ target).
Qed.

(** A turn of the inner loop whose write fails, up to the removal of the request. *)
Lemma fail_one c p conf tpc t rd b td target len base st pa ts k bytes :
  packetSequence c < target -> in64 ts -> k = add64 (packetSequence c) 1 ->
  packet_bytes len k ts base = Some bytes ->
  steps alone_step (mkWorld c p conf (mkSender (SSend target) len base st pa) tpc t rd b td)
    [LTau; LTau; LFailed k]
    (mkWorld (set_pending (<[k := ts]> (pending c)) (set_packetSequence k c)) p conf
       (mkSender (SWriteFailed target) len bytes st pa) tpc t rd b td).
Proof.
  intros Hlt Hts Hk Hb. set (c1 := set_packetSequence k c).
  set (c2 := set_pending (<[k := ts]> (pending c)) c1).
  set (W := fun c pc b1 => mkWorld c p conf (mkSender pc len b1 st pa) tpc t rd b td).
  apply (steps_cons alone_step _ _ (W c1 (SReady target ts) bytes)).
  { subst k. by apply step_sender,
      (snd_number conf (mkSender _ len base _ _) c p target ts (add64 (packetSequence c) 1) (c1, p) bytes). }
  apply (steps_cons alone_step _ _ (W c2 (SInserted target) bytes)).
  { by apply step_sender, (snd_insert _ (mkSender _ _ _ _ _) _ target ts). }
  by apply steps_one, step_sender, (snd_write_fails conf (mkSender _ len bytes st pa) c2 p target).
Qed.

(** The timeout handler drops the packet under its cursor, without a redial. *)
Lemma drop_one c p conf x t rd b td now ts m :
  seq t < packetSequence c -> stop c = false -> pending c !! seq t = Some ts ->
  packetTimeoutinMicros t < sub64 now ts -> packetDropped (hs c) = Some m ->
  redial_due now (IsDN (destination c)) (count_timeout now (next_seq t)) = false ->
  steps alone_step (mkWorld c p conf x TInner t rd b td) [LTau; LDropped now (seq t); LTau]
    (mkWorld (set_pending (delete (seq t) (pending c)) (add_dropped c)) (prom_inc m p) conf x TInner
       (count_timeout now (next_seq t)) rd b td).
Proof.
  intros Hlt Hs Hp Ht Hm Hd.
  eapply steps_cons; [apply step_timeout; by apply tmo_next|].
  eapply steps_cons.
  { apply step_timeout. apply (tmo_dropped _ now _ (next_seq t)). unfold timeout_turn.
    erewrite bind_Ok by reflexivity. simpl. rewrite Hp, (proj2 (Z.ltb_lt _ _) Ht).
    by erewrite bind_Ok by (by apply (Inc_Some _ _ m)). }
  apply steps_one, step_timeout.
  apply (tmo_after_drop _ (mkNetEnv (fun _ => inl "") (fun _ => inl "") (fun _ _ => inl "") (fun _ _ => None))
           now now false).
  unfold after_drop. erewrite bind_Ok by reflexivity. simpl.
  change (IsDN (destination (set_pending _ (add_dropped c)))) with (IsDN (destination c)).
  by rewrite Hd.
Qed.
End Pieces.

(** ** The whole run *)
Definition demo_q1 : store.st := prom_inc 1%nat demo_q.
Definition demo_q2 : store.st := prom_inc 1%nat demo_q1.
Definition demo_q3 : store.st := prom_inc 4%nat demo_q2.
Definition demo_t0 : timeouts := mkTimeouts 0 0 0 1 0 0.
Definition demo_t1 : timeouts := timeouts_init demo_conf.
Definition demo_t2 : timeouts := count_timeout 5003000 (next_seq demo_t1).
Definition demo_buf : list byte := replicate (Z.to_nat (readBufferSize demo_c)) Byte.x00.
Definition demo_received : outcome (option Z * list byte) * state :=
  SocketRead_datagram 4000000 demo_reply demo_buf (demo_c3, demo_q3).
Definition demo_target : Z := targetSeq 10000 1000 0 500.

Definition demo_labels_sent : list label :=
  [LTau; LTau; LTau] ++ [LTau; LTau; LSent 1 demo_base1; LTau; LTau] ++
  [LTau; LTau; LSent 2 demo_base2; LTau; LTau].
Definition demo_labels_dropped : list label := [LTau; LTau] ++ [LTau; LDropped 5003000 1; LTau].
Definition demo_labels : list label :=
  demo_labels_sent ++ demo_labels_dropped ++ [LTau; LReceived 2].

Definition demo_w2 : world :=
  mkWorld demo_c2 demo_q2 demo_conf (demo_sender (SSend demo_target) demo_base2) TStart demo_t0 RHead
    demo_buf DIdle.
Definition demo_w3 : world :=
  mkWorld demo_c3 demo_q3 demo_conf (demo_sender (SSend demo_target) demo_base2) TInner demo_t2 RHead
    demo_buf DIdle.
Definition demo_w4 : world :=
  mkWorld demo_received.2.1 demo_received.2.2 demo_conf
    (demo_sender (SSend demo_target) demo_base2) TInner demo_t2 RHead
    (ok_or (None, []) demo_received.1).2 DIdle.

Lemma demo_sends : steps alone_step (started demo_c demo_q demo_conf) demo_labels_sent demo_w2.
Proof.
  set (W := fun pc base => mkWorld demo_c demo_q demo_conf (demo_sender pc base) TStart demo_t0 RHead
              demo_buf DIdle).
  pose proof (send_one demo_c demo_q demo_conf TStart demo_t0 RHead demo_buf DIdle demo_target demo_len
    (baseByteArr demo_prep) 1000 0 2000 1 demo_base1 1%nat) as H1.
  pose proof (send_one demo_c1 demo_q1 demo_conf TStart demo_t0 RHead demo_buf DIdle demo_target demo_len
    demo_base1 1000 0 3000 2 demo_base2 1%nat) as H2.
  unfold demo_labels_sent. apply (steps_app _ _ _ (W (SSend demo_target) (baseByteArr demo_prep))).
  { apply (steps_cons _ _ _ (W (SDummy 0) (baseByteArr demo_prep))).
    { apply step_sender.
      apply (snd_start demo_conf (mkSender SStart 0 [] 0 0) demo_c demo_q 1000 0 demo_prep); [done| |].
      - apply ok_or_eq. vm_compute. reflexivity.
      - vm_compute. reflexivity. }
    apply (steps_cons _ _ _ (W SLoop (baseByteArr demo_prep))).
    { by apply step_sender, (snd_dummy_done demo_conf (demo_sender (SDummy 0) (baseByteArr demo_prep))). }
    apply steps_one, step_sender.
    by apply (snd_target demo_conf (demo_sender SLoop (baseByteArr demo_prep)) demo_c demo_q 10000);
      [|now vm_compute|]. }
  apply (steps_app _ _ _ (mkWorld demo_c1 demo_q1 demo_conf
    (demo_sender (SSend demo_target) demo_base1) TStart demo_t0 RHead demo_buf DIdle)).
  - apply H1; [vm_compute; reflexivity|unfold in64; lia|vm_compute; reflexivity| |now vm_compute|now vm_compute].
    apply demo_bytes_ok. vm_compute. eexists. reflexivity.
  - apply H2; [vm_compute; reflexivity|unfold in64; lia|vm_compute; reflexivity| |now vm_compute|now vm_compute].
    apply demo_bytes_ok. vm_compute. eexists. reflexivity.
Qed.

Lemma demo_drops : steps alone_step demo_w2 demo_labels_dropped demo_w3.
Proof.
  set (W := fun tpc t => mkWorld demo_c2 demo_q2 demo_conf (demo_sender (SSend demo_target) demo_base2)
              tpc t RHead demo_buf DIdle).
  unfold demo_labels_dropped. apply (steps_app _ _ _ (W TInner demo_t1)).
  - apply (steps_cons _ _ _ (W THead demo_t1)).
    { apply step_timeout, tmo_start. }
    apply steps_one, step_timeout, tmo_enter. now vm_compute.
  - apply (drop_one demo_c2 demo_q2 demo_conf _ demo_t1 RHead demo_buf DIdle 5003000 2000 4%nat);
      [vm_compute; reflexivity|now vm_compute|vm_compute; reflexivity|vm_compute; reflexivity
      |now vm_compute|].
    vm_compute. reflexivity.
Qed.

Lemma demo_receives : steps alone_step demo_w3 [LTau; LReceived 2] demo_w4.
Proof.
  apply (steps_cons _ _ _ (mkWorld demo_c3 demo_q3 demo_conf (demo_sender (SSend demo_target) demo_base2)
           TInner demo_t2 RReading demo_buf DIdle)).
  { apply step_reader, rd_enter. now vm_compute. }
  apply steps_one. unfold demo_w4.
  assert (demo_received = (Ok (Some 2, (ok_or (None, []) demo_received.1).2),
                           (demo_received.2.1, demo_received.2.2))) as E.
  { apply run_some; vm_compute; reflexivity. }
  apply step_reader, (rd_datagram 4000000 demo_reply _ _ _ (Some 2)); [now vm_compute|exact E].
Qed.

Lemma stream_run : steps alone_step (started demo_c demo_q demo_conf) demo_labels demo_w4.
Proof.
  unfold demo_labels. eapply steps_app; [exact demo_sends|].
  eapply steps_app; [exact demo_drops|exact demo_receives].
Qed.
