(* ===== verification/TGenSetup.v ===== *)
(** * A stream that is torn down while it is set up (pkg/tgen/udp.go)

    [SetupConnection] runs in a goroutine of its own, without a lock, and
    resolves names on the way.  What a [TearDownConnection] that comes
    meanwhile does, and one that comes after a set-up that failed. *)
From S2P Require Import Prelude GoInt Message Metrics Reference Net Pair TApp TAppTheorems TGen TGenStep TGenProofs Ledger TGenRefine TGenInv TGenShared TGenDemo.
Import tgen stream.

Section Setup.
Context `{Msgpack} `{PromLib}.

(** A stream the goroutines of which run while nobody tears it down. *)
Definition busy (w : world) : Prop :=
  w_td w = DIdle -> stop (w_c w) = false /\ w_tpc w <> TExited /\ w_rd w <> RExited.

Lemma busy_step w lb w' : world_ok w -> busy w -> step w lb w' -> busy w'.
Proof.
  intros Hok Hb Hx. destruct Hx as [v lb' v' Hst|b v]; [|exact Hb]. destruct Hst; unfold busy in *; simpl in *; try done;
    intros Hd; specialize (Hb Hd) as (Hs & Ht & Hr); pose proof (ok_equipped _ Hok) as He; simpl in He.
  - rename select (sender_step _ _ _ _ _ _) into Hx. apply sender_flags in Hx as (_ & -> & _); done.
  - rename select (timeout_step _ _ _ _ _ _ _ _) into Hx.
    pose proof (timeout_flags _ _ _ _ _ _ _ _ _ _ Hx He) as (_ & -> & _).
    split_and!; [done| |done]. intros ->. inversion Hx; subst; try congruence. revert Hs. by case_decide.
  - rename select (reader_step _ _ _ _ _ _ _) into Hx.
    pose proof (reader_flags _ _ _ _ _ _ _ _ _ Hx He) as (_ & -> & _).
    split_and!; [done|done|]. intros ->. inversion Hx; subst; congruence.
Qed.

Lemma busy_run w0 ls w : world_ok w0 -> busy w0 -> steps step w0 ls w -> world_ok w /\ busy w.
Proof.
  intros Ho Hb. apply (steps_invariant step (fun w => world_ok w /\ busy w)); [done|].
  intros x lb y [Hx Hbx] Hst. split; [by eapply step_ok|by eapply busy_step].
Qed.

(** [TearDownConnection] up to its wait, by what it finds. *)
Lemma TearDownConnection_begin_spec c p m :
  trafficNotStarted c = Some m ->
  TearDownConnection_begin (c, p) =
    match connection c with
    | None => (Ok false, (c, prom_unregister m p))
    | Some k => (Ok true, (set_connection (Some (close_conn k)) (set_stop true c), prom_unregister m p))
    end.
Proof.
  intros Hm. unfold TearDownConnection_begin. unfold bind at 1, get, gets. simpl. rewrite Hm.
  unfold bind at 1, deref, lift. simpl. unfold bind, lib, modify. simpl. by destruct (connection c).
Qed.

(** C12: a change of the pairing ConfigMap (or a restart, or the shutdown) that
    finds a stream between the two parts of its [SetupConnection] - the name
    of its destination is being resolved - does not stop it. The connection is
    still nil, so [TearDownConnection] returns at once and leaves the stream
    as it is; the set-up goes on, the goroutines are started, and unless
    someone tears the stream down once more, which the controller cannot since
    it has forgotten the pair, its receiver and its timeout handler run for
    good. *)
Theorem teardown_during_setup_leaks a p n b conf conf' env c0 q0 c1 q1 q2 q3 c q :
  CreateClient a p n = Ok c0 ->
  SetupConnection_begin conf (c0, q0) = (Ok tt, (c1, q1)) ->
  SetupConnection_end env conf' (set_pair b c1, q3) = (Ok tt, (c, q)) ->
  (exists q2', TearDownConnection_begin (c1, q2) = (Ok false, (c1, q2'))) /\
  forall ls w, steps step (started c q conf') ls w -> w_td w = DIdle ->
    stop (w_c w) = false /\ w_tpc w <> TExited /\ w_rd w <> RExited /\ is_Some (connection (w_c w)).
Proof.
  intros (Hc & Hs & Hi)%CreateClient_fields Hb He. apply SetupConnection_begin_inv in Hb as ([m Hm] & Hc1 & Hf).
  apply core_flags in Hf. injection Hf as Hi1 Hs1. split.
  - exists (prom_unregister m q2). simpl in *. by rewrite (TearDownConnection_begin_spec c1 q2 m Hm), Hc1, Hc.
  - apply SetupConnection_end_inv in He as (Hh & Hcn & Hcore%core_flags); [|by exists m].
    injection Hcore as Hi2 Hs2. simpl in *.
    intros ls w Hr Hd. destruct (busy_run (started c q conf') ls w) as [Hok Hbusy]; [| |done|].
    + split; simpl; [done|unfold running; simpl; lia|done].
    + unfold busy. simpl. intros _. split_and!; congruence.
    + destruct (Hbusy Hd) as (? & ? & ?). split_and!; try done. apply (ok_equipped _ Hok).
Qed.

(** C13: a set-up that fails after the dial - a metric of the same name and
    labels is registered already, by a stream nobody tears down, say - leaves
    the stream with a connection and without goroutines: the next
    [TearDownConnection] waits for three calls of [Done] that no one makes,
    in a handler that holds the controller's lock. *)
Theorem failed_registration_blocks_teardown a p n env conf c0 q0 e c q q' :
  CreateClient a p n = Ok c0 ->
  SetupConnection env conf (c0, q0) = (Err e, (c, q)) -> is_Some (connection c) ->
  exists c' q'', TearDownConnection_begin (c, q') = (Ok true, (c', q'')) /\ isStopped c' = 3.
Proof.
  intros (Hc & Hs & Hi)%CreateClient_fields He [k Hk].
  assert (same_core c0 c) as Hcore by (by apply (within_inv _ _ _ _ _ (SetupConnection_core env conf) He)).
  apply core_flags in Hcore. injection Hcore as Hi2 Hs2.
  assert (exists m, trafficNotStarted c = Some m) as [m Hm].
  { unfold SetupConnection, bind in He. destruct (newTrafficNotStarted_spec conf (c0, q0)) as (m & s1 & E & Em & _).
    rewrite E in He. apply (within_inv (preserves (fun c => is_Some (trafficNotStarted c)))) in He.
    - destruct He as [m' Hm]; [|by exists m']. by eexists.
    - apply within_recover. unfold SetupConnection_body, orNotStarted. within_walk; unfold preserves; simpl; eauto. }
  do 2 eexists. rewrite (TearDownConnection_begin_spec c q' m Hm), Hk. split; [done|]. simpl. congruence.
Qed.
End Setup.

(** ** A stream that escapes, and the one that comes after it *)

(** The stream of the demonstration registers its first metric, is torn down
    while its destination is resolved, and is set up all the same. *)
Definition escape_begin : outcome unit * state := SetupConnection_begin demo_conf (demo_client, ref_prom0).
Definition escape_torn : outcome bool * state := TearDownConnection_begin escape_begin.2.
Definition escape_end : outcome unit * state := 
  SetupConnection_end ok_env demo_conf (escape_begin.2.1, escape_torn.2.2).

Lemma run_failed {A S T} e (r : outcome A * (S * T)) : r.1 = Err e -> r = (Err e, (r.2.1, r.2.2)).
Proof. destruct r as [o [s t]]. by intros <-. Qed.

(** Its pair is configured again: the first metric of the new stream can be
    registered, the next one cannot. *)
Definition escape_next : outcome unit * state :=
  SetupConnection ok_env demo_conf (demo_client, escape_end.2.2).

Lemma end_same `{Msgpack} `{PromLib} env conf (c : udpStream) (q : prom) r :
  SetupConnection_end env conf (c, q) = r -> SetupConnection_end env conf (set_pair (pair c) c, q) = r.
Proof. by rewrite set_pair_same. Qed.

Lemma escape_ends : SetupConnection_end ok_env demo_conf (escape_begin.2.1, escape_torn.2.2) =
  (Ok tt, (escape_end.2.1, escape_end.2.2)).
Proof.
  assert (escape_end = SetupConnection_end ok_env demo_conf (escape_begin.2.1, escape_torn.2.2)) as <-
    by (unfold escape_end; reflexivity).
  apply run_unit. vm_compute. reflexivity.
Qed.

Lemma teardown_during_setup_leaks_witness :
  escape_torn.1 = Ok false /\ escape_torn.2.1 = escape_begin.2.1 /\
  exists ls w, steps step (started escape_end.2.1 escape_end.2.2 demo_conf) ls w /\
    w_rd w = RReading /\ stop (w_c w) = false.
Proof.
  assert (SetupConnection_begin demo_conf (demo_client, ref_prom0) = (Ok tt, (escape_begin.2.1, escape_begin.2.2))) as Eb
    by (apply (run_unit escape_begin); vm_compute; reflexivity).
  assert (SetupConnection_end ok_env demo_conf (set_pair (pair escape_begin.2.1) escape_begin.2.1, escape_torn.2.2) =
    (Ok tt, (escape_end.2.1, escape_end.2.2))) as Ee
    by (apply end_same; exact escape_ends).
  destruct (teardown_during_setup_leaks _ _ _ _ _ _ _ _ _ _ _ escape_begin.2.2 _ _ _ demo_client_created Eb Ee)
    as [(q & Et) Hr].
  assert (escape_torn = (Ok false, (escape_begin.2.1, q))) as E.
  { rewrite <- Et. unfold escape_torn. by rewrite <- surjective_pairing. }
  rewrite E. split; [reflexivity|]. split; [reflexivity|].
  assert (steps step (started escape_end.2.1 escape_end.2.2 demo_conf) [LTau]
    (mkWorld escape_end.2.1 escape_end.2.2 demo_conf (mkSender SStart 0 [] 0 0) TStart (mkTimeouts 0 0 0 1 0 0) RReading
       (replicate (Z.to_nat (readBufferSize escape_end.2.1)) Byte.x00) DIdle)) as Hst.
  { apply steps_one, step_alone, step_reader, rd_enter. vm_compute. reflexivity. }
  exists [LTau]. eexists. split; [exact Hst|]. split; [reflexivity|].
  apply (Hr _ _ Hst). reflexivity.
Defined.

Lemma escape_next_eq : escape_next = SetupConnection ok_env demo_conf (demo_client, escape_end.2.2).
Proof. unfold escape_next. reflexivity. Qed.

Lemma failed_registration_blocks_teardown_witness :
  escape_next.1 = Err "duplicate metrics collector registration attempted" /\
  exists c q, TearDownConnection_begin escape_next.2 = (Ok true, (c, q)) /\ isStopped c = 3.
Proof.
  assert (escape_next.1 = Err "duplicate metrics collector registration attempted") as He by (vm_compute; reflexivity).
  split; [exact He|].
  assert (SetupConnection ok_env demo_conf (demo_client, escape_end.2.2) =
    (Err "duplicate metrics collector registration attempted", (escape_next.2.1, escape_next.2.2))) as E.
  { rewrite <- escape_next_eq. by apply run_failed. }
  assert (is_Some (connection escape_next.2.1)) as Hk by (vm_compute; eexists; reflexivity).
  destruct (failed_registration_blocks_teardown _ _ _ _ _ _ _ _ _ _ escape_next.2.2 demo_client_created E Hk)
    as (c & q & Et & Ei).
  exists c, q. rewrite (surjective_pairing escape_next.2). split; [exact Et|exact Ei].
Defined.
