(* ===== verification/TGenTheorems.v ===== *)
(** * Properties of a UDP stream

    What the goroutines of pkg/tgen/udp.go do together, from a stream that
    has been created and set up: the request ledger, its balances, and the
    timeout handler. *)
From S2P Require Import Prelude GoInt Strconv Message Metrics Reference Net Pair TApp TAppTheorems TGen TGenStep TGenProofs Ledger TGenRefine TGenInv TGenShared TGenDemo.
From Stdlib Require Import Sorting.Sorted.
Import tgen stream.

Section Theorems.
Context `{Msgpack} `{PromLib}.



(** Whatever the network answers, sent and failed packets together are
    the sequence counter, but for the packet in the sender's hands. *)
Lemma sent_or_failed conf c q ls w :
  set_up conf c q -> steps alone_step (started c q conf) ls w ->
  packetSequence (w_c w) <= 2 ^ 53 ->
  packetSentVal (vals (w_c w)) + packetSendFailedVal (vals (w_c w)) +
    inflight (phase_of (s_pc (w_snd w))) = packetSequence (w_c w).
Proof.
  intros Hu%set_up_unused Hr Hn. destruct (started_run c q conf ls w Hu Hr) as [Hl _].
  by destruct (ledger_run_sent _ _ Hl Hn) as (_ & _ & E).
Qed.

(** C17: each request is settled at most once, by a reply or by its timeout
    and never both, and only sequence numbers that were assigned are settled;
    the numbers written to the socket are strictly increasing. *)
Theorem settled_at_most_once conf c q ls w :
  set_up conf c q -> steps alone_step (started c q conf) ls w ->
  NoDup (settled_keys ls) /\
  (forall k, k ∈ settled_keys ls -> 1 <= k <= packetSequence (w_c w) /\ pending (w_c w) !! k = None) /\
  StronglySorted Z.lt (sent_keys ls).
Proof.
  intros Hu%set_up_unused Hr. destruct (started_run c q conf ls w Hu Hr) as [Hl _].
  apply ledger_run_inv in Hl. split_and!; [apply Hl| |apply Hl].
  intros k Hk. destruct (li_settled _ _ Hl k Hk) as (? & ? & _). done.
Qed.

(** The timeout handler never passes over a request: whatever is pending
    is still ahead of its cursor, so each request it has passed was settled,
    or its write failed. *)
Lemma cursor_behind_pending conf c q ls w k :
  set_up conf c q -> steps alone_step (started c q conf) ls w ->
  is_Some (pending (w_c w) !! k) ->
  1 <= seq (w_t w) <= k /\ k <= packetSequence (w_c w).
Proof.
  intros Hu%set_up_unused Hr Hk. destruct (started_run c q conf ls w Hu Hr) as [Hl _].
  apply ledger_run_inv in Hl. pose proof (li_cursor _ _ Hl). pose proof (li_pending _ _ Hl k Hk).
  simpl in *. lia.
Qed.

(** C11: once TearDownConnection waits for the goroutines, each step one of
    them takes brings the three closer to their exit. Until all have called
    Done one of them can step without any help from the network, given that
    the sender's preparations do not panic, but for one case: the two others
    have gone and the reader waits for a connection that is open. While the
    connection that TearDownConnection closed has not been replaced, a schedule
    of their steps alone leads to its end, and leaves no socket open. *)
Theorem stream_teardown_completes conf c q ls w :
  connected conf c q -> steps step (started c q conf) ls w -> w_td w = DWaiting ->
  (s_pc (w_snd w) = SStart -> startable (w_conf w) (w_c w)) ->
  (forall lb w', own_step w lb w' -> (left w' < left w)%nat) /\
  (0 < running w -> ~ blocked w -> exists lb w', unaided w lb w') /\
  (conn_open (w_c w) = false -> exists ls' w1 w', steps unaided w ls' w1 /\ step w1 LTau w' /\
     w_td w' = DFinished /\ running w' = 0 /\ conn_open (w_c w') = false).
Proof.
  intros Hu Hr Htd Hst.
  destruct (shared_ok _ _ _ _ _ Hu Hr) as [Hok S].
  assert (stop (w_c w) = true) as Hs by (apply Hok; by rewrite Htd).
  split_and!.
  - intros lb w' Hw. by eapply own_decreases.
  - intros Hr0 Hb. destruct (own_progress w Hok Hs Hr0 Hb Hst) as (lb & w' & Hw & _). eauto.
  - intros Ho. destruct (own_exit w Hok S Hs Ho Hst) as (ls' & w' & Hr' & E & Htd' & Hc & Hok' & _).
    exists ls', w'. rewrite Htd in Htd'.
    assert (isStopped (w_c w') = 0) as Hi by (rewrite (ok_running _ Hok'); exact E).
    destruct w' as [c' p' conf' x' tpc' t' rd' b' td']; simpl in *. subst td'.
    exists (mkWorld c' (TearDownConnection_end (c', p')).2.2 conf' x' tpc' t' rd' b' DFinished).
    split_and!; [done|by apply step_alone, step_teardown_end|done|done|]. unfold conn_open in *. simpl. by rewrite Hc.
Qed.
End Theorems.


(** ** The concrete run *)
Lemma demo_set_up : set_up demo_conf demo_c demo_q.
Proof. exact (set_up_whole _ _ _ 0 demo_pair 200 ok_env _ _ demo_client_created eq_refl demo_setup_ok). Qed.



Lemma settled_at_most_once_witness : NoDup (settled_keys demo_labels) /\ settled_keys demo_labels = [1; 2].
Proof.
  split; [|vm_compute; reflexivity].
  exact (proj1 (settled_at_most_once demo_conf demo_c demo_q _ _ demo_set_up stream_run)).
Defined.

(** The teardown of the stream of the run, with a packet still pending. *)
Definition demo_torn : state := (TearDownConnection_begin (demo_c2, demo_q2)).2.
Definition demo_waiting : world :=
  mkWorld demo_torn.1 demo_torn.2 demo_conf (demo_sender (SSend demo_target) demo_base2) TStart demo_t0
    RHead demo_buf DWaiting.

Lemma stream_run_waiting :
  steps alone_step (started demo_c demo_q demo_conf) (demo_labels_sent ++ [LTau]) demo_waiting.
Proof.
  eapply steps_snoc; [exact demo_sends|]. unfold demo_w2, demo_waiting.
  apply step_teardown_begin; [discriminate|]. apply run_value. vm_compute. reflexivity.
Qed.

Lemma stream_teardown_completes_witness :
  (left demo_waiting = 22)%nat /\ exists ls w1 w, steps unaided demo_waiting ls w1 /\ step w1 LTau w /\ w_td w = DFinished.
Proof.
  split; [vm_compute; reflexivity|].
  destruct (stream_teardown_completes demo_conf demo_c demo_q _ _ (set_up_connected _ _ _ demo_set_up)
      (alone_steps _ _ _ stream_run_waiting) eq_refl)
    as (_ & _ & Hx); [discriminate|].
  destruct (Hx ltac:(vm_compute; reflexivity)) as (ls & w1 & w & Hr & He & Hd & _).
  exists ls, w1, w. exact (conj Hr (conj He Hd)).
Defined.
