(* ===== verification/TGenRedial.v ===== *)
(** * Redialling a destination

    When [HandleTimeouts] redials, [redialDestination] closes the connection
    before it dials the new one.  What follows a dial that fails, and what a
    dial that succeeds does to a stream that is being torn down. *)
From S2P Require Import Prelude GoInt Strconv Message Metrics Reference Net Pair TApp TAppTheorems TGen TGenStep TGenProofs Ledger TGenRefine TGenInv TGenShared TGenDemo TGenTheorems.
Import tgen stream.

Section Stranded.
Context `{Msgpack} `{PromLib}.

(** The sender has left its preparations. *)
Definition past_start (pc : sender_pc) : Prop :=
  match pc with SStart | SDummy _ => False | _ => True end.

(** The request in the sender's hands, if it is in the map. *)
Definition in_hands (pc : sender_pc) : bool :=
  match pc with SInserted _ | SWriteFailed _ => true | _ => false end.

(** The connection is closed and nothing is pending but what the sender is
    about to fail to write. *)
Record stranded (w : world) : Prop := mkStranded {
  st_closed : conn_open (w_c w) = false;
  st_sender : past_start (s_pc (w_snd w));
  st_timeout : w_tpc w <> TAfterDrop;
  st_locked : w_tpc w = TLocked -> seq (w_t w) < packetSequence (w_c w);
  st_pending k : is_Some (pending (w_c w) !! k) ->
    in_hands (s_pc (w_snd w)) = true /\ k = packetSequence (w_c w)
}.

(** Labels of a run in which nothing goes out and nothing is tried. *)
Definition mute (lb : label) : Prop :=
  match lb with LSent _ _ | LRedial | LReceived _ | LDropped _ _ => False | _ => True end.

Lemma book_conn_stranded c p conf x tpc t rd b td c' p' conf' rd' b' td' :
  book c = book c' -> connection c = connection c' ->
  stranded (mkWorld c p conf x tpc t rd b td) -> stranded (mkWorld c' p' conf' x tpc t rd' b' td').
Proof.
  intros [= E1 E2 E3] E4 [S1 S2 S3 S4 S5]. unfold conn_open in *.
  split; simpl in *; unfold conn_open; rewrite <- ?E1, <- ?E2, <- ?E4; done.
Qed.

Lemma sender_stranded conf c p x lb x' c' p' conf' tpc t rd b td :
  sender_step conf x (c, p) lb x' (c', p') ->
  sane (mkWorld c p conf' x tpc t rd b td) -> stranded (mkWorld c p conf' x tpc t rd b td) ->
  stranded (mkWorld c' p' conf' x' tpc t rd b td) /\ mute lb.
Proof.
  intros Hst [N1 N2 _] [S1 S2 S3 S4 S5]. destruct x as [pc len base st pa].
  inversion Hst; subst; unfold add_pending, drop_pending, upd, modify in *; simpl in *; subst;
    try done; try congruence;
    repeat match goal with
    | E : done _ = _ |- _ => apply done_inv in E as [E _]; simpl in E
    | E : Inc _ _ = _ |- _ => apply Inc_inv in E as (? & _ & E); simpl in E
    | E : next_packet _ = _ |- _ => apply next_packet_inv in E as [-> E]
    | E : (_, _) = (_, _) |- _ => injection E as; subst
    end; (split; [|exact I]); split; simpl in *; try done.
  1, 3: intros Ht; specialize (S4 Ht); specialize (N2 _ eq_refl); unfold add64;
    rewrite wrap64_id; unfold in64; lia.
  1, 2: intros k Hk; by destruct (S5 k Hk).
  - intros k [->|Hk]%insert_is_Some_or; [done|]. by destruct (S5 k Hk).
  - intros k [Hne Hk]%delete_is_Some. by destruct (S5 k Hk).
Qed.

Lemma timeout_stranded conf c p t tpc lb tpc' t' c' p' conf' x rd b td :
  timeout_step conf tpc t (c, p) lb tpc' t' (c', p') ->
  stranded (mkWorld c p conf' x tpc t rd b td) ->
  stranded (mkWorld c' p' conf' x tpc' t' rd b td) /\ mute lb.
Proof.
  intros Hst [S1 S2 S3 S4 S5]. inversion Hst; subst; simpl in *; try done.
  - rename select (done _ = _) into E. apply done_inv in E as [[= -> ->] _]. by split.
  - rename select (timeout_turn _ _ _ = _) into E. apply timeout_turn_inv in E.
    destruct E as (ts & m & E & _). simpl in E.
    destruct (S5 (seq t)) as [_ Hk]; [by rewrite E|]. specialize (S4 eq_refl). lia.
  - rename select (timeout_turn _ _ _ = _) into E. apply timeout_turn_inv in E.
    destruct E as (ts & _ & _ & _ & [= -> ->]). by split.
  - rename select (timeout_turn _ _ _ = _) into E. apply timeout_turn_inv in E.
    destruct E as (_ & _ & [= -> ->]). split; [|done].
    split; simpl; try done; by case_decide.
Qed.

Lemma reader_stranded c p b rd lb rd' b' c' p' conf' x tpc t td :
  reader_step rd b (c, p) lb rd' b' (c', p') ->
  stranded (mkWorld c p conf' x tpc t rd b td) ->
  stranded (mkWorld c' p' conf' x tpc t rd' b' td) /\ mute lb.
Proof.
  intros Hst [S1 S2 S3 S4 S5]. inversion Hst; subst; simpl in *; try done.
  - rename select (done _ = _) into E. apply done_inv in E as [[= -> ->] _]. by split.
  - congruence.
Qed.

Lemma step_stranded w lb w' :
  alone_step w lb w' -> sane w -> stranded w -> stranded w' /\ mute lb.
Proof.
  intros Hst N S. destruct Hst.
  - by eapply sender_stranded.
  - by eapply timeout_stranded.
  - by eapply reader_stranded.
  - rename select (TearDownConnection_begin _ = _) into E.
    apply TearDownConnection_begin_inv in E as (k & m & _ & _ & [= -> ->]).
    split; [|done]. by destruct S.
  - rename select (TearDownConnection_end _ = _) into E. injection E as <- <-.
    split; [|done]. by destruct S.
  - split; [|done]. by destruct S.
  - split; [|done]. by destruct S.
Qed.


(** ** A redial while the stream is torn down *)

(** Nothing arrives: a read returns only when its socket has been closed. *)
Definition unanswered (w : world) (lb : label) (w' : world) : Prop :=
  step w lb w' /\ (w_rd w = RReading -> w_rd w' = RReading \/ conn_open (w_c w) = false).

Lemma unaided_unanswered w lb w' : unaided w lb w' -> unanswered w lb w'.
Proof. intros [Hst Hrd]. split; [by apply step_alone, own_step_step|done]. Qed.

Lemma blocked_stays w lb w' :
  world_ok w -> w_td w = DWaiting -> blocked w -> unanswered w lb w' ->
  world_ok w' /\ w_td w' = DWaiting /\ blocked w'.
Proof.
  intros Hok Htd (E1 & E2 & E3 & E4) [Hst Hrd]. split; [by eapply step_ok|].
  specialize (Hrd E3). destruct Hst as [v lb' v' Hst|b v]; [|done]. destruct Hok as [He Hi _]. unfold running in Hi. destruct Hst; simpl in *; subst.
  - destruct (sender_flags _ _ _ _ _ _ _ _ ltac:(eassumption) He) as (_ & _ & _ & Hn). by destruct Hn.
  - destruct (timeout_flags _ _ _ _ _ _ _ _ _ _ ltac:(eassumption) He) as (_ & _ & _ & Hn). by destruct Hn.
  - destruct Hrd as [->|]; [|congruence]. rename select (reader_step _ _ _ _ _ _ _) into Hst. by inversion Hst.
  - done.
  - rewrite E1 in Hi. simpl in Hi. lia.
  - done.
  - done.
Qed.

(** C16: a redial that succeeds while the stream is being torn down undoes the
    teardown: the connection that was closed to wake the reader is replaced by
    one that nobody will close. If the reader has just looked at the stop flag,
    then the two other goroutines end, and from then on, unless the destination
    answers, TearDownConnection never returns: whatever the goroutines and the
    rest of the process do, it waits for the reader. *)
Theorem redial_blocks_teardown conf c q ls w env now1 now2 t' c' p' :
  connected conf c q -> steps step (started c q conf) ls w -> w_td w = DWaiting ->
  w_rd w = RReading -> w_tpc w = TAfterDrop ->
  (s_pc (w_snd w) = SStart -> startable (w_conf w) (w_c w)) ->
  after_drop now1 now2 env (w_conf w) (w_t w) (w_c w, w_p w) = (Ok (true, t'), (c', p')) ->
  conn_open c' = true ->
  exists ls1 w1, steps unanswered w ls1 w1 /\ s_pc (w_snd w1) = SExited /\ w_tpc w1 = TExited /\
    forall ls2 w2, steps unanswered w1 ls2 w2 -> w_td w2 = DWaiting /\ isStopped (w_c w2) = 1.
Proof.
  intros Hu Hr Htd Hrd Ht Hst Ea Ho.
  destruct (shared_ok _ _ _ _ _ Hu Hr) as [Hok S].
  destruct w as [c1 p1 conf1 x tpc t rd b td]; simpl in *. subst.
  set (w0 := mkWorld c' p' conf1 x TInner t' RReading b DWaiting).
  set (w := mkWorld c1 p1 conf1 x TAfterDrop t RReading b DWaiting) in *.
  assert (own_step w LRedial w0) as Hown.
  { apply own_timeout. by apply (tmo_after_drop conf1 env now1 now2 true). }
  destruct (own_ok _ _ _ Hown Hok) as [Hok0 _].
  destruct (busy_exit w0) as (ls1 & w1 & Hr1 & Hb & Htd1 & Hok1); [done|by eapply own_sane| | |done|done|].
  - rewrite (own_stop _ _ _ Hown (ok_equipped _ Hok)). by apply Hok.
  - by eapply started_startable.
  - exists (LRedial :: ls1), w1. split_and!; [|apply Hb..|].
    + eapply steps_cons; [split; [by apply step_alone, own_step_step|by left]|].
      by apply (steps_sub _ _ _ _ _ unaided_unanswered).
    + intros ls2 w2 Hr2. assert (world_ok w2 /\ w_td w2 = DWaiting /\ blocked w2) as (Hok2 & Htd2 & Hb2).
      { apply (steps_invariant unanswered (fun w => world_ok w /\ w_td w = DWaiting /\ blocked w) w1) with ls2; [done| |done].
        intros w3 lb w4 (? & ? & ?) Hx. by eapply blocked_stays. }
      split; [done|]. rewrite (ok_running _ Hok2). destruct Hb2 as (E1 & E2 & E3 & _).
      unfold running. by rewrite E1, E2, E3.
Qed.
End Stranded.

(** ** A stream whose server moves while its node cannot dial

    Packets 1 to 3 are sent, 1 is dropped, 3 is answered; 2 is dropped more
    than the redial timeout after 1, the name resolves to a new address, and
    the dial fails. *)
Definition moved_env : NetEnv :=
  mkNetEnv (fun a => inr (mkUDPAddr "10.10.10.9" 8890)) (fun _ => inl "unreachable")
    (fun _ _ => inl "connect: network is unreachable") (fun _ _ => None).

Definition demo_base3 : list byte := demo_bytes 3 10000000 demo_base2.
Definition demo_base4 : list byte := demo_bytes 4 10004000 demo_base3.
Definition demo_reply3 : list byte :=
  codec.enc_Message (mkMessage 3 10000000 4000 (zlen (codec.enc_PodInfo demo_info)) 100) ++
  codec.enc_PodInfo demo_info.

Definition moved_c4 : udpStream :=
  add_sent (set_pending (<[3 := 10000000]> (pending demo_c3)) (set_packetSequence 3 demo_c3)).
Definition moved_q4 : store.st := prom_inc 1%nat demo_q3.
Definition moved_received : outcome (option Z * list byte) * state :=
  SocketRead_datagram 10001000 demo_reply3 demo_buf (moved_c4, moved_q4).
Definition moved_c5 : udpStream := moved_received.2.1.
Definition moved_buf : list byte := (ok_or (None, []) moved_received.1).2.
Definition moved_dropped : outcome (turn * timeouts) * state :=
  timeout_turn 10003001 demo_t2 (moved_c5, moved_received.2.2).
Definition moved_t6 : timeouts := next_seq demo_t2.
Definition moved_redial : outcome (bool * timeouts) * state :=
  after_drop 10003002 10003002 moved_env demo_conf moved_t6 moved_dropped.2.
Definition moved_t7 : timeouts := (ok_or (true, moved_t6) moved_redial.1).2.
Definition moved_c7 : udpStream := moved_redial.2.1.
Definition moved_c9 : udpStream := set_pending (<[4 := 10004000]> (pending moved_c7)) (set_packetSequence 4 moved_c7).

Definition moved_world (c : udpStream) (q : store.st) (pc : sender_pc) (base : list byte)
    (tpc : timeout_pc) (t : timeouts) (b : list byte) : world :=
  mkWorld c q demo_conf (demo_sender pc base) tpc t RHead b DIdle.

Definition moved_w4 : world := moved_world moved_c4 moved_q4 (SSend demo_target) demo_base3 TInner demo_t2 demo_buf.
Definition moved_w5 : world :=
  moved_world moved_c5 moved_received.2.2 (SSend demo_target) demo_base3 TInner demo_t2 moved_buf.
Definition moved_w7 : world :=
  moved_world moved_c7 moved_redial.2.2 (SSend demo_target) demo_base3 TInner moved_t7 moved_buf.
Definition moved_w9 : world :=
  moved_world moved_c9 moved_redial.2.2 (SWriteFailed demo_target) demo_base4 TInner moved_t7 moved_buf.

Lemma moved_sends : steps alone_step demo_w3 [LTau; LTau; LSent 3 demo_base3; LTau; LTau] moved_w4.
Proof.
  apply (send_one demo_c3 demo_q3 demo_conf TInner demo_t2 RHead demo_buf DIdle demo_target demo_len
    demo_base2 1000 0 10000000 3 demo_base3 1%nat);
    [vm_compute; reflexivity|unfold in64; lia|vm_compute; reflexivity| |now vm_compute|now vm_compute].
  apply demo_bytes_ok. vm_compute. eexists. reflexivity.
Qed.

Lemma moved_receives : steps alone_step moved_w4 [LTau; LReceived 3] moved_w5.
Proof.
  unfold moved_w4, moved_w5, moved_world.
  apply (steps_cons _ _ _ (mkWorld moved_c4 moved_q4 demo_conf (demo_sender (SSend demo_target) demo_base3)
           TInner demo_t2 RReading demo_buf DIdle)).
  { apply step_reader, rd_enter. now vm_compute. }
  apply steps_one, step_reader.
  apply (rd_datagram 10001000 demo_reply3 _ _ _ (Some 3)); [now vm_compute|].
  apply (run_some [] 3 moved_received); vm_compute; reflexivity.
Qed.

Lemma moved_drops : steps alone_step moved_w5 [LTau; LDropped 10003001 2; LRedial] moved_w7.
Proof.
  unfold moved_w5, moved_w7, moved_world.
  set (W := fun c q tpc t => mkWorld c q demo_conf (demo_sender (SSend demo_target) demo_base3)
              tpc t RHead moved_buf DIdle).
  apply (steps_cons _ _ _ (W moved_c5 moved_received.2.2 TLocked demo_t2)).
  { apply step_timeout, tmo_next; now vm_compute. }
  apply (steps_cons _ _ _ (W moved_dropped.2.1 moved_dropped.2.2 TAfterDrop moved_t6)).
  { apply step_timeout, (tmo_dropped _ 10003001 demo_t2 moved_t6).
    apply (run_value _ moved_dropped). vm_compute. reflexivity. }
  apply steps_one, step_timeout.
  apply (tmo_after_drop _ moved_env 10003002 10003002 true).
  rewrite <- surjective_pairing.
  apply (run_value _ moved_redial). vm_compute. reflexivity.
Qed.

Lemma moved_run :
  steps alone_step (started demo_c demo_q demo_conf)
    (demo_labels_sent ++ demo_labels_dropped ++ [LTau; LTau; LSent 3 demo_base3; LTau; LTau] ++
     [LTau; LReceived 3] ++ [LTau; LDropped 10003001 2; LRedial]) moved_w7.
Proof.
  eapply steps_app; [exact demo_sends|]. eapply steps_app; [exact demo_drops|].
  eapply steps_app; [exact moved_sends|]. eapply steps_app; [exact moved_receives|exact moved_drops].
Qed.

Lemma moved_fails : steps alone_step moved_w7 [LTau; LTau; LFailed 4] moved_w9.
Proof.
  apply (fail_one moved_c7 moved_redial.2.2 demo_conf TInner moved_t7 RHead moved_buf DIdle demo_target
    demo_len demo_base3 1000 0 10004000 4 demo_base4);
    [vm_compute; reflexivity|unfold in64; lia|vm_compute; reflexivity|].
  apply demo_bytes_ok. vm_compute. eexists. reflexivity.
Qed.


(** ** The same stream, torn down while it redials a destination that answers *)
Definition back_env : NetEnv :=
  mkNetEnv (fun a => inr (mkUDPAddr "10.10.10.9" 8890)) (ListenUDP ok_env) (DialUDP ok_env) (SetReadBuffer ok_env).

Definition back_torn : outcome bool * state := TearDownConnection_begin moved_dropped.2.
Definition back_redial : outcome (bool * timeouts) * state :=
  after_drop 10003002 10003002 back_env demo_conf moved_t6 back_torn.2.
Definition back_t : timeouts := (ok_or (true, moved_t6) back_redial.1).2.

Definition back_world (c : udpStream) (q : store.st) (tpc : timeout_pc) (t : timeouts) (td : teardown_pc) : world :=
  mkWorld c q demo_conf (demo_sender (SSend demo_target) demo_base3) tpc t RReading moved_buf td.
Definition back_waits : world := back_world back_torn.2.1 back_torn.2.2 TAfterDrop moved_t6 DWaiting.

Lemma back_tears : steps alone_step moved_w5 [LTau; LTau; LDropped 10003001 2; LTau] back_waits.
Proof.
  unfold moved_w5, moved_world, back_waits, back_world.
  set (W := fun c q tpc t td => mkWorld c q demo_conf (demo_sender (SSend demo_target) demo_base3)
              tpc t RReading moved_buf td).
  apply (steps_cons _ _ _ (W moved_c5 moved_received.2.2 TInner demo_t2 DIdle)).
  { apply step_reader, rd_enter. now vm_compute. }
  apply (steps_cons _ _ _ (W moved_c5 moved_received.2.2 TLocked demo_t2 DIdle)).
  { apply step_timeout, tmo_next; now vm_compute. }
  apply (steps_cons _ _ _ (W moved_dropped.2.1 moved_dropped.2.2 TAfterDrop moved_t6 DIdle)).
  { apply step_timeout, (tmo_dropped _ 10003001 demo_t2 moved_t6).
    apply (run_value _ moved_dropped). vm_compute. reflexivity. }
  apply steps_one, step_teardown_begin; [discriminate|]. rewrite <- surjective_pairing.
  apply (run_value _ back_torn). vm_compute. reflexivity.
Qed.

Lemma back_run :
  steps alone_step (started demo_c demo_q demo_conf)
    (demo_labels_sent ++ demo_labels_dropped ++ [LTau; LTau; LSent 3 demo_base3; LTau; LTau] ++
     [LTau; LReceived 3] ++ [LTau; LTau; LDropped 10003001 2; LTau]) back_waits.
Proof.
  eapply steps_app; [exact demo_sends|]. eapply steps_app; [exact demo_drops|].
  eapply steps_app; [exact moved_sends|]. eapply steps_app; [exact moved_receives|exact back_tears].
Qed.

Lemma back_redials :
  after_drop 10003002 10003002 back_env demo_conf moved_t6 back_torn.2 =
  (Ok (true, back_t), (back_redial.2.1, back_redial.2.2)).
Proof. apply (run_value _ back_redial). vm_compute. reflexivity. Qed.

Lemma redial_blocks_teardown_witness :
  exists ls1 w1, steps unanswered back_waits ls1 w1 /\
    forall ls2 w2, steps unanswered w1 ls2 w2 -> w_td w2 = DWaiting /\ isStopped (w_c w2) = 1.
Proof.
  destruct (redial_blocks_teardown demo_conf demo_c demo_q _ back_waits back_env 10003002 10003002 back_t
    back_redial.2.1 back_redial.2.2 (set_up_connected _ _ _ demo_set_up) (alone_steps _ _ _ back_run) eq_refl eq_refl eq_refl) as (ls1 & w1 & Hr & _ & _ & Hw).
  - discriminate.
  - unfold back_waits, back_world. cbn [w_c w_p w_conf w_t]. rewrite <- surjective_pairing. exact back_redials.
  - vm_compute. reflexivity.
  - exists ls1, w1. exact (conj Hr Hw).
Defined.
