(* ===== verification/TGenReply.v ===== *)
(** * What a reply does to a stream

    The accounting of one reply, its effect on the exported metrics, the
    registration of the metrics under a new server identity, and the way of a
    request through the server and back. *)
From S2P Require Import Prelude GoInt Strconv Message Metrics Reference Net Pair TApp TAppProofs TAppTheorems TGen TGenStep TGenProofs Ledger TGenRefine TGenInv TGenDemo TGenTheorems TGenRedial.
Import tgen.

Lemma f64_rnd_neg z : z < 0 -> f64_rnd z < 0.
Proof.
  intros Hz. unfold f64_rnd. set (a := Z.abs z). set (u := 2 ^ _).
  assert (0 < a) as Ha by (subst a; lia).
  assert (0 < u) by (subst u; apply Z.pow_pos_nonneg; lia).
  assert (u <= a) as Hu.
  { subst u. transitivity (2 ^ Z.log2 a); [|by apply Z.log2_spec].
    apply Z.pow_le_mono_r; [lia|]. pose proof (Z.log2_nonneg a). lia. }
  assert (1 <= a / u) by (apply Z.div_le_lower_bound; lia).
  rewrite Z.sgn_neg by done. repeat case_match; nia.
Qed.

Section Reply.
Context `{MsgpackLaws} `{PromLaws}.

(** The metrics a reply moves, created and distinct. *)
Record reply_metrics (c : udpStream) (mr ml mc : metric) (p : prom) : Prop := mkReplyMetrics {
  rm_roundTrip : roundTrip (hs c) = Some mr;
  rm_latency : latency (hs c) = Some ml;
  rm_received : packetReceived (hs c) = Some mc;
  rm_distinct : NoDup [mr; ml; mc];
  rm_live : Forall (fun m => prom_live m p) [mr; ml; mc]
}.

Lemma Add_Some field m v s q :
  field s.1 = Some m -> prom_add m v s.2 = Some q -> Add field v s = (Ok tt, (s.1, q)).
Proof. intros E1 E2. unfold Add, get, deref, bind, gets, lift. rewrite E1. simpl. by rewrite E2. Qed.

Lemma Add_negative field m v s :
  field s.1 = Some m -> v < 0 -> is_panic (Add field v s).1 = true.
Proof.
  intros E1 E2. unfold Add, get, deref, bind, gets, lift. rewrite E1. simpl. by rewrite prom_add_panics.
Qed.

Lemma Observe_Some field m v s :
  field s.1 = Some m -> Observe field v s = (Ok tt, (s.1, prom_observe m v s.2)).
Proof. intros E. unfold Observe, get, deref, lib, bind, gets, lift, modify. by rewrite E. Qed.

(** What the three calls on the library add up to. *)
Lemma reply_effect mr ml mc v p :
  NoDup [mr; ml; mc] -> Forall (fun m => prom_live m p) [mr; ml; mc] -> 0 <= v ->
  exists q, prom_add mr (f64_rnd v) p = Some q /\
    let q' := prom_inc mc (prom_observe ml (f64_rnd v) q) in
    (small (prom_value mc p + 1) -> small (prom_value mc p) ->
     prom_value mc q' = prom_value mc p + 1) /\
    (small (prom_value mr p) -> small (prom_value mr p + v) ->
     prom_value mr q' = prom_value mr p + v) /\
    (forall h, prom_live h p -> h <> mr -> h <> ml -> h <> mc -> prom_value h q' = prom_value h p).
Proof.
  intros Hnd Hl Hv.
  apply NoDup_cons in Hnd as [Hr Hnd]. apply NoDup_cons in Hnd as [Hlc _].
  assert (mr <> ml /\ mr <> mc /\ ml <> mc) as (N1 & N2 & N3) by set_solver.
  inversion_clear Hl as [|? ? L1 Hl']. inversion_clear Hl' as [|? ? L2 Hl]. inversion_clear Hl as [|? ? L3 _].
  destruct (prom_add_spec mr (f64_rnd v) p L1 (f64_rnd_nonneg v Hv)) as (q & Eq & [Sl Sv] & Va).
  exists q. split; [done|]. cbv zeta.
  pose proof (prom_observe_same ml (f64_rnd v) q) as [Ol Ov].
  set (q1 := prom_observe ml (f64_rnd v) q) in *.
  pose proof (prom_inc_same mc q1) as [Il Iv].
  assert (prom_value mc q1 = prom_value mc p) as Emc.
  { rewrite Ov by (auto || congruence). by rewrite Sv by congruence. }
  split_and!.
  - intros Hs1 Hs2. rewrite prom_inc_value; rewrite ?Emc; auto.
  - intros Hs1 Hs2. rewrite Iv, Ov by (auto || congruence).
    assert (f64_rnd v = v) as E by (apply f64_rnd_id; unfold f64_exact, small in *; lia).
    rewrite E in Va. auto.
  - intros h Hh Hr' Hl' Hc'. rewrite Iv by (auto || congruence).
    rewrite Ov by (auto || congruence). by rewrite Sv by (auto || congruence).
Qed.

(** The exported metrics a reply of round-trip [rtt] moves, and the rest. *)
Definition reply_exported (mr ml mc : metric) (rtt : Z) (p q : prom) : Prop :=
  (small (prom_value mc p + 1) -> small (prom_value mc p) ->
   prom_value mc q = prom_value mc p + 1) /\
  (small (prom_value mr p) -> small (prom_value mr p + rtt) ->
   prom_value mr q = prom_value mr p + rtt) /\
  (forall h, prom_live h p -> h <> mr -> h <> ml -> h <> mc -> prom_value h q = prom_value h p).

Lemma settle_reply_ok now msg info c p mr ml mc :
  reply_metrics c mr ml mc p -> is_Some (pending c !! SequenceNumber msg) ->
  server_changed info c = false -> 0 <= sub64 now (SendTimeStamp msg) ->
  exists p', settle_reply now msg info (c, p) =
      (Ok true, (settled (SequenceNumber msg) (f64_rnd (sub64 now (SendTimeStamp msg))) c, p')) /\
    reply_exported mr ml mc (sub64 now (SendTimeStamp msg)) p p'.
Proof.
  intros [E1 E2 E3 Hnd Hl] [ts Hp] Hch Hpos. unfold settle_reply.
  erewrite bind_Ok by reflexivity. simpl. rewrite Hp. set (rtt := sub64 _ _) in *.
  destruct (reply_effect mr ml mc rtt p Hnd Hl Hpos) as (q & Eq & Hv). eexists. split; [|exact Hv].
  rewrite (bind_Ok _ _ _ _ _ (Add_Some (fun c => roundTrip (hs c)) mr (f64_rnd rtt) (c, p) q E1 Eq)).
  erewrite bind_Ok by reflexivity.
  erewrite bind_Ok by (by apply (Observe_Some (fun c => latency (hs c)) ml)).
  erewrite bind_Ok by (by apply (Inc_Some (fun c => packetReceived (hs c)) _ mc)).
  do 3 erewrite bind_Ok by reflexivity. simpl.
  change (server_changed info _) with (server_changed info c). rewrite Hch.
  reflexivity.
Qed.

(** C29: one reply to a pending request, from a server whose identity is the
    one on the labels. The process panics if the clock reads earlier than the
    reply's timestamp (a clock set back, or a timestamp the server changed):
    prometheus counters refuse a negative amount. Otherwise the request
    leaves the map, the received count grows by one and the round-trip total
    by the elapsed microseconds, in the stream and in the exported counters,
    and no other metric but the latency summary moves. *)
Theorem reply_accounting now msg info c p mr ml mc :
  reply_metrics c mr ml mc p -> is_Some (pending c !! SequenceNumber msg) ->
  server_changed info c = false ->
  let rtt := sub64 now (SendTimeStamp msg) in
  if rtt <? 0 then is_panic (settle_reply now msg info (c, p)).1 = true
  else exists p', settle_reply now msg info (c, p) =
                    (Ok true, (settled (SequenceNumber msg) (f64_rnd rtt) c, p')) /\
       reply_exported mr ml mc rtt p p'.
Proof.
  intros Hm Hp Hch rtt. destruct (Z.ltb_spec rtt 0) as [Hneg|Hpos]; [|by apply settle_reply_ok].
  apply f64_rnd_neg in Hneg. destruct Hm as [E1 _ _ _ _], Hp as [ts Hp]. unfold settle_reply.
  erewrite bind_Ok by reflexivity. simpl. rewrite Hp. fold rtt.
  pose proof (Add_negative (fun c => roundTrip (hs c)) mr (f64_rnd rtt) (c, p) E1 Hneg) as Ha.
  unfold bind at 1. by destruct (Add _ _ _) as [[]].
Qed.

(** ** The way of a request *)

(** A reply of the shape servers make, read by a client. *)
Lemma SocketRead_reply now hdr pod pad buf msg info c p :
  zlen hdr = msgHeaderLength c -> 0 < msgHeaderLength c -> zlen (hdr ++ pod ++ pad) <= zlen buf ->
  zlen buf < 2 ^ 63 -> unmarshal_Message hdr = (msg, false) -> ServerInfoLength msg = zlen pod ->
  unmarshal_PodInfo pod = (info, false) -> SequenceNumber msg <> -1 ->
  let buf' := go_copy buf (hdr ++ pod ++ pad) in
  SocketRead_datagram now (hdr ++ pod ++ pad) buf (c, p) =
    (let! b := settle_reply now msg info in
     ret (if b : bool then Some (SequenceNumber msg) else None, buf')) (c, p).
Proof.
  intros Hh Hpos Hfit Hcap Hm Hl Hi Hne buf'. unfold SocketRead_datagram. fold buf'.
  assert (buf' = hdr ++ pod ++ pad ++ drop (length (hdr ++ pod ++ pad)) buf) as Eb.
  { unfold buf', zlen in *. rewrite go_copy_fits by lia. by rewrite <- !app_assoc. }
  rewrite decide_False.
  2: { unfold buf'. rewrite length_go_copy. unfold zlen in *. rewrite !length_app in *. lia. }
  unfold handle_datagram. unfold bind at 1.
  assert (slice buf' 0 (msgHeaderLength c) = Some hdr) as S1
    by (rewrite Eb, <- Hh; apply slice_prefix).
  assert (slice buf' (msgHeaderLength c) (add64 (msgHeaderLength c) (zlen pod)) = Some pod) as S2.
  { unfold add64. rewrite wrap64_id.
    - rewrite Eb, <- Hh. apply slice_middle.
    - unfold in64, zlen in *. rewrite !length_app in *. lia. }
  erewrite bind_Ok by reflexivity. simpl. rewrite S1. erewrite bind_Ok by reflexivity. rewrite Hm, Hl, S2.
  erewrite bind_Ok by reflexivity. rewrite Hi. simpl.
  assert ((SequenceNumber msg =? -1) = false) as -> by lia.
  unfold bind. by destruct (settle_reply now msg info (c, p)) as [[[]|e|w] s'].
Qed.

(** C8: a packet of the client, handled by a server whose buffer and whose
    client's buffer hold the reply, comes back as a reply that settles the
    client's own request: the request leaves the map and the round-trip time
    is the client's clock against the timestamp the client put in the packet,
    whatever the server's clock says. *)
Theorem request_reply_settles t1 t2 now ip rest b k ts len info s g m l q buf c p mr ml mc cbuf :
  let msg := mkMessage k ts 0 0 len in
  ready s g m l q -> maxima_ok (tapp.activeClientsMap s) -> in64 t1 ->
  GetMessageHeaderLength = Ok (tapp.msgHeaderLength s) -> msgHeaderLength c = tapp.msgHeaderLength s ->
  marshal_PodInfo info = Some (tapp.podInfoByteArr s) -> zlen buf < 2 ^ 63 -> zlen cbuf < 2 ^ 63 ->
  msg_ok msg -> marshal_Message msg = Some b -> zlen (b ++ rest) <= zlen buf ->
  reply_length s msg <= zlen buf -> reply_length s msg <= zlen cbuf ->
  reply_metrics c mr ml mc p -> is_Some (pending c !! k) -> k <> -1 ->
  server_changed info c = false -> 0 <= sub64 now ts ->
  exists reply buf' s' q' cbuf' p',
    tapp.ReadFromSocket_datagram t1 t2 ip (b ++ rest) buf s q = Ok (Some reply, buf', s', q') /\
    SocketRead_datagram now reply cbuf (c, p) =
      (Ok (Some k, cbuf'), (settled k (f64_rnd (sub64 now ts)) c, p')) /\
    reply_exported mr ml mc (sub64 now ts) p p'.
Proof.
  intros msg Hr Hok Ht Hh Hch Hi Hcap Hccap Hm Hb Hfit Hmax Hcmax Hmet Hp Hk Hsame Hrtt.
  destruct (reply_shape t1 t2 ip b rest buf msg s g m l q)
    as (out & buf' & s' & q' & b' & pad & E & Hb' & Hm' & Hhl & -> & Hlen); try done.
  pose proof (unmarshal_marshal_Message _ _ [] Hm' Hb') as Hu. rewrite app_nil_r in Hu.
  pose proof (unmarshal_marshal_PodInfo _ _ [] Hi) as Hui. rewrite app_nil_r in Hui.
  destruct (settle_reply_ok now (answered t1 s msg) info c p mr ml mc) as (p' & Es & Hx); [done..|].
  eexists _, buf', s', q', _, p'. split; [exact E|]. split; [|exact Hx].
  rewrite (SocketRead_reply now b' (tapp.podInfoByteArr s) pad cbuf (answered t1 s msg) info);
    [|by rewrite Hch| |lia|done|done|done|done|done].
  - by rewrite (bind_Ok _ _ _ _ _ Es).
  - rewrite Hch. by eapply header_length_pos.
Qed.

(** ** Registering the metrics again *)

(** A new counter that shows the total [v]; the metrics of [p] are as before. *)
Definition restored (o : option metric) (v : Z) (p q : prom) : Prop :=
  exists m, o = Some m /\ ~ prom_live m p /\ prom_live m q /\ (small v -> prom_value m q = v).

Lemma restored_later o v p q r : restored o v p q -> same_values q r -> restored o v p r.
Proof.
  intros (m & E & F & L & V) [L' V']. exists m. split_and!; auto.
  intros Hv. rewrite V' by auto. auto.
Qed.

Lemma restored_earlier o v p p' q : restored o v p' q -> same_values p p' -> restored o v p q.
Proof. intros (m & E & F & L & V) [L' V']. exists m. split_and!; auto. Qed.

Lemma registerCounter_spec name help field set_field val s s' :
  (forall m c l, field (set_streamMetrics l (set_field m c)) = m) ->
  (forall m c l, val (set_streamMetrics l (set_field m c)) = val c) ->
  (forall m c, streamMetrics (set_field m c) = streamMetrics c) ->
  registerCounter name help field set_field val s = (Ok tt, s') ->
  exists m, s'.1 = set_streamMetrics (streamMetrics s.1 ++ [m]) (set_field (Some m) s.1) /\
    restored (Some m) (val s.1) s.2 s'.2 /\ same_values s.2 s'.2.
Proof.
  intros Hf Hv Hm E. destruct s as [c p]. unfold registerCounter in E.
  apply bind_Ok_inv in E as (pr & s1 & [= <- <-] & E).
  apply bind_Ok_inv in E as (lb & s1 & [= <- <-] & E).
  apply bind_Ok_inv in E as (m & s1 & E1 & E).
  unfold create, NewCounter in E1. simpl in E1.
  set (o := mkOpts _ _ _ _ _ _ _) in E1.
  pose proof (prom_new_fresh o p) as N1. pose proof (prom_new_live o p) as N2.
  pose proof (prom_new_value o p) as N3. pose proof (prom_new_same o p) as N4.
  destruct (prom_new o p) as [m' q]. injection E1 as -> <-. simpl in *.
  apply bind_Ok_inv in E as ([] & s2 & [= <-] & E).
  apply bind_Ok_inv in E as ([] & s3 & E3 & E). unfold registerMetric in E3.
  apply bind_Ok_inv in E3 as ([] & s4 & E4 & [= <-]). unfold MustRegister in E4. simpl in E4.
  destruct (prom_register m q) as [|q1] eqn:Er; [done|]. injection E4 as <-.
  pose proof (prom_register_same _ _ _ Er) as [R1 R2].
  apply bind_Ok_inv in E as (v & s5 & [= <- <-] & E). simpl in E. rewrite Hm, Hv in E.
  set (c' := set_streamMetrics _ _) in E.
  exists m. destruct (Z.ltb_spec 0 (val c)) as [Hpos|Hneg].
  - destruct (prom_add_spec m (val c) q1) as (q2 & Ea & [A1 A2] & A3); [auto|lia|].
    rewrite (Add_Some field m (val c) (c', q1) q2 (Hf _ _ _) Ea) in E. injection E as <-. simpl.
    assert (prom_value m q1 = 0) as Ez by (rewrite R2; auto). rewrite Ez in A3.
    split; [done|]. split; [exists m; split_and!; auto|].
    + intros Hs. apply A3; [unfold small; lia|done].
    + split; [intros h Hh; apply A1, R1, N4, Hh|]. intros h Hh _.
      assert (m <> h) by (by intros ->).
      destruct N4 as [N5 N6]. rewrite A2 by auto. rewrite R2 by auto. auto.
  - injection E as <-. simpl. split; [done|]. split.
    + exists m. split_and!; auto. intros [Hs _]. rewrite R2 by auto. lia.
    + etransitivity; [exact N4|]. by split.
Qed.

Lemma deRegister_same c p s' :
  deRegisterStreamMetrics (c, p) = (Ok tt, s') -> s'.1 = c /\ same_values p s'.2.
Proof.
  intros [= <-]. simpl. split; [done|]. generalize (streamMetrics c). intros ms.
  revert p. induction ms as [|m ms IH]; intros p; simpl; [reflexivity|].
  etransitivity; [apply prom_unregister_same|apply IH].
Qed.

(** Chains of metric states that agree on the values. *)
Ltac values :=
  solve [reflexivity | eassumption
        | etransitivity; [eassumption|]; values ].

Lemma registerSummary_spec s s' :
  registerSummary s = (Ok tt, s') ->
  exists m, s'.1 = set_streamMetrics (streamMetrics s.1 ++ [m]) (set_latency (Some m) s.1) /\
    same_values s.2 s'.2.
Proof.
  destruct s as [c p]. unfold registerSummary. intros E.
  apply bind_Ok_inv in E as (pr & s6 & [= <- <-] & E).
  apply bind_Ok_inv in E as (lb & s6 & [= <- <-] & E).
  apply bind_Ok_inv in E as (m & s6 & E6 & E). unfold create, NewSummary in E6. simpl in E6.
  set (o := mkOpts _ _ _ _ _ _ _) in E6. pose proof (prom_new_same o p) as N.
  destruct (prom_new o p) as [m' q]. injection E6 as -> <-.
  apply bind_Ok_inv in E as ([] & s7 & [= <-] & E). unfold registerMetric in E.
  apply bind_Ok_inv in E as ([] & s8 & E8 & [= <-]). unfold MustRegister in E8. simpl in E8.
  destruct (prom_register m q) as [|q8] eqn:Er; [done|]. injection E8 as <-.
  exists m. split; [done|]. etransitivity; [exact N|].
  exact (prom_register_same _ _ _ Er).
Qed.

Lemma restored_between o v p0 p p' q :
  same_values p0 p -> same_values p' q -> restored o v p p' -> restored o v p0 q.
Proof. intros. eapply restored_earlier; [|done]. by eapply restored_later. Qed.

(** C33: after the metrics have been registered again (a reply from a server
    with another identity), each of the five counters is a new one whose
    exported value is the total the stream has kept, the totals themselves
    and every metric created before are unchanged, and six metrics have been
    appended to the ones the stream remembers (the old ones stay in the list
    although they are unregistered). *)
Theorem reregistration_restores c p c' p' :
  reRegisterStreamMetrics (c, p) = (Ok tt, (c', p')) ->
  vals c' = vals c /\ pending c' = pending c /\ same_values p p' /\
  restored (packetSent (hs c')) (packetSentVal (vals c)) p p' /\
  restored (packetSendFailed (hs c')) (packetSendFailedVal (vals c)) p p' /\
  restored (packetReceived (hs c')) (packetReceivedVal (vals c)) p p' /\
  restored (packetDropped (hs c')) (packetDroppedVal (vals c)) p p' /\
  restored (roundTrip (hs c')) (roundTripVal (vals c)) p p' /\
  length (streamMetrics c') = (length (streamMetrics c) + 6)%nat.
Proof.
  unfold reRegisterStreamMetrics. intros E.
  apply bind_Ok_inv in E as ([] & [c0 p0] & E0 & E). apply deRegister_same in E0 as [E0 S0].
  simpl in *. subst c0. unfold registerStreamMetrics in E.
  apply bind_Ok_inv in E as ([] & [c1 p1] & E1 & E).
  apply registerCounter_spec in E1 as (m1 & C1 & R1 & S1); [|done..].
  apply bind_Ok_inv in E as ([] & [c2 p2] & E2 & E).
  apply registerCounter_spec in E2 as (m2 & C2 & R2 & S2); [|done..].
  apply bind_Ok_inv in E as ([] & [c3 p3] & E3 & E).
  apply registerCounter_spec in E3 as (m3 & C3 & R3 & S3); [|done..].
  apply bind_Ok_inv in E as ([] & [c4 p4] & E4 & E).
  apply registerCounter_spec in E4 as (m4 & C4 & R4 & S4); [|done..].
  apply bind_Ok_inv in E as ([] & [c5 p5] & E5 & E).
  apply registerCounter_spec in E5 as (m5 & C5 & R5 & S5); [|done..].
  apply registerSummary_spec in E as (m6 & C6 & S6). simpl in *. subst c1 c2 c3 c4 c5 c'. simpl in *.
  split_and!; [done|done|values|..];
    try (eapply restored_between; [| |eassumption]; values).
  rewrite !length_app. simpl. lia.
Qed.
End Reply.

(** ** Concrete replies *)
Lemma ref_live (h : nat) (p : store.st) :
  Nat.ltb h (length (store.metrics p)) = true -> prom_live (h : @metric ref_PromLib) p.
Proof. apply Nat.ltb_lt. Qed.

Lemma demo_reply_metrics : reply_metrics (demo_c3 : @udpStream ref_PromLib) 5%nat 6%nat 3%nat demo_q3.
Proof.
  split; [vm_compute; reflexivity..| |].
  - apply (bool_decide_unpack _). vm_compute. exact I.
  - repeat (apply Forall_cons_2; [apply ref_live; vm_compute; reflexivity|]). apply Forall_nil_2.
Qed.

Lemma reply_accounting_witness :
  is_panic (settle_reply 2999 (mkMessage 2 3000 4000 0 100) zero_PodInfo (demo_c3, demo_q3)).1 = true /\
  exists p', settle_reply 4500 (mkMessage 2 3000 4000 0 100) zero_PodInfo (demo_c3, demo_q3) =
               (Ok true, (settled 2 1500 demo_c3, p')) /\
    prom_value (5%nat : @metric ref_PromLib) p' = 1500.
Proof.
  pose proof (fun now => reply_accounting now (mkMessage 2 3000 4000 0 100) zero_PodInfo demo_c3 demo_q3
    5%nat 6%nat 3%nat demo_reply_metrics ltac:(vm_compute; eexists; reflexivity)
    ltac:(vm_compute; reflexivity)) as Hx.
  split; [exact (Hx 2999)|]. destruct (Hx 4500) as (p' & E & _ & Hv & _).
  exists p'. split; [exact E|].
  rewrite Hv; [vm_compute; reflexivity|..]; apply (bool_decide_unpack (_ /\ _)); vm_compute; exact I.
Defined.

Lemma reregistration_restores_witness :
  exists c' p', reRegisterStreamMetrics (demo_c3, demo_q3) = (Ok tt, (c', p')) /\
    exists m, packetSent (hs c') = Some m /\ prom_value m p' = 2.
Proof.
  set (r := reRegisterStreamMetrics (demo_c3, demo_q3)).
  assert (r = (Ok tt, (r.2.1, r.2.2))) as E by (apply run_value; vm_compute; reflexivity).
  exists r.2.1, r.2.2. split; [exact E|].
  destruct (reregistration_restores demo_c3 demo_q3 _ _ E) as (_ & _ & _ & (m & Em & _ & _ & Hv) & _).
  exists m. split; [exact Em|]. etransitivity; [apply Hv|]; [|vm_compute; reflexivity].
  apply (bool_decide_unpack (_ /\ _)). vm_compute. exact I.
Defined.

(** A client that has already heard from this server. *)
Lemma moved_reply_metrics :
  reply_metrics (moved_c5 : @udpStream ref_PromLib) 11%nat 12%nat 9%nat moved_received.2.2.
Proof.
  split; [vm_compute; reflexivity..| |].
  - apply (bool_decide_unpack _). vm_compute. exact I.
  - repeat (apply Forall_cons_2; [apply ref_live; vm_compute; reflexivity|]). apply Forall_nil_2.
Qed.

Lemma request_reply_settles_witness :
  exists reply buf' s' q' cbuf' p',
    tapp.ReadFromSocket_datagram 5000 6000 "10.0.0.1" 
      (codec.enc_Message (mkMessage 2 3000 0 0 100) ++ replicate 60 Byte.xff) (replicate 200 Byte.x00)
      demo_server demo_prom = Ok (Some reply, buf', s', q') /\
    SocketRead_datagram 10002000 reply demo_buf (moved_c5, moved_received.2.2) =
      (Ok (Some 2, cbuf'), (settled 2 9999000 moved_c5, p')).
Proof.
  destruct (request_reply_settles 5000 6000 10002000 "10.0.0.1" (replicate 60 Byte.xff)
    (codec.enc_Message (mkMessage 2 3000 0 0 100)) 2 3000 100 demo_info demo_server demo_g demo_m demo_l
    demo_prom (replicate 200 Byte.x00) moved_c5 moved_received.2.2 11%nat 12%nat 9%nat demo_buf)
    as (reply & buf' & s' & q' & cbuf' & p' & E1 & E2 & _).
  - exact demo_ready.
  - apply (bool_decide_unpack _). vm_compute. exact I.
  - unfold in64. lia.
  - vm_compute. reflexivity.
  - vm_compute. reflexivity.
  - vm_compute. reflexivity.
  - vm_compute. reflexivity.
  - vm_compute. reflexivity.
  - unfold msg_ok, in64. simpl. lia.
  - reflexivity.
  - vm_compute. discriminate.
  - vm_compute. discriminate.
  - vm_compute. discriminate.
  - exact moved_reply_metrics.
  - vm_compute. eexists. reflexivity.
  - discriminate.
  - vm_compute. reflexivity.
  - vm_compute. discriminate.
  - exists reply, buf', s', q', cbuf', p'. split; [exact E1|exact E2].
Defined.
