(* ===== verification/TGenWire.v ===== *)
(** * What a stream writes, how fast, and when it gives up waiting

    The bytes of a traffic packet, whatever configurations are loaded
    meanwhile, and what they are, the pacing of the sender, and the timeouts of
    the handler, for runs in which the configuration is not reloaded. *)
From S2P Require Import Prelude GoInt Strconv GoStrings Message Metrics Reference Net Pair TApp TAppTheorems TGen TGenStep TGenProofs Ledger TGenRefine TGenInv TGenDemo TGenTheorems TGenRedial.
Import tgen stream.

Section Wire.
Context `{MsgpackLaws} `{PromLib}.

(** A packet: an encoded header and the padding computed when the goroutine
    started. *)
Definition padding (conf : config) (hl : Z) : list byte :=
  replicate (Z.to_nat (payloadSize conf hl)) Byte.xff.

(** Sizes for which no arithmetic of [StartPackets] wraps. *)
Definition sizes_ok (conf : config) (hl : Z) : Prop :=
  0 <= packetSize conf < 2 ^ 62 /\ hl < 2 ^ 62 /\ GetMessageHeaderLength = Ok hl.

(** The header in front of the base packet. *)
Definition based (conf : config) (hl : Z) (x : sender) (seq : Z) : Prop :=
  s_length x = packetSize conf /\
  exists hdr, s_base x = hdr ++ padding conf hl /\ zlen hdr = hl /\
    match s_pc x with
    | SReady _ _ | SInserted _ =>
        exists ts, in64 ts /\ marshal_Message (mkMessage seq ts 0 0 (packetSize conf)) = Some hdr
    | _ => True
    end.

(** All configurations of a run satisfy [C], with which the loads made in it,
    if any, agree. *)
Definition reloadable (C : config -> Prop) : Prop := forall k m, C k -> C (LoadBatProfileConfig m k).2.

(** The sender works with the sizes it started with. *)
Record wire_inv (C : config -> Prop) (hl : Z) (w : world) : Prop := mkWireInv {
  wi_conf : C (w_conf w);
  wi_header : msgHeaderLength (w_c w) = hl;
  wi_based : s_pc (w_snd w) <> SStart -> s_pc (w_snd w) <> SExited ->
    exists conf, C conf /\ based conf hl (w_snd w) (packetSequence (w_c w))
}.

Lemma based_pc conf hl x seq seq' pc :
  based conf hl x seq -> (match pc with SReady _ _ | SInserted _ => False | _ => True end) ->
  based conf hl (at_pc pc x) seq'.
Proof.
  intros (E & hdr & Eb & El & _) Hpc. split; [done|]. exists hdr. split_and!; try done.
  simpl. by destruct pc.
Qed.

Section Sized.
Context (C : config -> Prop) (hl : Z).
Hypothesis HC : forall conf, C conf -> in64 (packetSize conf).
Hypothesis Hh : GetMessageHeaderLength = Ok hl.

Lemma packet_based conf x seq k ts b tg :
  C conf -> based conf hl x seq -> in64 k -> in64 ts ->
  packet_bytes (s_length x) k ts (s_base x) = Some b ->
  based conf hl (mkSender (SReady tg ts) (s_length x) b (s_start x) (s_pause x)) k.
Proof.
  intros Hs%HC (E & hdr & Eb & El & _) Hk Hts Hp. split; [done|]. unfold packet_bytes in Hp. rewrite E in Hp.
  change (set_SendTimeStamp _ _) with (mkMessage k ts 0 0 (packetSize conf)) in Hp.
  destruct (marshal_Message _) as [nb|] eqn:Em; [|done]. injection Hp as <-.
  assert (msg_ok (mkMessage k ts 0 0 (packetSize conf))) as Hm
    by (unfold msg_ok, in64 in *; simpl; lia).
  pose proof (header_length_spec _ _ Hm Em) as Hl. rewrite Hh in Hl. injection Hl as Hl.
  exists nb. simpl. split_and!; [|done|eauto].
  rewrite Eb, go_copy_fits by (unfold zlen in *; rewrite length_app; lia). f_equal.
  assert (length nb = length hdr) as -> by (unfold zlen in *; lia). apply drop_app_length.
Qed.

Lemma prepare_based conf prep now n seq :
  C conf -> StartPackets_prepare conf hl = Ok prep ->
  based conf hl (mkSender (SDummy n) (Length (baseMsg prep)) (baseByteArr prep) now 0) seq.
Proof.
  intros Hs%HC E. unfold StartPackets_prepare in E.
  apply bind_outcome_Ok_inv in E as (pl & E1 & E).
  unfold GetPaddingPayload in E1. case_decide; [done|]. injection E1 as <-.
  destruct (marshal_Message _) as [nb|] eqn:Em; [|done].
  apply bind_outcome_Ok_inv in E as (iv & _ & [= <-]). split; [done|]. simpl.
  assert (msg_ok (NewMessage 0 0 (packetSize conf))) as Hm by (unfold msg_ok, in64 in *; simpl; lia).
  pose proof (header_length_spec _ _ Hm Em) as Hl. rewrite Hh in Hl. injection Hl as Hl.
  by exists nb.
Qed.

Lemma wire_sender conf x c p lb x' c' p' tpc t rd b td :
  sender_step conf x (c, p) lb x' (c', p') ->
  wire_inv C hl (mkWorld c p conf x tpc t rd b td) ->
  wire_inv C hl (mkWorld c' p' conf x' tpc t rd b td).
Proof.
  intros Hst W.
  inversion Hst; subst; unfold add_pending, drop_pending, upd, modify in *; simpl in *;
    repeat match goal with
    | E : done _ = _ |- _ => apply done_inv in E as [E _]; simpl in E
    | E : Inc _ _ = _ |- _ => apply Inc_inv in E as (? & _ & E); simpl in E
    | E : redialDestination _ _ _ _ = _ |- _ =>
        apply (within_inv same_core) in E; [|apply redialDestination_core]; injection E as ? ? ? ? ? ?; simpl in *
    | E : next_packet _ = _ |- _ => apply next_packet_inv in E as [? E]
    | E : (_, _) = (_, _) |- _ => injection E as; subst
    end; destruct W as [W1 W2 W3]; split; simpl in *; try done; try congruence; intros Hpc Hpc'.
  all: try (destruct W3 as (k & Hk & W3); [congruence..|]; exists k; split; [done|]).
  all: try (eapply based_pc; [exact W3|exact I]).
  - exists conf. split; [done|]. rename select (StartPackets_prepare _ _ = _) into E. rewrite W2 in E.
    by eapply prepare_based.
  - eapply packet_based; [done|exact W3|apply wrap64_range|done|done].
  - match goal with E : s_pc x = SReady _ _ |- _ =>
      destruct W3 as (El & hdr & Eb & Eh & Em); rewrite E in Em end.
    split; [done|]. by exists hdr.
Qed.

Lemma wire_step w lb w' :
  alone_step w lb w' -> lb <> LConf \/ reloadable C -> wire_inv C hl w -> wire_inv C hl w'.
Proof.
  intros Hst Hlb W. pose proof W as [W1 W2 W3]. destruct Hst; simpl in *.
  - by eapply wire_sender.
  - rename select (timeout_step _ _ _ _ _ _ _ _) into Hst.
    destruct (timeout_keeps _ _ _ _ _ _ _ _ _ _ Hst) as [E1 E2]. split; simpl in *; [done|congruence|by rewrite E1].
  - rename select (reader_step _ _ _ _ _ _ _) into Hst.
    destruct (reader_keeps _ _ _ _ _ _ _ _ _ Hst) as [E1 E2]. split; simpl in *; [done|congruence|by rewrite E1].
  - rename select (TearDownConnection_begin _ = _) into E.
    apply TearDownConnection_begin_inv in E as (k & m & _ & _ & [= -> ->]). by split.
  - rename select (TearDownConnection_end _ = _) into E. injection E as <- <-. by split.
  - rename select (LoadBatProfileConfig _ _ = _) into E. split; simpl; [|done|done].
    destruct Hlb as [|Hr]; [done|]. specialize (Hr conf profileMap W1). by rewrite E in Hr.
  - by split.
Qed.

Lemma wire_inv_run conf c q ls w :
  steps alone_step (started c q conf) ls w -> LConf ∉ ls \/ reloadable C ->
  C conf -> msgHeaderLength c = hl -> wire_inv C hl w.
Proof.
  intros Hr Hnc Hk Hc. revert ls w Hr Hnc.
  apply (steps_ind_r alone_step (started c q conf) (fun ls w => LConf ∉ ls \/ reloadable C -> wire_inv C hl w)); [by split|].
  intros ls w lb w' Hr IH Hst Hnc. eapply wire_step; [exact Hst| |apply IH];
    (destruct Hnc as [Hnc|]; [left; set_solver|by right]).
Qed.
End Sized.

(** The header's length is that of the library. *)
Lemma set_up_header conf c q : set_up conf c q -> GetMessageHeaderLength = Ok (msgHeaderLength c).
Proof.
  intros [a p n conf0 env c0 q0 c1 q1 q2 Hc Hp Hb He].
  apply SetupConnection_begin_inv in Hb as (Hm & _ & Hc1).
  destruct (SetupConnection_end_inv _ _ _ _ _ He Hm) as (_ & _ & Hc2).
  unfold same_core, core in *. simpl in *.
  assert (msgHeaderLength c0 = msgHeaderLength c) as <- by congruence.
  revert Hc. unfold CreateClient, newStream. destruct GetMessageHeaderLength; [|done..]. by intros [= <-].
Qed.

(** What [Atoi] reads fits in 64 bits. *)
Lemma loads_in64 : reloadable (fun conf => in64 (packetSize conf)).
Proof.
  set (Q := fun conf : config => in64 (packetSize conf)).
  assert (forall (m1 m2 : ST config unit), (forall k, Q k -> Q (m1 k).2) -> (forall k, Q k -> Q (m2 k).2) ->
    forall k, Q k -> Q ((let! _ := m1 in m2) k).2) as Hbind.
  { intros m1 m2 Hm1 Hm2 k Hk. unfold bind. specialize (Hm1 k Hk). destruct (m1 k) as [[[]|e|w] k']; [by apply Hm2|done..]. }
  assert (forall e key what store, (forall v k, in64 v -> Q k -> Q (store v k)) ->
    forall k, Q k -> Q (load_int e key what store k).2) as Hint.
  { intros e key what store Hs k Hk. unfold load_int. destruct (e !! key) as [v|]; [|done].
    unfold parseIntValue. destruct (Atoi v) as [z|] eqn:E; simpl; apply Hs; try done. by eapply Atoi_in64. }
  intros k [m|] Hk; [|done]. unfold LoadBatProfileConfig. apply Hbind; [| |done]; clear k Hk; intros k Hk.
  - unfold load_common. destruct (m !! "common") as [e|]; [|done]. destruct (e !! "suspend-traffic") as [v|]; [|done].
    unfold bind. simpl. by destruct (ParseBool v).
  - unfold load_udp. destruct (m !! tapp.UDPProtocolStr) as [e|]; [|done].
    repeat (apply Hbind; [| |done]; clear k Hk; intros k Hk); try (by apply Hint).
    destruct (e !! "socket-read-buf-size"); [by apply Hint|done].
Qed.

(** What is written is the base packet of the sender. *)
Lemma sent_label w k bs w' :
  alone_step w (LSent k bs) w' ->
  k = packetSequence (w_c w) /\ bs = s_base (w_snd w) /\ exists tg, s_pc (w_snd w) = SInserted tg.
Proof.
  intros Hst. inversion Hst as [c p conf x tpc t rd b td lb x' c' p' Hs|c p conf x tpc t rd b td lb tpc' t' c' p' Hs|
    c p conf x tpc t rd b td lb rd' b' c' p' Hs| | | | ]; subst; simpl.
  - inversion Hs; subst; eauto.
  - inversion Hs; subst. by destruct redialled.
  - inversion Hs; subst. by destruct r.
Qed.

(** What a stream writes is the encoding of a message in front of its padding,
    by a configuration that was loaded when its sender started. *)
Lemma written_packet (C : config -> Prop) conf c q ls w k bs :
  (forall conf, C conf -> in64 (packetSize conf)) ->
  set_up conf c q -> steps alone_step (started c q conf) ls w -> LConf ∉ ls \/ reloadable C -> C conf ->
  LSent k bs ∈ ls ->
  exists conf' ts hdr, C conf' /\ in64 ts /\ in64 k /\ bs = hdr ++ padding conf' (msgHeaderLength c) /\
    zlen hdr = msgHeaderLength c /\
    marshal_Message (mkMessage k ts 0 0 (packetSize conf')) = Some hdr.
Proof.
  intros HC Hu Hr Hnc Hk Hin. set (hl := msgHeaderLength c). pose proof (set_up_header _ _ _ Hu) as Hh.
  assert (exists tg x conf', s_pc x = SInserted tg /\ in64 k /\ bs = s_base x /\ C conf' /\ based conf' hl x k)
    as (tg & x & conf' & Hpc & Hk' & -> & HCc & _ & hdr & Eb & El & Em).
  { revert ls w Hr Hnc Hin. apply (steps_ind_r alone_step (started c q conf)
      (fun ls w => LConf ∉ ls \/ reloadable C -> LSent k bs ∈ ls -> _)); [set_solver|].
    intros ls w lb w' Hr IH Hst Hnc. assert (LConf ∉ ls \/ reloadable C) as Hnc0 by (destruct Hnc; [left; set_solver|by right]).
    intros [Hin|Hin%list_elem_of_singleton]%elem_of_app; [by apply IH|]. subst lb.
    destruct (sent_label _ _ _ _ Hst) as (-> & -> & tg & Hpc).
    destruct (started_run c q conf ls w (set_up_unused _ _ _ Hu) Hr) as [_ [N _ _]].
    destruct (wi_based _ _ _ (wire_inv_run C hl HC Hh conf c q ls w Hr Hnc0 Hk eq_refl)) as (conf' & HC' & Hb); [by rewrite Hpc..|].
    exists tg, (w_snd w), conf'. split_and!; try done; unfold in64; lia. }
  rewrite Hpc in Em. destruct Em as (ts & Hts & Em).
  by exists conf', ts, hdr.
Qed.

(** C21: every packet a stream writes is the encoding of its own sequence
    number, of the time it was numbered and of the configured size, padded
    with 0xff bytes to exactly that size, or to one more than twice the
    header when the configured size does not hold the header. *)
Theorem packets_on_the_wire conf c q ls w k bs :
  set_up conf c q -> steps alone_step (started c q conf) ls w -> LConf ∉ ls ->
  sizes_ok conf (msgHeaderLength c) -> LSent k bs ∈ ls ->
  exists ts hdr, in64 ts /\ bs = hdr ++ padding conf (msgHeaderLength c) /\
    zlen hdr = msgHeaderLength c /\
    unmarshal_Message hdr = (mkMessage k ts 0 0 (packetSize conf), false) /\
    zlen bs = (if msgHeaderLength c <=? packetSize conf then packetSize conf
               else 2 * msgHeaderLength c + 1).
Proof.
  intros Hu Hr Hnc Hok Hin.
  destruct (written_packet (eq conf) conf c q ls w k bs) as (? & ts & hdr & <- & Hts & Hk & Eb & El & Em); try done;
    [by intros ? <-; destruct Hok; unfold in64; lia|by left|].
  set (hl := msgHeaderLength c) in *. destruct Hok as (Hs1 & Hs2 & Hh).
  pose proof (header_length_pos _ Hh) as Hpos.
  assert (msg_ok (mkMessage k ts 0 0 (packetSize conf))) as Hm
    by (unfold msg_ok, in64 in *; simpl; lia).
  pose proof (unmarshal_marshal_Message _ _ [] Hm Em) as Hd. rewrite app_nil_r in Hd.
  exists ts, hdr. split_and!; try done.
  rewrite Eb. unfold zlen in *. rewrite length_app. unfold padding. rewrite length_replicate.
  unfold payloadSize, sub64, add64. rewrite (wrap64_id (packetSize conf - hl)) by (unfold in64; lia).
  rewrite wrap64_id by (unfold in64; lia). destruct (Z.ltb_spec (packetSize conf - hl) 0); destruct (Z.leb_spec hl (packetSize conf)); lia.
Qed.

(** The preparations of the sender panic exactly when the configured send
    rate is 0 (an integer division), and return otherwise. *)
Lemma preparations_panic_iff conf hl :
  sizes_ok conf hl -> in64 (sendRate conf) ->
  is_panic (StartPackets_prepare conf hl) = bool_decide (sendRate conf = 0) /\
  is_ok (StartPackets_prepare conf hl) = bool_decide (sendRate conf <> 0).
Proof.
  intros (Hs1 & Hs2 & Hh) Hr. unfold StartPackets_prepare, GetPaddingPayload.
  pose proof (header_length_pos _ Hh) as Hpos.
  assert (0 <= payloadSize conf hl) as Hsz.
  { unfold payloadSize, sub64, add64. rewrite (wrap64_id (packetSize conf - hl)) by (unfold in64; lia).
    rewrite wrap64_id by (unfold in64; lia). destruct (Z.ltb_spec (packetSize conf - hl) 0); lia. }
  rewrite decide_False by lia. simpl.
  assert (msg_ok (NewMessage 0 0 (packetSize conf))) as Hm by (unfold msg_ok, in64; simpl; lia).
  destruct (marshal_Message_total _ Hm) as [b ->]. unfold div64.
  destruct (decide (sendRate conf = 0)) as [E|E]; simpl; split; symmetry;
    first [by apply bool_decide_eq_true_2 | apply bool_decide_eq_false_2; tauto].
Qed.
End Wire.

Section Timing.
Context `{Msgpack} `{PromLib}.

(** The timeout handler works with the timeout it starts with. *)
Definition timeout_of (w : world) : Z :=
  match w_tpc w with
  | TStart => SecToMicroSec (packetTimeout (w_conf w))
  | _ => packetTimeoutinMicros (w_t w)
  end.

Lemma timeout_step_timeout conf c p x tpc t rd b td lb tpc' t' c' p' :
  timeout_step conf tpc t (c, p) lb tpc' t' (c', p') ->
  timeout_of (mkWorld c' p' conf x tpc' t' rd b td) = timeout_of (mkWorld c p conf x tpc t rd b td).
Proof.
  intros Hst. unfold timeout_of. inversion Hst; subst; simpl; try done.
  - destruct_or!; destruct_and?; by subst.
  - rename select (timeout_turn _ _ _ = _) into E. apply timeout_turn_inv in E.
    by destruct E as (ts & m & _ & _ & -> & _).
  - rename select (timeout_turn _ _ _ = _) into E. apply timeout_turn_inv in E.
    by destruct E as (ts & _ & _ & -> & _).
  - rename select (timeout_turn _ _ _ = _) into E. unfold timeout_turn in E.
    apply bind_Ok_inv in E as (r & s1 & [= <- <-] & E). simpl in E.
    destruct (pending _ !! _).
    + destruct (_ <? _); [|done]. by apply bind_Ok_inv in E as ([] & s2 & _ & E).
    + injection E as <- _ _. destruct (decide _), (0 <? timedoutPktCount t); done.
  - rename select (after_drop _ _ _ _ _ _ = _) into E. by apply after_drop_inv in E as (_ & _ & _ & _ & ->).
Qed.

Lemma timing_step w lb w' :
  alone_step w lb w' -> lb <> LConf -> w_conf w' = w_conf w /\ timeout_of w' = timeout_of w.
Proof. intros Hst Hlb. destruct Hst; simpl; try done. split; [done|]. by eapply timeout_step_timeout. Qed.

Lemma timing_run conf c q ls w :
  steps alone_step (started c q conf) ls w -> LConf ∉ ls ->
  w_conf w = conf /\ timeout_of w = SecToMicroSec (packetTimeout conf).
Proof.
  revert ls w. apply (steps_ind_r alone_step (started c q conf) (fun ls w => LConf ∉ ls -> _ /\ _)); [done|].
  intros ls1 w1 lb w2 _ IH Hs Hn. destruct (IH ltac:(set_solver)) as [<- <-].
  eapply timing_step; [exact Hs|set_solver].
Qed.

(** C31: no request is dropped early. When one is dropped it is pending, the
    clock reads more than the configured timeout past the time it was
    numbered, and the drop removes it and counts it once. *)
Theorem no_early_drop conf c q ls w now k w' :
  set_up conf c q -> steps alone_step (started c q conf) ls w -> LConf ∉ ls ->
  - maxSec <= packetTimeout conf <= maxSec -> alone_step w (LDropped now k) w' ->
  exists ts, pending (w_c w) !! k = Some ts /\ packetTimeout conf * 1000000 < sub64 now ts /\
    pending (w_c w') = delete k (pending (w_c w)) /\
    packetDroppedVal (vals (w_c w')) = f64_add (packetDroppedVal (vals (w_c w))) 1.
Proof.
  intros Hu Hr Hnc Hmax Hst.
  destruct (timing_run conf c q ls w Hr Hnc) as [_ T]. unfold timeout_of in T.
  rewrite <- SecToMicroSec_small by done.
  inversion Hst as [? ? ? ? ? ? ? ? ? ? ? ? ? Hs|? ? ? ? ? ? ? ? ? ? ? ? ? ? Hs|? ? ? ? ? ? ? ? ? ? ? ? ? ? Hs| | | | ];
    subst; simpl in *.
  - inversion Hs.
  - inversion Hs; subst; [|by destruct redialled].
    rename select (timeout_turn _ _ _ = _) into E. apply timeout_turn_inv in E.
    destruct E as (ts & m & Hp & Hlt & _ & _ & [= -> ->]). exists ts.
    rewrite T in Hlt by done. done.
  - inversion Hs; subst. by destruct r.
Qed.
End Timing.

(** ** Pacing *)

(** C35: the number of packets due follows the clock: after [e] microseconds
    of unpaused time it is [e * rate] per million, rounded down, so every
    further second makes exactly [rate] more packets due; this holds as long
    as [e * rate] fits an int64 (at the default rate of 500, for more than
    500 years; at a million packets a second, for 106 days). *)
Theorem pacing now start pausePeriod rate :
  let e := now - start - pausePeriod in
  in64 (now - start) -> 0 <= e -> 0 <= rate -> (e + 1000000) * rate < 2 ^ 63 ->
  in64 (now + 1000000 - start) -> e + 1000000 < 2 ^ 63 ->
  targetSeq now start pausePeriod rate = e * rate / 1000000 /\
  targetSeq (now + 1000000) start pausePeriod rate = targetSeq now start pausePeriod rate + rate.
Proof.
  intros e Hin He Hr Hb Hin' Hb'.
  assert (forall n, 0 <= n - start - pausePeriod -> in64 (n - start) ->
            n - start - pausePeriod < 2 ^ 63 -> (n - start - pausePeriod) * rate < 2 ^ 63 ->
            targetSeq n start pausePeriod rate = (n - start - pausePeriod) * rate / 1000000) as Hf.
  { intros n Hn Hn1 Hn2 Hn3. unfold targetSeq, sub64, mul64.
    rewrite (wrap64_id (n - start)) by done.
    rewrite (wrap64_id (n - start - pausePeriod)) by (unfold in64; lia).
    rewrite (wrap64_id (_ * rate)) by (unfold in64; nia).
    rewrite Z.quot_div_nonneg by nia. apply wrap64_id. unfold in64.
    pose proof (Z.div_pos ((n - start - pausePeriod) * rate) 1000000).
    pose proof (Z.div_le_upper_bound ((n - start - pausePeriod) * rate) 1000000
                  ((n - start - pausePeriod) * rate)). nia. }
  rewrite !Hf by (done || lia || nia). split; [done|].
  replace ((now + 1000000 - start - pausePeriod) * rate) with (e * rate + rate * 1000000) by (subst e; lia).
  rewrite Z.div_add by lia. subst e. lia.
Qed.

(** ** Concrete instances *)
Lemma demo_sizes : sizes_ok demo_conf 40.
Proof. split; [simpl; lia|]. split; [lia|]. vm_compute. reflexivity. Qed.

Lemma packets_on_the_wire_witness :
  exists ts hdr, demo_base2 = hdr ++ replicate 60 Byte.xff /\
    unmarshal_Message hdr = (mkMessage 2 ts 0 0 100, false) /\ zlen demo_base2 = 100.
Proof.
  destruct (packets_on_the_wire demo_conf demo_c demo_q demo_labels demo_w4 2 demo_base2 demo_set_up stream_run)
    as (ts & hdr & _ & E & _ & Hd & Hz).
  - unfold demo_labels, demo_labels_sent, demo_labels_dropped. set_solver.
  - assert (msgHeaderLength demo_c = 40) as -> by (vm_compute; reflexivity). exact demo_sizes.
  - unfold demo_labels, demo_labels_sent. set_solver.
  - exists ts, hdr. split; [exact E|]. split; [exact Hd|exact Hz].
Defined.

Definition wire_locked : world :=
  mkWorld moved_c5 moved_received.2.2 demo_conf (demo_sender (SSend demo_target) demo_base3) TLocked demo_t2
    RHead moved_buf DIdle.
Definition wire_dropped : world :=
  mkWorld moved_dropped.2.1 moved_dropped.2.2 demo_conf (demo_sender (SSend demo_target) demo_base3)
    TAfterDrop moved_t6 RHead moved_buf DIdle.

Lemma wire_run :
  steps alone_step (started demo_c demo_q demo_conf)
    ((demo_labels_sent ++ demo_labels_dropped ++ [LTau; LTau; LSent 3 demo_base3; LTau; LTau] ++
     [LTau; LReceived 3]) ++ [LTau]) wire_locked.
Proof.
  eapply steps_snoc.
  - eapply steps_app; [exact demo_sends|]. eapply steps_app; [exact demo_drops|].
    eapply steps_app; [exact moved_sends|exact moved_receives].
  - apply step_timeout, tmo_next; now vm_compute.
Qed.

Lemma no_early_drop_witness :
  exists ts, pending (w_c wire_locked) !! 2 = Some ts /\ 5 * 1000000 < sub64 10003001 ts.
Proof.
  destruct (no_early_drop demo_conf demo_c demo_q _ wire_locked 10003001 2 wire_dropped demo_set_up wire_run)
    as (ts & E & Hlt & _).
  - unfold demo_labels_sent, demo_labels_dropped. set_solver.
  - unfold maxSec. simpl. lia.
  - apply step_timeout, (tmo_dropped _ 10003001 demo_t2 moved_t6).
    apply (run_value _ moved_dropped). vm_compute. reflexivity.
  - exists ts. split; [exact E|exact Hlt].
Defined.

Lemma pacing_witness : targetSeq 3000000 1000000 500000 500 = 750 /\ targetSeq 4000000 1000000 500000 500 = 1250.
Proof.
  destruct (pacing 3000000 1000000 500000 500) as [E1 E2]; try (unfold in64; lia).
  split; [exact E1|]. change 4000000 with (3000000 + 1000000). rewrite E2, E1. reflexivity.
Defined.
