(* ===== verification/TGenTimeouts.v ===== *)
(** * The sweep of HandleTimeouts (pkg/tgen/udp.go)

    That requests do not time out early is shown in TGenWire; here, that they
    do time out: left to itself, with the clock past all of their times, the
    handler drops what is pending, one by one and in order, whether or not it
    redials in between, and whatever has been loaded and answered before.  Its loop stops short of the request numbered last. *)
From S2P Require Import Prelude GoInt Strconv Message Metrics Reference Net Pair TApp TAppTheorems TGen TGenStep TGenProofs Ledger TGenRefine TGenInv TGenDemo TGenTheorems TGenRedial TGenWire.
Import tgen stream.
#[local] Open Scope Z_scope.

Section Timeouts.
Context `{Msgpack} `{PromLib}.

(** The handler leaves its loop only when it is told to. *)
Definition exits_when_stopped (w : world) : Prop :=
  world_ok w /\ (w_tpc w = TExited -> stop (w_c w) = true).

Lemma step_exits w lb w' : exits_when_stopped w -> alone_step w lb w' -> exits_when_stopped w'.
Proof.
  intros [Hok He] Hst. split; [by eapply alone_ok|]. pose proof (ok_equipped _ Hok) as Heq.
  destruct Hst; simpl in *; try done.
  - rename select (sender_step _ _ _ _ _ _) into Hs.
    by destruct (sender_flags _ _ _ _ _ _ _ _ Hs Heq) as (_ & -> & _).
  - rename select (timeout_step _ _ _ _ _ _ _ _) into Hs. intros ->.
    destruct (timeout_flags _ _ _ _ _ _ _ _ _ _ Hs Heq) as (_ & -> & _). inversion Hs; subst; try done.
    by case_decide.
  - rename select (reader_step _ _ _ _ _ _ _) into Hs.
    by destruct (reader_flags _ _ _ _ _ _ _ _ _ Hs Heq) as (_ & -> & _).
  - rename select (TearDownConnection_begin _ = _) into E.
    by apply TearDownConnection_begin_inv in E as (k & m & _ & _ & [= -> ->]).
  - rename select (TearDownConnection_end _ = _) into E. by injection E as <- <-.
Qed.

Lemma run_exits conf c q ls w : set_up conf c q -> steps alone_step (started c q conf) ls w -> exits_when_stopped w.
Proof.
  intros Hu Hr. refine (steps_invariant alone_step exits_when_stopped _ _ step_exits ls w Hr).
  split; [by apply (started_ok conf)|done].
Qed.

(** A step of the handler by a clock that shows [T] or later where the handler
    decides on a request. *)
Inductive sweep_step (T : Z) : world -> label -> world -> Prop :=
| sweep_turn c p conf x t rd b td now tn t' c' p' :
    T <= now < 2 ^ 63 -> timeout_turn now t (c, p) = (Ok (tn, t'), (c', p')) ->
    sweep_step T (mkWorld c p conf x TLocked t rd b td)
      (match tn with TurnDropped => LDropped now (seq t) | _ => LTau end)
      (mkWorld c' p' conf x
         (match tn with
          | TurnDropped => TAfterDrop
          | TurnWait => THead
          | TurnAbsent => if decide (seq t' = packetSequence c') then THead else TInner
          end) t' rd b td)
| sweep_other c p conf x tpc t rd b td lb tpc' t' c' p' :
    tpc <> TLocked -> timeout_step conf tpc t (c, p) lb tpc' t' (c', p') ->
    sweep_step T (mkWorld c p conf x tpc t rd b td) lb (mkWorld c' p' conf x tpc' t' rd b td).

Lemma sweep_step_timeout T w lb w' :
  sweep_step T w lb w' ->
  timeout_step (w_conf w) (w_tpc w) (w_t w) (w_c w, w_p w) lb (w_tpc w') (w_t w') (w_c w', w_p w').
Proof.
  destruct 1 as [? ? conf ? t ? ? ? now tn t' c' p' _ E|]; [|done]. simpl.
  destruct tn; [by apply tmo_dropped|by eapply tmo_wait|exact (tmo_absent conf now t t' _ _ E)].
Qed.

Lemma sweep_step_step T w lb w' : sweep_step T w lb w' -> alone_step w lb w'.
Proof. intros Hst. pose proof (sweep_step_timeout _ _ _ _ Hst). by destruct Hst; apply step_timeout. Qed.

(** What is pending from number [n] on. *)
Definition from (n : Z) (P : gmap Z Z) : gmap Z Z := filter (fun kv : Z * Z => n <= kv.1) P.

Lemma from_delete n (P : gmap Z Z) : delete n (from n P) = from (n + 1) P.
Proof.
  apply map_eq. intros k. destruct (decide (k = n)) as [->|Hne].
  - rewrite lookup_delete_eq. symmetry. apply map_lookup_filter_None. right. simpl. lia.
  - rewrite lookup_delete_ne by done. apply option_eq. intros ts.
    unfold from. rewrite !map_lookup_filter_Some. simpl. naive_solver lia.
Qed.

Lemma from_next n (P : gmap Z Z) : from n P !! n = None -> from n P = from (n + 1) P.
Proof. intros Hn. rewrite <- from_delete. symmetry. by apply delete_id. Qed.

Lemma from_all n (P : gmap Z Z) : (forall k, is_Some (P !! k) -> n <= k) -> from n P = P.
Proof. intros Hn. apply map_filter_id. intros k ts Hk. apply Hn. by eexists. Qed.

Lemma from_same n m (P : gmap Z Z) :
  (forall k, is_Some (P !! k) -> n <= k /\ m <= k) -> from n P = from m P.
Proof. intros Hn. by rewrite !from_all by naive_solver. Qed.

(** ** The sweep

    From a state with [P] pending and [N] numbered, [total] being what was
    dropped and what may be. *)
Section Sweep.
Context (T N total d : Z) (P : gmap Z Z).
Hypothesis HN : 0 <= N < 2 ^ 63.
Hypothesis HT : 0 <= T < 2 ^ 63.
Hypothesis Htotal : total <= 2 ^ 53.
Hypothesis HP : forall k, is_Some (P !! k) -> 1 <= k <= N.
Hypothesis Hlate : forall k ts, P !! k = Some ts ->
  0 <= ts <= T /\ ts + d < T.

Record sweeping (w : world) : Prop := mkSweeping {
  sw_timeout : timeout_of w = d;
  sw_equipped : equipped (w_c w);
  sw_stop : stop (w_c w) = false;
  sw_running : w_tpc w <> TExited;
  sw_numbered : packetSequence (w_c w) = N;
  sw_seq : 1 <= seq (w_t w) <= Z.max 1 N;
  sw_start : w_tpc w = TStart -> seq (w_t w) = 1;
  sw_locked : w_tpc w = TLocked -> seq (w_t w) < N;
  sw_pending : pending (w_c w) = from (seq (w_t w)) P;
  sw_dropped : 0 <= packetDroppedVal (vals (w_c w)) /\
    packetDroppedVal (vals (w_c w)) + Z.of_nat (size (pending (w_c w))) = total
}.

Definition turns_left (pc : timeout_pc) : nat :=
  match pc with TStart => 4 | THead => 3 | TInner => 2 | TLocked => 1 | TAfterDrop => 3 | TExited => 0 end.
Definition sweep_left (w : world) : nat :=
  5 * Z.to_nat (N - seq (w_t w)) + turns_left (w_tpc w).

(** Once the cursor is there, only the last request may be left. *)
Lemma sweep_end w : sweeping w -> N <= seq (w_t w) -> pending (w_c w) = from N P.
Proof.
  intros Hw Hn. rewrite (sw_pending _ Hw). pose proof (sw_seq _ Hw).
  destruct (decide (N = 0)) as [->|]; [|f_equal; lia].
  apply from_same. intros k Hk. specialize (HP k Hk). lia.
Qed.

Lemma late_turn c p t now tn t' c' p' :
  T <= now < 2 ^ 63 -> timeout_turn now t (c, p) = (Ok (tn, t'), (c', p')) ->
  packetTimeoutinMicros t = d ->
  pending c = from (seq t) P -> tn <> TurnWait.
Proof.
  intros Hn E Ht Hp ->. apply timeout_turn_inv in E as (ts & Hts & Hle & _). simpl in Hts.
  rewrite Hp in Hts. apply map_lookup_filter_Some in Hts as [Hts _]. apply Hlate in Hts as [Hts0 Hts1].
  rewrite Ht in Hle. unfold sub64 in Hle. rewrite wrap64_id in Hle by (unfold in64; lia). lia.
Qed.

Lemma sweep_progress w : sweeping w -> seq (w_t w) < N -> exists lb w', sweep_step T w lb w'.
Proof.
  intros [_ He Hs Hx Hn Hq _ _ _ _] Hlt. destruct w as [c p cf x tpc t rd b td]; simpl in *.
  destruct tpc; try done.
  - do 2 eexists. by eapply sweep_other; [|apply tmo_start].
  - do 2 eexists. by eapply sweep_other; [|apply tmo_enter].
  - do 2 eexists. by eapply sweep_other; [|apply tmo_next; [lia|]].
  - destruct (timeout_turn_returns T t c p He) as (tn & t' & c' & p' & E).
    do 2 eexists. eapply sweep_turn; [|exact E]. lia.
  - destruct (after_drop_down cf t (c, p)) as (r & t' & E).
    do 2 eexists. by eapply sweep_other; [|eapply tmo_after_drop].
Qed.
Lemma sweep_turn_keeps conf c p x t rd b td now tn t' c' p' :
  T <= now < 2 ^ 63 -> timeout_turn now t (c, p) = (Ok (tn, t'), (c', p')) ->
  let w := mkWorld c p conf x TLocked t rd b td in
  let tpc' := match tn with
    | TurnDropped => TAfterDrop | TurnWait => THead
    | TurnAbsent => if decide (seq t' = packetSequence c') then THead else TInner end in
  let w' := mkWorld c' p' conf x tpc' t' rd b td in
  sweeping w -> timeout_of w' = d -> equipped c' -> stop c' = false ->
  sweeping w' /\ (sweep_left w' < sweep_left w)%nat.
Proof.
  intros Hnow E w tpc' w' [Ht _ _ _ Hn Hq _ Hl Hp [Hd0 Hd]] Hti He Hs. simpl in *.
  specialize (Hl eq_refl).
  pose proof (late_turn _ _ _ _ _ _ _ _ Hnow E Ht Hp) as Hw.
  apply timeout_turn_inv in E. simpl in E. subst w w' tpc'. unfold sweep_left. simpl.
  destruct tn; [| |destruct E as (Hnone & Es & [= -> ->])]; [|done|].
  - destruct E as (ts & m & Hts & _ & -> & _ & [= -> ->]). simpl in *.
    assert (add64 (seq t) 1 = seq t + 1) as Ea by (apply wrap64_id; unfold in64; lia).
    pose proof (size_delete_Z (pending c) (seq t) ltac:(by eexists)) as Hsz.
    split; [split; simpl; rewrite ?Ea; try done; try lia|rewrite Ea; lia].
    + by rewrite Hp, from_delete.
    + rewrite f64_add_1 by lia. assert (pending (set_pending (delete (seq t) (pending c)) (add_dropped c)) = delete (seq t) (pending c)) as -> by reflexivity. lia.
  - assert (seq t' = seq t + 1) as Ea by (rewrite Es; apply wrap64_id; unfold in64; lia).
    assert (pending c = from (seq t + 1) P) as Hp' by (rewrite Hp in Hnone |- *; by apply from_next).
    split; [split; simpl; rewrite ?Ea; try done; try lia|]; repeat case_decide; simpl; done || lia.
Qed.

Lemma sweep_other_keeps conf c p x tpc t rd b td lb tpc' t' c' p' :
  tpc <> TLocked -> timeout_step conf tpc t (c, p) lb tpc' t' (c', p') ->
  let w := mkWorld c p conf x tpc t rd b td in
  let w' := mkWorld c' p' conf x tpc' t' rd b td in
  sweeping w -> seq t < N -> timeout_of w' = d -> equipped c' -> stop c' = false ->
  sweeping w' /\ (sweep_left w' < sweep_left w)%nat.
Proof.
  intros Hpc Hst w w' [Ht _ Hs0 Hx Hn Hq Hst0 Hl Hp [Hd0 Hd]] Hlt Hti He Hs.
  subst w w'. unfold sweep_left. inversion Hst; subst; simpl in *; try done; try congruence; try lia.
  - specialize (Hst0 eq_refl). rewrite Hst0 in *. split; [by split|lia].
  - split; [by split|lia].
  - split; [by split|lia].
  - rename select (after_drop _ _ _ _ _ _ = _) into E.
    apply after_drop_inv in E as (Eq & [= E1 E2 E3 _ _ _] & _). simpl in *.
    split; [split; simpl; rewrite ?Eq, <- ?E1, <- ?E2, <- ?E3; done|rewrite Eq; lia].
Qed.

Lemma sweep_keeps w lb w' :
  sweeping w -> seq (w_t w) < N -> sweep_step T w lb w' ->
  sweeping w' /\ (sweep_left w' < sweep_left w)%nat.
Proof.
  intros Hw Hlt Hst. pose proof (sweep_step_timeout _ _ _ _ Hst) as Ht.
  destruct (timeout_flags _ _ _ _ _ _ _ _ _ _ Ht (sw_equipped _ Hw)) as (He & Hs & _).
  rewrite (sw_stop _ Hw) in Hs.
  assert (timeout_of w' = d) as Hti.
  { rewrite <- (sw_timeout _ Hw). eapply timing_step; [by eapply sweep_step_step|].
    intros ->. inversion Ht. by destruct redialled. }
  destruct Hst; simpl in *; subst; [by eapply sweep_turn_keeps|by eapply sweep_other_keeps].
Qed.
End Sweep.

(** C32: requests do time out. Whatever a running stream has pending, and
    whatever configurations were loaded and datagrams received on the way, once
    the clock is past every request's time by the timeout the handler works
    with (that of the configuration it started with, or is about to start with;
    the configured one where none has been loaded since) the handler's own
    steps lead, with any outcome of the redials it makes on the way, to a state
    in which all of them have been dropped, each counted once; only a request
    that nothing has been numbered after stays pending, however late it is. *)
Theorem timeouts_swept conf c q ls w T :
  set_up conf c q -> steps alone_step (started c q conf) ls w ->
  stop (w_c w) = false -> packetSequence (w_c w) <= 2 ^ 53 -> 0 <= T < 2 ^ 63 ->
  (forall k ts, pending (w_c w) !! k = Some ts -> 0 <= ts <= T /\ ts + timeout_of w < T) ->
  let kept := from (packetSequence (w_c w)) (pending (w_c w)) in
  (LConf ∉ ls -> timeout_of w = SecToMicroSec (packetTimeout conf)) /\
  inevitable (sweep_step T) (fun _ w' =>
    pending (w_c w') = kept /\
    packetDroppedVal (vals (w_c w')) = packetDroppedVal (vals (w_c w)) +
      (Z.of_nat (size (pending (w_c w))) - Z.of_nat (size kept))) [] w.
Proof.
  intros Hu Hr Hs H53 HT Hlate kept. split; [intros Hnc; by apply (timing_run conf c q ls)|].
  destruct (started_run c q conf ls w (set_up_unused _ _ _ Hu) Hr) as [Hl Hsane].
  destruct (run_exits conf c q ls w Hu Hr) as [Hok Hx].
  pose proof (ledger_run_inv _ _ Hl) as Hinv.
  destruct (ledger_run_room _ _ Hl H53) as (Hb2 & Hb4). simpl in *.
  pose proof (li_cursor _ _ Hinv) as Hcur. pose proof (li_pending _ _ Hinv) as Hpend.
  pose proof (li_locked _ _ Hinv) as Hlock. simpl in *.
  set (N := packetSequence (w_c w)) in *. set (P := pending (w_c w)) in *.
  set (total := packetDroppedVal (vals (w_c w)) + Z.of_nat (size P)).
  assert (0 <= N < 2 ^ 63) as HN by apply Hsane.
  assert (total <= 2 ^ 53) as Htot by (unfold total; lia).
  assert (forall k, is_Some (P !! k) -> 1 <= k <= N) as HP by (intros k Hk%Hpend; lia).
  apply (inevitable_until (sweep_step T) _ (fun _ => sweeping N total (timeout_of w) P) (sweep_left N)).
  - intros _ w1 Hw1. destruct (decide (N <= seq (w_t w1))) as [Hend|Hgo].
    + left. assert (pending (w_c w1) = kept) as E by (by eapply sweep_end). split; [exact E|].
      pose proof (proj2 (sw_dropped _ _ _ _ _ Hw1)) as Hd. rewrite E in Hd. unfold total in Hd. lia.
    + right. apply Z.nle_gt in Hgo. split; [by eapply sweep_progress|].
      intros lb w2 Hst. by eapply sweep_keeps.
  - split; try done.
    + apply Hok.
    + intros E. by rewrite (Hx E) in Hs.
    + apply Hsane.
    + intros E. apply Hlock. by rewrite E.
    + symmetry. apply from_all. intros k Hk%Hpend. lia.
Qed.
End Timeouts.

(** The second request of [wire_run] is pending and late, the third answered,
    and a longer timeout has been loaded since the handler started. *)
Definition reloaded (m : option (gmap string (gmap string string))) (w : world) : world :=
  mkWorld (w_c w) (w_p w) (LoadBatProfileConfig m (w_conf w)).2 (w_snd w) (w_tpc w) (w_t w) (w_rd w) (w_buf w) (w_td w).
Lemma reload_step m w : alone_step w LConf (reloaded m w).
Proof. destruct w as [c p k x tpc t rd b td]. apply (step_conf m (LoadBatProfileConfig m k).1), surjective_pairing. Qed.

Definition swept_world : world := reloaded (Some {["udp" := {["packet-timeout" := "60"]}]}) wire_locked.
Definition swept_labels : list label :=
  ((demo_labels_sent ++ demo_labels_dropped ++ [LTau; LTau; LSent 3 demo_base3; LTau; LTau] ++
   [LTau; LReceived 3]) ++ [LTau]) ++ [LConf].
Lemma swept_run : steps alone_step (started demo_c demo_q demo_conf) swept_labels swept_world.
Proof. eapply steps_snoc; [exact wire_run|apply reload_step]. Qed.

Lemma timeouts_swept_witness :
  packetTimeout (w_conf swept_world) = 60 /\
  inevitable (sweep_step 20000000) (fun _ w' =>
    pending (w_c w') = ∅ /\ packetDroppedVal (vals (w_c w')) = 2) [] swept_world.
Proof.
  split; [vm_compute; reflexivity|].
  assert (pending (w_c swept_world) = {[2 := 3000]}) as Ep by (vm_compute; reflexivity).
  pose proof (timeouts_swept demo_conf demo_c demo_q swept_labels swept_world 20000000 demo_set_up swept_run) as Hx.
  rewrite Ep in Hx.
  assert (packetSequence (w_c swept_world) = 3) as En by (vm_compute; reflexivity). rewrite En in Hx.
  assert (packetDroppedVal (vals (w_c swept_world)) = 1) as Ed by (vm_compute; reflexivity). rewrite Ed in Hx.
  apply Hx.
  - vm_compute. reflexivity.
  - lia.
  - lia.
  - intros k ts [<- <-]%lookup_singleton_Some.
    assert (timeout_of swept_world = 5000000) as -> by (vm_compute; reflexivity). lia.
Defined.
