(* ===== verification/TGenConfig.v ===== *)
(** * Loading the profile into the running generator

    [LoadBatProfileConfig] writes the one configuration all running streams
    share: what it holds after a load that succeeds, and after one that fails. *)
From S2P Require Import Prelude GoInt Strconv TApp TGen.
Import tgen.

(** An integer entry: its value, or the old one when it is absent. *)
Definition int_setting (e : gmap string string) (key : string) (old : Z) : Z :=
  match e !! key with Some v => default (-1) (Atoi v) | None => old end.
Definition int_wellformed (e : gmap string string) (key : string) : Prop :=
  forall v, e !! key = Some v -> is_Some (Atoi v).

Definition udp_keys : list string :=
  ["socket-read-buf-size"; "send-rate"; "packet-size"; "packet-timeout"; "redial-timeout"].

Definition suspend_of (pm : gmap string (gmap string string)) (old : bool) : option bool :=
  match pm !! "common" with
  | Some e => match e !! "suspend-traffic" with Some v => ParseBool v | None => Some old end
  | None => Some old
  end.

(** What a profile asks for. *)
Definition configured (pm : gmap string (gmap string string)) (b : bool) (c : config) : config :=
  match pm !! tapp.UDPProtocolStr with
  | None => set_suspendTraffic b c
  | Some e =>
      mkConfig (int_setting e "socket-read-buf-size" (512 * 1024)) (int_setting e "send-rate" (sendRate c))
        (int_setting e "packet-size" (packetSize c)) (int_setting e "packet-timeout" (packetTimeout c))
        (int_setting e "redial-timeout" (redialTimeout c)) b
  end.

Lemma load_int_ok e key what store c :
  int_wellformed e key ->
  load_int e key what store c =
    (Ok tt, match e !! key with Some v => store (default (-1) (Atoi v)) c | None => c end).
Proof.
  intros Hw. unfold load_int. destruct (e !! key) as [v|] eqn:E; [|done].
  destruct (Hw v E) as [n Hn]. unfold parseIntValue. by rewrite Hn.
Qed.

Lemma load_int_bad e key what store c v :
  e !! key = Some v -> Atoi v = None ->
  exists err, load_int e key what store c = (Err err, store (-1) c).
Proof. intros E Hn. unfold load_int, parseIntValue. rewrite E, Hn. by eexists. Qed.

Lemma load_common_ok pm c b :
  suspend_of pm (suspendTraffic c) = Some b -> load_common pm c = (Ok tt, set_suspendTraffic b c).
Proof.
  unfold suspend_of, load_common.
  destruct (pm !! "common") as [e|]; [|by intros [= <-]; destruct c].
  destruct (e !! "suspend-traffic") as [v|]; [|by intros [= <-]; destruct c].
  intros E. unfold bind. simpl. by rewrite E.
Qed.

Lemma load_first_ok e c :
  int_wellformed e "socket-read-buf-size" ->
  match e !! "socket-read-buf-size" with
  | Some _ => load_int e "socket-read-buf-size" "udp-socket-read-buf-size" set_socketReadBufSize
  | None => modify (set_socketReadBufSize (512 * 1024))
  end c = (Ok tt, set_socketReadBufSize (int_setting e "socket-read-buf-size" (512 * 1024)) c).
Proof.
  intros Hw. unfold int_setting. destruct (e !! "socket-read-buf-size") as [v|] eqn:E; [|done].
  rewrite load_int_ok by done. by rewrite E.
Qed.

(** A profile whose values are well formed is loaded: each field is the
    value of its entry, an absent entry keeps the old value, except that an
    absent socket-read-buf-size in a udp section is reset to 512 KiB. *)
Lemma profile_loaded pm c b :
  suspend_of pm (suspendTraffic c) = Some b ->
  (forall e, pm !! tapp.UDPProtocolStr = Some e -> Forall (int_wellformed e) udp_keys) ->
  LoadBatProfileConfig (Some pm) c = (Ok tt, configured pm b c).
Proof.
  intros Hs Hw. unfold LoadBatProfileConfig. rewrite (bind_Ok _ _ _ _ _ (load_common_ok pm c b Hs)).
  unfold load_udp, configured. destruct (pm !! tapp.UDPProtocolStr) as [e|]; [|done].
  specialize (Hw e eq_refl). unfold udp_keys in Hw. rewrite !Forall_cons in Hw.
  destruct Hw as (W1 & W2 & W3 & W4 & W5 & _).
  rewrite (bind_Ok _ _ _ _ _ (load_first_ok e _ W1)).
  do 3 erewrite bind_Ok by (by apply load_int_ok). rewrite load_int_ok by done.
  f_equal. unfold int_setting. by repeat case_match.
Qed.


(** ** Concrete profiles *)
Definition sample_udp (rate : string) : gmap string string :=
  {["send-rate" := rate; "packet-size" := "200"]}.
Definition sample_profile (rate : string) : gmap string (gmap string string) :=
  {["common" := {["suspend-traffic" := "false"]}; "udp" := sample_udp rate]}.

Lemma sample_profile_udp rate : sample_profile rate !! tapp.UDPProtocolStr = Some (sample_udp rate).
Proof. reflexivity. Qed.

(** The entries of a section, checked by evaluation. *)
Definition wellformed_entry (e : gmap string string) (key : string) : bool :=
  match e !! key with Some v => bool_decide (is_Some (Atoi v)) | None => true end.

Lemma wellformed_entries e keys :
  forallb (wellformed_entry e) keys = true -> Forall (int_wellformed e) keys.
Proof.
  rewrite forallb_forall. intros Hk. apply Forall_forall. intros key Hin v Ev.
  apply list_elem_of_In, Hk in Hin. unfold wellformed_entry in Hin. rewrite Ev in Hin.
  by apply bool_decide_eq_true in Hin.
Qed.

