(* ===== verification/System.v ===== *)
(** * A stream, its server and the network between them

    The client's goroutines (pkg/tgen/udp.go, [stream.alone_step]) and those of the
    server in the other pod (pkg/tapp/udp.go, [tapp.step]) take turns.  The
    network is the list of the datagrams written to it: any of them may be
    delivered, at any time, any number of times, or never.  [echo] is what the
    two promise together. *)
From S2P Require Import Prelude GoInt Message Metrics Net Pair TApp TGen TGenStep Ledger.

Module system.

Section System.
Context `{Msgpack} `{PromLib}.

Record system := mkSystem {
  client : stream.world;
  server : tapp.world;
  requests : list (list byte);      (* written by the stream *)
  replies : list (list byte)        (* written by the server to the stream's address *)
}.

Inductive label :=
| LClient (lb : stream.label)
| LDummy (data : list byte)                                     (* a packet of sendDummyPackets *)
| LRequest (data : list byte) (reply : option (list byte))      (* the server reads a request *)
| LServer (lb : tapp.label).                                    (* whatever else it does *)

Definition written (lb : stream.label) : list (list byte) :=
  match lb with stream.LSent _ bs => [bs] | _ => [] end.

(** A goroutine other than the receiver moves, or the receiver does without
    returning from its read. *)
Definition not_read (x x' : stream.world) : Prop :=
  ~ (stream.w_rd x = stream.RReading /\ stream.w_rd x' = stream.RHead).

(** [addr] is the stream's address as the server reads it: the IP alone. *)
Inductive step (addr : string) : system -> label -> system -> Prop :=
| sys_client x lb x' v rq rp :
    stream.alone_step x lb x' -> not_read x x' ->
    step addr (mkSystem x v rq rp) (LClient lb) (mkSystem x' v (written lb ++ rq) rp)
| sys_dummy x v rq rp now payload data :
    in64 now ->
    tgen.dummy_packet now (stream.w_conf x) payload
      (TrafficScenario (tgen.pair (stream.w_c x))) = Some (Some data) ->
    step addr (mkSystem x v rq rp) (LDummy data) (mkSystem x v (data :: rq) rp)
| sys_read_error c p conf x tpc t b td v rq rp :
    step addr (mkSystem (stream.mkWorld c p conf x tpc t stream.RReading b td) v rq rp)
      (LClient stream.LTau)
      (mkSystem (stream.mkWorld c p conf x tpc t stream.RHead b td) v rq rp)
| sys_deliver now data r c p conf x tpc t b td v rq rp b' c' p' :
    data ∈ rp -> stream.conn_open c = true ->
    tgen.SocketRead_datagram now data b (c, p) = (Ok (r, b'), (c', p')) ->
    step addr (mkSystem (stream.mkWorld c p conf x tpc t stream.RReading b td) v rq rp)
      (LClient (match r with Some k => stream.LReceived k | None => stream.LTau end))
      (mkSystem (stream.mkWorld c' p' conf x tpc t stream.RHead b' td) v rq rp)
| sys_request x v data reply v' rq rp :
    data ∈ rq -> tapp.step v (tapp.LDatagram addr data reply) v' ->
    step addr (mkSystem x v rq rp) (LRequest data reply)
      (mkSystem x v' rq (option_list reply ++ rp))
| sys_server x v lb v' rq rp :
    tapp.step v lb v' ->
    step addr (mkSystem x v rq rp) (LServer lb) (mkSystem x v' rq rp).

(** The stream started in its pod, the server in its own, nothing written. *)
Definition started (x : stream.world) (v : tapp.world) : system := mkSystem x v [] [].

(** ** Runs of the two ends *)

Definition client_of (lb : label) : list stream.label :=
  match lb with LClient lb => [lb] | _ => [] end.
Definition server_of (addr : string) (lb : label) : list tapp.label :=
  match lb with
  | LRequest data reply => [tapp.LDatagram addr data reply]
  | LServer lb => [lb]
  | _ => []
  end.
Definition client_labels (ls : list label) : list stream.label := concat (client_of <$> ls).
Definition server_labels (addr : string) (ls : list label) : list tapp.label :=
  concat (server_of addr <$> ls).

Lemma client_labels_snoc ls lb : client_labels (ls ++ [lb]) = client_labels ls ++ client_of lb.
Proof. unfold client_labels. rewrite fmap_app, concat_app. simpl. by rewrite app_nil_r. Qed.
Lemma server_labels_snoc addr ls lb :
  server_labels addr (ls ++ [lb]) = server_labels addr ls ++ server_of addr lb.
Proof. unfold server_labels. rewrite fmap_app, concat_app. simpl. by rewrite app_nil_r. Qed.

(** A step of the system is at most one step of each end. *)
Lemma step_client addr w lb w' :
  step addr w lb w' -> steps stream.alone_step (client w) (client_of lb) (client w').
Proof.
  destruct 1; simpl; try (by apply steps_nil); apply steps_one; [done|..].
  - apply stream.step_reader, stream.rd_error.
  - apply stream.step_reader. by eapply stream.rd_datagram.
Qed.

Lemma step_server addr w lb w' :
  step addr w lb w' -> steps tapp.step (server w) (server_of addr lb) (server w').
Proof. destruct 1; simpl; by (apply steps_nil || apply steps_one). Qed.

Lemma run_ends addr w0 ls w :
  steps (step addr) w0 ls w ->
  steps stream.alone_step (client w0) (client_labels ls) (client w) /\
  steps tapp.step (server w0) (server_labels addr ls) (server w).
Proof.
  revert ls w. apply (steps_ind_r (step addr) w0 (fun ls w => _ /\ _)).
  - split; apply steps_nil.
  - intros ls w lb w' _ [IHc IHs] Hst. rewrite client_labels_snoc, server_labels_snoc.
    split; (eapply steps_app; [eassumption|]).
    + by eapply step_client.
    + by eapply step_server.
Qed.

(** ** What a trace shows *)

(** The number a datagram carries. *)
Definition seq_of (data : list byte) : Z := SequenceNumber (unmarshal_Message data).1.

Definition echoed_of (lb : label) : list Z :=
  match lb with
  | LRequest data (Some _) => if seq_of data =? -1 then [] else [seq_of data]
  | _ => []
  end.
Definition echoed_keys (ls : list label) : list Z := concat (echoed_of <$> ls).

Lemma echoed_keys_snoc ls lb : echoed_keys (ls ++ [lb]) = echoed_keys ls ++ echoed_of lb.
Proof. unfold echoed_keys. rewrite fmap_app, concat_app. simpl. by rewrite app_nil_r. Qed.
End System.

(** ** The specification: numbered requests over a network that loses

    A number is sent once, and after every smaller one; only what was sent is
    echoed, only what was echoed is received, and a number is received or
    given up at most once. *)
Record echo := mkEcho {
  e_sent : gset Z;
  e_echoed : gset Z;
  e_received : gset Z;
  e_dropped : gset Z
}.

Inductive echo_label := ESend (k : Z) | EEcho (k : Z) | EReceive (k : Z) | EDrop (k : Z) | ESkip.

Inductive echo_step : echo -> echo_label -> echo -> Prop :=
| echo_send k s e r d :
    (forall j, j ∈ s -> j < k) ->
    echo_step (mkEcho s e r d) (ESend k) (mkEcho (s ∪ {[k]}) e r d)
| echo_echo k s e r d :
    k ∈ s -> echo_step (mkEcho s e r d) (EEcho k) (mkEcho s (e ∪ {[k]}) r d)
| echo_receive k s e r d :
    k ∈ e -> k ∉ r -> k ∉ d ->
    echo_step (mkEcho s e r d) (EReceive k) (mkEcho s e (r ∪ {[k]}) d)
| echo_drop k s e r d :
    k ∉ r -> k ∉ d ->
    echo_step (mkEcho s e r d) (EDrop k) (mkEcho s e r (d ∪ {[k]}))
| echo_skip x : echo_step x ESkip x.

Definition echo0 : echo := mkEcho ∅ ∅ ∅ ∅.

Lemma echo_invariant ls e :
  steps echo_step echo0 ls e ->
  e_received e ⊆ e_echoed e /\ e_echoed e ⊆ e_sent e /\ e_received e ## e_dropped e.
Proof.
  apply (steps_invariant echo_step (fun e =>
    e_received e ⊆ e_echoed e /\ e_echoed e ⊆ e_sent e /\ e_received e ## e_dropped e)).
  - simpl. set_solver.
  - intros x lb y (I1 & I2 & I3) Hst. destruct Hst; simpl in *; split_and!; set_solver.
Qed.

(** A label of the system, for the specification. *)
Definition echo_of `{Msgpack} (lb : label) : echo_label :=
  match lb with
  | LClient (stream.LSent k _) => ESend k
  | LClient (stream.LReceived k) => EReceive k
  | LClient (stream.LDropped _ k) => EDrop k
  | LRequest data (Some _) => if seq_of data =? -1 then ESkip else EEcho (seq_of data)
  | _ => ESkip
  end.
End system.
