(* ===== verification/EndToEnd.v ===== *)
(** * What a stream and its server do together

    The network carries only what the two ends wrote; what they wrote says
    which of the numbers were sent and echoed; hence the system implements
    the [echo] specification, and the books of the stream balance without
    assuming anything of the network. *)
From S2P Require Import Prelude GoInt Message Metrics Net Pair TApp TAppProofs TGen TGenStep TGenProofs Ledger TGenRefine TGenInv TGenWire System.
From stdpp Require Import sorting.
Import system.
#[local] Open Scope Z_scope.

(** ** What each end does with a datagram *)
Section Ends.
Context `{MsgpackLaws} `{PromLaws}.

(** The parts of a server no goroutine changes. *)
Definition static (s : tapp.udpServer) : Z * list byte := (tapp.msgHeaderLength s, tapp.podInfoByteArr s).

Lemma account_static t ip k s p s' p' :
  tapp.account t ip k s p = Ok (s', p') ->
  static s' = static s /\ forall ip',
    known_max (tapp.activeClientsMap s') ip' =
      if decide (ip' = ip) then Z.max (known_max (tapp.activeClientsMap s) ip) k
      else known_max (tapp.activeClientsMap s) ip'.
Proof.
  unfold tapp.account. intros ([c q] & E0 & E)%bind_outcome_Ok_inv.
  assert (tapp.arrivedMaxSeq c = known_max (tapp.activeClientsMap s) ip) as Hc.
  { unfold known_max. destruct (tapp.activeClientsMap s !! ip) as [c0|]; [by injection E0 as <- _|].
    by apply bind_outcome_Ok_inv in E0 as (g & _ & [= <- _]). }
  assert (exists t, s' = tapp.set_activeClientsMap
      (<[ip := tapp.mkClientInfo t (Z.max (tapp.arrivedMaxSeq c) k)]> (tapp.activeClientsMap s)) s) as [t' ->].
  { exists t. destruct (Z.ltb_spec (tapp.arrivedMaxSeq c) k); apply bind_outcome_Ok_inv in E as (? & _ & [= <- <-]).
    - by rewrite Z.max_r by lia.
    - by rewrite Z.max_l by lia. }
  rewrite <- Hc. split; [done|]. intros ip'. unfold known_max. simpl.
  case_decide as He; [by rewrite He, lookup_insert_eq|by rewrite lookup_insert_ne].
Qed.

Lemma sweep_static now order s p s' p' :
  tapp.sweep now order s p = Ok (s', p') ->
  static s' = static s /\ forall ip n, 0 <= n ->
    known_max (tapp.activeClientsMap s) ip <= n -> known_max (tapp.activeClientsMap s') ip <= n.
Proof.
  revert s p. induction order as [|[k c] order IH]; intros s p; simpl; [by intros [= <- <-]|].
  destruct (tapp.idle now c); [|apply IH]. intros (g & _ & E)%bind_outcome_Ok_inv.
  apply IH in E as [Es Hm]. split; [done|]. intros ip n Hn Hk. apply Hm; [done|]. simpl.
  unfold known_max in *. destruct (decide (k = ip)) as [->|Hne].
  - by rewrite lookup_delete_eq.
  - by rewrite lookup_delete_ne.
Qed.

(** A datagram that starts with an encoded message, at the server. *)
Lemma request_read t1 t2 ip b rest buf msg s g m l p r buf' s' p' :
  ready s g m l p -> maxima_ok (tapp.activeClientsMap s) -> in64 t1 ->
  GetMessageHeaderLength = Ok (tapp.msgHeaderLength s) -> zlen (tapp.podInfoByteArr s) < 2 ^ 63 ->
  msg_ok msg -> marshal_Message msg = Some b ->
  tapp.ReadFromSocket_datagram t1 t2 ip (b ++ rest) buf s p = Ok (r, buf', s', p') ->
  (r = None /\ s' = s) \/
  exists b' pad, r = Some (b' ++ pad) /\ marshal_Message (answered t1 s msg) = Some b' /\
    msg_ok (answered t1 s msg) /\ tapp.account t2 ip (SequenceNumber msg) s p = Ok (s', p').
Proof.
  intros Hr Hok Ht Hh Hpod Hm Hb E. unfold tapp.ReadFromSocket_datagram in E.
  case_decide; [left; by injection E as <- <- <- <-|right].
  pose proof (header_length_spec _ _ Hm Hb) as Hl. rewrite Hh in Hl. injection Hl as Hl.
  assert (exists h, slice (go_copy buf (b ++ rest)) 0 (zlen b) = Some h) as [h Hs].
  { revert E. unfold tapp.handle. rewrite Hl. by destruct (slice _ _ _) as [h|]; [exists h|]. }
  destruct (slice_go_copy _ _ _ _ Hs) as [_ [pad Ec]]. rewrite Ec in E.
  pose proof (handle_spec t1 t2 ip b pad msg s g m l p Hr Hok Ht Hh Hpod Hm Hb) as Hx. cbv zeta in Hx.
  rewrite E in Hx. case_decide; [done|]. destruct Hx as (b' & s1 & p1 & out & buf1 & Hb' & Ha & Ex & Eo & _).
  injection Ex as -> -> -> ->. eexists b', _. split_and!; [by rewrite Eo|done|by apply answered_ok|done].
Qed.

(** And at the stream: what is settled is the number in the datagram. *)
Lemma reply_read now b rest buf msg c p k buf' s' :
  msg_ok msg -> marshal_Message msg = Some b -> zlen b = tgen.msgHeaderLength c ->
  tgen.SocketRead_datagram now (b ++ rest) buf (c, p) = (Ok (Some k, buf'), s') ->
  k = SequenceNumber msg /\ k <> -1.
Proof.
  intros Hm Hb Hl E. unfold tgen.SocketRead_datagram in E. case_decide; [done|].
  apply bind_Ok_inv in E as (r & s1 & E & [= -> _ _]). unfold tgen.handle_datagram in E.
  apply bind_Ok_inv in E as (hl & s2 & E0 & E). injection E0 as; subst hl s2. simpl in E.
  apply bind_Ok_inv in E as (h & s2 & E1 & E).
  destruct (slice _ 0 _) as [h'|] eqn:Es; [|done]. injection E1 as; subst h s2.
  rewrite <- Hl in Es. apply slice_go_copy in Es as [-> _].
  pose proof (unmarshal_marshal_Message _ _ [] Hm Hb) as Hu. rewrite app_nil_r in Hu. rewrite Hu in E.
  apply bind_Ok_inv in E as (i & s3 & _ & E). destruct (unmarshal_PodInfo i) as [info err]. simpl in E.
  destruct err; [done|]. destruct (Z.eqb_spec (SequenceNumber msg) (-1)); [done|].
  apply bind_Ok_inv in E as (b0 & s4 & _ & E). destruct b0; [|done]. by injection E as <- _.
Qed.
End Ends.

(** ** What is on its way *)
Section Network.
Context `{MsgpackLaws} `{PromLaws} (addr : string).

(** A stream that has been set up, and a server that has been created. *)
Context (conf : tgen.config) (c : tgen.udpStream) (q : prom).
Context (env : NetEnv) (sconf : tapp.config) (ns pn nn ip ifn : string) (rbs : Z).
Context (s : tapp.udpServer) (ps qs : prom) (n : nat).
Hypothesis Hu : set_up conf c q.
Hypothesis Hc : tapp.CreateServer env sconf ns pn nn ip ifn rbs ps = Ok (s, qs).
Hypothesis Hsize : in64 (tgen.packetSize conf).
Hypothesis Hpod : zlen (tapp.podInfoByteArr s) < 2 ^ 63.

Definition system0 : system := started (stream.started c q conf) (tapp.started s qs n).

(** A datagram that carries one of the numbers [ks], or that of a dummy packet. *)
Definition carries (ks : list Z) (data : list byte) : Prop :=
  exists msg b pad, data = b ++ pad /\ marshal_Message msg = Some b /\ msg_ok msg /\
    (SequenceNumber msg = -1 \/ SequenceNumber msg ∈ ks).

Lemma carries_seq ks data : carries ks data -> seq_of data = -1 \/ seq_of data ∈ ks.
Proof. intros (msg & b & pad & -> & Hb & Hm & Hk). unfold seq_of. by rewrite (unmarshal_marshal_Message msg b pad Hm Hb). Qed.

Lemma carries_mono ks ks' data : (forall k, k ∈ ks -> k ∈ ks') -> carries ks data -> carries ks' data.
Proof. intros Hk (msg & b & pad & E & Hb & Hm & [Hs|Hs]); exists msg, b, pad; eauto 8. Qed.

Lemma server_header : GetMessageHeaderLength = Ok (tapp.msgHeaderLength s).
Proof.
  unfold tapp.CreateServer, tapp.newUDPServer in Hc. apply bind_outcome_Ok_inv in Hc as (s0 & E0 & E).
  destruct GetMessageHeaderLength as [hl|e|w]; [|done..]. destruct (marshal_PodInfo _) as [pi|]; [|done]. injection E0 as <-.
  by apply Setup_started in E as (g & m & l & k & _ & _ & _ & _ & _ & _ & _ & _ & _ & ->).
Qed.

(** The server's side of a state. *)
Definition server_good (v : tapp.world) : Prop :=
  static (tapp.w_srv v) = static s /\
  exists g m l i, 0 <= i /\ world_inv g m l i v.

Lemma server_step_good v lb v' : server_good v -> tapp.step v lb v' -> server_good v'.
Proof.
  intros (Hs & g & m & l & i & Hi & I) Hst. split; [|exists g, m, l, (i + 1); split; [lia|by eapply inv_step]].
  rewrite <- Hs. destruct Hst; simpl; try done.
  - rename select (tapp.done _ = _) into E. unfold tapp.done in E. case_decide; [done|]. by injection E as <-.
  - rename select (tapp.ReadFromSocket_datagram _ _ _ _ _ _ _ = _) into E.
    apply datagram_cases in E as [[-> ->]|(k & _ & E)]; [done|]. by apply account_static in E as [-> _].
  - rename select (tapp.sweep _ _ _ _ = _) into E.
    by apply sweep_static in E as [-> _].
  - rename select (tapp.done _ = _) into E. unfold tapp.done in E. case_decide; [done|]. by injection E as <-.
  - rename select (tapp.TearDownServer_begin _ = _) into E. unfold tapp.TearDownServer_begin in E.
    destruct (tapp.connection _); [|done]. by injection E as <-.
Qed.

Lemma server_run_good ls v : steps tapp.step (tapp.started s qs n) ls v -> server_good v.
Proof.
  apply (steps_invariant tapp.step server_good).
  - split; [done|]. destruct (CreateServer_started _ _ _ _ _ _ _ _ _ _ _ n Hc) as (g & m & l & I).
    by exists g, m, l, 0.
  - intros. by eapply server_step_good.
Qed.

(** A request that the server reads and answers. *)
Lemma request_answered v ks data reply v' :
  server_good v -> carries ks data -> tapp.step v (tapp.LDatagram addr data reply) v' ->
  (reply = None /\ tapp.w_srv v' = tapp.w_srv v) \/
  exists out t q', reply = Some out /\
    carries (if seq_of data =? -1 then [] else [seq_of data]) out /\
    tapp.account t addr (seq_of data) (tapp.w_srv v) (tapp.w_prom v) = Ok (tapp.w_srv v', q').
Proof.
  intros (Hst & g & m & l & i & _ & I) (msg & b & pad & -> & Hb & Hm & _) Hs.
  inversion Hs; subst. simpl in *.
  rename select (tapp.ReadFromSocket_datagram _ _ _ _ _ _ _ = _) into E.
  destruct I as [Hr Hok _ _ _ _]. simpl in *. injection Hst as Hhl Hpi.
  unfold seq_of. rewrite (unmarshal_marshal_Message msg b pad Hm Hb). simpl.
  eapply request_read in E as [[-> ->]|(bh & padh & -> & Hbh & Hmh & Ha)];
    [by left| |exact Hr|exact Hok|done|by rewrite Hhl; apply server_header|by rewrite Hpi|done|done].
  right. do 3 eexists. split; [done|]. split; [|exact Ha].
  eexists _, bh, padh. split_and!; [done|exact Hbh|done|]. simpl.
  destruct (Z.eqb_spec (SequenceNumber msg) (-1)); [by left|right]. by apply list_elem_of_singleton.
Qed.

(** The client's side: its run, and the configuration it started with. *)
Lemma client_run ls w :
  steps (step addr) system0 ls w ->
  steps stream.alone_step (stream.started c q conf) (client_labels ls) (client w).
Proof. intros Hr. exact (proj1 (run_ends addr _ _ _ Hr)). Qed.

(** Whatever configurations are loaded, their sizes fit in 64 bits. *)
Definition sized (k : tgen.config) : Prop := in64 (tgen.packetSize k).

Lemma client_wire ls w :
  steps (step addr) system0 ls w -> wire_inv sized (tgen.msgHeaderLength c) (client w).
Proof.
  intros Hr%client_run. eapply (wire_inv_run sized _ (fun _ Hk => Hk) (set_up_header _ _ _ Hu)); [exact Hr| |done|done].
  right. apply loads_in64.
Qed.

Lemma server_good_run ls w : steps (step addr) system0 ls w -> server_good (server w).
Proof. intros Hr. exact (server_run_good _ _ (proj2 (run_ends addr _ _ _ Hr))). Qed.

Lemma written_carries ls w k bs :
  steps (step addr) system0 ls w -> stream.LSent k bs ∈ client_labels ls -> carries [k] bs.
Proof.
  intros Hr%client_run Hin.
  destruct (written_packet sized conf c q _ _ k bs (fun _ Hk => Hk) Hu Hr (or_intror loads_in64) Hsize Hin)
    as (conf' & ts & hdr & Hs1 & Hts & Hk & -> & _ & Em).
  eexists _, hdr, _. split_and!; [done|exact Em| |right; by apply list_elem_of_singleton].
  unfold msg_ok, sized, in64 in *. simpl. lia.
Qed.

(** Only the receiver settles a request, on its way back from a read. *)
Lemma received_reads x k x' :
  stream.alone_step x (stream.LReceived k) x' -> stream.w_rd x = stream.RReading /\ stream.w_rd x' = stream.RHead.
Proof.
  intros Hx. inversion Hx; subst; simpl;
    [rename select (stream.sender_step _ _ _ _ _ _) into Hs
    |rename select (stream.timeout_step _ _ _ _ _ _ _ _) into Hs
    |rename select (stream.reader_step _ _ _ _ _ _ _) into Hs];
    inversion Hs; subst; try done. by destruct redialled.
Qed.

(** What the soups say of the trace. *)
Record net_inv (ls : list label) (w : system) : Prop := mkNetInv {
  ni_requests : Forall (carries (sent_keys (client_labels ls))) (requests w);
  ni_replies : Forall (carries (echoed_keys ls)) (replies w);
  ni_echoed k : k ∈ echoed_keys ls -> k ∈ sent_keys (client_labels ls);
  ni_honest : honest (client_labels ls)
}.

Lemma step_received ls w k w' :
  net_inv ls w -> wire_inv sized (tgen.msgHeaderLength c) (client w) ->
  step addr w (LClient (stream.LReceived k)) w' -> k ∈ echoed_keys ls.
Proof.
  intros I W Hst. remember (LClient (stream.LReceived k)) as lb eqn:El.
  destruct Hst as [x lb x' v rq rp Hx Hn| | |now data r c0 p0 cf x tpc t b td v rq rp b' c' p' Hin _ E| |];
    try discriminate El; injection El as El; subst; simpl in *.
  - exfalso. apply Hn. by apply received_reads in Hx.
  - destruct r as [k'|]; [|done]. simplify_eq.
    pose proof (proj1 (Forall_forall _ _) (ni_replies _ _ I) data Hin) as (msg & h & pad & -> & Hb & Hm & Hk).
    pose proof (header_length_spec _ _ Hm Hb) as Hl. rewrite (set_up_header _ _ _ Hu) in Hl.
    injection Hl as Hl. pose proof (wi_header _ _ _ W) as Hw. simpl in Hw.
    destruct (reply_read _ _ _ _ _ _ _ _ _ _ Hm Hb ltac:(by rewrite Hw) E) as [-> Hne]. by destruct Hk.
Qed.

Lemma sent_client_snoc ls lb :
  sent_keys (client_labels (ls ++ [lb])) =
  sent_keys (client_labels ls) ++ sent_keys (client_of lb).
Proof.
  rewrite client_labels_snoc. unfold sent_keys. by rewrite fmap_app, concat_app.
Qed.

Definition tgen_conf (w : system) : tgen.config := stream.w_conf (client w).

(** What a step adds to the soups. *)
Lemma step_soups ls lb w w' :
  net_inv ls w -> server_good (server w) -> sized (tgen_conf w) -> step addr w lb w' ->
  (forall k bs, lb = LClient (stream.LSent k bs) -> carries [k] bs) ->
  Forall (carries (sent_keys (client_labels ls) ++ sent_keys (client_of lb))) (requests w') /\
  Forall (carries (echoed_keys ls ++ echoed_of lb)) (replies w') /\
  (forall k, k ∈ echoed_of lb -> k ∈ sent_keys (client_labels ls)).
Proof.
  intros [I1 I2 _ _] G Hcf Hst Hw.
  assert (forall ks l, Forall (carries (sent_keys (client_labels ls))) l ->
    Forall (carries (sent_keys (client_labels ls) ++ ks)) l) as M1
    by (intros ks l Hl; eapply Forall_impl; [exact Hl|]; intros d; apply carries_mono; set_solver).
  assert (forall ks l, Forall (carries (echoed_keys ls)) l ->
    Forall (carries (echoed_keys ls ++ ks)) l) as M2
    by (intros ks l Hl; eapply Forall_impl; [exact Hl|]; intros d; apply carries_mono; set_solver).
  destruct Hst as [x lb x' v rq rp Hx Hn|x v rq rp now pl data Hnow Hd| |
    |x v data reply v' rq rp Hin Hs|]; simpl in *;
    try (split_and!; [by apply M1|by apply M2|intros k Hk; by apply not_elem_of_nil in Hk]).
  - split_and!; [|by apply M2|intros k Hk; by apply not_elem_of_nil in Hk].
    apply Forall_app. split; [|by apply M1]. destruct lb; simpl; try by constructor.
    constructor; [|constructor]. eapply carries_mono; [|by eapply Hw]. set_solver.
  - split_and!; [|by apply M2|intros k Hk; by apply not_elem_of_nil in Hk].
    constructor; [|by apply M1]. unfold tgen.dummy_packet in Hd. destruct (negb _); [done|].
    destruct (marshal_Message _) as [b|] eqn:Em; [|done]. injection Hd as <-.
    eexists _, b, pl. split_and!; [done|exact Em| |by left]. unfold tgen_conf, sized, msg_ok, in64 in *. simpl in *. lia.
  - pose proof (proj1 (Forall_forall _ _) I1 data Hin) as Hcar.
    destruct (request_answered v _ data reply v' G Hcar Hs) as [[-> _]|(out & t & q' & -> & Ho & _)]; simpl.
    + split_and!; [by apply M1|by apply M2|intros k Hk; by apply not_elem_of_nil in Hk].
    + split_and!; [by apply M1| |].
      * constructor; [|by apply M2]. eapply carries_mono; [|exact Ho]. set_solver.
      * intros k. destruct (Z.eqb_spec (seq_of data) (-1)) as [|Hne]; [intros Hk; by apply not_elem_of_nil in Hk|].
        intros ->%list_elem_of_singleton. by destruct (carries_seq _ _ Hcar).
Qed.

Lemma run_net ls w :
  steps (step addr) system0 ls w -> net_inv ls w.
Proof.
  revert ls w. apply (steps_ind_r (step addr) system0).
  - split; [constructor|constructor|intros k Hk; by apply not_elem_of_nil in Hk|by intros [|]].
  - intros ls w lb w' Hr IH Hst.
    assert (steps (step addr) system0 (ls ++ [lb]) w') as Hr' by (by eapply steps_snoc).
    pose proof (client_wire ls w Hr) as W.
    assert (forall k bs, lb = LClient (stream.LSent k bs) -> carries [k] bs) as Hw.
    { intros k bs ->. eapply (written_carries _ _ k bs Hr'). rewrite client_labels_snoc. set_solver. }
    destruct (step_soups ls lb w w' IH (server_good_run ls w Hr) (wi_conf _ _ _ W) Hst Hw) as (S1 & S2 & S3).
    pose proof IH as [_ _ I3 I4].
    split; rewrite ?sent_client_snoc, ?echoed_keys_snoc; try done.
    + intros k [Hk|Hk]%elem_of_app; set_solver.
    + rewrite client_labels_snoc. destruct lb as [lb| | |]; simpl; rewrite ?app_nil_r; try done.
      apply honest_add; [done|]. intros k ->. apply I3. by eapply step_received.
Qed.

(** ** The specification *)

(** The state of the specification is what the trace shows. *)
Definition echo_state (ls : list label) : echo :=
  mkEcho (list_to_set (sent_keys (client_labels ls))) (list_to_set (echoed_keys ls))
    (list_to_set (received_keys (client_labels ls))) (list_to_set (dropped_keys (client_labels ls))).

Lemma to_set_snoc (l : list Z) k : (list_to_set (l ++ [k]) : gset Z) = list_to_set l ∪ {[k]}.
Proof. rewrite list_to_set_app_L. simpl. by rewrite (right_id_L ∅ (∪)). Qed.

Lemma client_ledger ls w :
  steps (step addr) system0 ls w -> ledger_inv (client_labels ls) (ledger_of (client w)).
Proof.
  intros Hr%client_run. apply ledger_run_inv.
  by apply (started_run c q conf _ _ (set_up_unused _ _ _ Hu) Hr).
Qed.

Lemma fresh_settled ls lb k :
  NoDup (settled_keys (client_labels ls ++ [lb])) -> settled_of lb = [k] ->
  k ∉ received_keys (client_labels ls) /\ k ∉ dropped_keys (client_labels ls).
Proof.
  rewrite settled_keys_snoc. intros Hd Ek. rewrite Ek, settled_split in Hd.
  apply NoDup_app in Hd as (_ & Hd & _).
  split; intros Hk; apply (Hd k); rewrite ?elem_of_app, ?list_elem_of_singleton; auto.
Qed.

Lemma echo_state_step ls lb w w' :
  steps (step addr) system0 ls w -> step addr w lb w' ->
  echo_step (echo_state ls) (echo_of lb) (echo_state (ls ++ [lb])).
Proof.
  intros Hr Hst. assert (steps (step addr) system0 (ls ++ [lb]) w') as Hr' by (by eapply steps_snoc).
  pose proof (client_ledger _ _ Hr') as L. pose proof (run_net ls w Hr) as I.
  pose proof (ni_echoed _ _ (run_net _ _ Hr')) as He. rewrite echoed_keys_snoc, sent_client_snoc in He.
  unfold echo_state. rewrite echoed_keys_snoc. rewrite client_labels_snoc in *.
  destruct lb as [lb|data|data reply|lb]; simpl in *; rewrite ?app_nil_r in *; try apply echo_skip.
  - rewrite sent_keys_snoc, received_keys_snoc, dropped_keys_snoc.
    destruct lb as [|k bs|k|k|now k| | |]; simpl; rewrite ?app_nil_r, ?to_set_snoc; try apply echo_skip.
    + apply echo_send. intros j Hj%elem_of_list_to_set. pose proof (li_sent_sorted _ _ L) as Hs.
      rewrite sent_keys_snoc in Hs. eapply StronglySorted_app_1_elem_of; [exact Hs|done|by apply list_elem_of_singleton].
    + destruct (fresh_settled ls _ k (li_settled_once _ _ L) eq_refl).
      apply echo_receive; rewrite elem_of_list_to_set; [|done..].
      eapply step_received; [exact I|by eapply client_wire|exact Hst].
    + destruct (fresh_settled ls _ k (li_settled_once _ _ L) eq_refl).
      by apply echo_drop; rewrite elem_of_list_to_set.
  - destruct reply as [out|]; simpl in *; rewrite ?app_nil_r; [|apply echo_skip].
    destruct (Z.eqb_spec (seq_of data) (-1)); simpl; rewrite ?app_nil_r; [apply echo_skip|].
    rewrite to_set_snoc. apply echo_echo, elem_of_list_to_set. apply He, elem_of_app. right.
    by apply list_elem_of_singleton.
Qed.

Lemma run_echo ls w :
  steps (step addr) system0 ls w ->
  steps echo_step echo0 (echo_of <$> ls) (echo_state ls).
Proof.
  intros Hr.
  refine (steps_ind_r (step addr) system0 (fun ls _ => steps echo_step echo0 (echo_of <$> ls) (echo_state ls)) _ _ ls w Hr);
    [apply steps_nil|]. clear ls w Hr. intros ls w lb w' Hr IH Hst. rewrite fmap_app. simpl.
  eapply steps_snoc; [exact IH|by eapply echo_state_step].
Qed.

(** C1: a stream and its server, with a network between them that may lose,
    delay, repeat and reorder what is written to it, implement the [echo]
    specification, label by label: numbers are sent in order and once, only
    what was sent is echoed, only what was echoed is received, and a number is
    received or dropped at most once. The counters of the stream are the
    sizes of the specification's sets, and no settled number is pending. *)
Theorem system_refines_echo ls w :
  steps (step addr) system0 ls w ->
  exists e, steps echo_step echo0 (echo_of <$> ls) e /\
    (forall k, k ∈ e_received e ∪ e_dropped e ->
       k <= tgen.packetSequence (stream.w_c (client w)) /\ tgen.pending (stream.w_c (client w)) !! k = None) /\
    (tgen.packetSequence (stream.w_c (client w)) <= 2 ^ 53 ->
     tgen.packetReceivedVal (tgen.vals (stream.w_c (client w))) = Z.of_nat (size (e_received e)) /\
     tgen.packetDroppedVal (tgen.vals (stream.w_c (client w))) = Z.of_nat (size (e_dropped e))).
Proof.
  intros Hr. exists (echo_state ls). pose proof (client_ledger _ _ Hr) as L.
  assert (NoDup (received_keys (client_labels ls) ++ dropped_keys (client_labels ls))) as Hd
    by (rewrite <- settled_split; apply L).
  split_and!; [by eapply run_echo| |].
  - intros k Hk. destruct (li_settled _ _ L k) as (Hk1 & Hk2 & _); [|simpl in *; split; [lia|done]].
    rewrite settled_split. simpl in Hk. set_solver.
  - intros Hn. apply client_run in Hr. destruct (started_run c q conf _ _ (set_up_unused _ _ _ Hu) Hr) as [Hl _].
    destruct (ledger_run_counts _ _ Hl Hn) as [E1 E2]. simpl in *.
    apply NoDup_app in Hd as (Hd1 & _ & Hd2). by rewrite !size_list_to_set.
Qed.

(** What the server knows of the stream it has echoed. *)
Lemma server_behind ls w :
  steps (step addr) system0 ls w ->
  (forall data r, LServer (tapp.LDatagram addr data r) ∉ ls) ->
  let k := known_max (tapp.activeClientsMap (tapp.w_srv (server w))) addr in
  k <= 0 \/ exists j, j ∈ echoed_keys ls /\ k <= j.
Proof.
  revert ls w. apply (steps_ind_r (step addr) system0 (fun ls w => _ -> _)).
  { intros _. left. destruct (CreateServer_started _ _ _ _ _ _ _ _ _ _ _ n Hc) as (g & m & l & I).
    pose proof (inv_size _ _ _ _ _ I) as Hz. simpl in *. unfold known_max.
    assert (tapp.activeClientsMap s = ∅) as -> by (apply map_size_empty_inv; lia). done. }
  intros ls w lb w' Hr IH Hst Hal. specialize (IH ltac:(set_solver)). pose proof (server_good_run ls w Hr) as G.
  pose proof (ni_requests _ _ (run_net ls w Hr)) as Hrq. rewrite echoed_keys_snoc.
  assert (forall k k', k' <= Z.max 0 k -> k <= 0 \/ (exists j, j ∈ echoed_keys ls /\ k <= j) ->
    k' <= 0 \/ exists j, j ∈ echoed_keys ls ++ echoed_of lb /\ k' <= j) as Hle.
  { intros k k' Hk [Hk0|(j & Hj & Hkj)]; [left; lia|]. destruct (decide (k' <= 0)); [by left|right].
    exists j. split; [set_solver|lia]. }
  destruct Hst as [| | | |x v data reply v' rq rp Hin Hs|x v lb v' rq rp Hs]; simpl in *;
    try (eapply Hle; [|exact IH]; lia).
  - pose proof (proj1 (Forall_forall _ _) Hrq data Hin) as Hcar.
    destruct (request_answered v _ data reply v' G Hcar Hs) as [[-> ->]|(out & t & q' & -> & _ & Ha)].
    + eapply Hle; [|exact IH]. lia.
    + apply account_static in Ha as [_ Hm]. specialize (Hm addr). rewrite decide_True in Hm by done.
      destruct (Z.eqb_spec (seq_of data) (-1)) as [E|Hne].
      * eapply Hle; [|exact IH]. rewrite Hm, E. lia.
      * destruct (decide (seq_of data <= known_max (tapp.activeClientsMap (tapp.w_srv v)) addr)).
        { eapply Hle; [|exact IH]. lia. }
        right. exists (seq_of data). split; [set_solver|lia].
  - eapply Hle; [|exact IH]. destruct Hs; simpl in *; try lia.
    + rename select (tapp.done _ = _) into E. unfold tapp.done in E. case_decide; [done|]. injection E as <-. simpl. lia.
    + rename select (tapp.ReadFromSocket_datagram _ _ _ _ _ _ _ = _) into E.
      apply datagram_cases in E as [[-> ->]|(k & _ & E)]; [lia|]. apply account_static in E as [_ ->].
      rewrite decide_False; [lia|]. intros <-. by eapply Hal, elem_of_app; right; apply list_elem_of_singleton.
    + rename select (tapp.sweep _ _ _ _ = _) into E. apply sweep_static in E as [_ E]. apply E; lia.
    + rename select (tapp.done _ = _) into E. unfold tapp.done in E. case_decide; [done|]. injection E as <-. simpl. lia.
    + rename select (tapp.TearDownServer_begin _ = _) into E. unfold tapp.TearDownServer_begin in E.
      destruct (tapp.connection _); [|done]. injection E as <-. simpl. lia.
Qed.

(** C2: the books balance end to end, with nothing assumed of the network:
    every number the stream ever assigned is received, dropped, failed to
    send, pending, or in the sender's hands; what is counted as received was
    answered by the server. And as long as the server reads datagrams of this
    address from no other stream, the highest number it knows of the client is
    never ahead of the client's own counter. *)
Theorem end_to_end_accounts ls w :
  steps (step addr) system0 ls w ->
  tgen.packetSequence (stream.w_c (client w)) <= 2 ^ 53 ->
  let x := stream.w_c (client w) in
  tgen.packetSequence x =
    tgen.packetReceivedVal (tgen.vals x) + tgen.packetDroppedVal (tgen.vals x) +
    tgen.packetSendFailedVal (tgen.vals x) + Z.of_nat (size (tgen.pending x)) +
    slack (phase_of (stream.s_pc (stream.w_snd (client w)))) /\
  tgen.packetReceivedVal (tgen.vals x) <= zlen (echoed_keys ls) /\
  ((forall data r, LServer (tapp.LDatagram addr data r) ∉ ls) ->
   known_max (tapp.activeClientsMap (tapp.w_srv (server w))) addr <= tgen.packetSequence x).
Proof.
  intros Hr Hn x. pose proof (client_run _ _ Hr) as Hcr.
  destruct (started_run c q conf _ _ (set_up_unused _ _ _ Hu) Hcr) as [Hl _].
  destruct (ledger_run_settled _ _ Hl (ni_honest _ _ (run_net ls w Hr)) Hn) as (_ & _ & _ & E & _).
  destruct (ledger_run_counts _ _ Hl Hn) as [E1 _]. pose proof (client_ledger _ _ Hr) as L. simpl in *.
  split_and!; [unfold x in *; lia| |].
  - unfold x. rewrite E1. apply inj_le, submseteq_length, NoDup_submseteq.
    + assert (NoDup (received_keys (client_labels ls) ++ dropped_keys (client_labels ls))) as Hd
        by (rewrite <- settled_split; apply L). by apply NoDup_app in Hd as [? _].
    + intros k Hk. destruct (echo_invariant _ _ (run_echo ls w Hr)) as (Hi & _ & _). simpl in Hi. set_solver.
  - intros Hal. pose proof (li_seq _ _ L). simpl in *.
    destruct (server_behind ls w Hr Hal) as [Hk|(j & Hj & Hk)]; [unfold x; lia|].
    apply (ni_echoed _ _ (run_net ls w Hr)) in Hj. pose proof (li_sent _ _ L j Hj). simpl in *. unfold x. lia.
Qed.
End Network.
