(* ===== verification/EndToEndDemo.v ===== *)
(** * A request there and back

    A concrete run of [system.step], for the properties of EndToEnd: the stream
    of TGenDemo writes its first packet, the server of TAppTheorems answers it,
    the stream reads the answer, and a configuration is loaded. *)
From S2P Require Import Prelude GoInt Message Metrics Reference Net Pair TApp TAppProofs TAppTheorems TGen TGenStep TGenProofs Ledger TGenRefine TGenInv TGenDemo TGenTheorems TGenWire System EndToEnd.
Import system.
#[local] Open Scope Z_scope.

(** A goroutine of the client moves while the receiver stays where it is. *)
Lemma sys_sender `{Msgpack} `{PromLib} addr cf x c p lb x' c' p' tpc t rd b td v rq rp :
  stream.sender_step cf x (c, p) lb x' (c', p') ->
  step addr (mkSystem (stream.mkWorld c p cf x tpc t rd b td) v rq rp) (LClient lb)
    (mkSystem (stream.mkWorld c' p' cf x' tpc t rd b td) v (written lb ++ rq) rp).
Proof. intros Hs. apply sys_client; [by apply stream.step_sender|]. intros [H1 H2]. simpl in *. congruence. Qed.

Definition trip_numbered : tgen.udpStream := tgen.set_packetSequence 1 demo_c.
Definition trip_sent : tgen.udpStream :=
  tgen.set_pending (<[1 := 2000]> (tgen.pending trip_numbered)) trip_numbered.
Definition trip_world (rd : stream.reader_pc) (pc : stream.sender_pc) (c : tgen.udpStream) (base : list byte)
    : stream.world :=
  stream.mkWorld c demo_q demo_conf (demo_sender pc base) stream.TStart demo_t0 rd demo_buf stream.DIdle.

(** The server reads the packet, the stream the reply. *)
Definition trip_read : option (list byte) * list byte * tapp.udpServer * store.st :=
  ok_or (None, [], demo_server, demo_prom)
    (tapp.ReadFromSocket_datagram 5000 6000 "10.10.10.1" demo_base1 TAppTheorems.demo_buf demo_server demo_prom).
Definition trip_reply : list byte := default [] trip_read.1.1.1.
Lemma trip_read_ok :
  tapp.ReadFromSocket_datagram 5000 6000 "10.10.10.1" demo_base1 TAppTheorems.demo_buf demo_server demo_prom =
  Ok (Some trip_reply, trip_read.1.1.2, trip_read.1.2, trip_read.2).
Proof.
  transitivity (Ok trip_read); [apply ok_or_eq; vm_compute; reflexivity|].
  assert (trip_read.1.1.1 = Some trip_reply) as <- by (vm_compute; reflexivity).
  by destruct trip_read as [[[o b] x] y].
Qed.
Definition trip_back : outcome (option Z * list byte) * tgen.state :=
  tgen.SocketRead_datagram 7000 trip_reply demo_buf (trip_sent, demo_q).

Definition trip_server (rd : tapp.reader_pc) : tapp.world :=
  tapp.mkWorld demo_server demo_prom TAppTheorems.demo_buf rd true tapp.TIdle.
(** The text of the profile, with a packet size. *)
Definition trip_profile : option (gmap string (gmap string string)) := Some {["udp" := {["packet-size" := "90"]}]}.
Definition trip_at (cf : tgen.config) : system :=
  mkSystem
    (stream.mkWorld trip_back.2.1 trip_back.2.2 cf (demo_sender (stream.SSentCount demo_target) demo_base1)
       stream.TStart demo_t0 stream.RHead (ok_or (None, []) trip_back.1).2 stream.DIdle)
    (tapp.mkWorld trip_read.1.2 trip_read.2 trip_read.1.1.2 tapp.RHead true tapp.TIdle)
    [demo_base1] [trip_reply].

Definition trip_end : system := trip_at (tgen.LoadBatProfileConfig trip_profile demo_conf).2.

Definition trip_labels_there : list label :=
  [LClient stream.LTau; LClient stream.LTau; LClient stream.LTau; LClient stream.LTau; LClient stream.LTau;
   LClient (stream.LSent 1 demo_base1); LServer tapp.LReader; LRequest demo_base1 (Some trip_reply);
   LClient stream.LTau; LClient (stream.LReceived 1)].
Definition trip_labels : list label := trip_labels_there ++ [LClient stream.LConf].

Lemma trip_run_there :
  steps (step "10.10.10.1") (system0 demo_conf demo_c demo_q demo_server demo_prom 200) trip_labels_there (trip_at demo_conf).
Proof.
  set (B := tgen.baseByteArr demo_prep). set (D := trip_world stream.RHead).
  assert (tgen.packet_bytes demo_len 1 2000 B = Some demo_base1) as Eb
    by (apply demo_bytes_ok; vm_compute; eexists; reflexivity).
  apply (steps_cons _ _ _ (mkSystem (D (stream.SDummy 0) demo_c B) (trip_server tapp.RHead) [] [])).
  { apply sys_sender.
    apply (stream.snd_start demo_conf (stream.mkSender stream.SStart 0 [] 0 0) demo_c demo_q 1000 0 demo_prep); [done| |].
    - apply ok_or_eq. vm_compute. reflexivity.
    - vm_compute. reflexivity. }
  apply (steps_cons _ _ _ (mkSystem (D stream.SLoop demo_c B) (trip_server tapp.RHead) [] [])).
  { by apply sys_sender, (stream.snd_dummy_done demo_conf (demo_sender (stream.SDummy 0) B)). }
  apply (steps_cons _ _ _ (mkSystem (D (stream.SSend demo_target) demo_c B) (trip_server tapp.RHead) [] [])).
  { apply sys_sender.
    by apply (stream.snd_target demo_conf (demo_sender stream.SLoop B) demo_c demo_q 10000); [|now vm_compute|]. }
  apply (steps_cons _ _ _ (mkSystem (D (stream.SReady demo_target 2000) trip_numbered demo_base1) (trip_server tapp.RHead) [] [])).
  { apply sys_sender. apply (stream.snd_number demo_conf (demo_sender (stream.SSend demo_target) B) demo_c demo_q
      demo_target 2000 1 (trip_numbered, demo_q) demo_base1); [done|now vm_compute|unfold in64; lia|done|exact Eb]. }
  apply (steps_cons _ _ _ (mkSystem (D (stream.SInserted demo_target) trip_sent demo_base1) (trip_server tapp.RHead) [] [])).
  { by apply sys_sender, (stream.snd_insert _ (demo_sender (stream.SReady demo_target 2000) demo_base1) _ demo_target 2000). }
  apply (steps_cons _ _ _ (mkSystem (D (stream.SSentCount demo_target) trip_sent demo_base1) (trip_server tapp.RHead) [demo_base1] [])).
  { apply (sys_sender "10.10.10.1" demo_conf (demo_sender (stream.SInserted demo_target) demo_base1) trip_sent demo_q
      (stream.LSent 1 demo_base1)).
    by apply (stream.snd_write demo_conf (demo_sender (stream.SInserted demo_target) demo_base1) trip_sent demo_q demo_target). }
  apply (steps_cons _ _ _ (mkSystem (D (stream.SSentCount demo_target) trip_sent demo_base1) (trip_server tapp.RReading) [demo_base1] [])).
  { apply sys_server, tapp.step_reader_enter. vm_compute. reflexivity. }
  apply (steps_cons _ _ _ (mkSystem (D (stream.SSentCount demo_target) trip_sent demo_base1) (server (trip_at demo_conf)) [demo_base1] [trip_reply])).
  { apply (sys_request "10.10.10.1" _ _ _ (Some trip_reply)); [by apply list_elem_of_here|].
    eapply (tapp.step_reader_data 5000 6000); [reflexivity|reflexivity|unfold in64; lia|unfold in64; lia|].
    exact trip_read_ok. }
  apply (steps_cons _ _ _ (mkSystem (trip_world stream.RReading (stream.SSentCount demo_target) trip_sent demo_base1) (server (trip_at demo_conf)) [demo_base1] [trip_reply])).
  { apply (sys_client "10.10.10.1" _ stream.LTau); [apply stream.step_reader, stream.rd_enter; now vm_compute|]. by intros []. }
  apply steps_one. unfold trip_at.
  assert (trip_back = (Ok (Some 1, (ok_or (None, []) trip_back.1).2), (trip_back.2.1, trip_back.2.2))) as E
    by (apply run_some; vm_compute; reflexivity).
  apply (sys_deliver "10.10.10.1" 7000 trip_reply (Some 1)); [by apply list_elem_of_here|now vm_compute|exact E].
Qed.

Lemma trip_run :
  steps (step "10.10.10.1") (system0 demo_conf demo_c demo_q demo_server demo_prom 200) trip_labels trip_end.
Proof.
  eapply steps_snoc; [exact trip_run_there|]. apply (sys_client "10.10.10.1" _ stream.LConf); [|by intros []].
  apply (stream.step_conf trip_profile (tgen.LoadBatProfileConfig trip_profile demo_conf).1). apply surjective_pairing.
Qed.

Lemma trip_sizes : in64 (tgen.packetSize demo_conf).
Proof. unfold in64. simpl. lia. Qed.

Lemma system_refines_echo_witness :
  exists e, steps echo_step echo0
    [ESkip; ESkip; ESkip; ESkip; ESkip; ESend 1; ESkip; EEcho 1; ESkip; EReceive 1; ESkip] e /\
    size (e_received e) = 1%nat.
Proof.
  destruct (system_refines_echo "10.10.10.1" demo_conf demo_c demo_q ok_env (tapp.mkConfig 524288)
    "default" "pod-a" "node-1" "10.10.10.2" "eth0" 1000 demo_server ref_prom0 demo_prom 200
    demo_set_up demo_created trip_sizes ltac:(vm_compute; reflexivity) trip_labels trip_end trip_run)
    as (e & Hs & _ & Hn).
  exists e. split.
  - assert (echo_of <$> trip_labels = [ESkip; ESkip; ESkip; ESkip; ESkip; ESend 1; ESkip; EEcho 1; ESkip; EReceive 1; ESkip])
        as <- by (vm_compute; reflexivity). exact Hs.
  - destruct Hn as [Hn _]; [vm_compute; discriminate|]. apply Nat2Z.inj. rewrite <- Hn. vm_compute. reflexivity.
Defined.

Lemma end_to_end_accounts_witness :
  let x := stream.w_c (client trip_end) in
  tgen.packetSequence x = 1 /\ tgen.packetReceivedVal (tgen.vals x) = 1 /\
  known_max (tapp.activeClientsMap (tapp.w_srv (server trip_end))) "10.10.10.1" <= 1.
Proof.
  intros x.
  destruct (end_to_end_accounts "10.10.10.1" demo_conf demo_c demo_q ok_env (tapp.mkConfig 524288)
    "default" "pod-a" "node-1" "10.10.10.2" "eth0" 1000 demo_server ref_prom0 demo_prom 200
    demo_set_up demo_created trip_sizes ltac:(vm_compute; reflexivity) trip_labels trip_end trip_run)
    as (_ & _ & Hk).
  - vm_compute. discriminate.
  - assert (tgen.packetSequence x = 1) as E by (vm_compute; reflexivity). split; [exact E|].
    split; [vm_compute; reflexivity|]. fold x in Hk. rewrite E in Hk. apply Hk.
    intros data r. absent.
Defined.
