(* ===== verification/Config.v ===== *)
(** * The traffic profile ConfigMap (pkg/util/config.go)

    [ReLoadConfig] works on the caller's object and leaves in it what it had
    stored when it fails, so it is a computation over that object.  The YAML
    library is a parameter. *)
From S2P Require Import Prelude GoInt Strconv.

(** A profile: sections of settings.  None is the nil map, which the text
    [null] unmarshals to. *)
Definition profile : Type := option (gmap string (gmap string string)).

(** [yaml.Unmarshal] into a map of maps: None when it returns an error. *)
Class Yaml := { yaml_unmarshal : string -> option profile }.

(** [m[k]], of the nil map too. *)
Definition section (k : string) (m : profile) : option (gmap string string) :=
  m ≫= fun m => m !! k.

(** The part of a Kubernetes ConfigMap the program reads. *)
Record ConfigMap := mkConfigMap {
  cm_Name : string;
  cm_ResourceVersion : string;
  cm_Data : gmap string string
}.

Module util.

Record config := mkConfig {
  resourceVersion : string;
  suspendTraffic : bool;
  profileMap : profile
}.

Definition set_suspendTraffic (b : bool) (c : config) : config :=
  mkConfig (resourceVersion c) b (profileMap c).
Definition set_loaded (rv : string) (m : profile) (c : config) : config :=
  mkConfig rv (suspendTraffic c) m.

(** [c := config{suspendTraffic: false}] *)
Definition zero_config : config := mkConfig "" false None.

Section Load.
Context `{Yaml}.

Definition ReLoadConfig (cm : ConfigMap) : ST config unit :=
  match yaml_unmarshal (default "" (cm_Data cm !! "net-bat-profiles.cfg")) with
  | None => fail ("error parsing the config map data " +:+ cm_Name cm)
  | Some yamlMap =>
      let! _ :=
        match section "common" yamlMap with
        | None => ret tt
        | Some commonEntry =>
            match commonEntry !! "suspend-traffic" with
            | None => ret tt
            | Some val =>
                let b := ParseBool val in
                let! _ := modify (set_suspendTraffic (default false b)) in
                match b with
                | None => fail "parsing suspend-traffic failed: err invalid syntax"
                | Some _ => ret tt
                end
            end
        end in
      modify (set_loaded (cm_ResourceVersion cm) yamlMap)
  end.

(** A fresh object: nothing of it is seen when loading fails. *)
Definition LoadConfig (cm : ConfigMap) : outcome config :=
  match ReLoadConfig cm zero_config with
  | (Ok _, c) => Ok c
  | (Err e, _) => Err e
  | (Panic w, _) => Panic w
  end.

Definition SuspendTraffic (c : config) : bool := suspendTraffic c.
Definition GetProfileMap (c : config) : profile := profileMap c.
Definition GetResourceVersion (c : config) : string := resourceVersion c.

(** The setting of the common section, when it is there. *)
Definition suspend_setting (m : profile) : option string :=
  match section "common" m with Some e => e !! "suspend-traffic" | None => None end.

Lemma LoadConfig_returns cm : (exists c, LoadConfig cm = Ok c) \/ (exists e, LoadConfig cm = Err e).
Proof.
  unfold LoadConfig, ReLoadConfig. destruct (yaml_unmarshal _) as [m|]; [|right; by eexists].
  destruct (section "common" m) as [e|]; [|left; by eexists].
  destruct (e !! "suspend-traffic") as [v|]; [|left; by eexists].
  unfold bind. simpl. by destruct (ParseBool v); [left|right]; eexists.
Qed.

(** What reloading a profile leaves. Text that is not YAML changes
    nothing. A malformed suspend-traffic value resumes the traffic (false is
    stored) although the reload fails and profile and version stay the old
    ones. Otherwise version and profile are the new ones, and suspend-traffic
    is the new value or, when the setting is absent, the old one. *)
Lemma ReLoadConfig_effect cm c :
  ReLoadConfig cm c =
    match yaml_unmarshal (default "" (cm_Data cm !! "net-bat-profiles.cfg")) with
    | None => (Err ("error parsing the config map data " +:+ cm_Name cm), c)
    | Some m =>
        match suspend_setting m with
        | None => (Ok tt, mkConfig (cm_ResourceVersion cm) (suspendTraffic c) m)
        | Some val =>
            match ParseBool val with
            | Some b => (Ok tt, mkConfig (cm_ResourceVersion cm) b m)
            | None => (Err "parsing suspend-traffic failed: err invalid syntax",
                       mkConfig (resourceVersion c) false (profileMap c))
            end
        end
    end.
Proof.
  unfold ReLoadConfig, suspend_setting. destruct (yaml_unmarshal _) as [m|]; [|done].
  destruct (section "common" m) as [e|]; [|done]. destruct (e !! "suspend-traffic") as [v|]; [|done].
  by destruct (ParseBool v).
Qed.
End Load.
End util.
