(* ===== verification/TGC.v ===== *)
(** * The traffic controller (pkg/tgc/tgc.go)

    [podTGC] reacts to the two ConfigMaps.  The handlers take the controller's
    lock and run one at a time; [createNetBatTgenClients] leaves each client
    to a goroutine that does not take it, so those run between handlers.  The
    protocol modules, their servers and clients are behind the interfaces of
    pkg/util/util.go ([Protocols]); their state is [S]. *)
From S2P Require Import Prelude GoInt Strconv GoStrings Net Pair Pairing Config.

(** ProtocolServerModule and ServerImpl, ProtocolClientModule and ClientImpl.
    [protoServers] and [protoClients] are the registered modules in the order
    Go walks the maps; servers and clients are objects named by address.  A
    client holds the pointer to its pair, and setting it up writes there. *)
Class Protocols := {
  S : Type;
  protoServers : list string;
  protoClients : list string;
  server_LoadBatProfileConfig : string -> profile -> ST S unit;
  CreateServer : string -> string -> string -> Z -> ST S nat;   (* protocol, ip, interface, buffer *)
  TearDownServer : nat -> ST S unit;
  client_LoadBatProfileConfig : string -> profile -> ST S unit;
  CreateClient : string -> nat -> BatPair -> Z -> ST S nat;     (* protocol, pair, what it holds, buffer *)
  SetupConnection : nat -> ST (list BatPair * S) unit;
  TearDownConnection : nat -> ST S unit;
  start : nat -> ST S unit                                      (* the client's three goroutines *)
}.

Module tgc.

Definition netBatPairing : string := "net-bat-pairing".
Definition netBatProfile : string := "net-bat-profile".

(** The controller, and the configuration object it alone holds. *)
Record podTGC := mkPodTGC {
  socketReadBufferSize : Z;
  podName : string;
  namespace : string;
  config : option util.config;
  netBatPairs : option (list nat);                (* addresses of the pairs; None for nil *)
  netPairResourceVersion : string;
  serversMap : gmap string (list nat)
}.

Definition set_config (c : option util.config) (tg : podTGC) : podTGC :=
  mkPodTGC (socketReadBufferSize tg) (podName tg) (namespace tg) c (netBatPairs tg)
    (netPairResourceVersion tg) (serversMap tg).
Definition set_netBatPairs (ps : option (list nat)) (tg : podTGC) : podTGC :=
  mkPodTGC (socketReadBufferSize tg) (podName tg) (namespace tg) (config tg) ps
    (netPairResourceVersion tg) (serversMap tg).
Definition set_netPairResourceVersion (v : string) (tg : podTGC) : podTGC :=
  mkPodTGC (socketReadBufferSize tg) (podName tg) (namespace tg) (config tg) (netBatPairs tg)
    v (serversMap tg).
Definition set_serversMap (m : gmap string (list nat)) (tg : podTGC) : podTGC :=
  mkPodTGC (socketReadBufferSize tg) (podName tg) (namespace tg) (config tg) (netBatPairs tg)
    (netPairResourceVersion tg) m.

(** ** The registered modules

    The [init] functions of the protocol packages fill two maps of the package
    before [main] runs. *)
Section Registration.
Context {ProtocolServerModule ProtocolClientModule : Type}.
Definition RegisterProtocolServer (protocol : string) (server : ProtocolServerModule)
    (protoServers : gmap string ProtocolServerModule) : gmap string ProtocolServerModule :=
  <[protocol := server]> protoServers.
Definition RegisterProtocolClient (protocol : string) (client : ProtocolClientModule)
    (protoClients : gmap string ProtocolClientModule) : gmap string ProtocolClientModule :=
  <[protocol := client]> protoClients.
End Registration.

(** [NewPodTGController] *)
Definition NewPodTGController (podName namespace : string) (readBufferSize : Z) : podTGC :=
  mkPodTGC readBufferSize podName namespace None None "" ∅.

(** A goroutine of [createNetBatTgenClients], by what it does next. *)
Inductive task :=
| TCreate (pair : nat)        (* make the map, create the client *)
| TSetup (pair : nat)         (* SetupConnection *)
| TStart (pair : nat).        (* start the three goroutines *)

Section Controller.
Context `{JsonSource} `{Yaml} `{Protocols}.

Record world := mkWorld {
  w_tg : podTGC;
  w_pairs : list BatPair;       (* the pairs ever made; a pair's address is its index *)
  w_tasks : list task;
  w_ext : S
}.

Definition M (A : Type) : Type := ST world A.
Definition tget {A} (f : podTGC -> A) : M A := gets (fun w => f (w_tg w)).
Definition tupd (f : podTGC -> podTGC) : M unit :=
  modify (fun w => mkWorld (f (w_tg w)) (w_pairs w) (w_tasks w) (w_ext w)).
(** A call on a protocol module, a server or a client. *)
Definition call {A} (m : ST S A) : M A := fun w =>
  let '(r, s) := m (w_ext w) in (r, mkWorld (w_tg w) (w_pairs w) (w_tasks w) s).
(** What a client may change in a pair: the pending requests, the destination. *)
Definition written (old new : BatPair) : BatPair :=
  set_Destination (pair_Destination new) (set_PendingRequestsMap (PendingRequestsMap new) old).
Definition written_pairs (ps qs : list BatPair) : list BatPair :=
  imap (fun a p => match qs !! a with Some q => written p q | None => p end) ps.
(** A call on a client that works on its pair. *)
Definition call_pairs {A} (m : ST (list BatPair * S) A) : M A := fun w =>
  let '(r, (ps, s)) := m (w_pairs w, w_ext w) in
  (r, mkWorld (w_tg w) (written_pairs (w_pairs w) ps) (w_tasks w) s).
Definition spawn (t : task) : M unit :=
  modify (fun w => mkWorld (w_tg w) (w_pairs w) (w_tasks w ++ [t]) (w_ext w)).

Definition nil_deref : string := "runtime error: invalid memory address or nil pointer dereference".
Definition deref {A} (o : option A) : M A := lift (or_panic nil_deref o).

(** [p.f] for the pair at an address (always one of the heap). *)
Definition pair_at (a : nat) : M BatPair :=
  let! ps := gets w_pairs in deref (ps !! a).
Definition upd_pair (a : nat) (f : BatPair -> BatPair) : M unit :=
  modify (fun w => mkWorld (w_tg w) (alter f a (w_pairs w)) (w_tasks w) (w_ext w)).
(** A new array of pairs, and its addresses. *)
Definition alloc_pairs (ps : list BatPair) : M (list nat) := fun w =>
  (Ok (seq (length (w_pairs w)) (length ps)),
   mkWorld (w_tg w) (w_pairs w ++ ps) (w_tasks w) (w_ext w)).

Fixpoint for_each {A} (l : list A) (body : A -> M unit) : M unit :=
  match l with
  | [] => ret tt
  | x :: l => let! _ := body x in for_each l body
  end.

(** An error that is logged and passed over. *)
Definition ignore {A} (m : M A) : M (option A) := fun w =>
  match m w with
  | (Ok a, w') => (Ok (Some a), w')
  | (Err _, w') => (Ok None, w')
  | (Panic p, w') => (Panic p, w')
  end.

(** ** Clients *)

Definition createNetBatTgenClients : M unit :=
  let! ps := tget netBatPairs in
  for_each (default [] ps) (fun a => spawn (TCreate a)).

(** [pair.ClientConnection.TearDownConnection()] *)
Definition tearDownPair (a : nat) : M unit :=
  let! p := pair_at a in
  let! c := deref (ClientConnection p) in
  call (TearDownConnection c).

Definition restartNetBatTgenClients : M unit :=
  let! ps := tget netBatPairs in
  match ps with
  | None => ret tt
  | Some l => let! _ := for_each l tearDownPair in createNetBatTgenClients
  end.

Definition deleteNetBatTgenClients : M unit :=
  let! ps := tget netBatPairs in
  match ps with
  | None => ret tt
  | Some l => let! _ := for_each l tearDownPair in tupd (set_netBatPairs None)
  end.

(** What a goroutine does up to its next visible point, and where it is then. *)
Definition run_task (t : task) : M (option task) :=
  match t with
  | TCreate a =>
      let! _ := upd_pair a (set_PendingRequestsMap ∅) in
      let! p := pair_at a in
      if decide (TrafficProfile p ∈ protoClients) then
        let! n := tget socketReadBufferSize in
        let! r := ignore (call (CreateClient (TrafficProfile p) a p n)) in
        match r with
        | None => ret None
        | Some c => let! _ := upd_pair a (set_ClientConnection (Some c)) in ret (Some (TSetup a))
        end
      else ret None
  | TSetup a =>
      let! p := pair_at a in
      let! c := deref (ClientConnection p) in
      let! r := ignore (call_pairs (SetupConnection c)) in
      match r with None => ret None | Some _ => ret (Some (TStart a)) end
  | TStart a =>
      let! p := pair_at a in
      let! c := deref (ClientConnection p) in
      let! _ := call (start c) in ret None
  end.

(** ** Servers *)

(** [walk] is the order in which [range] visits the map. *)
Definition server_walk : Type := gmap string (list nat) -> list (string * list nat).
Definition stopServers (walk : server_walk) : M unit :=
  let! m := tget serversMap in
  for_each (walk m) (fun '(_, servers) => for_each servers (fun s => call (TearDownServer s))).

(** One server per interface; an interface whose server fails is left out. *)
Fixpoint createServers (protocol : string) (ifs : list (string * string)) : M (list nat) :=
  match ifs with
  | [] => ret []
  | (ifName, ip) :: ifs =>
      let! n := tget socketReadBufferSize in
      let! r := ignore (call (CreateServer protocol ip ifName n)) in
      let! rest := createServers protocol ifs in
      ret (match r with Some s => s :: rest | None => rest end)
  end.

(** ** The handlers

    An error in a handler is logged and ends it: [handler] makes it a normal
    return, so the steps below never end in an error. *)
Definition handler (m : M unit) : M unit := let! _ := ignore m in ret tt.

(** [tg.config] used through its interface: nil panics. *)
Definition the_config : M util.config := let! c := tget config in deref c.

(** What the environment gives a handler: decompression, the results of
    [GetInterfaces] and [GetNetInterfaces] (in the order the map is walked),
    the walk over the groups of pairs, the random numbers, and the walk over
    the servers. *)
Record env := mkEnv {
  e_gunzip : string -> outcome string;
  e_interfaces : outcome (list (string * string));
  e_netInterfaces : outcome (list (string * string));
  e_groups : gmap string (list BatPair) -> list (list BatPair);
  e_intn : Z -> Z;
  e_walk : server_walk
}.

Definition env_ok (e : env) : Prop :=
  walk_ok (e_groups e) /\ intn_ok (e_intn e) /\ forall m, e_walk e m ≡ₚ map_to_list m.

(** The pairs of a ConfigMap for this pod. *)
Definition parsed (e : env) (cm : ConfigMap) : M (list BatPair) := fun w =>
  (handleAddNetBatConfigMap (cm_Data cm) (e_gunzip e) (namespace (w_tg w)) (podName (w_tg w))
     (e_interfaces e) (let* l := e_netInterfaces e in Ok (list_to_map l)) (e_groups e) (e_intn e), w).

Definition handleNetBatPairingAddEvent (e : env) (cm : ConfigMap) : M unit :=
  let! batPairs := parsed e cm in
  let! addrs := alloc_pairs batPairs in
  let! _ := tupd (set_netBatPairs (Some addrs)) in
  let! c := tget config in
  match c with Some _ => createNetBatTgenClients | None => ret tt end.

(** The profile's Add handler; [ifs] is the result of [GetNetInterfaces], in
    the order it is walked. *)
Definition AddProfile (cm : ConfigMap) (ifs : outcome (list (string * string))) : M unit :=
  handler (
    let! c := lift (util.LoadConfig cm) in
    let! _ := tupd (set_config (Some c)) in
    let! ifs := lift ifs in
    let! _ := for_each protoServers (fun protocol =>
      let! c := the_config in
      let! _ := call (server_LoadBatProfileConfig protocol (util.GetProfileMap c)) in
      let! servers := createServers protocol ifs in
      tupd (fun tg => set_serversMap (<[protocol := servers]> (serversMap tg)) tg)) in
    let! _ := for_each protoClients (fun protocol =>
      let! c := the_config in
      call (client_LoadBatProfileConfig protocol (util.GetProfileMap c))) in
    let! ps := tget netBatPairs in
    match ps with Some _ => createNetBatTgenClients | None => ret tt end).

(** [util.ReLoadConfig(cm, tg.config)]: the object is changed in place. *)
Definition reload (cm : ConfigMap) (c : util.config) : M unit := fun w =>
  let '(r, c') := util.ReLoadConfig cm c in
  (r, mkWorld (set_config (Some c') (w_tg w)) (w_pairs w) (w_tasks w) (w_ext w)).

Definition UpdateProfile (cm : ConfigMap) : M unit :=
  let! c := the_config in
  if decide (cm_ResourceVersion cm = util.GetResourceVersion c) then ret tt else
  handler (
    let suspendOld := util.SuspendTraffic c in
    let! _ := reload cm c in
    let! _ := for_each protoServers (fun protocol =>
      let! c := the_config in
      call (server_LoadBatProfileConfig protocol (util.GetProfileMap c))) in
    let! _ := for_each protoClients (fun protocol =>
      let! c := the_config in
      call (client_LoadBatProfileConfig protocol (util.GetProfileMap c))) in
    let! c := the_config in
    if negb (Bool.eqb suspendOld (util.SuspendTraffic c)) then ret tt
    else restartNetBatTgenClients).

Definition DeleteProfile (walk : server_walk) : M unit :=
  let! _ := stopServers walk in tupd (set_config None).

Definition AddPairing (e : env) (cm : ConfigMap) : M unit :=
  let! _ := tupd (set_netPairResourceVersion (cm_ResourceVersion cm)) in
  handler (handleNetBatPairingAddEvent e cm).

Definition UpdatePairing (e : env) (cm : ConfigMap) : M unit :=
  let! v := tget netPairResourceVersion in
  if decide (cm_ResourceVersion cm = v) then ret tt else
  let! _ := tupd (set_netPairResourceVersion (cm_ResourceVersion cm)) in
  let! _ := deleteNetBatTgenClients in
  handler (handleNetBatPairingAddEvent e cm).

Definition DeletePairing : M unit :=
  let! _ := tupd (set_netPairResourceVersion "") in deleteNetBatTgenClients.

(** After the informer has stopped. *)
Definition StopTGC (walk : server_walk) : M unit :=
  let! _ := deleteNetBatTgenClients in stopServers walk.

(** ** The informer's events *)
Inductive event :=
| EAdd (cm : ConfigMap)
| EUpdate (cm : ConfigMap)
| EDelete (cm : ConfigMap)
| EStop.

Definition handle (e : env) (ev : event) : M unit :=
  match ev with
  | EAdd cm =>
      if decide (cm_Name cm = netBatPairing) then AddPairing e cm
      else if decide (cm_Name cm = netBatProfile) then AddProfile cm (e_netInterfaces e)
      else ret tt
  | EUpdate cm =>
      if decide (cm_Name cm = netBatPairing) then UpdatePairing e cm
      else if decide (cm_Name cm = netBatProfile) then UpdateProfile cm
      else ret tt
  | EDelete cm =>
      if decide (cm_Name cm = netBatPairing) then DeletePairing
      else if decide (cm_Name cm = netBatProfile) then DeleteProfile (e_walk e)
      else ret tt
  | EStop => StopTGC (e_walk e)
  end.

(** Events and goroutines, interleaved. A panic ends the process: no step. *)
Inductive label := LEvent (ev : event) | LTask (t : task).

Inductive step : world -> label -> world -> Prop :=
| step_event e ev w w' : env_ok e -> handle e ev w = (Ok tt, w') -> step w (LEvent ev) w'
| step_task l1 t l2 tg ps s next w' :
    run_task t (mkWorld tg ps (l1 ++ l2) s) = (Ok next, w') ->
    step (mkWorld tg ps (l1 ++ t :: l2) s) (LTask t)
      (mkWorld (w_tg w') (w_pairs w')
         (match next with Some t' => w_tasks w' ++ [t'] | None => w_tasks w' end) (w_ext w')).

End Controller.
End tgc.
