(* ===== verification/TGCTheorems.v ===== *)
(** * Properties of the traffic controller

    The life of the clients across ConfigMap events, and the events that take
    the process down. *)
From S2P Require Import Prelude GoInt Strconv GoStrings Net Pair Pairing Config TGC.
Import tgc.

(** The methods of ServerImpl and ClientImpl that return nothing return no error. *)
Class NoErrors `{Protocols} : Prop := {
  TearDownConnection_no_err c s e : (TearDownConnection c s).1 <> Err e;
  start_no_err c s e : (start c s).1 <> Err e
}.

Section Theorems.
Context `{JsonSource} `{Yaml} `{NoErrors}.

(** ** Generic facts *)

(** A computation that makes no pair and gives none a client. *)
Definition keeps_pairs {A} (m : M A) : Prop := forall w, w_pairs (m w).2 = w_pairs w.

Lemma keeps_bind {A B} (m : M A) (f : A -> M B) :
  keeps_pairs m -> (forall a, keeps_pairs (f a)) -> keeps_pairs (bind m f).
Proof.
  intros Hm Hf w. specialize (Hm w). unfold bind. destruct (m w) as [[a|e|p] w1]; [|done..].
  simpl in *. rewrite <- Hm. apply Hf.
Qed.
Lemma keeps_ret {A} (a : A) : keeps_pairs (ret a : M A). Proof. done. Qed.
Lemma keeps_lift {A} (r : outcome A) : keeps_pairs (lift r : M A). Proof. done. Qed.
Lemma keeps_gets {A} (f : world -> A) : keeps_pairs (gets f). Proof. done. Qed.
Lemma keeps_tupd f : keeps_pairs (tupd f). Proof. done. Qed.
Lemma keeps_spawn t : keeps_pairs (spawn t). Proof. done. Qed.
Lemma keeps_call {A} (m : ST S A) : keeps_pairs (call m).
Proof. intros w. unfold call. by destruct (m (w_ext w)). Qed.
(** What a client writes in the pairs: their number, profiles and clients stay. *)
Lemma written_lookup (ps qs : list BatPair) a :
  written_pairs ps qs !! a =
    (fun p => match qs !! a with Some q => written p q | None => p end) <$> ps !! a.
Proof. apply list_lookup_imap. Qed.

Lemma written_inv (ps qs : list BatPair) a p :
  written_pairs ps qs !! a = Some p ->
  exists p0, ps !! a = Some p0 /\ ClientConnection p = ClientConnection p0 /\ TrafficProfile p = TrafficProfile p0.
Proof. rewrite written_lookup. intros (p0 & Hp & ->)%fmap_Some. exists p0. by case_match. Qed.

Lemma written_of (ps qs : list BatPair) a p0 :
  ps !! a = Some p0 -> exists p, written_pairs ps qs !! a = Some p /\
    ClientConnection p = ClientConnection p0 /\ TrafficProfile p = TrafficProfile p0.
Proof. intros Hp. rewrite written_lookup, Hp. simpl. eexists. split; [done|]. by case_match. Qed.

Lemma keeps_ignore {A} (m : M A) : keeps_pairs m -> keeps_pairs (ignore m).
Proof. intros Hm w. specialize (Hm w). unfold ignore. by destruct (m w) as [[]]. Qed.
Lemma keeps_for_each {A} (l : list A) body : (forall x, keeps_pairs (body x)) -> keeps_pairs (for_each l body).
Proof. intros Hb. induction l; simpl; [done|]. by apply keeps_bind. Qed.
Lemma keeps_reload cm c : keeps_pairs (reload cm c).
Proof. intros w. unfold reload. by destruct (util.ReLoadConfig cm c). Qed.
Lemma keeps_createServers protocol ifs : keeps_pairs (createServers protocol ifs).
Proof.
  induction ifs as [|[i ip] ifs IH]; simpl; [done|].
  apply keeps_bind; [apply keeps_gets|intros n]. apply keeps_bind; [by apply keeps_ignore, keeps_call|].
  intros r. by apply keeps_bind.
Qed.
End Theorems.

Ltac keeps :=
  repeat first
    [ apply keeps_ret | apply keeps_lift | apply keeps_gets | apply keeps_tupd | apply keeps_spawn
    | apply keeps_call | apply keeps_reload | apply keeps_createServers
    | apply keeps_ignore | apply keeps_for_each; intros ? | apply keeps_bind; [|intros ?] | case_match ].

Section Clients.
Context `{JsonSource} `{Yaml} `{NoErrors}.

(** ** Tearing clients down *)

(** [TearDownConnection] on each of the clients, in order. *)
Fixpoint tear_all (cs : list nat) (s : S) : outcome unit * S :=
  match cs with
  | [] => (Ok tt, s)
  | c :: cs => match TearDownConnection c s with
               | (Ok _, s') => tear_all cs s'
               | r => r
               end
  end.

Definition client_of (ps : list BatPair) (a : nat) : option nat := ps !! a ≫= ClientConnection.

Lemma tearDown_spec ps l cs tg ts s :
  mapM (client_of ps) l = Some cs ->
  for_each l tearDownPair (mkWorld tg ps ts s) =
    ((tear_all cs s).1, mkWorld tg ps ts (tear_all cs s).2).
Proof.
  revert cs s. induction l as [|a l IH]; intros cs s Hm; [by injection Hm as <-|].
  simpl in Hm. apply bind_Some in Hm as (c & Hc & Hm). apply bind_Some in Hm as (cs' & Hcs & [= <-]).
  unfold client_of in Hc. apply bind_Some in Hc as (p & Hp & Hc).
  simpl. unfold tearDownPair, pair_at, deref, gets, lift, call, bind. simpl. rewrite Hp. simpl. rewrite Hc. simpl.
  destruct (TearDownConnection c s) as [[[]|e|w] s'] eqn:E; [|done..].
  specialize (IH cs' s' Hcs). unfold tearDownPair, pair_at, deref, gets, lift, call, bind in IH. by rewrite IH.
Qed.

Lemma tearDown_nil ps l tg ts s :
  Exists (fun a => client_of ps a = None) l ->
  is_panic (for_each l tearDownPair (mkWorld tg ps ts s)).1 = true.
Proof.
  intros Hl. revert s. induction Hl as [a l Ha|a l Ha IH]; intros s; simpl.
  - unfold client_of in Ha. unfold tearDownPair, pair_at, deref, gets, lift, bind. simpl.
    destruct (ps !! a) as [p|]; [|done]. simpl in *. by rewrite Ha.
  - unfold bind at 1. unfold tearDownPair at 1, pair_at, deref, gets, lift, call, bind. simpl.
    destruct (ps !! a) as [p|]; [|done]. simpl. destruct (ClientConnection p) as [c|]; [|done]. simpl.
    destruct (TearDownConnection c s) as [[[]|e|w] s'] eqn:E; [apply IH| |done].
    pose proof (TearDownConnection_no_err c s e) as N. by rewrite E in N.
Qed.

(** Deleting the pairing ConfigMap, and the part of shutting down that
    concerns clients: each pair's client is torn down exactly once, in the
    order of the pairs, and the controller forgets the pairs, so that a
    second deletion touches no client. *)
Lemma clients_torn_down_once w l cs :
  netBatPairs (w_tg w) = Some l -> mapM (client_of (w_pairs w)) l = Some cs ->
  exists w', deleteNetBatTgenClients w = ((tear_all cs (w_ext w)).1, w') /\
    w_ext w' = (tear_all cs (w_ext w)).2 /\ w_pairs w' = w_pairs w /\
    ((tear_all cs (w_ext w)).1 = Ok tt ->
     netBatPairs (w_tg w') = None /\ deleteNetBatTgenClients w' = (Ok tt, w')).
Proof.
  intros Hl Hcs. destruct w as [tg ps ts s]; simpl in *.
  unfold deleteNetBatTgenClients, tget. unfold bind at 1. unfold gets. simpl. rewrite Hl.
  unfold bind. rewrite (tearDown_spec ps l cs tg ts s Hcs).
  destruct (tear_all cs s) as [[[]|e|p] s']; simpl; eexists; split; try done.
Qed.

(** ** Pairs that never get a client *)

(** A pair of a protocol no module was registered for. *)
Definition unserved (p : BatPair) : Prop := TrafficProfile p ∉ protoClients.

Definition no_client_unserved (ps : list BatPair) : Prop :=
  Forall (fun p => unserved p -> ClientConnection p = None) ps.

Lemma no_client_keeps {A} (m : M A) w : keeps_pairs m -> no_client_unserved (w_pairs w) ->
  no_client_unserved (w_pairs (m w).2).
Proof. intros Hm. by rewrite (Hm w). Qed.

Lemma no_client_alter ps a f :
  (forall p, ps !! a = Some p -> unserved (f p) -> ClientConnection (f p) = None) ->
  no_client_unserved ps -> no_client_unserved (alter f a ps).
Proof.
  intros Hf Hps. apply Forall_lookup. intros i p. destruct (decide (a = i)) as [->|Hne].
  - rewrite list_lookup_alter_eq. intros (q & Hq & ->)%fmap_Some. by apply Hf.
  - rewrite list_lookup_alter_ne by done. intros Hi. exact (proj1 (Forall_lookup _ _) Hps i p Hi).
Qed.

(** Preserved by a computation, whatever its outcome. *)
Definition preserved (P : world -> Prop) {A} (m : M A) : Prop := forall w, P w -> P (m w).2.

Section Preserved.
Context (P : world -> Prop).

Lemma preserved_bind {A B} (m : M A) (f : A -> M B) :
  preserved P m -> (forall a, preserved P (f a)) -> preserved P (bind m f).
Proof.
  intros Hm Hf w Hw. specialize (Hm w Hw). unfold bind.
  destruct (m w) as [[a|e|p] w1]; [by apply Hf|done..].
Qed.
Lemma preserved_same {A} (m : M A) : (forall w, (m w).2 = w) -> preserved P m.
Proof. intros Hm w. by rewrite Hm. Qed.
Lemma preserved_lift {A} (r : outcome A) : preserved P (lift r : M A). Proof. by apply preserved_same. Qed.
Lemma preserved_ret {A} (a : A) : preserved P (ret a : M A). Proof. by apply preserved_same. Qed.
Lemma preserved_gets {A} (f : world -> A) : preserved P (gets f). Proof. by apply preserved_same. Qed.
Lemma preserved_ignore {A} (m : M A) : preserved P m -> preserved P (ignore m).
Proof. intros Hm w Hw. specialize (Hm w Hw). unfold ignore. by destruct (m w) as [[]]. Qed.
Lemma preserved_for_each {A} (l : list A) body :
  (forall x, preserved P (body x)) -> preserved P (for_each l body).
Proof. intros Hb. induction l; simpl; [apply preserved_ret|]. by apply preserved_bind. Qed.
Lemma preserved_createServers protocol ifs :
  (forall A (m : ST S A), preserved P (call m)) -> preserved P (createServers protocol ifs).
Proof.
  intros Hc. induction ifs as [|[i ip] ifs IH]; simpl; [apply preserved_ret|].
  apply preserved_bind; [apply preserved_gets|intros n]. apply preserved_bind; [by apply preserved_ignore|].
  intros r. apply preserved_bind; [done|]. intros. apply preserved_ret.
Qed.
End Preserved.

Definition safe {A} (m : M A) : Prop := preserved (fun w => no_client_unserved (w_pairs w)) m.

Lemma safe_keeps {A} (m : M A) : keeps_pairs m -> safe m.
Proof. intros Hm w. by rewrite (Hm w). Qed.
Lemma safe_bind {A B} (m : M A) (f : A -> M B) : safe m -> (forall a, safe (f a)) -> safe (bind m f).
Proof. apply preserved_bind. Qed.
Lemma safe_ignore {A} (m : M A) : safe m -> safe (ignore m).
Proof. apply preserved_ignore. Qed.

Lemma safe_handler m : safe m -> safe (handler m).
Proof. intros Hm. apply safe_bind; [by apply safe_ignore|]. intros. apply safe_keeps. keeps. Qed.

Lemma handleNetBatPairingAddEvent_safe e cm : env_ok e -> safe (handleNetBatPairingAddEvent e cm).
Proof.
  intros [Hw _] w Hps. unfold handleNetBatPairingAddEvent.
  unfold bind at 1, parsed. destruct (handleAddNetBatConfigMap _ _ _ _ _ _ _ _) as [ps|e'|w'] eqn:E; [|done..].
  apply handleAddNetBatConfigMap_fresh in E; [|done].
  unfold bind at 1, alloc_pairs. apply (safe_keeps (bind _ _)).
  - unfold createNetBatTgenClients, tget. keeps.
  - simpl. apply Forall_app. split; [done|]. eapply Forall_impl; [exact E|]. auto.
Qed.

Lemma delete_keeps : keeps_pairs deleteNetBatTgenClients.
Proof. unfold deleteNetBatTgenClients, tearDownPair, pair_at, tget, deref. keeps. Qed.

Lemma handle_safe e ev : env_ok e -> safe (handle e ev).
Proof.
  intros He. pose proof (handleNetBatPairingAddEvent_safe e) as Ha. destruct ev as [cm|cm|cm|]; simpl.
  - case_decide.
    { apply safe_bind; [apply safe_keeps; keeps|]. intros _. by apply safe_handler, Ha. }
    apply safe_keeps. unfold AddProfile, handler, the_config, createNetBatTgenClients, tget, deref. keeps.
  - case_decide.
    { unfold UpdatePairing. apply safe_bind; [apply safe_keeps; unfold tget; keeps|]. intros v.
      case_decide; [apply safe_keeps; keeps|]. apply safe_bind; [apply safe_keeps; keeps|]. intros _.
      apply safe_bind; [apply safe_keeps, delete_keeps|]. intros _. by apply safe_handler, Ha. }
    apply safe_keeps. unfold UpdateProfile, handler, the_config, restartNetBatTgenClients,
      createNetBatTgenClients, tearDownPair, pair_at, tget, deref. keeps.
  - apply safe_keeps. unfold DeletePairing, DeleteProfile, stopServers, tget, deleteNetBatTgenClients,
      tearDownPair, pair_at, tget, deref. keeps.
  - apply safe_keeps. unfold StopTGC, stopServers, tget, deleteNetBatTgenClients,
      tearDownPair, pair_at, tget, deref. keeps.
Qed.

Lemma run_task_safe t : safe (run_task t).
Proof.
  destruct t as [a|a|a]; simpl.
  - intros w Hw. unfold bind at 1, upd_pair, modify. simpl.
    set (w1 := mkWorld _ _ _ _).
    assert (no_client_unserved (w_pairs w1)) as Hw1.
    { apply no_client_alter; [|done]. intros p Hp. exact (proj1 (Forall_lookup _ _) Hw a p Hp). }
    unfold bind at 1, pair_at. unfold bind at 1, gets, deref, lift.
    destruct (w_pairs w1 !! a) as [p|] eqn:Ep; simpl; [|done].
    case_decide as Hin; [|done]. unfold bind at 1, tget, gets. unfold bind at 1.
    pose proof (keeps_ignore _ (keeps_call (CreateClient (TrafficProfile p) a p (socketReadBufferSize (w_tg w1)))) w1) as Hk.
    destruct (ignore _ w1) as [[[c|]|e|q] w2]; simpl in *; rewrite ?Hk; try done.
    apply no_client_alter; [|done]. intros p' Hp' Hu. rewrite Ep in Hp'. injection Hp' as <-. by destruct Hu.
  - apply safe_bind; [apply safe_keeps; unfold pair_at, deref; keeps|intros p].
    apply safe_bind; [apply safe_keeps; unfold deref; keeps|intros c].
    apply safe_bind; [apply safe_ignore|intros []; apply safe_keeps; keeps].
    intros w Hw. unfold call_pairs. destruct (SetupConnection c (w_pairs w, w_ext w)) as [r [ps s]]. simpl.
    apply Forall_lookup. intros i q (q0 & Hq & Ec & Ep)%written_inv. unfold unserved. rewrite Ec, Ep.
    exact (proj1 (Forall_lookup _ _) Hw i q0 Hq).
  - apply safe_keeps. unfold pair_at, deref. keeps.
Qed.

Lemma step_safe w lb w' :
  step w lb w' -> no_client_unserved (w_pairs w) -> no_client_unserved (w_pairs w').
Proof.
  destruct 1 as [e ev w w' He Hh|l1 t l2 tg ps s next w' Hr]; intros Hps.
  - pose proof (handle_safe e ev He w Hps) as Hx. by rewrite Hh in Hx.
  - pose proof (run_task_safe t (mkWorld tg ps (l1 ++ l2) s) Hps) as Hx. by rewrite Hr in Hx.
Qed.

(** The events that tear all the clients down. *)
Definition disturbs (w : world) (ev : event) : Prop :=
  match ev with
  | EDelete cm => cm_Name cm = netBatPairing
  | EUpdate cm => cm_Name cm = netBatPairing /\ cm_ResourceVersion cm <> netPairResourceVersion (w_tg w)
  | EStop => True
  | EAdd _ => False
  end.

Lemma disturbed_panics e ev w l :
  netBatPairs (w_tg w) = Some l -> disturbs w ev ->
  (forall tg, is_panic (for_each l tearDownPair (mkWorld tg (w_pairs w) (w_tasks w) (w_ext w))).1 = true) ->
  is_panic (handle e ev w).1 = true.
Proof.
  intros Hl Hev Hp.
  assert (forall tg, netBatPairs tg = Some l ->
    is_panic (deleteNetBatTgenClients (mkWorld tg (w_pairs w) (w_tasks w) (w_ext w))).1 = true) as Hd.
  { intros tg Htg. unfold deleteNetBatTgenClients, tget, bind at 1, gets. simpl. rewrite Htg.
    specialize (Hp tg). unfold bind. by destruct (for_each _ _ _) as [[]]. }
  destruct w as [tg ps ts s]. simpl in *. destruct ev as [cm|cm|cm|]; simpl in *; [done| | |].
  - destruct Hev as [Hc Hv]. rewrite decide_True by done. unfold UpdatePairing.
    unfold bind at 1, tget, gets. simpl. rewrite decide_False by done. unfold bind at 1. simpl.
    specialize (Hd (set_netPairResourceVersion (cm_ResourceVersion cm) tg) Hl). unfold bind.
    by destruct (deleteNetBatTgenClients _) as [[]].
  - rewrite decide_True by done. unfold DeletePairing. unfold bind. simpl.
    exact (Hd (set_netPairResourceVersion "" tg) Hl).
  - unfold StopTGC, bind. specialize (Hd tg Hl). by destruct (deleteNetBatTgenClients _) as [[]].
Qed.

(** C20: one pairing line with a profile no module is registered for (such as
    the http line of the repository's own example ConfigMap) takes the process
    down at the next change: if the pairs the controller has include one whose
    profile is not registered, then in every reachable state deleting or
    changing the pairing ConfigMap, or shutting down, panics, because its
    client is nil. *)
Theorem unregistered_profile_crashes tg s ls w l a p e ev :
  steps step (mkWorld tg [] [] s) ls w ->
  netBatPairs (w_tg w) = Some l -> a ∈ l -> w_pairs w !! a = Some p ->
  TrafficProfile p ∉ protoClients ->
  disturbs w ev -> is_panic (handle e ev w).1 = true.
Proof.
  intros Hr Hl Ha Hp Hu Hev.
  assert (no_client_unserved (w_pairs w)) as Hn.
  { refine (steps_invariant step (fun w => no_client_unserved (w_pairs w)) _ _ _ ls w Hr); [constructor|].
    intros. by eapply step_safe. }
  apply (disturbed_panics e ev w l Hl Hev). intros tg'. apply tearDown_nil, Exists_exists.
  exists a. split; [done|]. unfold client_of. rewrite Hp. exact (proj1 (Forall_lookup _ _) Hn a p Hp Hu).
Qed.

(** A net-bat-profile ConfigMap that does not load takes the process down
    when it is corrected: adding it leaves the controller without a
    configuration, and any update of it then goes through a nil interface. *)
Lemma bad_profile_then_update_panics e e' cm cm' w :
  cm_Name cm = netBatProfile -> cm_Name cm' = netBatProfile -> config (w_tg w) = None ->
  (forall c, util.LoadConfig cm <> Ok c) ->
  let '(r, w1) := handle e (EAdd cm) w in
  r = Ok tt /\ w1 = w /\ is_panic (handle e' (EUpdate cm') w1).1 = true.
Proof.
  intros Hc Hc' Hw Hl. unfold handle. rewrite Hc, Hc'. simpl.
  unfold AddProfile, handler. unfold bind at 1, ignore. unfold bind at 1, lift.
  destruct (util.LoadConfig_returns cm) as [[c E]|[e1 E]]; [by destruct (Hl c)|]. rewrite E.
  split; [done|]. split; [done|].
  unfold UpdateProfile, the_config. unfold bind at 1. unfold bind at 1, tget, gets. by rewrite Hw.
Qed.
End Clients.

(** ** Starting the clients *)
Section Starting.
Context `{JsonSource} `{Yaml} `{NoErrors}.

(** The registered modules take a profile, or one of them never does. *)
Definition loads_ok (m : profile) : Prop :=
  (forall proto s, proto ∈ protoServers -> (server_LoadBatProfileConfig proto m s).1 = Ok tt) /\
  (forall proto s, proto ∈ protoClients -> (client_LoadBatProfileConfig proto m s).1 = Ok tt).
Definition loads_fail (m : profile) : Prop :=
  (exists proto, proto ∈ protoServers /\ forall s, is_ok (server_LoadBatProfileConfig proto m s).1 = false) \/
  (exists proto, proto ∈ protoClients /\ forall s, is_ok (client_LoadBatProfileConfig proto m s).1 = false).

Definition identity (tg : podTGC) : string * string := (namespace tg, podName tg).

(** The part of the controller that starting clients depends on. *)
Definition same_plan (w w' : world) : Prop :=
  w_pairs w' = w_pairs w /\ w_tasks w' = w_tasks w /\ config (w_tg w') = config (w_tg w) /\
  netBatPairs (w_tg w') = netBatPairs (w_tg w) /\ identity (w_tg w') = identity (w_tg w).

#[local] Instance same_plan_preorder : PreOrder same_plan.
Proof.
  split; [done|]. intros w1 w2 w3 (?&?&?&?&?) (?&?&?&?&?). unfold same_plan. split_and!; congruence.
Qed.

Section Loading.
Context (c : util.config).

(** Under configuration [c]: the plan is kept; and it succeeds, or does not. *)
Definition plans {A} (m : M A) : Prop :=
  forall w, config (w_tg w) = Some c -> same_plan w (m w).2.
Definition succeeds {A} (m : M A) : Prop :=
  forall w, config (w_tg w) = Some c -> is_panic (m w).1 = false -> is_ok (m w).1 = true.
Definition fails {A} (m : M A) : Prop :=
  forall w, config (w_tg w) = Some c -> is_ok (m w).1 = false.

Lemma plans_kept {A} (m : M A) w : plans m -> config (w_tg w) = Some c -> config (w_tg (m w).2) = Some c.
Proof. intros Hm Hc. destruct (Hm w Hc) as (_ & _ & E & _). congruence. Qed.

Lemma plans_bind {A B} (m : M A) (f : A -> M B) : plans m -> (forall a, plans (f a)) -> plans (bind m f).
Proof.
  intros Hm Hf w Hc. pose proof (Hm w Hc) as Hx. pose proof (plans_kept m w Hm Hc) as Hc1. unfold bind.
  destruct (m w) as [[a|e|p] w1]; [|done..]. simpl in *. etransitivity; [exact Hx|by apply Hf].
Qed.
Lemma plans_same {A} (m : M A) : (forall w, (m w).2 = w) -> plans m.
Proof. intros Hm w _. by rewrite Hm. Qed.
Lemma plans_call {A} (m : ST S A) : plans (call m).
Proof. intros w _. unfold call. by destruct (m (w_ext w)). Qed.
Lemma plans_ignore {A} (m : M A) : plans m -> plans (ignore m).
Proof. intros Hm w Hc. specialize (Hm w Hc). unfold ignore. by destruct (m w) as [[]]. Qed.
Lemma plans_for_each {A} (l : list A) body : (forall x, plans (body x)) -> plans (for_each l body).
Proof. intros Hb. induction l; simpl; [by apply plans_same|]. by apply plans_bind. Qed.
Lemma config_run {A} (k : util.config -> M A) w :
  config (w_tg w) = Some c -> (let! c := the_config in k c) w = k c w.
Proof. intros Hc. unfold bind, the_config, bind, tget, gets, deref, lift. simpl. by rewrite Hc. Qed.
Lemma plans_the_config {A} (k : util.config -> M A) : plans (k c) -> plans (let! c := the_config in k c).
Proof. intros Hk w Hc. rewrite config_run by done. by apply Hk. Qed.
Lemma plans_createServers proto ifs : plans (createServers proto ifs).
Proof.
  induction ifs as [|[i ip] ifs IH]; simpl; [by apply plans_same|].
  apply plans_bind; [by apply plans_same|intros n]. apply plans_bind; [apply plans_ignore, plans_call|intros r].
  apply plans_bind; [done|]. intros rest. by apply plans_same.
Qed.

Lemma succeeds_bind {A B} (m : M A) (f : A -> M B) :
  plans m -> succeeds m -> (forall a, succeeds (f a)) -> succeeds (bind m f).
Proof.
  intros Hp Hm Hf w Hc. pose proof (Hm w Hc) as Hx. pose proof (plans_kept m w Hp Hc) as Hc1. unfold bind.
  destruct (m w) as [[a|e|p] w1]; simpl in *; [by apply Hf|by specialize (Hx eq_refl)|done].
Qed.
Lemma succeeds_for_each {A} (l : list A) body :
  (forall x, plans (body x)) -> (forall x, x ∈ l -> succeeds (body x)) -> succeeds (for_each l body).
Proof.
  intros Hp. induction l as [|x l IH]; intros Hb; simpl; [done|].
  apply succeeds_bind; [done|apply Hb, list_elem_of_here|]. intros _. apply IH. intros y Hy. by apply Hb, list_elem_of_further.
Qed.

Lemma fails_bind_l {A B} (m : M A) (f : A -> M B) : fails m -> fails (bind m f).
Proof. intros Hm w Hc. specialize (Hm w Hc). unfold bind. by destruct (m w) as [[a|e|p] w1]. Qed.
Lemma fails_bind_r {A B} (m : M A) (f : A -> M B) : plans m -> (forall a, fails (f a)) -> fails (bind m f).
Proof.
  intros Hp Hf w Hc. pose proof (plans_kept m w Hp Hc) as Hc1. unfold bind.
  destruct (m w) as [[a|e|p] w1]; simpl in *; [by apply Hf|done..].
Qed.
Lemma fails_for_each {A} (l : list A) body x :
  (forall x, plans (body x)) -> x ∈ l -> fails (body x) -> fails (for_each l body).
Proof.
  intros Hp Hx Hb. induction l as [|y l IH]; [by apply not_elem_of_nil in Hx|]. simpl.
  apply elem_of_cons in Hx as [->|Hx]; [by apply fails_bind_l|apply fails_bind_r; auto].
Qed.

(** Loading the profile into the modules: each server's load may be followed
    by more, [k], that keeps the plan and does not fail. *)
Definition loading (k : string -> M unit) : M unit :=
  let! _ := for_each protoServers (fun protocol =>
    let! c := the_config in
    let! _ := call (server_LoadBatProfileConfig protocol (util.GetProfileMap c)) in k protocol) in
  for_each protoClients (fun protocol =>
    let! c := the_config in
    call (client_LoadBatProfileConfig protocol (util.GetProfileMap c))).

Lemma call_fst {A} (m : ST S A) (w : world) : (call m w).1 = (m (w_ext w)).1.
Proof. unfold call. by destruct (m (w_ext w)). Qed.

Context (k : string -> M unit).
Hypothesis Kplans : forall proto, plans (k proto).
Hypothesis Ksucceeds : forall proto, succeeds (k proto).

Lemma loading_plans : plans (loading k).
Proof.
  apply plans_bind; [|intros _]; apply plans_for_each; intros proto; apply plans_the_config; [|apply plans_call].
  apply plans_bind; [apply plans_call|]. by intros _.
Qed.

Lemma loading_ok : loads_ok (util.GetProfileMap c) -> succeeds (loading k).
Proof.
  intros [Hs Hcl]. apply succeeds_bind.
  - apply plans_for_each. intros proto. apply plans_the_config, plans_bind; [apply plans_call|]. by intros _.
  - apply succeeds_for_each.
    + intros proto. apply plans_the_config, plans_bind; [apply plans_call|]. by intros _.
    + intros proto Hp w Hc. rewrite config_run by done. revert w Hc. apply succeeds_bind; [apply plans_call| |by intros _].
      intros w _ _. by rewrite call_fst, Hs.
  - intros _. apply succeeds_for_each; [intros; apply plans_the_config, plans_call|].
    intros proto Hp w Hc. rewrite config_run by done. by rewrite call_fst, Hcl.
Qed.

Lemma loading_fails : loads_fail (util.GetProfileMap c) -> fails (loading k).
Proof.
  intros [(proto & Hp & Hf)|(proto & Hp & Hf)].
  - apply fails_bind_l, (fails_for_each _ _ proto); [|done|].
    + intros p. apply plans_the_config, plans_bind; [apply plans_call|]. by intros _.
    + intros w Hc. rewrite config_run by done. unfold bind. rewrite <- (Hf (w_ext w)).
      specialize (Hf (w_ext w)). unfold call. by destruct (server_LoadBatProfileConfig _ _ _) as [[]].
  - apply fails_bind_r.
    + apply plans_for_each. intros p. apply plans_the_config, plans_bind; [apply plans_call|]. by intros _.
    + intros _. apply (fails_for_each _ _ proto); [intros; apply plans_the_config, plans_call|done|].
      intros w Hc. rewrite config_run by done. by rewrite call_fst.
Qed.
End Loading.

Lemma spawn_all l w :
  for_each l (fun a => spawn (TCreate a)) w =
    (Ok tt, mkWorld (w_tg w) (w_pairs w) (w_tasks w ++ (TCreate <$> l)) (w_ext w)).
Proof.
  revert w. induction l as [|a l IH]; intros w; simpl.
  - rewrite app_nil_r. by destruct w.
  - unfold bind, spawn, modify. rewrite IH. simpl. by rewrite <- app_assoc.
Qed.

Lemma AddPairing_ok e cm ps w :
  (parsed e cm w).1 = Ok ps ->
  exists w', AddPairing e cm w = (Ok tt, w') /\ w_pairs w' = w_pairs w ++ ps /\
    config (w_tg w') = config (w_tg w) /\
    netBatPairs (w_tg w') = Some (seq (length (w_pairs w)) (length ps)) /\
    w_tasks w' = w_tasks w ++
      match config (w_tg w) with
      | Some _ => TCreate <$> seq (length (w_pairs w)) (length ps)
      | None => []
      end.
Proof.
  intros Hp. unfold AddPairing, handler. unfold bind at 1, tupd, modify.
  unfold bind at 1, ignore, handleNetBatPairingAddEvent. unfold parsed in *. simpl in *.
  unfold bind at 1. simpl. rewrite Hp. unfold bind at 1, alloc_pairs. unfold bind at 1, tupd, modify. unfold bind at 1, tget, gets.
  simpl. destruct (config (w_tg w)) as [c|] eqn:Ec; simpl.
  - unfold createNetBatTgenClients, bind, tget, gets. simpl. rewrite spawn_all. simpl.
    eexists. split; [reflexivity|]. done.
  - eexists. split; [reflexivity|]. rewrite app_nil_r. done.
Qed.

(** What follows the load of a server module when the profile is added. *)
Definition add_servers (ifs : list (string * string)) (protocol : string) : M unit :=
  let! servers := createServers protocol ifs in
  tupd (fun tg => set_serversMap (<[protocol := servers]> (serversMap tg)) tg).

Lemma add_servers_plans c ifs proto : plans c (add_servers ifs proto).
Proof. apply plans_bind; [apply plans_createServers|]. by intros l w _. Qed.

Lemma createServers_succeeds c proto ifs : succeeds c (createServers proto ifs).
Proof.
  induction ifs as [|[i ip] ifs IH]; simpl; [done|].
  apply succeeds_bind; [by apply plans_same|done|intros n].
  apply succeeds_bind; [apply plans_ignore, plans_call|intros w _; unfold ignore; by destruct (call _ w) as [[]]|intros r].
  apply succeeds_bind; [apply plans_createServers|done|by intros rest].
Qed.

Lemma add_servers_succeeds c ifs proto : succeeds c (add_servers ifs proto).
Proof. apply succeeds_bind; [apply plans_createServers|apply createServers_succeeds|by intros l]. Qed.

(** Adding the profile: the clients are started if all modules take it. *)
Lemma AddProfile_spec cm ifs c w :
  util.LoadConfig cm = Ok c -> is_panic (AddProfile cm (Ok ifs) w).1 = false ->
  exists w', AddProfile cm (Ok ifs) w = (Ok tt, w') /\ w_pairs w' = w_pairs w /\
    config (w_tg w') = Some c /\ netBatPairs (w_tg w') = netBatPairs (w_tg w) /\
    identity (w_tg w') = identity (w_tg w) /\
    (loads_ok (util.GetProfileMap c) ->
       w_tasks w' = w_tasks w ++ (TCreate <$> default [] (netBatPairs (w_tg w)))) /\
    (loads_fail (util.GetProfileMap c) -> w_tasks w' = w_tasks w) /\
    (netBatPairs (w_tg w) = None -> w_tasks w' = w_tasks w).
Proof.
  intros Hl. unfold AddProfile, handler. rewrite Hl.
  set (w1 := mkWorld (set_config (Some c) (w_tg w)) (w_pairs w) (w_tasks w) (w_ext w)).
  set (rest := let! ps := tget netBatPairs in match ps with Some _ => createNetBatTgenClients | None => ret tt end).
  match goal with |- is_panic (bind (ignore ?m) _ w).1 = false -> _ =>
    assert (m w = (let! _ := loading (add_servers ifs) in rest) w1) as Em;
      [unfold loading; by rewrite (bind_assoc _ _ _ w1)|revert Em; generalize m; intros m0 Em] end.
  unfold bind, ignore. rewrite Em. unfold bind.
  assert (config (w_tg w1) = Some c) as Hc by done.
  pose proof (loading_plans c (add_servers ifs) (add_servers_plans c ifs) w1 Hc) as (P1 & P2 & P3 & P4 & P5).
  pose proof (loading_ok c (add_servers ifs) (add_servers_plans c ifs) (add_servers_succeeds c ifs)) as Hok.
  pose proof (loading_fails c (add_servers ifs) (add_servers_plans c ifs)) as Hf.
  destruct (loading (add_servers ifs) w1) as [[[]|e|p] w2] eqn:E; [| |done]; simpl in P1, P2, P3, P4, P5.
  - unfold rest, bind at 1 2, tget, gets. destruct (netBatPairs (w_tg w2)) as [l|] eqn:El; simpl.
    + unfold createNetBatTgenClients, bind, tget, gets. rewrite El. simpl. rewrite spawn_all. simpl. intros _.
      eexists. split; [reflexivity|]. simpl. split_and!; try congruence; try exact P5.
      * intros _. by rewrite P2, <- P4.
      * intros Hx. specialize (Hf Hx w1 Hc). by rewrite E in Hf.
    + intros _. eexists. split; [reflexivity|]. split_and!; try congruence; try exact P5.
      intros _. rewrite P2, <- P4. by rewrite app_nil_r.
  - intros _. eexists. split; [reflexivity|]. split_and!; try congruence; try exact P5.
    intros Hx. specialize (Hok Hx w1 Hc). rewrite E in Hok. by specialize (Hok eq_refl).
Qed.

(** C23: the two ConfigMaps start the traffic in whichever order they arrive,
    if the registered modules take the profile: after both (unless a call on a
    module panics), the controller holds the pairs of the text and has left one
    goroutine per pair to create its client, no more and no fewer. If a module
    never takes the profile, the order decides: with the pairing first nothing
    is started, with the profile first there is a goroutine per pair. *)
Theorem either_order_starts_clients e e' cm cm' ps c ifs w :
  cm_Name cm = netBatPairing -> cm_Name cm' = netBatProfile ->
  config (w_tg w) = None -> netBatPairs (w_tg w) = None -> w_tasks w = [] ->
  (parsed e cm w).1 = Ok ps -> util.LoadConfig cm' = Ok c -> e_netInterfaces e' = Ok ifs ->
  let addrs := seq (length (w_pairs w)) (length ps) in
  let ready w2 := netBatPairs (w_tg w2) = Some addrs /\ w_pairs w2 = w_pairs w ++ ps in
  (exists w1, handle e (EAdd cm) w = (Ok tt, w1) /\
     (is_panic (handle e' (EAdd cm') w1).1 = false ->
      exists w2, handle e' (EAdd cm') w1 = (Ok tt, w2) /\ ready w2 /\
        (loads_ok (util.GetProfileMap c) -> w_tasks w2 = TCreate <$> addrs) /\
        (loads_fail (util.GetProfileMap c) -> w_tasks w2 = []))) /\
  (is_panic (handle e' (EAdd cm') w).1 = false ->
   exists w1 w2, handle e' (EAdd cm') w = (Ok tt, w1) /\ handle e (EAdd cm) w1 = (Ok tt, w2) /\ ready w2 /\
     w_tasks w2 = TCreate <$> addrs).
Proof.
  intros Hn Hn' Hc Hb Ht Hp Hl Hi addrs ready. unfold handle. rewrite Hn, Hn'. simpl. rewrite Hi. split.
  - destruct (AddPairing_ok e cm ps w Hp) as (w1 & E1 & P1 & P2 & P3 & P4). rewrite Hc, Ht in P4. simpl in P4.
    exists w1. split; [done|]. intros Hpan.
    destruct (AddProfile_spec cm' ifs c w1 Hl Hpan) as (w2 & E2 & Q1 & Q2 & Q3 & _ & Q4 & Q5 & Q7).
    exists w2. split_and!; [done|unfold ready; by rewrite Q3, Q1| |].
    + intros Hx. by rewrite (Q4 Hx), P4, P3.
    + intros Hx. by rewrite (Q5 Hx), P4.
  - intros Hpan. destruct (AddProfile_spec cm' ifs c w Hl Hpan) as (w1 & E1 & Q1 & Q2 & Q3 & Q6 & Q4 & Q5 & Q7).
    assert ((parsed e cm w1).1 = Ok ps) as Hp1.
    { unfold parsed in *. simpl in *. injection Q6 as -> ->. done. }
    assert (w_tasks w1 = []) as Ht1 by (by rewrite Q7).
    destruct (AddPairing_ok e cm ps w1 Hp1) as (w2 & E2 & P1 & P2 & P3 & P4).
    exists w1, w2. rewrite Q1 in *. split_and!; [done|done|by split; [|congruence]|].
    by rewrite P4, Q2, Ht1.
Qed.

Lemma for_each_proper {A} (l : list A) (body body' : A -> M unit) :
  (forall x, body x ≈ body' x) -> for_each l body ≈ for_each l body'.
Proof. intros Hb. induction l as [|x l IH]; simpl; [done|]. by apply bind_proper; [|intros _]. Qed.

Lemma tear_all_no_err cs s e : (tear_all cs s).1 <> Err e.
Proof.
  revert s. induction cs as [|c cs IH]; intros s; simpl; [done|].
  pose proof (TearDownConnection_no_err c s e). destruct (TearDownConnection c s) as [[[]| |] s']; [apply IH|done..].
Qed.

(** C30: what an update of the profile does to the clients, if no call on a
    module panics. When a module never takes the new profile, no client is
    restarted. When all take it and the update flips suspend-traffic, none is
    either, even if it changes other settings as well: the running clients keep
    what they computed from the old ones. When all take it and it does not
    flip it, every pair's client is torn down, in the order of the pairs, and
    one goroutine per pair is left to create the new one. *)
Theorem profile_update_restarts cm c c' w l cs :
  config (w_tg w) = Some c -> cm_ResourceVersion cm <> util.GetResourceVersion c ->
  util.ReLoadConfig cm c = (Ok tt, c') ->
  netBatPairs (w_tg w) = Some l -> mapM (client_of (w_pairs w)) l = Some cs ->
  is_panic (UpdateProfile cm w).1 = false ->
  exists w', UpdateProfile cm w = (Ok tt, w') /\ config (w_tg w') = Some c' /\
    w_pairs w' = w_pairs w /\ netBatPairs (w_tg w') = Some l /\
    (loads_fail (util.GetProfileMap c') -> w_tasks w' = w_tasks w) /\
    (loads_ok (util.GetProfileMap c') ->
     if Bool.eqb (util.SuspendTraffic c) (util.SuspendTraffic c')
     then w_tasks w' = w_tasks w ++ (TCreate <$> l) /\ exists s, tear_all cs s = (Ok tt, w_ext w')
     else w_tasks w' = w_tasks w).
Proof.
  intros Hc Hv Hl Hp Hcs. unfold UpdateProfile. rewrite (config_run c) by done. rewrite decide_False by done.
  set (w1 := mkWorld (set_config (Some c') (w_tg w)) (w_pairs w) (w_tasks w) (w_ext w)).
  set (rest := let! c' := the_config in
    if negb (Bool.eqb (util.SuspendTraffic c) (util.SuspendTraffic c')) then ret tt else restartNetBatTgenClients).
  unfold handler. match goal with |- is_panic (bind (ignore ?m) _ w).1 = false -> _ =>
    assert (m w = (let! _ := loading (fun _ => ret tt) in rest) w1) as Em;
      [|revert Em; generalize m; intros m0 Em] end.
  { unfold bind at 1, reload. rewrite Hl. fold w1. unfold loading. rewrite (bind_assoc _ _ _ w1).
    revert w1. apply bind_proper; [|done]. apply for_each_proper. intros proto. apply bind_proper; [done|].
    intros k. symmetry. apply bind_ret_r. }
  unfold bind, ignore. rewrite Em. unfold bind.
  assert (config (w_tg w1) = Some c') as Hc1 by done.
  assert (forall proto : string, plans c' (ret tt : M unit)) as Hr by (intros; by apply plans_same).
  pose proof (loading_plans c' _ Hr w1 Hc1) as (P1 & P2 & P3 & P4 & P5).
  pose proof (loading_ok c' _ Hr) as Hok. pose proof (loading_fails c' _ Hr) as Hf.
  destruct (loading (fun _ => ret tt) w1) as [[[]|e|p] w2] eqn:E; [| |done]; simpl in P1, P2, P3, P4, P5.
  - unfold rest. rewrite (config_run c') by done. destruct w2 as [tg2 ps2 ts2 s2]. simpl in *. subst ps2 ts2.
    destruct (Bool.eqb _ _); simpl.
    + unfold restartNetBatTgenClients, tget. unfold bind, gets. simpl. rewrite P4, Hp.
      rewrite (tearDown_spec _ l cs tg2 _ s2 Hcs).
      destruct (tear_all cs s2) as [[[]|e|q] s3] eqn:Et; simpl; [| |done].
      * unfold createNetBatTgenClients, tget, bind, gets. simpl. rewrite P4, Hp. simpl. rewrite spawn_all. simpl.
        intros _. eexists. split; [reflexivity|]. simpl. split_and!; try congruence.
        -- intros Hx. specialize (Hf Hx w1 Hc1). by rewrite E in Hf.
        -- intros _. split; [done|]. by exists s2.
      * destruct (tear_all_no_err cs s2 e). by rewrite Et.
    + intros _. eexists. split; [reflexivity|]. simpl. split_and!; try congruence.
  - intros _. eexists. split; [reflexivity|]. split_and!; try congruence.
    intros Hx. specialize (Hok ltac:(intros proto w0 _; done) Hx w1 Hc1). rewrite E in Hok. by specialize (Hok eq_refl).
Qed.
End Starting.

(** ** Concrete protocols

    One protocol, udp, whose objects are numbered and whose calls are logged. *)
Inductive log_call :=
| LLoadServer | LLoadClient
| LServer (id : nat) (ip : string) | LTearServer (id : nat)
| LClient (id pair : nat) | LSetup (id : nat) | LStart (id : nat) | LTear (id : nat).

#[global] Instance log_call_eq_dec : EqDecision log_call.
Proof. solve_decision. Defined.

(** A client that does not look at its pair. *)
Definition beside {P T A} (m : ST T A) : ST (P * T) A := fun s => let '(r, t) := m s.2 in (r, (s.1, t)).

Definition logged (c : log_call) : ST (nat * list log_call) unit := fun s => (Ok tt, (s.1, s.2 ++ [c])).
Definition numbered (c : nat -> log_call) : ST (nat * list log_call) nat := fun s =>
  (Ok s.1, (Nat.succ s.1, s.2 ++ [c s.1])).

#[local] Instance log_Protocols : Protocols := {|
  S := nat * list log_call;
  protoServers := ["udp"];
  protoClients := ["udp"];
  server_LoadBatProfileConfig _ _ := logged LLoadServer;
  CreateServer _ ip _ _ := numbered (fun id => LServer id ip);
  TearDownServer id := logged (LTearServer id);
  client_LoadBatProfileConfig _ _ := logged LLoadClient;
  CreateClient _ pair _ _ := numbered (fun id => LClient id pair);
  SetupConnection id := beside (logged (LSetup id));
  TearDownConnection id := logged (LTear id);
  start id := logged (LStart id)
|}.

#[local] Instance log_NoErrors : NoErrors.
Proof. by split. Qed.

#[local] Instance demo_Source : JsonSource := {|
  json_unmarshal_Source s :=
    if decide (s = demo_json "pod-a") then Some (mkSource "pod" "default" "pod-a" "" "" "") else None
|}.

(** Only the text "bad" is not YAML; the others are empty profiles. *)
#[local] Instance demo_Yaml : Yaml := {|
  yaml_unmarshal s := if decide (s = "bad") then None else Some (Some ∅)
|}.

Definition pairing_cm (version text : string) : ConfigMap :=
  mkConfigMap netBatPairing version {["net-bat-pairing.cfg" := text]}.
Definition profile_cm (version text : string) : ConfigMap :=
  mkConfigMap netBatProfile version {["net-bat-profiles.cfg" := text]}.
Definition udp_line : string := demo_line "pod-a" "10.0.0.1".
Definition http_line : string :=
  quoted "{'type': 'pod', 'ns': 'default', 'name': 'pod-a'}" +:+ ", " +:+ quoted "10.0.0.1" +:+
  ", http, " +:+ quoted "secondary network".

Definition demo_env : env :=
  mkEnv (fun _ => Err "gzip") (Ok []) (Ok [("eth0", "192.168.0.7")]) demo_walk demo_intn map_to_list.

Lemma demo_env_ok : env_ok demo_env.
Proof.
  split; [intros m; reflexivity|]. split; [|intros m; reflexivity]. intros n Hn. simpl. unfold demo_intn. lia.
Qed.

Definition demo_tgc : world := mkWorld (NewPodTGController "pod-a" "default" 200) [] [] (0%nat, []).

Definition do_event (ev : event) (w : world) : world := (handle demo_env ev w).2.
(** The oldest goroutine moves. *)
Definition do_task (w : world) : world :=
  match w_tasks w with
  | [] => w
  | t :: l =>
      let '(r, w') := run_task t (mkWorld (w_tg w) (w_pairs w) l (w_ext w)) in
      mkWorld (w_tg w') (w_pairs w')
        (match r with Ok (Some t') => w_tasks w' ++ [t'] | _ => w_tasks w' end) (w_ext w')
  end.

Lemma do_event_step ev w :
  is_ok (handle demo_env ev w).1 = true -> step w (LEvent ev) (do_event ev w).
Proof.
  intros Hok. apply (step_event demo_env); [exact demo_env_ok|]. unfold do_event.
  by destruct (handle demo_env ev w) as [[[]|e|p] w'].
Qed.

Lemma do_task_step t l w :
  w_tasks w = t :: l -> is_ok (run_task t (mkWorld (w_tg w) (w_pairs w) l (w_ext w))).1 = true ->
  step w (LTask t) (do_task w).
Proof.
  intros Ht Hok. unfold do_task. rewrite Ht. destruct w as [tg ps ts s]; simpl in *. subst ts.
  destruct (run_task t _) as [[next|e|p] w'] eqn:E; [|done..].
  apply (step_task [] t l _ _ _ next w'). exact E.
Qed.

(** Both ConfigMaps, and the client's goroutine to its end. *)
Definition demo_up : world :=
  do_task (do_task (do_task (do_event (EAdd (profile_cm "2" "")) (do_event (EAdd (pairing_cm "1" udp_line)) demo_tgc)))).

(** ** Witnesses *)
Lemma demo_parsed {P : Protocols} text (w : world) :
  namespace (w_tg w) = "default" -> podName (w_tg w) = "pod-a" ->
  (parsed demo_env (pairing_cm "1" text) w).1 =
  handleAddNetBatConfigMap {["net-bat-pairing.cfg" := text]} (fun _ => Err "gzip") "default" "pod-a"
    (Ok []) (Ok (list_to_map [("eth0", "192.168.0.7")])) demo_walk demo_intn.
Proof. intros E1 E2. unfold parsed. simpl. by rewrite E1, E2. Qed.

Definition demo_pairs (text : string) : list BatPair :=
  ok_or [] (handleAddNetBatConfigMap {["net-bat-pairing.cfg" := text]} (fun _ => Err "gzip") "default" "pod-a"
    (Ok []) (Ok (list_to_map [("eth0", "192.168.0.7")])) demo_walk demo_intn).

Lemma clients_torn_down_once_witness :
  exists w', deleteNetBatTgenClients demo_up = (Ok tt, w') /\ deleteNetBatTgenClients w' = (Ok tt, w') /\
    last (w_ext w').2 = Some (LTear 1).
Proof.
  destruct (clients_torn_down_once demo_up [0%nat] [1%nat]) as (w' & E & Es & _ & Hn).
  - vm_compute. reflexivity.
  - vm_compute. reflexivity.
  - exists w'. split; [exact E|]. split; [apply Hn; vm_compute; reflexivity|]. rewrite Es. vm_compute. reflexivity.
Defined.

(** A pairing with an http stream, on a controller that only speaks udp. *)
Definition http_w2 : world :=
  do_task (do_event (EAdd (profile_cm "2" "")) (do_event (EAdd (pairing_cm "1" http_line)) demo_tgc)).

Lemma http_run :
  steps step demo_tgc
    [LEvent (EAdd (pairing_cm "1" http_line)); LEvent (EAdd (profile_cm "2" "")); LTask (TCreate 0)] http_w2.
Proof.
  unfold http_w2.
  eapply steps_cons; [apply do_event_step; vm_compute; reflexivity|].
  eapply steps_cons; [apply do_event_step; vm_compute; reflexivity|].
  apply steps_one. eapply do_task_step; vm_compute; reflexivity.
Qed.

Definition http_pair : BatPair :=
  mkBatPair (mkSource "pod" "default" "pod-a" "" "eth0" "192.168.0.7") (mkRemote false "10.0.0.1" "")
    "http" "secondary network" ∅ None.

Lemma unregistered_profile_crashes_witness :
  is_panic (handle demo_env (EUpdate (pairing_cm "3" udp_line)) http_w2).1 = true /\
  is_panic (handle demo_env EStop http_w2).1 = true.
Proof.
  pose proof (fun ev => unregistered_profile_crashes _ _ _ http_w2 [0%nat] 0%nat http_pair demo_env ev http_run
    ltac:(vm_compute; reflexivity) ltac:(set_solver) ltac:(vm_compute; reflexivity)
    ltac:(apply (bool_decide_unpack _); vm_compute; exact I)) as Hx.
  split.
  - apply (Hx (EUpdate (pairing_cm "3" udp_line))). split; [reflexivity|]. intros E. vm_compute in E. discriminate E.
  - exact (Hx EStop I).
Defined.
