(* ===== verification/Plan.v ===== *)
(** * The handlers of the controller, cut at their waits (pkg/tgc/tgc.go)

    A handler that tears clients or servers down waits for their goroutines,
    with the controller's lock held, and is the only code of the controller
    that waits.  [plan] is the part of a handler before its first teardown; it
    says what is left: teardowns, and code between and after them.  It is no
    other model of the handlers than [handle] of TGC, but the same ones in the
    form in which Pod lets others run while they wait: carried out without
    interruption a plan is the handler ([handle_plan]). *)
From S2P Require Import Prelude GoInt Strconv GoStrings Net Pair Pairing Config TGC TGCTheorems.
Import tgc.

Section Plan.
Context `{JsonSource} `{Yaml} `{NoErrors}.

Inductive action :=
| AClient (pair : nat)           (* TearDownConnection of the pair's client *)
| AServer (server : nat)         (* TearDownServer *)
| ACode (m : M unit).

Definition exec (x : action) : M unit :=
  match x with
  | AClient a => tearDownPair a
  | AServer s => call (TearDownServer s)
  | ACode m => m
  end.

Definition plan_delete : M (list action) :=
  let! ps := tget netBatPairs in
  ret (match ps with
       | None => []
       | Some l => (AClient <$> l) ++ [ACode (tupd (set_netBatPairs None))]
       end).

Definition plan_restart : M (list action) :=
  let! ps := tget netBatPairs in
  ret (match ps with
       | None => []
       | Some l => (AClient <$> l) ++ [ACode createNetBatTgenClients]
       end).

Definition plan_servers (walk : server_walk) : M (list action) :=
  let! m := tget serversMap in ret (AServer <$> concat (walk m).*2).

(** The part of the profile's Update handler before the restart; whether
    suspend-traffic has changed. *)
Definition updated (cm : ConfigMap) (c : util.config) : M bool :=
  let suspendOld := util.SuspendTraffic c in
  let! _ := reload cm c in
  let! _ := for_each protoServers (fun protocol =>
    let! c := the_config in
    call (server_LoadBatProfileConfig protocol (util.GetProfileMap c))) in
  let! _ := for_each protoClients (fun protocol =>
    let! c := the_config in
    call (client_LoadBatProfileConfig protocol (util.GetProfileMap c))) in
  let! c := the_config in
  ret (negb (Bool.eqb suspendOld (util.SuspendTraffic c))).

Definition plan (e : env) (ev : event) : M (list action) :=
  match ev with
  | EAdd _ => ret [ACode (handle e ev)]
  | EUpdate cm =>
      if decide (cm_Name cm = netBatPairing) then
        let! v := tget netPairResourceVersion in
        if decide (cm_ResourceVersion cm = v) then ret [] else
        let! _ := tupd (set_netPairResourceVersion (cm_ResourceVersion cm)) in
        let! l := plan_delete in
        ret (l ++ [ACode (handler (handleNetBatPairingAddEvent e cm))])
      else if decide (cm_Name cm = netBatProfile) then
        let! c := the_config in
        if decide (cm_ResourceVersion cm = util.GetResourceVersion c) then ret [] else
        let! r := ignore (updated cm c) in
        match r with
        | Some false => plan_restart
        | _ => ret []
        end
      else ret []
  | EDelete cm =>
      if decide (cm_Name cm = netBatPairing) then
        let! _ := tupd (set_netPairResourceVersion "") in plan_delete
      else if decide (cm_Name cm = netBatProfile) then
        let! l := plan_servers (e_walk e) in ret (l ++ [ACode (tupd (set_config None))])
      else ret []
  | EStop =>
      let! l := plan_delete in
      let! l' := plan_servers (e_walk e) in
      ret (l ++ l')
  end.

Definition run_plan (e : env) (ev : event) : M unit :=
  let! l := plan e ev in for_each l exec.

(** ** A plan carried out at once is the handler *)

Lemma for_each_app {A} (l l' : list A) (body : A -> M unit) :
  for_each (l ++ l') body ≈ (let! _ := for_each l body in for_each l' body).
Proof.
  induction l as [|x l IH]; simpl; [by rewrite bind_ret_l|]. rewrite bind_assoc. by setoid_rewrite IH.
Qed.

Lemma for_each_fmap {A B} (f : A -> B) l (body : B -> M unit) :
  for_each (f <$> l) body = for_each l (fun x => body (f x)).
Proof. induction l as [|x l IH]; csimpl; [done|]. by rewrite IH. Qed.

Lemma run_delete l' :
  (let! l := plan_delete in for_each (l ++ l') exec) ≈
  (let! _ := deleteNetBatTgenClients in for_each l' exec).
Proof.
  intros w. unfold plan_delete, deleteNetBatTgenClients, tget.
  unfold bind, gets, ret. simpl. destruct (netBatPairs (w_tg w)) as [l|]; [|done].
  rewrite (for_each_app _ _ _ w). unfold bind. rewrite (for_each_app _ _ _ w), for_each_fmap. unfold bind. simpl.
  by destruct (for_each l tearDownPair w) as [[[]| |] w1].
Qed.

Lemma run_servers walk l' :
  (let! l := plan_servers walk in for_each (l ++ l') exec) ≈
  (let! _ := stopServers walk in for_each l' exec).
Proof.
  intros w. unfold plan_servers, stopServers, tget, bind, gets, ret. simpl.
  rewrite (for_each_app _ _ _ w). unfold bind. generalize (walk (serversMap (w_tg w))). intros ws.
  revert w. induction ws as [|[proto ss] ws IH]; intros w; csimpl; [done|].
  rewrite fmap_app, (for_each_app _ _ _ w), for_each_fmap. unfold bind. simpl.
  destruct (for_each ss _ w) as [[[]| |] w1]; [apply IH|done..].
Qed.

(** Tearing clients down touches neither the servers nor anything else the
    controller knows. *)
Lemma delete_serversMap w : serversMap (w_tg (deleteNetBatTgenClients w).2) = serversMap (w_tg w).
Proof.
  assert (preserved (fun w' => serversMap (w_tg w') = serversMap (w_tg w)) deleteNetBatTgenClients) as Hp; [|by apply Hp].
  unfold deleteNetBatTgenClients, tget. apply preserved_bind; [apply preserved_gets|]. intros [l|]; [|apply preserved_ret].
  apply preserved_bind; [|by intros _ w'].
  apply preserved_for_each. intros a. unfold tearDownPair, pair_at, deref.
  repeat (first [apply preserved_bind; [|intros ?] | apply preserved_gets | apply preserved_lift]).
  intros w' Hw'. unfold call. by destruct (TearDownConnection _ (w_ext w')).
Qed.

(** No error comes out of a restart. *)
Definition no_err {A} (m : M A) : Prop := forall w e, (m w).1 <> Err e.

Lemma no_err_bind {A B} (m : M A) (f : A -> M B) : no_err m -> (forall a, no_err (f a)) -> no_err (bind m f).
Proof.
  intros Hm Hf w e. specialize (Hm w e). unfold bind. destruct (m w) as [[a|e'|p] w1]; [apply Hf| |done].
  simpl in *. congruence.
Qed.

Lemma no_err_for_each {A} (l : list A) body : (forall x, no_err (body x)) -> no_err (for_each l body).
Proof. intros Hb. induction l; simpl; [done|]. by apply no_err_bind. Qed.

Lemma no_err_restart : no_err restartNetBatTgenClients.
Proof.
  unfold restartNetBatTgenClients, createNetBatTgenClients, tearDownPair, pair_at, tget, deref.
  apply no_err_bind; [done|]. intros [l|]; [|done]. apply no_err_bind.
  - apply no_err_for_each. intros a. apply no_err_bind.
    + apply no_err_bind; [done|]. intros ps w e. unfold lift. by destruct (ps !! a).
    + intros p. apply no_err_bind; [intros w e; unfold lift; by destruct (ClientConnection p)|].
      intros c w e. unfold call. pose proof (TearDownConnection_no_err c (w_ext w) e) as N.
      by destruct (TearDownConnection c (w_ext w)) as [r s].
  - intros _. apply no_err_bind; [done|]. intros ps. by apply no_err_for_each.
Qed.

Lemma handler_no_err (m : M unit) : no_err m -> handler m ≈ m.
Proof.
  intros Hm w. specialize (Hm w). unfold handler, bind, ignore.
  destruct (m w) as [[[]|e|p] w1]; [done| |done]. by destruct (Hm e).
Qed.

Lemma run_restart : (let! l := plan_restart in for_each l exec) ≈ restartNetBatTgenClients.
Proof.
  intros w. unfold plan_restart, restartNetBatTgenClients, tget, bind at 1, bind at 1, gets, ret. simpl.
  unfold bind at 1. simpl. destruct (netBatPairs (w_tg w)) as [l|]; [|done].
  rewrite (for_each_app _ _ _ w), for_each_fmap. simpl. unfold bind at 1.
  unfold bind at 2. destruct (for_each l tearDownPair w) as [[[]| |] w1]; [|done..]. apply bind_ret_r.
Qed.

(** An error that is ignored, and code that depends on there being none. *)
Lemma handler_split {A} (m : M A) (f : A -> M unit) :
  (forall a, no_err (f a)) ->
  (let! r := ignore m in match r with Some a => f a | None => ret tt end) ≈ handler (let! a := m in f a).
Proof.
  intros Hf w. unfold handler, bind, ignore. destruct (m w) as [[a|e|p] w1]; [|done..].
  specialize (Hf a w1). destruct (f a w1) as [[[]|e|p] w2]; [done| |done]. by destruct (Hf e).
Qed.

#[local] Instance handler_proper : Proper (same_run ==> same_run) handler.
Proof. intros m m' Em w. unfold handler, bind, ignore. by rewrite Em. Qed.

Lemma run_delete_alone : (let! l := plan_delete in for_each l exec) ≈ deleteNetBatTgenClients.
Proof.
  rewrite <- (bind_ret_r deleteNetBatTgenClients). rewrite <- (run_delete []).
  apply bind_proper; [done|]. intros l. by rewrite app_nil_r.
Qed.

Lemma run_servers_alone walk : (let! l := plan_servers walk in for_each l exec) ≈ stopServers walk.
Proof.
  rewrite <- (bind_ret_r (stopServers walk)). rewrite <- (run_servers walk []).
  apply bind_proper; [done|]. intros l. by rewrite app_nil_r.
Qed.

(** The servers are read before the clients are torn down. *)
Lemma run_stop walk :
  (let! l := plan_delete in let! l' := plan_servers walk in for_each (l ++ l') exec) ≈ StopTGC walk.
Proof.
  intros w. set (l' := AServer <$> concat (walk (serversMap (w_tg w))).*2).
  trans ((let! _ := deleteNetBatTgenClients in for_each l' exec) w).
  - rewrite <- (run_delete l' w). unfold plan_delete, plan_servers, tget, bind, gets, ret. simpl. done.
  - pose proof (delete_serversMap w) as Hs. unfold StopTGC, bind.
    destruct (deleteNetBatTgenClients w) as [[[]|e|p] w1]; [|done..]. simpl in Hs.
    rewrite <- (run_servers_alone walk w1). unfold plan_servers, tget, bind, gets, ret. simpl. by rewrite Hs.
Qed.

(** Cutting the handlers at their waits changes nothing but when others may
    run: for every event, carrying out its plan without interruption - the part
    before the first teardown, the teardowns in their order, and the code
    between and after them - is the handler, in every state and on every
    outcome. *)
Lemma handle_plan e ev w : (let! l := plan e ev in for_each l exec) w = handle e ev w.
Proof.
  revert w. change (run_plan e ev ≈ handle e ev). unfold run_plan. destruct ev as [cm|cm|cm|]; cbn [plan].
  - rewrite bind_ret_l. simpl. apply bind_ret_r.
  - cbn [handle]. case_decide.
    + unfold UpdatePairing. rewrite bind_assoc. apply bind_proper; [done|]. intros v.
      case_decide; [by rewrite bind_ret_l|]. rewrite bind_assoc. apply bind_proper; [done|]. intros _.
      rewrite bind_assoc. setoid_rewrite bind_ret_l. rewrite run_delete.
      apply bind_proper; [done|]. intros _. simpl. apply bind_ret_r.
    + case_decide; [|by rewrite bind_ret_l].
      unfold UpdateProfile. rewrite bind_assoc. apply bind_proper; [done|]. intros c.
      case_decide; [by rewrite bind_ret_l|]. rewrite bind_assoc.
      trans (handler (let! b := updated cm c in if b : bool then ret tt else restartNetBatTgenClients)).
      * rewrite <- handler_split; [|intros []; [done|apply no_err_restart]].
        apply bind_proper; [done|]. intros [[|]|]; [by rewrite bind_ret_l|apply run_restart|by rewrite bind_ret_l].
      * apply handler_proper. unfold updated. rewrite !bind_assoc. do 3 (apply bind_proper; [done|]; intros ?; rewrite ?bind_assoc).
        apply bind_proper; [done|]. intros c'. by rewrite bind_ret_l.
  - cbn [handle]. case_decide.
    + rewrite bind_assoc. apply bind_proper; [done|]. intros _. apply run_delete_alone.
    + case_decide; [|by rewrite bind_ret_l]. rewrite bind_assoc. setoid_rewrite bind_ret_l. rewrite run_servers.
      apply bind_proper; [done|]. intros _. simpl. apply bind_ret_r.
  - cbn [handle]. rewrite bind_assoc. setoid_rewrite bind_assoc. setoid_rewrite bind_ret_l. apply run_stop.
Qed.
End Plan.

Section Longer.
Context `{JsonSource} `{Yaml} `{Protocols}.

(** ** The pairs

    Code of the controller only adds pairs; the goroutine that makes the client
    of a pair writes that one. *)
Definition longer {A} (m : M A) : Prop := forall w, w_pairs w `prefix_of` w_pairs (m w).2.

Lemma longer_keeps {A} (m : M A) : keeps_pairs m -> longer m.
Proof. intros Hm w. by rewrite (Hm w). Qed.
Lemma longer_bind {A B} (m : M A) (f : A -> M B) : longer m -> (forall a, longer (f a)) -> longer (bind m f).
Proof.
  intros Hm Hf w. specialize (Hm w). unfold bind. destruct (m w) as [[a|e|p] w1]; [|done..].
  etrans; [exact Hm|apply Hf].
Qed.
Lemma longer_handler m : longer m -> longer (handler m).
Proof.
  intros Hm. apply longer_bind; [|by intros _ w]. intros w. specialize (Hm w). unfold ignore. by destruct (m w) as [[]].
Qed.
Lemma keeps_clients : keeps_pairs createNetBatTgenClients.
Proof. unfold createNetBatTgenClients, tget. keeps. Qed.
Lemma longer_pairingAdd e cm : longer (handleNetBatPairingAddEvent e cm).
Proof.
  unfold handleNetBatPairingAddEvent, createNetBatTgenClients, tget.
  apply longer_bind; [by intros w|]. intros ps. apply longer_bind; [intros w; by apply prefix_app_r|].
  intros l. apply longer_keeps. keeps.
Qed.
Lemma longer_add e cm : longer (handle e (EAdd cm)).
Proof.
  cbn [handle]. case_decide.
  - unfold AddPairing. apply longer_bind; [by intros w|]. intros _. apply longer_handler, longer_pairingAdd.
  - apply longer_keeps. unfold AddProfile, handler, the_config, createNetBatTgenClients, tget, deref. keeps.
Qed.
Lemma plan_keeps e ev : keeps_pairs (plan e ev).
Proof.
  destruct ev as [cm|cm|cm|]; cbn [plan];
    unfold plan_delete, plan_restart, plan_servers, updated, the_config, tget, deref; keeps.
Qed.

(** Only the pair at [b] may change. *)
Definition only_at (b : nat) (ps ps' : list BatPair) : Prop :=
  length ps' = length ps /\ forall a, a <> b -> ps' !! a = ps !! a.
#[export] Instance only_at_preorder b : PreOrder (only_at b).
Proof.
  split; [by split|]. intros p1 p2 p3 [A1 A2] [B1 B2]. split; [congruence|]. intros a Ha. by rewrite B2, A2.
Qed.

Definition local_to (b : nat) {A} (m : M A) : Prop := forall w, only_at b (w_pairs w) (w_pairs (m w).2).
Lemma local_keeps b {A} (m : M A) : keeps_pairs m -> local_to b m.
Proof. intros Hm w. by rewrite (Hm w). Qed.
Lemma local_bind b {A B} (m : M A) (f : A -> M B) : local_to b m -> (forall a, local_to b (f a)) -> local_to b (bind m f).
Proof.
  intros Hm Hf w. specialize (Hm w). unfold bind. destruct (m w) as [[a|e|p] w1]; [|done..].
  etrans; [exact Hm|apply Hf].
Qed.
Lemma local_upd b f : local_to b (upd_pair b f).
Proof. intros w. split; simpl; [apply length_alter|]. intros a Ha. by apply list_lookup_alter_ne. Qed.

Lemma create_local b : local_to b (run_task (TCreate b)).
Proof.
  cbn [run_task]. apply local_bind; [apply local_upd|intros _].
  apply local_bind; [apply local_keeps; unfold pair_at, deref; keeps|intros p].
  case_match; [|by apply local_keeps]. apply local_bind; [by apply local_keeps|intros n].
  apply local_bind; [apply local_keeps; keeps|intros [c|]]; [|by apply local_keeps].
  apply local_bind; [apply local_upd|intros _]. by apply local_keeps.
Qed.
Lemma start_keeps b : keeps_pairs (run_task (TStart b)).
Proof. cbn [run_task]. unfold pair_at, deref. keeps. Qed.

(** What a goroutine that sets nothing up does to the pairs. *)
Lemma task_pairs t w w' :
  (forall a, t <> TSetup a) -> step w (LTask t) w' ->
  length (w_pairs w') = length (w_pairs w) /\ forall a, t <> TCreate a -> w_pairs w' !! a = w_pairs w !! a.
Proof.
  intros Hn Hst. inversion Hst as [|l1 t' l2 tg ps s next w1 Hr]; subst. simpl in *.
  destruct t as [b|b|b]; [|by destruct (Hn b)|].
  - pose proof (create_local b (mkWorld tg ps (l1 ++ l2) s)) as [Hl Ha]. rewrite Hr in Hl, Ha. simpl in *.
    split; [done|]. intros a Hne. apply Ha. congruence.
  - pose proof (start_keeps b (mkWorld tg ps (l1 ++ l2) s)) as E. rewrite Hr in E. simpl in E. by rewrite E.
Qed.
End Longer.
