(* ===== verification/TGCRuns.v ===== *)
(** * Runs of the traffic controller

    The store of pairs is well typed in every reachable state; the goroutines
    that start clients come to an end; and what a teardown that overtakes one
    of them does. *)
From S2P Require Import Prelude GoInt Strconv GoStrings Net Pair Pairing Config TGC TGCTheorems.
Import tgc.

Section Typing.
Context `{JsonSource} `{Yaml} `{Protocols}.

(** ** The store is well typed *)

(** What a goroutine needs of the store: its pair, and past the creation of
    the client a pair that has one. *)
Definition task_typed (ps : list BatPair) (t : task) : Prop :=
  match t with
  | TCreate a => is_Some (ps !! a)
  | TSetup a | TStart a => is_Some (client_of ps a)
  end.

Record well_typed (w : world) : Prop := mkWellTyped {
  wt_pairs : Forall (fun a => is_Some (w_pairs w !! a)) (default [] (netBatPairs (w_tg w)));
  wt_distinct : NoDup (default [] (netBatPairs (w_tg w)));
  wt_tasks : Forall (task_typed (w_pairs w)) (w_tasks w)
}.

(** The store may grow, and a pair may be changed as long as it keeps a client. *)
Definition extends (ps ps' : list BatPair) : Prop :=
  forall a p, ps !! a = Some p ->
    exists p', ps' !! a = Some p' /\ (is_Some (ClientConnection p) -> is_Some (ClientConnection p')).

Lemma extends_refl ps : extends ps ps.
Proof. intros a p Hp. by exists p. Qed.

Lemma extends_app ps qs : extends ps (ps ++ qs).
Proof. intros a p Hp. exists p. split; [by apply lookup_app_l_Some|done]. Qed.

Lemma extends_alter ps a f :
  (forall p, is_Some (ClientConnection p) -> is_Some (ClientConnection (f p))) -> extends ps (alter f a ps).
Proof.
  intros Hf b p Hp. destruct (decide (a = b)) as [->|Hne].
  - exists (f p). rewrite list_lookup_alter_eq, Hp. split; [done|apply Hf].
  - exists p. by rewrite list_lookup_alter_ne.
Qed.

Lemma extends_written ps qs : extends ps (written_pairs ps qs).
Proof. intros a p (p' & Hp' & Ec & _)%(written_of ps qs). exists p'. by rewrite Ec. Qed.

Lemma extends_lookup ps ps' a : extends ps ps' -> is_Some (ps !! a) -> is_Some (ps' !! a).
Proof. intros He [p Hp]. destruct (He a p Hp) as (p' & -> & _). by eexists. Qed.

Lemma extends_task ps ps' t : extends ps ps' -> task_typed ps t -> task_typed ps' t.
Proof.
  intros He. destruct t as [a|a|a]; simpl; [by apply extends_lookup|..]; unfold client_of;
    intros [c (p & Hp & Hc)%bind_Some]; destruct (He a p Hp) as (p' & -> & Hk); apply Hk; by eexists.
Qed.

(** A computation under which a well-typed world stays so, whatever its outcome. *)
#[local] Abbreviation typed := (preserved well_typed).

Lemma typed_tupd f : (forall tg, netBatPairs (f tg) = netBatPairs tg \/ netBatPairs (f tg) = None) -> typed (tupd f).
Proof.
  intros Hf w [Hp Hd Ht]. unfold tupd, modify. split; simpl; [..|done]; destruct (Hf (w_tg w)) as [-> | ->];
    (done || apply Forall_nil_2 || apply NoDup_nil_2).
Qed.
Lemma typed_call {A} (m : ST S A) : typed (call m).
Proof. intros w [Hp Hd Ht]. unfold call. destruct (m (w_ext w)). by split. Qed.
Lemma typed_reload cm c : typed (reload cm c).
Proof. intros w [Hp Hd Ht]. unfold reload. destruct (util.ReLoadConfig cm c). by split. Qed.

(** The goroutines are given the addresses of the controller's own pairs. *)
Lemma typed_createNetBatTgenClients : typed createNetBatTgenClients.
Proof.
  intros w [Hp Hd Ht]. unfold createNetBatTgenClients, bind, tget, gets. rewrite spawn_all. simpl.
  split; simpl; [done..|]. apply Forall_app. split; [done|]. apply Forall_fmap. eapply Forall_impl; [exact Hp|]. done.
Qed.
End Typing.

Ltac typing :=
  repeat first
    [ solve [trivial] | apply preserved_ret | apply preserved_lift | apply preserved_gets
    | apply typed_tupd; intros; first [by left | by right] | apply typed_createNetBatTgenClients
    | apply typed_call | apply typed_reload | apply preserved_createServers; intros ? ?; apply typed_call
    | apply preserved_ignore | apply preserved_for_each; intros ? | apply preserved_bind; [|intros ?] | case_match ].

Section Runs.
Context `{JsonSource} `{Yaml} `{Protocols}.
#[local] Abbreviation typed := (preserved well_typed).

Lemma typed_delete : typed deleteNetBatTgenClients.
Proof. unfold deleteNetBatTgenClients, tearDownPair, pair_at, tget, deref. typing. Qed.

Lemma typed_pairingAdd e cm : typed (handleNetBatPairingAddEvent e cm).
Proof.
  intros w Hw. unfold handleNetBatPairingAddEvent. unfold bind at 1, parsed.
  destruct (handleAddNetBatConfigMap _ _ _ _ _ _ _ _) as [ps|e'|w']; [|done..].
  unfold bind at 1, alloc_pairs. unfold bind at 1, tupd, modify. simpl. destruct Hw as [Hp Hd Ht].
  match goal with |- well_typed (_ ?w1).2 => assert (well_typed w1) as Hw1 end.
  { split; simpl.
    - apply Forall_forall. intros a Ha%elem_of_seq. apply lookup_lt_is_Some. rewrite length_app. lia.
    - apply NoDup_seq.
    - eapply Forall_impl; [exact Ht|]. intros t. apply extends_task, extends_app. }
  revert Hw1. match goal with |- well_typed ?w1 -> _ => generalize w1 end.
  change (typed (let! c := tget config in match c with Some _ => createNetBatTgenClients | None => ret tt end)).
  unfold tget. typing.
Qed.

Lemma handle_typed e ev : typed (handle e ev).
Proof.
  pose proof (typed_pairingAdd e) as Ha. pose proof typed_delete as Hdel. destruct ev as [cm|cm|cm|]; simpl.
  - case_decide; [unfold AddPairing, handler; typing; apply Ha|].
    unfold AddProfile, handler, the_config, tget, deref. typing.
  - case_decide.
    { unfold UpdatePairing, handler, tget. typing. }
    unfold UpdateProfile, handler, the_config, restartNetBatTgenClients, tearDownPair, pair_at, tget, deref. typing.
  - unfold DeletePairing, DeleteProfile, stopServers, tget. typing.
  - unfold StopTGC, stopServers, tget. typing.
Qed.

(** What a goroutine that returns leaves: the store extended, the controller
    as it was, and the goroutine, if it goes on, well typed. *)
Lemma run_task_spec t tg ps ts s next w' :
  task_typed ps t -> run_task t (mkWorld tg ps ts s) = (Ok next, w') ->
  w_tg w' = tg /\ w_tasks w' = ts /\ extends ps (w_pairs w') /\
  match next with Some t' => task_typed (w_pairs w') t' | None => True end.
Proof.
  intros Ht E. destruct t as [a|a|a]; simpl in *.
  - destruct Ht as [p Hp]. unfold bind at 1, upd_pair, modify in E. simpl in E.
    unfold bind at 1, pair_at, bind at 1, gets, deref, lift in E. simpl in E.
    rewrite list_lookup_alter_eq, Hp in E. simpl in E.
    assert (extends ps (alter (set_PendingRequestsMap ∅) a ps)) as Hx by by apply extends_alter.
    case_decide as Hin; [|by injection E as <- <-].
    unfold bind at 1, tget, gets in E. unfold bind at 1, ignore, call in E. simpl in E.
    destruct (CreateClient _ _ _ _ _) as [[c|e|q] s']; simpl in E; [| |done]; injection E as <- <-; simpl; [|done].
    split_and!; [done|done| |].
    + intros b q Hb. destruct (Hx b q Hb) as (q' & Hq' & Hc').
      destruct (extends_alter (alter (set_PendingRequestsMap ∅) a ps) a (set_ClientConnection (Some c))
        ltac:(by eexists) b q' Hq') as (q'' & Hq'' & Hc''). exists q''. auto.
    + unfold client_of. rewrite !list_lookup_alter_eq, Hp. simpl. by eexists.
  - unfold bind at 1, pair_at, bind at 1, gets, deref, lift in E. simpl in E.
    destruct (ps !! a) as [p|] eqn:Hp; [|done]. simpl in E. unfold bind at 1 in E. simpl in E.
    destruct (ClientConnection p) as [c|] eqn:Hc; [|done]. simpl in E. unfold bind, ignore, call_pairs in E. simpl in E.
    destruct (SetupConnection c (ps, s)) as [[[]|e|q] [qs s']]; [| |done]; injection E as <- <-; simpl;
      (split_and!; [done|done|apply extends_written|]); [|done].
    eapply (extends_task _ _ (TStart a)); [apply extends_written|exact Ht].
  - unfold bind at 1, pair_at, bind at 1, gets, deref, lift in E. simpl in E.
    destruct (ps !! a) as [p|] eqn:Hp; [|done]. simpl in E. unfold bind at 1 in E. simpl in E.
    destruct (ClientConnection p) as [c|] eqn:Hc; [|done]. simpl in E. unfold bind, call in E. simpl in E.
    destruct (start c s) as [[[]|e|q] s']; [|done..]. injection E as <- <-. simpl.
    split_and!; [done|done|apply extends_refl|done].
Qed.

Lemma step_typed w lb w' : step w lb w' -> well_typed w -> well_typed w'.
Proof.
  destruct 1 as [e ev w w' He Hh|l1 t l2 tg ps s next w' Hr]; intros Hw.
  - pose proof (handle_typed e ev w Hw) as Hx. by rewrite Hh in Hx.
  - destruct Hw as [Hp Hd Ht]. simpl in *.
    apply Forall_app in Ht as [H1' Ht]. apply Forall_cons in Ht as [Ht H2'].
    destruct (run_task_spec t tg ps (l1 ++ l2) s next w' Ht Hr) as (E1 & E2 & Hx & Hn).
    assert (Forall (task_typed (w_pairs w')) (l1 ++ l2)) as Hts.
    { apply Forall_app. split; eapply Forall_impl; try done; intros; by eapply extends_task. }
    split; simpl; rewrite ?E1, ?E2; [|done|].
    + eapply Forall_impl; [exact Hp|]. intros a. by apply extends_lookup.
    + destruct next as [t'|]; [|done]. apply Forall_app. split; [done|]. by constructor.
Qed.

(** The calls a goroutine makes on modules and clients do not panic. *)
Record calm : Prop := mkCalm {
  calm_create proto a p n s : is_panic (CreateClient proto a p n s).1 = false;
  calm_setup c s : is_panic (SetupConnection c s).1 = false;
  calm_start c s : exists s', start c s = (Ok tt, s')
}.

Lemma calm_task t tg ps ts s :
  calm -> task_typed ps t -> exists next w', run_task t (mkWorld tg ps ts s) = (Ok next, w').
Proof.
  intros [Hc Hs Hst] Ht. destruct t as [a|a|a]; simpl in *.
  - destruct Ht as [p Hp]. unfold bind at 1, upd_pair, modify. simpl.
    unfold bind at 1, pair_at, bind at 1, gets, deref, lift. simpl.
    rewrite list_lookup_alter_eq, Hp. simpl. case_decide; [|by do 2 eexists].
    unfold bind at 1, tget, gets. unfold bind at 1, ignore, call. simpl.
    match goal with |- context [CreateClient ?x ?y ?z ?n ?s] => specialize (Hc x y z n s);
      destruct (CreateClient x y z n s) as [[c|e|q] s'] end; [by do 2 eexists..|done].
  - destruct Ht as [c (p & Hp & Hcl)%bind_Some].
    unfold bind at 1, pair_at, bind at 1, gets, deref, lift. simpl. rewrite Hp. simpl.
    unfold bind at 1. simpl. rewrite Hcl. simpl. unfold bind, ignore, call_pairs. simpl. specialize (Hs c (ps, s)).
    destruct (SetupConnection c (ps, s)) as [[[]|e|q] [qs s']]; [by do 2 eexists..|done].
  - destruct Ht as [c (p & Hp & Hcl)%bind_Some].
    unfold bind at 1, pair_at, bind at 1, gets, deref, lift. simpl. rewrite Hp. simpl.
    unfold bind at 1. simpl. rewrite Hcl. simpl. unfold bind, call. simpl.
    destruct (Hst c s) as [s' ->]. by do 2 eexists.
Qed.

(** C26: the pointers of the controller never dangle. In every state reachable
    from a new controller, whatever ConfigMaps come and however the goroutines
    are scheduled, each pair the controller or a goroutine holds is in the
    store, the pairs of the controller are distinct, and a goroutine past the
    creation of its client finds one: none of them can panic on its own
    account, only in a call on a protocol module. *)
Theorem controller_well_typed podName ns n s ls w :
  steps step (mkWorld (NewPodTGController podName ns n) [] [] s) ls w ->
  well_typed w /\
  (calm -> forall t, t ∈ w_tasks w ->
   exists next w', run_task t w = (Ok next, w') /\ extends (w_pairs w) (w_pairs w')).
Proof.
  intros Hr. assert (well_typed w) as Hw.
  { refine (steps_invariant step well_typed _ _ _ ls w Hr).
    - split; simpl; by constructor.
    - intros. by eapply step_typed. }
  split; [done|]. intros Hc t Ht. destruct Hw as [_ _ Hts]. rewrite Forall_forall in Hts. specialize (Hts t Ht).
  destruct w as [tg ps ts s0]. destruct (calm_task t tg ps ts s0 Hc Hts) as (next & w' & E).
  exists next, w'. split; [done|]. by apply (run_task_spec t tg ps ts s0 next w' Hts E).
Qed.

(** ** The clients come up *)

Definition task_step (w : world) (t : task) (w' : world) : Prop := step w (LTask t) w'.

(** A turn of a goroutine, with what it does next, if anything. *)
Definition move : Type := task * option task.
Inductive task_move : world -> move -> world -> Prop :=
| task_move_intro l1 t l2 tg ps s next w' :
    run_task t (mkWorld tg ps (l1 ++ l2) s) = (Ok next, w') ->
    task_move (mkWorld tg ps (l1 ++ t :: l2) s) (t, next)
      (mkWorld (w_tg w') (w_pairs w')
         (match next with Some t' => w_tasks w' ++ [t'] | None => w_tasks w' end) (w_ext w')).

Lemma task_move_step w t w' : task_step w t w' <-> exists next, task_move w (t, next) w'.
Proof.
  unfold task_step. split; [inversion 1; subst; eexists; by constructor|intros [next Hm]; inversion Hm; subst; by constructor].
Qed.

Lemma task_step_inv w t w' :
  task_step w t w' -> exists l1 l2 next w1,
    w_tasks w = l1 ++ t :: l2 /\ run_task t (mkWorld (w_tg w) (w_pairs w) (l1 ++ l2) (w_ext w)) = (Ok next, w1) /\
    w_pairs w' = w_pairs w1 /\ w_tg w' = w_tg w1 /\
    w_tasks w' = match next with Some t' => w_tasks w1 ++ [t'] | None => w_tasks w1 end.
Proof. unfold task_step. intros Hs. inversion Hs; subst. by do 4 eexists. Qed.

(** What a goroutine has still to do. *)
Definition remaining (t : task) : list task :=
  match t with
  | TCreate a => [TCreate a; TSetup a; TStart a]
  | TSetup a => [TSetup a; TStart a]
  | TStart a => [TStart a]
  end.
Definition work (ts : list task) : list task := mjoin (remaining <$> ts).

Definition served (ps : list BatPair) (a : nat) : Prop :=
  exists p, ps !! a = Some p /\ TrafficProfile p ∈ protoClients.
Definition task_pair (t : task) : nat := match t with TCreate a | TSetup a | TStart a => a end.

(** What the goroutine of a pair does with its client. *)
Inductive life (ps : list BatPair) (a : nat) : list move -> Prop :=
| life_unserved : ~ served ps a -> life ps a [(TCreate a, None)]
| life_failed : served ps a -> life ps a [(TCreate a, Some (TSetup a)); (TSetup a, None)]
| life_up : served ps a ->
    life ps a [(TCreate a, Some (TSetup a)); (TSetup a, Some (TStart a)); (TStart a, None)].

(** The moves made for a pair, in their order. *)
Definition about (a : nat) (ls : list move) : list move := filter (fun m => task_pair m.1 = a) ls.

(** All goroutines have returned, and there was one for each of the pairs. *)
Record brought_up (addrs : list nat) (ps : list BatPair) (ls : list move) (w : world) : Prop := mkBroughtUp {
  bu_gone : w_tasks w = [];
  bu_only : Forall (fun m => task_pair m.1 ∈ addrs) ls;
  bu_life a : a ∈ addrs -> life ps a (about a ls);
  bu_client a : a ∈ addrs -> served ps a -> is_Some (client_of (w_pairs w) a)
}.
End Runs.

(** What the controller relies on in a client it has made: there are [n] pairs,
    and its pair is one of them. *)
Class LiveClients `{Protocols} := {
  known : nat -> nat -> S -> Prop;                                  (* client, number of pairs *)
  known_created proto a p n ps s c s' :
    is_Some (ps !! a : option BatPair) -> CreateClient proto a p n s = (Ok c, s') -> known c (length ps) s';
  known_create proto a p n k c s : known c k s -> known c k (CreateClient proto a p n s).2;
  known_setup b qs k c s : known c k s -> known c k (SetupConnection b (qs, s)).2.2;
  known_start b k c s : known c k s -> known c k (start b s).2;
  create_ok proto a p n s : is_ok (CreateClient proto a p n s).1 = true;
  setup_returns c ps s : known c (length ps) s -> is_panic (SetupConnection c (ps, s)).1 = false;
  start_ok c s : (start c s).1 = Ok tt
}.

Section ComingUp.
Context `{JsonSource} `{Yaml} `{LiveClients}.

Definition ready (ps : list BatPair) (s : S) (t : task) : Prop :=
  match t with
  | TCreate a => is_Some (ps !! a)
  | TSetup a | TStart a => exists c, client_of ps a = Some c /\ known c (length ps) s
  end.

Definition follows (ps : list BatPair) (t : task) (next : option task) : Prop :=
  match t with
  | TCreate a => next = None /\ ~ served ps a \/ next = Some (TSetup a) /\ served ps a
  | TSetup a => next = None \/ next = Some (TStart a)
  | TStart _ => next = None
  end.

(** What a turn leaves: every pair with its profile, and with a client if it had one. *)
Record onward (ps : list BatPair) (s : S) (ps' : list BatPair) (s' : S) : Prop := mkOnward {
  on_length : length ps' = length ps;
  on_served a : served ps' a <-> served ps a;
  on_client a : is_Some (client_of ps a) -> is_Some (client_of ps' a);
  on_ready t : ready ps s t -> ready ps' s' t
}.

Lemma served_alter ps a f b :
  (forall p, TrafficProfile (f p) = TrafficProfile p) -> served (alter f a ps) b <-> served ps b.
Proof.
  intros Hf. unfold served. destruct (decide (a = b)) as [<-|Hne]; [|by rewrite list_lookup_alter_ne].
  rewrite list_lookup_alter_eq. destruct (ps !! a) as [p|]; simpl; [|naive_solver].
  split; intros (q & [= <-] & Hq); eexists; (split; [done|]); [by rewrite <- (Hf p)|by rewrite Hf].
Qed.

Lemma served_written ps qs b : served (written_pairs ps qs) b <-> served ps b.
Proof.
  unfold served. split.
  - intros (p & (p0 & Hp & _ & E)%written_inv & Hin). exists p0. by rewrite <- E.
  - intros (p & (p' & Hp & _ & E)%(written_of ps qs) & Hin). exists p'. by rewrite E.
Qed.

Lemma client_of_written ps qs b : client_of (written_pairs ps qs) b = client_of ps b.
Proof. unfold client_of. rewrite written_lookup. destruct (ps !! b) as [p|]; simpl; [by case_match|done]. Qed.

Lemma client_of_alter ps a f b :
  (forall p, ClientConnection (f p) = ClientConnection p) -> client_of (alter f a ps) b = client_of ps b.
Proof.
  intros Hf. unfold client_of. destruct (decide (a = b)) as [<-|Hne]; [|by rewrite list_lookup_alter_ne].
  rewrite list_lookup_alter_eq. destruct (ps !! a) as [p|]; simpl; [apply Hf|done].
Qed.

Lemma client_of_given ps a c b :
  client_of (alter (set_ClientConnection (Some c)) a ps) b =
    if decide (a = b /\ is_Some (ps !! a)) then Some c else client_of ps b.
Proof.
  unfold client_of. destruct (decide (a = b)) as [<-|Hne].
  - rewrite list_lookup_alter_eq. destruct (ps !! a) as [p|]; simpl.
    + rewrite decide_True; [done|]. split; [done|by eexists].
    + rewrite decide_False; [done|]. by intros [_ [? [=]]].
  - rewrite list_lookup_alter_ne by done. rewrite decide_False; [done|]. by intros [? _].
Qed.

Lemma onward_same ps s ps' s' :
  length ps' = length ps -> (forall a, served ps' a <-> served ps a) -> (forall a, client_of ps' a = client_of ps a) ->
  (forall c k, known c k s -> known c k s') -> onward ps s ps' s'.
Proof.
  intros Hl Hs Hc Hk. split; [done|done|intros a; by rewrite Hc|].
  intros [a|a|a]; simpl; rewrite ?Hl; try setoid_rewrite Hc.
  - intros Ha%lookup_lt_is_Some. apply lookup_lt_is_Some. lia.
  - intros (c & Hcl & Hkn). eauto.
  - intros (c & Hcl & Hkn). eauto.
Qed.

Lemma onward_trans ps s ps1 s1 ps2 s2 : onward ps s ps1 s1 -> onward ps1 s1 ps2 s2 -> onward ps s ps2 s2.
Proof. intros [A1 A2 A3 A4] [B1 B2 B3 B4]. split; [congruence| |auto|auto]. intros a. by rewrite B2. Qed.

(** A pair is given a client that is known. *)
Lemma onward_given ps s a c : known c (length ps) s -> onward ps s (alter (set_ClientConnection (Some c)) a ps) s.
Proof.
  intros Hk. split.
  - apply length_alter.
  - intros b. by apply served_alter.
  - intros b Hb. rewrite client_of_given. by case_decide.
  - intros [b|b|b]; simpl; rewrite ?length_alter.
    + intros Hb%lookup_lt_is_Some. apply lookup_lt_is_Some. by rewrite length_alter.
    + intros (d & Hd & Hkn). rewrite client_of_given. case_decide; eauto.
    + intros (d & Hd & Hkn). rewrite client_of_given. case_decide; eauto.
Qed.

(** A goroutine that is ready makes its move. *)
Lemma ready_run t tg ps ts s :
  ready ps s t -> exists next w', run_task t (mkWorld tg ps ts s) = (Ok next, w') /\
    w_tg w' = tg /\ w_tasks w' = ts /\ onward ps s (w_pairs w') (w_ext w') /\ follows ps t next /\
    match next with Some t' => ready (w_pairs w') (w_ext w') t' /\ is_Some (client_of (w_pairs w') (task_pair t')) | None => True end.
Proof.
  destruct t as [a|a|a]; cbn [ready].
  - intros [p Hp]. cbn [run_task]. set (ps1 := alter (set_PendingRequestsMap ∅) a ps).
    assert (onward ps s ps1 s) as Ho1.
    { apply onward_same; [apply length_alter|intros b; by apply served_alter|intros b; by apply client_of_alter|done]. }
    unfold bind at 1, upd_pair, modify. unfold bind at 1, pair_at, bind at 1, gets, deref, lift. simpl. fold ps1.
    assert (ps1 !! a = Some (set_PendingRequestsMap ∅ p)) as Hp1 by (unfold ps1; by rewrite list_lookup_alter_eq, Hp).
    rewrite Hp1. simpl. case_decide as Hin.
    + unfold bind at 1, tget, gets. unfold bind at 1, ignore, call. simpl.
      match goal with |- context [CreateClient ?x ?y ?z ?n ?s] =>
        pose proof (create_ok x y z n s) as Hok; pose proof (known_create x y z n) as Hkn;
        pose proof (fun c s' => known_created x y z n ps1 s c s') as Hkc; specialize (fun k c => Hkn k c s);
        destruct (CreateClient x y z n s) as [[c|e|q] s'] eqn:E end; [|done..]. simpl in Hkn.
      assert (known c (length ps1) s') as Hk by (apply Hkc; [by eexists|done]).
      assert (is_Some (ps1 !! a)) as Ha by (by eexists).
      do 2 eexists. split; [reflexivity|]. simpl. split_and!; [done|done| | | |].
      * apply (onward_trans _ _ ps1 s _ _ Ho1), (onward_trans _ _ ps1 s'); [apply onward_same; naive_solver|by apply onward_given].
      * right. split; [done|]. by exists p.
      * exists c. rewrite client_of_given, decide_True, length_alter by done. done.
      * rewrite client_of_given, decide_True by done. by eexists.
    + do 2 eexists. split; [reflexivity|]. split_and!; [done|done|done| |done].
      left. split; [done|]. intros (p' & Hp' & Hin'). apply Hin. simpl. congruence.
  - intros (c & (p & Hp & Hc)%bind_Some & Hk). cbn [run_task].
    unfold bind at 1, pair_at, bind at 1, gets, deref, lift. simpl. rewrite Hp. simpl.
    unfold bind at 1. simpl. rewrite Hc. simpl. unfold bind, ignore, call_pairs. simpl.
    pose proof (setup_returns c ps s Hk) as Hr. pose proof (fun k b => known_setup c ps k b s) as Hkn.
    destruct (SetupConnection c (ps, s)) as [r [qs s']]. simpl in Hr, Hkn.
    assert (onward ps s (written_pairs ps qs) s') as Ho.
    { apply onward_same; [apply length_imap|intros b; apply served_written|intros b; apply client_of_written|auto]. }
    assert (ready ps s (TStart a)) as Ha by (exists c; split; [by apply bind_Some; exists p|done]).
    destruct r as [[]|e|q]; [| |done]; do 2 eexists; (split; [reflexivity|]); split_and!; simpl; auto.
    + apply (on_ready _ _ _ _ Ho _ Ha).
    + apply (on_client _ _ _ _ Ho). unfold client_of. rewrite Hp. simpl. rewrite Hc. by eexists.
  - intros (c & (p & Hp & Hc)%bind_Some & Hk). cbn [run_task].
    unfold bind at 1, pair_at, bind at 1, gets, deref, lift. simpl. rewrite Hp. simpl.
    unfold bind at 1. simpl. rewrite Hc. simpl. unfold bind, call. simpl.
    pose proof (start_ok c s) as Hr. pose proof (fun k b => known_start c k b s) as Hkn.
    destruct (start c s) as [r s']. simpl in Hr, Hkn. subst r.
    do 2 eexists. split; [reflexivity|]. split_and!; simpl; auto. apply onward_same; naive_solver.
Qed.

(** How far the goroutine of a pair is: the moves it has made, and its next. *)
Inductive phase (ps : list BatPair) (a : nat) : list move -> list task -> Prop :=
| phase_first : phase ps a [] [TCreate a]
| phase_made : served ps a -> phase ps a [(TCreate a, Some (TSetup a))] [TSetup a]
| phase_set : served ps a ->
    phase ps a [(TCreate a, Some (TSetup a)); (TSetup a, Some (TStart a))] [TStart a]
| phase_last l : life ps a l -> phase ps a l [].

Definition tasks_of (a : nat) (ts : list task) : list task := filter (fun t => task_pair t = a) ts.

Lemma phase_next ps a l t next :
  phase ps a l [t] -> follows ps t next -> phase ps a (l ++ [(t, next)]) (option_list next).
Proof.
  intros Hp Hf. inversion Hp; subst; simpl in *.
  - destruct Hf as [[-> Hn]|[-> Hs]]; simpl; [by apply phase_last, life_unserved|by apply phase_made].
  - destruct Hf as [->| ->]; simpl; [by apply phase_last, life_failed|by apply phase_set].
  - subst next. by apply phase_last, life_up.
Qed.

Lemma phase_one ps a l t l1 l2 : phase ps a l (l1 ++ t :: l2) -> l1 = [] /\ l2 = [].
Proof.
  intros Hp. destruct l1 as [|t1 l1]; [destruct l2; [done|]|destruct l1]; inversion Hp.
Qed.

Lemma tasks_of_app a ts ts' : tasks_of a (ts ++ ts') = tasks_of a ts ++ tasks_of a ts'.
Proof. apply filter_app. Qed.

Lemma tasks_of_option a (next : option task) :
  (forall t, next = Some t -> task_pair t = a) -> tasks_of a (option_list next) = option_list next.
Proof. intros Hn. destruct next as [t|]; [|done]. unfold tasks_of. simpl. by rewrite filter_cons_True by auto. Qed.

Lemma tasks_of_other a (next : option task) :
  (forall t, next = Some t -> task_pair t <> a) -> tasks_of a (option_list next) = [].
Proof. intros Hn. destruct next as [t|]; [|done]. unfold tasks_of. simpl. by rewrite filter_cons_False by auto. Qed.

Lemma follows_pair ps t next t' : follows ps t next -> next = Some t' -> task_pair t' = task_pair t.
Proof. intros Hf ->. destruct t; simpl in Hf; naive_solver. Qed.

Lemma tasks_of_none a l : a ∉ l -> tasks_of a (TCreate <$> l) = [].
Proof.
  unfold tasks_of. induction l as [|b l IH]; [done|]. intros [Hne Hl]%not_elem_of_cons.
  rewrite fmap_cons, filter_cons_False by (simpl; congruence). by apply IH.
Qed.

(** The turns made for the pairs [addrs], in a store that was [ps0]. *)
Record rising (addrs : list nat) (ps0 : list BatPair) (ls : list move) (w : world) : Prop := mkRising {
  ri_ready : Forall (ready (w_pairs w) (w_ext w)) (w_tasks w);
  ri_tasks : Forall (fun t => task_pair t ∈ addrs) (w_tasks w);
  ri_moves : Forall (fun m => task_pair m.1 ∈ addrs) ls;
  ri_phase a : a ∈ addrs -> phase ps0 a (about a ls) (tasks_of a (w_tasks w));
  ri_served a : served (w_pairs w) a <-> served ps0 a;
  ri_client a : (TCreate a, Some (TSetup a)) ∈ ls -> is_Some (client_of (w_pairs w) a)
}.

Lemma work_app ts ts' : work (ts ++ ts') = work ts ++ work ts'.
Proof. unfold work. by rewrite fmap_app, join_app. Qed.

Lemma work_less ps t next : follows ps t next -> (length (work (option_list next)) < length (remaining t))%nat.
Proof. destruct t; simpl; [intros [[-> _]|[-> _]]|intros [->| ->]|intros ->]; simpl; lia. Qed.

Lemma move_tasks (next : option task) ts :
  match next with Some t' => ts ++ [t'] | None => ts end = ts ++ option_list next.
Proof. destruct next; simpl; by rewrite ?app_nil_r. Qed.

Lemma phase_move (addrs : list nat) ps0 ls l1 t l2 next a :
  (forall a, a ∈ addrs -> phase ps0 a (about a ls) (tasks_of a (l1 ++ t :: l2))) -> follows ps0 t next ->
  a ∈ addrs -> phase ps0 a (about a (ls ++ [(t, next)])) (tasks_of a ((l1 ++ l2) ++ option_list next)).
Proof.
  intros Hp Hf Ha. specialize (Hp a Ha). rewrite tasks_of_app in Hp. unfold about in *.
  rewrite filter_app, !tasks_of_app. unfold tasks_of at 2 in Hp.
  destruct (decide (task_pair t = a)) as [<-|Hne].
  - rewrite filter_cons_True in Hp by done. destruct (phase_one _ _ _ _ _ _ Hp) as [E1 E2].
    fold (tasks_of (task_pair t) l2) in *. rewrite E1, E2 in *. simpl in *.
    rewrite filter_cons_True, tasks_of_option by (done || intros t' E; by apply (follows_pair _ _ _ _ Hf E)). by apply phase_next.
  - rewrite filter_cons_False in Hp by done. fold (tasks_of a l2) in *.
    rewrite filter_cons_False, tasks_of_other by (done || intros t' E; by rewrite (follows_pair _ _ _ _ Hf E)).
    by rewrite !app_nil_r.
Qed.

Lemma follows_served ps ps' t next : (forall a, served ps a <-> served ps' a) -> follows ps t next -> follows ps' t next.
Proof. intros Hs. destruct t as [a|a|a]; simpl; [by rewrite Hs|done..]. Qed.

Lemma rising_move addrs ps0 ls w m w' :
  rising addrs ps0 ls w -> task_move w m w' ->
  rising addrs ps0 (ls ++ [m]) w' /\ (length (work (w_tasks w')) < length (work (w_tasks w)))%nat.
Proof.
  intros [I1 I2 I3 I4 I5 I6] Hm. destruct Hm as [l1 t l2 tg ps s next w' E]. simpl in *.
  apply Forall_app in I1 as [I11 [It I12]%Forall_cons], I2 as [I21 [Ia I22]%Forall_cons].
  destruct (ready_run t tg ps (l1 ++ l2) s It) as (next' & w1 & E' & Etg & Ets & Ho & Hf & Hn).
  assert (next' = next /\ w1 = w') as [-> ->] by (split; congruence). clear E'. rewrite Ets, move_tasks.
  assert (Forall (ready (w_pairs w') (w_ext w')) (l1 ++ l2)) as Hr.
  { apply Forall_app. split; [eapply Forall_impl; [exact I11|]|eapply Forall_impl; [exact I12|]]; exact (on_ready _ _ _ _ Ho). }
  pose proof (follows_served _ _ _ _ I5 Hf) as Hf0. split; [split; simpl|].
  - apply Forall_app. split; [done|]. destruct next as [t'|]; [|done]. by constructor; [apply Hn|].
  - apply Forall_app. split; [by apply Forall_app|]. destruct next as [t'|]; [|done].
    constructor; [|done]. by rewrite (follows_pair _ _ _ _ Hf eq_refl).
  - apply Forall_app. split; [done|]. by constructor.
  - intros a. by apply phase_move.
  - intros a. by rewrite (on_served _ _ _ _ Ho), I5.
  - intros a [Hin|Hin%list_elem_of_singleton]%elem_of_app; [by apply (on_client _ _ _ _ Ho), I6|].
    injection Hin as <- <-. apply Hn.
  - rewrite !work_app, !length_app. change (t :: l2) with ([t] ++ l2). rewrite work_app, length_app.
    pose proof (work_less _ _ _ Hf). unfold work at 5. simpl. rewrite app_nil_r. lia.
Qed.

(** C24: every pair gets its traffic. Once both ConfigMaps have been handled
    and there is a goroutine per pair, it is inevitable, whichever goroutine
    moves when, that all of them return without a panic. By then there has been
    exactly one life per pair and nothing else: a pair whose profile is not
    registered gets no client; for another the client is created, once, set up,
    once, and, if the set-up succeeded, started, once, in this order; and the
    pair holds a client. *)
Theorem clients_come_up addrs w :
  well_typed w -> NoDup addrs -> w_tasks w = TCreate <$> addrs ->
  inevitable task_move (brought_up addrs (w_pairs w)) [] w.
Proof.
  intros Hw Hd Hts.
  apply (inevitable_measure task_move (brought_up addrs (w_pairs w)) (rising addrs (w_pairs w))
           (fun w => length (work (w_tasks w)))).
  - intros ls [tg ps ts s] [I1 I2 I3 I4 I5 I6]. simpl in *. destruct ts as [|t ts].
    + left. assert (forall a, a ∈ addrs -> life (w_pairs w) a (about a ls)) as Hl.
      { intros a Ha. specialize (I4 a Ha). by inversion I4. }
      split; [done|done|done|]. intros a Ha Hs. simpl. apply I6.
      assert ((TCreate a, Some (TSetup a)) ∈ about a ls) as Hin.
      { destruct (Hl a Ha); [done|apply list_elem_of_here..]. }
      by apply list_elem_of_filter in Hin as [_ Hin].
    + right. apply Forall_cons in I1 as [It _].
      destruct (ready_run t tg ps ts s It) as (next & w' & E & _).
      exists (t, next). eexists. exact (task_move_intro [] t ts tg ps s next w' E).
  - intros ls w1 m w2. apply rising_move.
  - destruct Hw as [_ _ Ht]. rewrite Hts in Ht. split; rewrite ?Hts.
    + apply Forall_fmap. rewrite Forall_fmap in Ht. exact Ht.
    + apply Forall_fmap, Forall_forall. done.
    + done.
    + intros a Ha. replace (tasks_of a (TCreate <$> addrs)) with [TCreate a]; [apply phase_first|].
      clear -Ha Hd. induction Hd as [|b l Hb Hd IH]; [by apply not_elem_of_nil in Ha|].
      unfold tasks_of in *. rewrite fmap_cons. destruct (decide (b = a)) as [->|Hne].
      * rewrite filter_cons_True by done. f_equal. symmetry. by apply tasks_of_none.
      * rewrite filter_cons_False by done. apply IH. by apply elem_of_cons in Ha as [->|].
    + done.
    + by intros a ?%not_elem_of_nil.
Qed.
End ComingUp.

(** ** A teardown that overtakes the set-up of a client *)

(** What the controller does not know of a client: it must not be torn down
    before it has been set up. *)
Class FreshClients `{Protocols} := {
  fresh : nat -> S -> Prop;
  fresh_created proto a p n s c s' : CreateClient proto a p n s = (Ok c, s') -> fresh c s';
  fresh_teardown c s : fresh c s -> is_panic (TearDownConnection c s).1 = true;
  fresh_kept c c' s s' : fresh c s -> TearDownConnection c' s = (Ok tt, s') -> fresh c s'
}.

Section Overtaken.
Context `{JsonSource} `{Yaml} `{NoErrors} `{!FreshClients}.

(** The pair has no client, or one that has not been set up. *)
Definition unready (ps : list BatPair) (s : S) (a : nat) : Prop :=
  match client_of ps a with Some c => fresh c s | None => True end.

Lemma tearDown_unready ps l tg ts s :
  Exists (unready ps s) l -> is_panic (for_each l tearDownPair (mkWorld tg ps ts s)).1 = true.
Proof.
  revert s. induction l as [|b l IH]; intros s Hex; [by apply Exists_nil in Hex|]. simpl.
  unfold bind at 1. unfold tearDownPair at 1, pair_at, deref, gets, lift, call, bind. simpl.
  destruct (ps !! b) as [p|] eqn:Hp; [|done]. simpl. destruct (ClientConnection p) as [c|] eqn:Hc; [|done]. simpl.
  destruct (TearDownConnection c s) as [[[]|e|q] s'] eqn:E; [| |done].
  - apply IH. apply Exists_cons in Hex as [Hb|Hl].
    + exfalso. unfold unready, client_of in Hb. rewrite Hp in Hb. simpl in Hb. rewrite Hc in Hb.
      apply fresh_teardown in Hb. by rewrite E in Hb.
    + eapply Exists_impl; [exact Hl|]. intros a. unfold unready. destruct (client_of ps a); [|done].
      intros Hf. by eapply fresh_kept.
  - pose proof (TearDownConnection_no_err c s e) as N. by rewrite E in N.
Qed.

Lemma create_unready w a w' :
  (exists p, w_pairs w !! a = Some p /\ ClientConnection p = None) -> task_step w (TCreate a) w' ->
  unready (w_pairs w') (w_ext w') a.
Proof.
  intros (p & Hp & Hc) Hs. inversion Hs; subst. simpl in *. match goal with Hr : _ = (Ok _, _) |- _ => rename Hr into E end.
  unfold bind at 1, upd_pair, modify in E. simpl in E.
  unfold bind at 1, pair_at, bind at 1, gets, deref, lift in E. simpl in E.
  rewrite list_lookup_alter_eq, Hp in E. simpl in E.
  assert (forall s, unready (alter (set_PendingRequestsMap ∅) a ps) s a) as Hnone.
  { intros s'. unfold unready, client_of. rewrite list_lookup_alter_eq, Hp. simpl. by rewrite Hc. }
  case_decide; [|by injection E as <- <-]. unfold bind at 1, tget, gets in E.
  unfold bind at 1, ignore, call in E. simpl in E.
  destruct (CreateClient _ _ _ _ _) as [[c|e|q] s1] eqn:Ec; [| |done]; injection E as <- <-; simpl; [|done].
  unfold unready, client_of. rewrite !list_lookup_alter_eq, Hp. simpl. by eapply fresh_created.
Qed.

(** C27: a change that comes too early ends the process. From the moment the
    pairs are known until the goroutine of a pair has set its client up, the
    pair has no client, or one whose [TearDownConnection] dereferences a nil
    metric: if in that time the pairing ConfigMap is deleted or changed again,
    or the program is told to stop, the handler panics, both before the
    goroutine has run and right after it has created the client. *)
Theorem early_change_panics w l a e ev :
  netBatPairs (w_tg w) = Some l -> a ∈ l ->
  (exists p, w_pairs w !! a = Some p /\ ClientConnection p = None) ->
  (disturbs w ev -> is_panic (handle e ev w).1 = true) /\
  (forall w', task_step w (TCreate a) w' -> disturbs w' ev -> is_panic (handle e ev w').1 = true).
Proof.
  intros Hl Ha Hp. split.
  - intros Hev. apply (disturbed_panics e ev w l Hl Hev). intros tg. apply tearDown_unready, Exists_exists.
    exists a. split; [done|]. destruct Hp as (p & Hp & Hc). unfold unready, client_of. rewrite Hp. simpl. by rewrite Hc.
  - intros w' Hs Hev. assert (netBatPairs (w_tg w') = Some l) as Hl'.
    { destruct (task_step_inv _ _ _ Hs) as (l1 & l2 & next & w1 & _ & E & _ & Etg & _).
      destruct Hp as (p & Hp & _). apply run_task_spec in E as (E & _); [congruence|by eexists]. }
    apply (disturbed_panics e ev w' l Hl' Hev). intros tg. apply tearDown_unready, Exists_exists.
    exists a. split; [done|]. by eapply create_unready.
Qed.
End Overtaken.

(** ** Concrete runs *)
#[local] Existing Instance log_Protocols.
#[local] Existing Instance demo_Source.
#[local] Existing Instance demo_Yaml.

(** Both ConfigMaps handled, no goroutine run. *)
Definition up_w1 : world := do_event (EAdd (pairing_cm "1" udp_line)) demo_tgc.
Definition up_w2 : world := do_event (EAdd (profile_cm "2" "")) up_w1.

Lemma up_run :
  steps step demo_tgc [LEvent (EAdd (pairing_cm "1" udp_line)); LEvent (EAdd (profile_cm "2" ""))] up_w2.
Proof.
  unfold up_w2, up_w1. eapply steps_cons; [apply do_event_step; vm_compute; reflexivity|].
  apply steps_one, do_event_step. vm_compute. reflexivity.
Qed.

Lemma log_calm : calm.
Proof. split; intros; [reflexivity..|by eexists]. Qed.

Lemma controller_well_typed_witness :
  well_typed up_w2 /\ exists next w', run_task (TCreate 0) up_w2 = (Ok next, w').
Proof.
  destruct (controller_well_typed "pod-a" "default" 200 _ _ up_w2 up_run) as [Hw Ht].
  split; [exact Hw|]. destruct (Ht log_calm (TCreate 0)) as (next & w' & E & _).
  - assert (w_tasks up_w2 = [TCreate 0]) as -> by (vm_compute; reflexivity). apply list_elem_of_here.
  - exists next, w'. exact E.
Defined.
