(* ===== verification/Streams.v ===== *)
(** * The udp modules behind the controller (pkg/tgen/udp.go, pkg/tapp/udp.go)

    The modules that [init] registers, behind the interface the controller
    calls ([Protocols]): creation, set-up and teardown are the operations of
    [tgen] on a stream of the process, and those of [tapp] on one of its
    servers.  The goroutines are those of TGenStep and of [tapp.step]; here
    only which streams have been given theirs is kept.  The wait of a teardown
    ends with all of them having called [Done], as TGenTheorems and
    TAppTheorems prove they can; the wait for goroutines that have not been
    started does not end, and is a panic here: no step follows it. *)
From S2P Require Import Prelude GoInt Message Metrics Reference Net Pair Pairing TApp TAppTheorems TGen TGenProofs TGenRefine TGenInv TGenShared Config TGC TGCTheorems TGCRuns.

(** What the packages' [init] functions register, and with what configuration. *)
Definition registered_servers : gmap string tapp.config :=
  tgc.RegisterProtocolServer tapp.UDPProtocolStr (tapp.mkConfig 0) ∅.
Definition registered_clients : gmap string tgen.config :=
  tgc.RegisterProtocolClient tapp.UDPProtocolStr tgen.defaultConfig ∅.

Lemma server_registered : tapp.UDPProtocolStr ∈ (map_to_list registered_servers).*1.
Proof. apply (bool_decide_unpack _). vm_compute. exact I. Qed.
Lemma client_registered : tapp.UDPProtocolStr ∈ (map_to_list registered_clients).*1.
Proof. apply (bool_decide_unpack _). vm_compute. exact I. Qed.

Section Streams.
Context `{Msgpack} `{PromLib} (env : NetEnv) (namespace podName nodeName : string).

(** The streams ever made and those with goroutines, the servers, the metrics
    library, the configurations of the two modules. *)
Record process := mkProcess {
  streams : list tgen.udpStream;
  going : list nat;
  servers : list tapp.udpServer;
  metrics : prom;
  conf : tgen.config;
  srv_conf : tapp.config
}.

(** A method called on a stream. *)
Definition on_stream {A} (c : nat) (m : tgen.M A) : ST process A := fun s =>
  match streams s !! c with
  | None => (Panic tgen.nil_deref, s)
  | Some x =>
      let '(r, (x', q)) := m (x, metrics s) in
      (r, mkProcess (<[c := x']> (streams s)) (going s) (servers s) q (conf s) (srv_conf s))
  end.

(** One that works on the stream's pair as well: the pair is fetched from
    where [pairAt] points, and put back there. *)
Definition fetch (ps : list BatPair) (x : tgen.udpStream) : option tgen.udpStream :=
  (fun b => tgen.set_pair b x) <$> ps !! tgen.pairAt x.
Definition put_back (x : tgen.udpStream) (ps : list BatPair) : list BatPair :=
  <[tgen.pairAt x := tgen.pair x]> ps.
Definition on_pair {A} (c : nat) (m : tgen.M A) : ST (list BatPair * process) A := fun '(ps, s) =>
  match streams s !! c ≫= fetch ps with
  | None => (Panic tgen.nil_deref, (ps, s))
  | Some x =>
      let '(r, (x', q)) := m (x, metrics s) in
      (r, (put_back x' ps,
           mkProcess (<[c := x']> (streams s)) (going s) (servers s) q (conf s) (srv_conf s)))
  end.

Definition stream_CreateClient (a : nat) (p : BatPair) (n : Z) : ST process nat := fun s =>
  match tgen.CreateClient a p n with
  | Ok x => (Ok (length (streams s)),
             mkProcess (streams s ++ [x]) (going s) (servers s) (metrics s) (conf s) (srv_conf s))
  | Err e => (Err e, s)
  | Panic w => (Panic w, s)
  end.

Definition stream_SetupConnection (c : nat) : ST (list BatPair * process) unit := fun s =>
  on_pair c (tgen.SetupConnection env (conf s.2)) s.

Definition waits_for_good : string := "no goroutine is left to call Done".

Definition stream_TearDown (goroutines : bool) : tgen.M unit :=
  let! waits := tgen.TearDownConnection_begin in
  if (waits : bool) then
    let! n := tgen.get tgen.isStopped in
    if bool_decide (n = 0) || goroutines then
      let! _ := tgen.upd (tgen.set_isStopped 0) in tgen.TearDownConnection_end
    else panic waits_for_good
  else ret tt.

Definition stream_TearDownConnection (c : nat) : ST process unit := fun s =>
  on_stream c (stream_TearDown (bool_decide (c ∈ going s))) s.

(** The three [go] statements. *)
Definition stream_start (c : nat) : ST process unit := fun s =>
  (Ok tt, mkProcess (streams s) (c :: going s) (servers s) (metrics s) (conf s) (srv_conf s)).

Definition stream_load (m : profile) : ST process unit := fun s =>
  let '(r, c) := tgen.LoadBatProfileConfig m (conf s) in
  (r, mkProcess (streams s) (going s) (servers s) (metrics s) c (srv_conf s)).

Definition server_Create (ip ifName : string) (n : Z) : ST process nat := fun s =>
  match tapp.CreateServer env (srv_conf s) namespace podName nodeName ip ifName n (metrics s) with
  | Ok (x, q) => (Ok (length (servers s)),
                  mkProcess (streams s) (going s) (servers s ++ [x]) q (conf s) (srv_conf s))
  | Err e => (Err e, s)
  | Panic w => (Panic w, s)
  end.

Definition server_TearDown (a : nat) : ST process unit := fun s =>
  match servers s !! a with
  | None => (Panic tapp.nil_deref, s)
  | Some x =>
      match tapp.TearDownServer_begin x with
      | None => (Ok tt, s)
      | Some x =>
          let x := tapp.set_isStopped 0 x in
          (Ok tt, mkProcess (streams s) (going s) (<[a := x]> (servers s)) (tapp.TearDownServer_end x (metrics s))
                    (conf s) (srv_conf s))
      end
  end.

Definition server_load (m : profile) : ST process unit := fun s =>
  let '(c, e) := tapp.LoadBatProfileConfig m (srv_conf s) in
  (match e with None => Ok tt | Some e => Err e end,
   mkProcess (streams s) (going s) (servers s) (metrics s) (conf s) c).

#[local] Instance stream_Protocols : Protocols := {|
  S := process;
  protoServers := (map_to_list registered_servers).*1;
  protoClients := (map_to_list registered_clients).*1;
  server_LoadBatProfileConfig _ := server_load;
  CreateServer _ ip ifName n := server_Create ip ifName n;
  TearDownServer := server_TearDown;
  client_LoadBatProfileConfig _ := stream_load;
  CreateClient _ a p n := stream_CreateClient a p n;
  SetupConnection := stream_SetupConnection;
  TearDownConnection := stream_TearDownConnection;
  start := stream_start
|}.

(** [TearDownConnection] returns no error. *)
Lemma stream_TearDown_no_err b s e : (stream_TearDown b s).1 <> Err e.
Proof.
  unfold stream_TearDown, tgen.TearDownConnection_begin, tgen.get, tgen.deref. unfold bind at 1.
  unfold bind at 1, gets. unfold bind at 1, lift. destruct (tgen.trafficNotStarted s.1); simpl; [|done].
  unfold bind, gets, tgen.lib, modify. simpl. destruct (tgen.connection s.1); simpl; [|done]. by case_match.
Qed.

#[local] Instance stream_NoErrors : NoErrors.
Proof.
  split; [|done]. intros c s e. simpl. unfold stream_TearDownConnection, on_stream.
  destruct (streams s !! c) as [x|]; [|done].
  pose proof (stream_TearDown_no_err (bool_decide (c ∈ going s)) (x, metrics s) e) as N.
  by destruct (stream_TearDown _ (x, metrics s)) as [r [x' q]].
Qed.

(** A stream that has been created and not set up has no metric yet. *)
Definition stream_fresh (c : nat) (s : process) : Prop :=
  exists x, streams s !! c = Some x /\ tgen.trafficNotStarted x = None.

Lemma fresh_stream_panics b x q :
  tgen.trafficNotStarted x = None -> is_panic (stream_TearDown b (x, q)).1 = true.
Proof.
  intros E. unfold stream_TearDown, tgen.TearDownConnection_begin, tgen.get, tgen.deref.
  unfold bind at 1. unfold bind at 1, gets. unfold bind at 1, lift. simpl. by rewrite E.
Qed.

#[local, refine] Instance stream_FreshClients : FreshClients := {| fresh := (stream_fresh : nat -> S -> Prop) |}.
Proof.
  - intros proto a p n s c s'. simpl. unfold stream_CreateClient, tgen.CreateClient, tgen.newStream.
    destruct GetMessageHeaderLength as [hl|e|w]; [|done..]. intros [= <- <-].
    eexists. split; [simpl; apply list_lookup_middle; done|done].
  - intros c s (x & Hx & E). simpl. unfold stream_TearDownConnection, on_stream. rewrite Hx.
    pose proof (fresh_stream_panics (bool_decide (c ∈ going s)) x (metrics s) E) as Hp.
    by destruct (stream_TearDown _ (x, metrics s)) as [r [x' q]].
  - intros c c' s s' (x & Hx & E). simpl. unfold stream_TearDownConnection, on_stream.
    destruct (streams s !! c') as [y|] eqn:Hy; [|done].
    destruct (stream_TearDown _ (y, metrics s)) as [r [y' q]] eqn:Et. intros [= -> <-].
    destruct (decide (c' = c)) as [->|Hne].
    + assert (y = x) as -> by congruence.
      pose proof (fresh_stream_panics (bool_decide (c ∈ going s)) x (metrics s) E) as Hp. by rewrite Et in Hp.
    + exists x. simpl. by rewrite list_lookup_insert_ne.
Defined.

(** What a client that has been created is: a stream, on one of the pairs. *)
Definition stream_known (c k : nat) (s : process) : Prop :=
  exists x, streams s !! c = Some x /\ (tgen.pairAt x < k)%nat.

Lemma SetupConnection_no_panic conf s : is_panic (tgen.SetupConnection env conf s).1 = false.
Proof.
  unfold tgen.SetupConnection, bind. destruct (newTrafficNotStarted_spec conf s) as (m & s' & -> & _).
  match goal with |- context [recover ?m] => generalize m end. intros m0. unfold recover. by destruct (m0 s') as [[]].
Qed.

Lemma known_on_pair {A} b c k ps s (m : tgen.M A) :
  within same_fixed m -> stream_known c k s -> stream_known c k (on_pair b m (ps, s)).2.2.
Proof.
  intros Hm (x & Hx & Hk). unfold on_pair, fetch. destruct (streams s !! b) as [y|] eqn:Hy; simpl; [|by exists x].
  destruct (ps !! tgen.pairAt y) as [p|]; simpl; [|by exists x].
  pose proof (Hm (tgen.set_pair p y, metrics s)) as Hf. destruct (m _) as [r [y' q]]. simpl in *.
  destruct (decide (b = c)) as [->|Hne]; [|exists x; simpl; by rewrite list_lookup_insert_ne].
  exists y'. simpl. rewrite list_lookup_insert_eq by (by eapply lookup_lt_Some). split; [done|].
  assert (y = x) as -> by congruence. by injection Hf as <- _.
Qed.

(** ** Which profiles the modules take

    It does not depend on what they have loaded before. *)
Definition steady {T A} (m : ST T A) : Prop := forall k k', (m k).1 = (m k').1.

Lemma steady_bind {T A B} (m : ST T A) (f : A -> ST T B) : steady m -> (forall a, steady (f a)) -> steady (bind m f).
Proof.
  intros Hm Hf k k'. specialize (Hm k k'). unfold bind.
  destruct (m k) as [[a|e|w] k1], (m k') as [[a'|e'|w'] k2]; simpl in *; try done; [|congruence..].
  injection Hm as ->. apply Hf.
Qed.

Lemma load_int_steady entry key what store : steady (tgen.load_int entry key what store).
Proof.
  unfold tgen.load_int. destruct (entry !! key); [|done]. destruct (tgen.parseIntValue _) as [v err].
  apply steady_bind; [done|]. intros _. by destruct err.
Qed.

Lemma tgen_load_steady m : steady (tgen.LoadBatProfileConfig m).
Proof.
  destruct m as [m|]; [|done]. apply steady_bind.
  - unfold tgen.load_common. destruct (m !! "common") as [e|]; [|done]. destruct (e !! "suspend-traffic"); [|done].
    apply steady_bind; [done|]. intros _. by case_match.
  - intros _. unfold tgen.load_udp. destruct (m !! tapp.UDPProtocolStr) as [e|]; [|done].
    apply steady_bind; [destruct (e !! "socket-read-buf-size"); [apply load_int_steady|done]|]. intros _.
    repeat (apply steady_bind; [apply load_int_steady|intros _]). apply load_int_steady.
Qed.

Lemma tapp_load_steady m k k' : (tapp.LoadBatProfileConfig m k).2 = (tapp.LoadBatProfileConfig m k').2.
Proof.
  unfold tapp.LoadBatProfileConfig. destruct m as [m|]; [|done]. destruct (m !! tapp.UDPProtocolStr) as [e|]; [|done].
  destruct (e !! "socket-read-buf-size"); [|done]. by destruct (tapp.parseIntValue _).
Qed.

Lemma client_load_fst m s : (stream_load m s).1 = (tgen.LoadBatProfileConfig m tgen.defaultConfig).1.
Proof.
  unfold stream_load. rewrite (tgen_load_steady m _ (conf s)). by destruct (tgen.LoadBatProfileConfig m (conf s)).
Qed.
Lemma server_load_fst m s :
  (server_load m s).1 = match (tapp.LoadBatProfileConfig m (tapp.mkConfig 0)).2 with None => Ok tt | Some e => Err e end.
Proof.
  unfold server_load. rewrite (tapp_load_steady m _ (srv_conf s)). by destruct (tapp.LoadBatProfileConfig m (srv_conf s)).
Qed.

(** The udp modules take a profile in every state, or in none. *)
Lemma udp_loads m :
  if bool_decide ((tapp.LoadBatProfileConfig m (tapp.mkConfig 0)).2 = None) &&
     is_ok (tgen.LoadBatProfileConfig m tgen.defaultConfig).1
  then loads_ok m else loads_fail m.
Proof.
  assert (tapp.UDPProtocolStr ∈ protoServers) as Hs by exact server_registered.
  assert (tapp.UDPProtocolStr ∈ protoClients) as Hc by exact client_registered.
  case_bool_decide as Es; simpl; [destruct (tgen.LoadBatProfileConfig m tgen.defaultConfig).1 as [[]|e|w] eqn:Ec; simpl|].
  - split; intros proto s _; simpl; [by rewrite server_load_fst, Es|by rewrite client_load_fst, Ec].
  - right. exists tapp.UDPProtocolStr. split; [done|]. intros s. simpl. by rewrite client_load_fst, Ec.
  - right. exists tapp.UDPProtocolStr. split; [done|]. intros s. simpl. by rewrite client_load_fst, Ec.
  - left. exists tapp.UDPProtocolStr. split; [done|]. intros s. simpl. rewrite server_load_fst. by case_match.
Qed.
End Streams.

Section Live.
Context `{MsgpackLaws} `{PromLib} (env : NetEnv) (namespace podName nodeName : string).
#[local] Instance live_Protocols : Protocols := stream_Protocols env namespace podName nodeName.

Lemma CreateClient_ok a p n : exists x, tgen.CreateClient a p n = Ok x /\ tgen.pairAt x = a.
Proof.
  unfold tgen.CreateClient, tgen.newStream.
  destruct (marshal_Message_total _ msg_ok_zero) as [b Hb]. rewrite (header_length_spec _ b msg_ok_zero Hb).
  by eexists.
Qed.

#[local, refine] Instance stream_LiveClients : LiveClients := {| known := (stream_known : nat -> nat -> S -> Prop) |}.
Proof.
  - intros proto a p n ps s c s' Ha%lookup_lt_is_Some. simpl. unfold stream_CreateClient.
    destruct (CreateClient_ok a p n) as (x & -> & Hx). intros [= <- <-]. exists x. simpl.
    rewrite list_lookup_middle by done. rewrite Hx. by split.
  - intros proto a p n k c s (x & Hx & Hk). simpl. unfold stream_CreateClient.
    destruct (CreateClient_ok a p n) as (y & -> & _). exists x. split; [|done]. simpl. by apply lookup_app_l_Some.
  - intros b qs k c s Hx. apply known_on_pair; [apply SetupConnection_fixed|exact Hx].
  - intros b k c s Hx. exact Hx.
  - intros proto a p n s. simpl. unfold stream_CreateClient. by destruct (CreateClient_ok a p n) as (x & -> & _).
  - intros c ps s (x & Hx & Hk). simpl. unfold stream_SetupConnection, on_pair, fetch. simpl. rewrite Hx. simpl.
    apply lookup_lt_is_Some in Hk as [p Hp]. rewrite Hp. simpl.
    pose proof (SetupConnection_no_panic env (conf s) (tgen.set_pair p x, metrics s)) as Hn.
    by destruct (tgen.SetupConnection _ _ _) as [r [x' q]].
  - done.
Defined.
End Live.

(** ** A change right after the pairing has been read *)
#[local] Instance demo_Streams : Protocols := stream_Protocols ok_env "default" "pod-a" "node-a".
#[local] Instance demo_Streams_NoErrors : NoErrors := stream_NoErrors ok_env "default" "pod-a" "node-a".
#[local] Instance demo_Streams_FreshClients : FreshClients := stream_FreshClients ok_env "default" "pod-a" "node-a".
#[local] Existing Instance demo_Source.
#[local] Existing Instance demo_Yaml.

Definition stream_w0 : tgc.world :=
  tgc.mkWorld (tgc.NewPodTGController "pod-a" "default" 200) [] [] (mkProcess [] [] [] ref_prom0 tgen.defaultConfig (tapp.mkConfig 0)).
Definition stream_w1 : tgc.world := (tgc.handle demo_env (tgc.EAdd (pairing_cm "1" udp_line)) stream_w0).2.
Definition stream_w2 : tgc.world := (tgc.handle demo_env (tgc.EAdd (profile_cm "2" "")) stream_w1).2.
(** The goroutine has created the stream. *)
Definition stream_r : outcome (option tgc.task) * tgc.world :=
  tgc.run_task (tgc.TCreate 0) (tgc.mkWorld (tgc.w_tg stream_w2) (tgc.w_pairs stream_w2) [] (tgc.w_ext stream_w2)).
Definition stream_w3 : tgc.world :=
  tgc.mkWorld (tgc.w_tg stream_r.2) (tgc.w_pairs stream_r.2) (tgc.w_tasks stream_r.2 ++ [tgc.TSetup 0])
    (tgc.w_ext stream_r.2).

Lemma stream_created : task_step stream_w2 (tgc.TCreate 0) stream_w3.
Proof.
  assert (stream_w2 = tgc.mkWorld (tgc.w_tg stream_w2) (tgc.w_pairs stream_w2) [tgc.TCreate 0] (tgc.w_ext stream_w2)) as E.
  { assert (tgc.w_tasks stream_w2 = [tgc.TCreate 0]) as <- by (vm_compute; reflexivity). by destruct stream_w2. }
  unfold task_step. rewrite E at 1.
  apply (tgc.step_task [] (tgc.TCreate 0) [] _ _ _ (Some (tgc.TSetup 0)) stream_r.2).
  change (tgc.run_task _ _) with stream_r. assert (stream_r.1 = Ok (Some (tgc.TSetup 0))) as <- by (vm_compute; reflexivity).
  apply surjective_pairing.
Qed.

Lemma early_change_panics_witness :
  is_panic (tgc.handle demo_env tgc.EStop stream_w2).1 = true /\
  is_panic (tgc.handle demo_env (tgc.EUpdate (pairing_cm "3" udp_line)) stream_w3).1 = true.
Proof.
  assert (exists p, tgc.w_pairs stream_w2 !! 0%nat = Some p /\ ClientConnection p = None) as Hp.
  { eexists. split; [vm_compute; reflexivity|reflexivity]. }
  pose proof (fun ev => early_change_panics stream_w2 [0%nat] 0%nat demo_env ev
    ltac:(vm_compute; reflexivity) ltac:(apply list_elem_of_here) Hp) as Hx.
  split; [apply (proj1 (Hx tgc.EStop)); exact I|].
  apply (proj2 (Hx (tgc.EUpdate (pairing_cm "3" udp_line))) stream_w3 stream_created).
  split; [reflexivity|]. intros E. vm_compute in E. discriminate E.
Defined.

(** ** The life of a process

    Both ConfigMaps, the goroutine of the one pair to its end, the shutdown. *)
Definition run_one (w : tgc.world) : tgc.world :=
  match tgc.w_tasks w with
  | [] => w
  | t :: l =>
      let '(r, w') := tgc.run_task t (tgc.mkWorld (tgc.w_tg w) (tgc.w_pairs w) l (tgc.w_ext w)) in
      tgc.mkWorld (tgc.w_tg w') (tgc.w_pairs w')
        (match r with Ok (Some t') => tgc.w_tasks w' ++ [t'] | _ => tgc.w_tasks w' end) (tgc.w_ext w')
  end.

Definition stream_up : tgc.world := Nat.iter 3 run_one stream_w2.
Definition stream_down : tgc.world := (tgc.handle demo_env tgc.EStop stream_up).2.

(** The sockets of the process: whose address each has, and whether it is closed. *)
Definition sockets (w : tgc.world) : list (option (string * bool)) :=
  let s := tgc.w_ext w : process in
  map (option_map (fun k => (addr_IP (conn_local k), conn_closed k)))
    (map tgen.connection (streams s) ++ map tapp.connection (servers s)).
Definition registry (w : tgc.world) : list nat := store.registry (metrics (tgc.w_ext w : process)).

Example process_comes_up_and_down :
  tgc.w_tasks stream_up = [] /\
  sockets stream_up = [Some ("192.168.0.7:0", false); Some ("192.168.0.7:8890", false)] /\
  length (registry stream_up) = 10%nat /\
  sockets stream_down = [Some ("192.168.0.7:0", true); Some ("192.168.0.7:8890", true)] /\
  registry stream_down = [].
Proof. vm_compute. repeat split. Qed.

(** ** Witnesses with the program's own modules *)
#[local] Instance demo_Streams_LiveClients : LiveClients := stream_LiveClients ok_env "default" "pod-a" "node-a".

Lemma clients_come_up_witness :
  inevitable task_move (brought_up [0%nat] (tgc.w_pairs stream_w2)) [] stream_w2 /\ served (tgc.w_pairs stream_w2) 0.
Proof.
  split.
  - apply clients_come_up.
    + split.
      * apply (bool_decide_unpack _). vm_compute. exact I.
      * apply (bool_decide_unpack _). vm_compute. exact I.
      * assert (tgc.w_tasks stream_w2 = [tgc.TCreate 0]) as -> by (vm_compute; reflexivity).
        apply Forall_singleton. vm_compute. by eexists.
    + apply (bool_decide_unpack _). vm_compute. exact I.
    + vm_compute. reflexivity.
  - unfold served. eexists. split; [vm_compute; reflexivity|]. exact client_registered.
Defined.

(** The text of a profile is its send rate, if it has one. *)
#[local] Instance sent_Yaml : Yaml := {|
  yaml_unmarshal s := Some (Some (if decide (s = "") then ∅ else {["udp" := {["send-rate" := s]}]}))
|}.
Definition fast : profile := Some {["udp" := {["send-rate" := "fast"]}]}.

Lemma empty_loads : loads_ok (Some ∅).
Proof. exact (udp_loads ok_env "default" "pod-a" "node-a" (Some ∅)). Qed.
Lemma fast_fails : loads_fail fast.
Proof. exact (udp_loads ok_env "default" "pod-a" "node-a" fast). Qed.

Lemma load_empty : util.LoadConfig (profile_cm "2" "") = Ok (util.mkConfig "2" false (Some ∅)).
Proof. vm_compute. reflexivity. Qed.
Lemma load_fast : util.LoadConfig (profile_cm "2" "fast") = Ok (util.mkConfig "2" false fast).
Proof. vm_compute. reflexivity. Qed.
Lemma reload_empty :
  util.ReLoadConfig (profile_cm "3" "") (util.mkConfig "2" false (Some ∅)) = (Ok tt, util.mkConfig "3" false (Some ∅)).
Proof. vm_compute. reflexivity. Qed.
Lemma reload_fast :
  util.ReLoadConfig (profile_cm "3" "fast") (util.mkConfig "2" false (Some ∅)) = (Ok tt, util.mkConfig "3" false fast).
Proof. vm_compute. reflexivity. Qed.

Lemma either_order_starts_clients_witness :
  (exists w1 w2, tgc.handle demo_env (tgc.EAdd (pairing_cm "1" udp_line)) stream_w0 = (Ok tt, w1) /\
     tgc.handle demo_env (tgc.EAdd (profile_cm "2" "")) w1 = (Ok tt, w2) /\ tgc.w_tasks w2 = [tgc.TCreate 0]) /\
  (exists w1 w2, tgc.handle demo_env (tgc.EAdd (pairing_cm "1" udp_line)) stream_w0 = (Ok tt, w1) /\
     tgc.handle demo_env (tgc.EAdd (profile_cm "2" "fast")) w1 = (Ok tt, w2) /\ tgc.w_tasks w2 = []).
Proof.
  assert ((tgc.parsed demo_env (pairing_cm "1" udp_line) stream_w0).1 = Ok (demo_pairs udp_line)) as Hp
    by (rewrite demo_parsed by reflexivity; apply ok_or_eq; vm_compute; reflexivity).
  split.
  - destruct (either_order_starts_clients demo_env demo_env (pairing_cm "1" udp_line) (profile_cm "2" "")
      (demo_pairs udp_line) (util.mkConfig "2" false (Some ∅)) [("eth0", "192.168.0.7")] stream_w0
      eq_refl eq_refl eq_refl eq_refl eq_refl Hp load_empty eq_refl) as [(w1 & E1 & Hx) _].
    destruct Hx as (w2 & E2 & _ & Ht & _).
    { apply (f_equal snd) in E1. simpl snd in E1. rewrite <- E1. vm_compute. reflexivity. }
    exists w1, w2. split; [exact E1|]. split; [exact E2|]. rewrite (Ht empty_loads). vm_compute. reflexivity.
  - destruct (either_order_starts_clients demo_env demo_env (pairing_cm "1" udp_line) (profile_cm "2" "fast")
      (demo_pairs udp_line) (util.mkConfig "2" false fast) [("eth0", "192.168.0.7")] stream_w0
      eq_refl eq_refl eq_refl eq_refl eq_refl Hp load_fast eq_refl) as [(w1 & E1 & Hx) _].
    destruct Hx as (w2 & E2 & _ & _ & Ht).
    { apply (f_equal snd) in E1. simpl snd in E1. rewrite <- E1. vm_compute. reflexivity. }
    exists w1, w2. split; [exact E1|]. split; [exact E2|]. exact (Ht fast_fails).
Defined.

Lemma profile_update_restarts_witness :
  (exists w', tgc.UpdateProfile (profile_cm "3" "") stream_up = (Ok tt, w') /\ tgc.w_tasks w' = [tgc.TCreate 0]) /\
  (exists w', tgc.UpdateProfile (profile_cm "3" "fast") stream_up = (Ok tt, w') /\ tgc.w_tasks w' = []).
Proof.
  split.
  - destruct (profile_update_restarts (profile_cm "3" "") (util.mkConfig "2" false (Some ∅)) (util.mkConfig "3" false (Some ∅))
      stream_up [0%nat] [0%nat]) as (w' & E & _ & _ & _ & _ & Ht); [vm_compute; reflexivity|discriminate|exact reload_empty|vm_compute; reflexivity..|].
    exists w'. split; [exact E|]. destruct (Ht empty_loads) as [Ht' _]. rewrite Ht'. vm_compute. reflexivity.
  - destruct (profile_update_restarts (profile_cm "3" "fast") (util.mkConfig "2" false (Some ∅)) (util.mkConfig "3" false fast)
      stream_up [0%nat] [0%nat]) as (w' & E & _ & _ & _ & Ht & _); [vm_compute; reflexivity|discriminate|exact reload_fast|vm_compute; reflexivity..|].
    exists w'. split; [exact E|]. rewrite (Ht fast_fails). vm_compute. reflexivity.
Defined.
