(* ===== verification/Leaks.v ===== *)
(** * Streams the controller has lost (pkg/tgc/tgc.go)

    The controller tears a client down through the pair that holds it.  A
    client no pair holds any more is out of its reach: with the udp modules
    behind the controller (Streams) such a stream is never stopped, though it
    may share its pair with another.  Deleting the profile ConfigMap and adding
    it again makes one; and the goroutine that makes the second client of the
    pair forgets the pending requests of the first. *)
From S2P Require Import Prelude GoInt Strconv Message Metrics Reference Net Pair Pairing TApp TAppTheorems TGen TGenStep TGenProofs Ledger TGenRefine TGenInv TGenShared TGenDemo TGenTheorems Config TGC TGCTheorems TGCRuns Streams.
Import tgc.

Section Forgotten.
Context `{Msgpack} `{PromLib} `{JsonSource} `{Yaml} (env : NetEnv) (namespace podName nodeName : string).
#[local] Instance lost_Protocols : Protocols := stream_Protocols env namespace podName nodeName.
Context (c : nat) (x : tgen.udpStream).

(** Stream [c] is [x], and no pair ever made holds it. *)
Definition untouched (w : world) : Prop :=
  Forall (fun p => ClientConnection p <> Some c) (w_pairs w) /\ streams (w_ext w : process) !! c = Some x.

(** A call on the modules that leaves the stream alone. *)
Definition spares {A} (m : ST process A) : Prop :=
  forall s, streams s !! c = Some x -> streams (m s).2 !! c = Some x.

Lemma untouched_call {A} (m : ST S A) : spares m -> preserved untouched (call m).
Proof. intros Hm w [Hp Hx]. unfold call. specialize (Hm _ Hx). by destruct (m (w_ext w)). Qed.

Lemma untouched_tupd f : preserved untouched (tupd f). Proof. by intros w []. Qed.
Lemma untouched_spawn t : preserved untouched (spawn t). Proof. by intros w []. Qed.
Lemma untouched_reload cm k : preserved untouched (reload cm k).
Proof. intros w []. unfold reload. by destruct (util.ReLoadConfig cm k). Qed.

Lemma untouched_upd_pair a f :
  (forall p, ClientConnection p <> Some c -> ClientConnection (f p) <> Some c) ->
  preserved untouched (upd_pair a f).
Proof.
  intros Hf w [Hp Hx]. split; [|done]. simpl. apply Forall_alter; [done|]. intros p _ Hn. by apply Hf.
Qed.

Lemma spares_on_stream {A} a (m : tgen.M A) : a <> c -> spares (on_stream a m).
Proof.
  intros Hne s Hx. unfold on_stream. destruct (streams s !! a) as [y|]; [|done].
  destruct (m (y, metrics s)) as [r [y' q]]. simpl. by rewrite list_lookup_insert_ne.
Qed.

(** Another client that is set up writes its pair, which may be the stream's. *)
Lemma untouched_SetupConnection a :
  a <> c -> preserved untouched (call_pairs (SetupConnection a : ST (list BatPair * S) unit)).
Proof.
  intros Hne w [Hp Hx]. unfold call_pairs. simpl. unfold stream_SetupConnection, on_pair.
  assert (forall qs, Forall (fun p => ClientConnection p <> Some c) (written_pairs (w_pairs w) qs)) as Hw.
  { intros qs. apply Forall_lookup. intros i p (p0 & Hp0 & -> & _)%written_inv.
    exact (proj1 (Forall_lookup _ _) Hp i p0 Hp0). }
  destruct (_ ≫= _) as [y|]; [|split; [apply Hw|done]]. destruct (tgen.SetupConnection _ _ _) as [r [y' q]]. simpl.
  split; [apply Hw|]. simpl. by rewrite list_lookup_insert_ne.
Qed.

Lemma spares_TearDownConnection a : a <> c -> spares (stream_TearDownConnection a).
Proof. intros Hne s. by apply spares_on_stream. Qed.
Lemma spares_stream_load m : spares (stream_load m).
Proof. intros s Hx. unfold stream_load. by destruct (tgen.LoadBatProfileConfig m (conf s)). Qed.
Lemma spares_server_load m : spares (server_load m).
Proof. intros s Hx. unfold server_load. by destruct (tapp.LoadBatProfileConfig m (srv_conf s)). Qed.
Lemma spares_server_Create ip ifName n : spares (server_Create env namespace podName nodeName ip ifName n).
Proof. intros s Hx. unfold server_Create. by destruct (tapp.CreateServer _ _ _ _ _ _ _ _ _) as [[]| |]. Qed.
Lemma spares_server_TearDown a : spares (server_TearDown a).
Proof.
  intros s Hx. unfold server_TearDown. destruct (servers s !! a); [|done]. by destruct (tapp.TearDownServer_begin _).
Qed.
Lemma spares_start a : spares (stream_start a). Proof. by intros s. Qed.

Lemma stream_CreateClient_new b p n s a s' :
  stream_CreateClient b p n s = (Ok a, s') -> streams s !! c = Some x ->
  a <> c /\ streams s' !! c = Some x.
Proof.
  unfold stream_CreateClient. destruct (tgen.CreateClient b p n); [|done..]. intros [= <- <-] Hx.
  pose proof (lookup_lt_Some _ _ _ Hx). split; [lia|]. simpl. by rewrite lookup_app_l.
Qed.

(** What is done to the client of a pair is not done to this one. *)
Lemma untouched_client {B} a (body : nat -> M B) :
  (forall b, b <> c -> preserved untouched (body b)) ->
  preserved untouched (let! p := pair_at a in let! b := deref (ClientConnection p) in body b).
Proof.
  intros Hb w Hw. unfold pair_at, bind at 1, gets, bind at 1, deref, lift. simpl.
  destruct (w_pairs w !! a) as [p|] eqn:Ep; simpl; [|done].
  unfold bind at 1. destruct (ClientConnection p) as [b|] eqn:Eb; simpl; [|done].
  apply Hb; [|done]. intros ->. exact (proj1 (Forall_lookup _ _) (proj1 Hw) a p Ep Eb).
Qed.

Lemma untouched_tearDownPair a : preserved untouched (tearDownPair a).
Proof. apply untouched_client. intros b Hb. apply untouched_call. exact (spares_TearDownConnection b Hb). Qed.

Lemma untouched_server_load p m : preserved untouched (call (server_LoadBatProfileConfig p m)).
Proof. apply untouched_call. exact (spares_server_load m). Qed.
Lemma untouched_client_load p m : preserved untouched (call (client_LoadBatProfileConfig p m)).
Proof. apply untouched_call. exact (spares_stream_load m). Qed.
Lemma untouched_CreateServer p ip i n : preserved untouched (call (CreateServer p ip i n)).
Proof. apply untouched_call. exact (spares_server_Create ip i n). Qed.
Lemma untouched_TearDownServer a : preserved untouched (call (TearDownServer a)).
Proof. apply untouched_call. exact (spares_server_TearDown a). Qed.

Ltac sparing :=
  repeat match goal with
    | H : preserved untouched ?m |- preserved untouched ?m => exact H
    | |- preserved _ (ret _) => apply preserved_ret
    | |- preserved _ (lift _) => apply preserved_lift
    | |- preserved _ (gets _) => apply preserved_gets
    | |- preserved _ (tupd _) => apply untouched_tupd
    | |- preserved _ (spawn _) => apply untouched_spawn
    | |- preserved _ (reload _ _) => apply untouched_reload
    | |- preserved _ (tearDownPair _) => apply untouched_tearDownPair
    | |- preserved _ (call (server_LoadBatProfileConfig _ _)) => apply untouched_server_load
    | |- preserved _ (call (client_LoadBatProfileConfig _ _)) => apply untouched_client_load
    | |- preserved _ (call (CreateServer _ _ _ _)) => apply untouched_CreateServer
    | |- preserved _ (call (TearDownServer _)) => apply untouched_TearDownServer
    | |- preserved _ (ignore _) => apply preserved_ignore
    | |- preserved _ (for_each _ _) => apply preserved_for_each; intros ?
    | |- preserved _ (bind _ _) => apply preserved_bind; [|intros ?]
    | |- preserved _ (match _ with _ => _ end) => case_match
    end.

Lemma untouched_createServers protocol ifs : preserved untouched (createServers protocol ifs).
Proof.
  induction ifs as [|[i ip] ifs IH]; cbn [createServers]; unfold tget; sparing.
Qed.

Lemma untouched_createNetBatTgenClients : preserved untouched createNetBatTgenClients.
Proof. unfold createNetBatTgenClients, tget. sparing. Qed.

Lemma untouched_delete : preserved untouched deleteNetBatTgenClients.
Proof. unfold deleteNetBatTgenClients, tget. sparing. Qed.

Lemma untouched_pairingAdd e cm : env_ok e -> preserved untouched (handleNetBatPairingAddEvent e cm).
Proof.
  intros [Hw _] w [Hp Hx]. unfold handleNetBatPairingAddEvent.
  unfold bind at 1, parsed. destruct (handleAddNetBatConfigMap _ _ _ _ _ _ _ _) as [ps|e'|w'] eqn:E; [|done..].
  apply handleAddNetBatConfigMap_fresh in E; [|done].
  unfold bind at 1, alloc_pairs.
  match goal with |- untouched (?m ?w1).2 => assert (preserved untouched m) as Hm; [|apply Hm] end.
  - pose proof untouched_createNetBatTgenClients. unfold tget. sparing.
  - split; [|done]. simpl. apply Forall_app. split; [done|]. eapply Forall_impl; [exact E|].
    intros p Hn. simpl in Hn. congruence.
Qed.

Lemma untouched_handle e ev : env_ok e -> preserved untouched (handle e ev).
Proof.
  intros He. pose proof (fun cm => untouched_pairingAdd e cm He) as Ha. pose proof untouched_delete as Hd.
  pose proof untouched_createNetBatTgenClients as Hc. pose proof untouched_createServers as Hs.
  destruct ev as [cm|cm|cm|]; cbn [handle].
  - unfold AddPairing, AddProfile, handler, the_config, tget, deref. sparing; first [apply Ha | apply Hs].
  - unfold UpdatePairing, UpdateProfile, restartNetBatTgenClients, handler, the_config, tget, deref. sparing; first [apply Ha | apply Hs].
  - unfold DeletePairing, DeleteProfile, stopServers, tget. sparing.
  - unfold StopTGC, stopServers, tget. sparing.
Qed.

(** A client that is created is another one. *)
Lemma untouched_CreateClient {B} proto a p n (k : nat -> M B) (m : M B) :
  (forall b, b <> c -> preserved untouched (k b)) -> preserved untouched m ->
  preserved untouched
    (let! r := ignore (call (CreateClient proto a p n)) in match r with None => m | Some b => k b end).
Proof.
  intros Hk Hm w [Hp Hx]. unfold bind, ignore, call. simpl.
  destruct (stream_CreateClient a p n (w_ext w)) as [[b|e|q] s'] eqn:E.
  - destruct (stream_CreateClient_new _ _ _ _ _ _ E Hx) as [Hne Hx']. by apply Hk.
  - unfold stream_CreateClient in E. destruct (tgen.CreateClient _ _ _); injection E as; subst; by apply Hm.
  - unfold stream_CreateClient in E. destruct (tgen.CreateClient _ _ _); injection E as; subst; done.
Qed.

Lemma untouched_task t : preserved untouched (run_task t).
Proof.
  destruct t as [a|a|a]; cbn [run_task].
  - apply preserved_bind; [by apply untouched_upd_pair|intros _].
    apply preserved_bind; [unfold pair_at, deref; sparing|intros p].
    case_match; [|apply preserved_ret]. apply preserved_bind; [apply preserved_gets|intros n].
    apply untouched_CreateClient; [|apply preserved_ret].
    intros b Hb. apply preserved_bind; [|intros; apply preserved_ret].
    apply untouched_upd_pair. simpl. congruence.
  - apply untouched_client. intros b Hb. apply preserved_bind; [|intros []; apply preserved_ret].
    by apply preserved_ignore, untouched_SetupConnection.
  - apply untouched_client. intros b Hb. apply preserved_bind; [|intros; apply preserved_ret].
    apply untouched_call. exact (spares_start b).
Qed.

End Forgotten.

Section Lost.
Context `{Msgpack} `{PromLib} `{JsonSource} `{Yaml} (env : NetEnv) (namespace podName nodeName : string).
#[local] Instance still_Protocols : Protocols := stream_Protocols env namespace podName nodeName.

(** No pair ever made holds stream [c], and it is [x] but for what is stored in
    the pair it points to, which is not its own. *)
Definition forgotten (c : nat) (x : tgen.udpStream) (w : world) : Prop :=
  Forall (fun p => ClientConnection p <> Some c) (w_pairs w) /\
  exists b, streams (w_ext w : process) !! c = Some (tgen.set_pair b x).

End Lost.

(** ** The requests of the first client *)
Section Created.
Context `{JsonSource} `{Yaml} `{Protocols}.

(** Whatever comes of the new client, the pair's map is a new one. *)
Lemma create_forgets a k next k' p :
  w_pairs k !! a = Some p -> run_task (TCreate a) k = (Ok next, k') ->
  exists b, w_pairs k' !! a = Some b /\ PendingRequestsMap b = ∅.
Proof.
  intros Hp E. cbn [run_task] in E. apply bind_Ok_inv in E as ([] & k1 & [= <-] & E).
  apply bind_Ok_inv in E as (b & k2 & Ep & E).
  unfold pair_at, bind, gets, deref, lift in Ep. simpl in Ep. rewrite list_lookup_alter_eq, Hp in Ep. simpl in Ep.
  injection Ep as <- <-.
  set (k1 := mkWorld _ _ _ _) in E.
  assert (w_pairs k1 !! a = Some (set_PendingRequestsMap ∅ p)) as Hk1 by (simpl; by rewrite list_lookup_alter_eq, Hp).
  destruct (decide _); [|injection E as _ <-; by exists (set_PendingRequestsMap ∅ p)].
  apply bind_Ok_inv in E as (n & k2 & [= <- <-] & E). apply bind_Ok_inv in E as (r & k2 & Er & E).
  assert (w_pairs k2 = w_pairs k1) as Ek.
  { revert Er. unfold ignore, call. destruct (CreateClient _ _ _ _ _) as [[c|err|w] s]; [by intros [= _ <-]..|done]. }
  destruct r as [c|]; [|injection E as _ <-; rewrite Ek; by exists (set_PendingRequestsMap ∅ p)].
  apply bind_Ok_inv in E as ([] & k3 & [= <-] & E). injection E as _ <-.
  exists (set_ClientConnection (Some c) (set_PendingRequestsMap ∅ p)). split; [|done].
  simpl. by rewrite Ek, list_lookup_alter_eq, Hk1.
Qed.
End Created.

Section Requests.
Context `{Msgpack} `{PromLib} `{JsonSource} `{Yaml} (env : NetEnv) (namespace podName nodeName : string).
#[local] Instance requests_Protocols : Protocols := stream_Protocols env namespace podName nodeName.

Lemma with_pair_ledger b (w : stream.world) :
  PendingRequestsMap b = ∅ -> ledger_of (stream.with_pair b w) = forget (ledger_of w).
Proof. intros E. unfold ledger_of, forget, stream.with_pair, tgen.pending. simpl. by rewrite E. Qed.

(** C25: the second client of a pair costs the first its books. When the
    goroutine that makes a client (after the profile ConfigMap was deleted and
    added again, say) runs while a stream is on the pair, the stream's pending
    requests are gone, but its counters stay; so, even if the second client is
    never set up and the stream is alone again, the numbers it has assigned
    exceed those it can account for (the equation of [packets_conserved]) by
    what was pending then, for ever: neither a reply nor a timeout will count
    them. This is for a sender that is not between the insertion of a request
    and its write, or the removal after a failed one. *)
Theorem second_client_forgets_requests conf c q ls (w : stream.world) (k k' : world) next :
  set_up conf c q -> steps stream.alone_step (stream.started c q conf) ls w ->
  phase_of (stream.s_pc (stream.w_snd w)) <> PInserted ->
  phase_of (stream.s_pc (stream.w_snd w)) <> PWriteFailed ->
  w_pairs k !! tgen.pairAt (stream.w_c w) = Some (tgen.pair (stream.w_c w)) ->
  run_task (TCreate (tgen.pairAt (stream.w_c w))) k = (Ok next, k') ->
  exists b, w_pairs k' !! tgen.pairAt (stream.w_c w) = Some b /\
    tgen.pending (stream.w_c (stream.with_pair b w)) = ∅ /\
    forall ls' w', steps stream.alone_step (stream.with_pair b w) ls' w' -> honest (ls ++ ls') ->
      tgen.packetSequence (stream.w_c w') <= 2 ^ 53 ->
      tgen.packetReceivedVal (tgen.vals (stream.w_c w')) + tgen.packetDroppedVal (tgen.vals (stream.w_c w')) +
        tgen.packetSendFailedVal (tgen.vals (stream.w_c w')) + Z.of_nat (size (tgen.pending (stream.w_c w'))) +
        slack (phase_of (stream.s_pc (stream.w_snd w'))) =
      tgen.packetSequence (stream.w_c w') - Z.of_nat (size (tgen.pending (stream.w_c w))).
Proof.
  intros Hu Hr Hp1 Hp2 Hp E. destruct (create_forgets _ _ _ _ _ Hp E) as (b & Hb & Eb).
  exists b. split_and!; [exact Hb|exact Eb|]. intros ls' w' Hr' Hh Hn.
  destruct (started_run c q conf ls w (set_up_unused _ _ _ Hu) Hr) as [Hl S].
  destruct (run_refines _ _ _ Hr' (step_sane _ _ _ (stream.step_pair b w) S)) as [Hl' _].
  rewrite (with_pair_ledger b w Eb) in Hl'.
  pose proof (ledger_run_seq _ _ _ Hl') as Hle.
  destruct (forget_short ls (ledger_of w) ls' (ledger_of w')) as (_ & _ & _ & Eq & _); try done.
  - by apply ledger_run_inv.
  - apply (ledger_run_settled ls); [exact Hl| |simpl in *; lia].
    intros pre j post ->. apply (Hh pre j (post ++ ls')). by rewrite <- app_assoc.
  - simpl in Eq. lia.
Qed.
End Requests.

(** ** The profile ConfigMap deleted and added again

    The text of a profile is its send rate here. *)
#[local] Existing Instance demo_Source.
#[local] Instance rate_Yaml : Yaml := {|
  yaml_unmarshal s :=
    Some (Some (match Atoi s with Some _ => {["udp" := {["send-rate" := s]}]} | None => ∅ end))
|}.
#[local] Instance readd_Protocols : Protocols := stream_Protocols ok_env "default" "pod-a" "node-a".

Definition readd_event (ev : event) (w : world) : world := (handle demo_env ev w).2.

Lemma readd_event_step ev w :
  is_ok (handle demo_env ev w).1 = true -> step w (LEvent ev) (readd_event ev w).
Proof.
  intros Hok. apply (step_event demo_env); [exact demo_env_ok|]. unfold readd_event.
  by destruct (handle demo_env ev w) as [[[]|e|p] w'].
Qed.

Lemma run_one_step t l w :
  w_tasks w = t :: l -> is_ok (run_task t (mkWorld (w_tg w) (w_pairs w) l (w_ext w))).1 = true ->
  step w (LTask t) (run_one w).
Proof.
  intros Ht Hok. unfold run_one. rewrite Ht. destruct w as [tg ps ts s]; simpl in *. subst ts.
  destruct (run_task t _) as [[next|e|p] w'] eqn:E; [|done..].
  apply (step_task [] t l _ _ _ next w'). exact E.
Qed.

(** The client is up; the profile is deleted and added again, with a rate; the
    goroutine has put the new client in the pair. *)
Definition readd_up : world :=
  run_one (run_one (run_one (readd_event (EAdd (profile_cm "2" "500"))
    (readd_event (EAdd (pairing_cm "1" udp_line)) stream_w0)))).
Definition readd_lost (rate : string) : world :=
  run_one (readd_event (EAdd (profile_cm "3" rate)) (readd_event (EDelete (profile_cm "2" "500")) readd_up)).

Lemma readd_run_lost rate :
  rate = "500" \/ rate = "1000" ->
  steps step stream_w0
    [LEvent (EAdd (pairing_cm "1" udp_line)); LEvent (EAdd (profile_cm "2" "500"));
     LTask (TCreate 0); LTask (TSetup 0); LTask (TStart 0);
     LEvent (EDelete (profile_cm "2" "500")); LEvent (EAdd (profile_cm "3" rate)); LTask (TCreate 0)]
    (readd_lost rate).
Proof.
  intros Hr. unfold readd_lost, readd_up.
  do 2 (eapply steps_cons; [apply readd_event_step; vm_compute; reflexivity|]).
  do 3 (eapply steps_cons; [eapply run_one_step; vm_compute; reflexivity|]).
  destruct Hr as [-> | ->];
    (do 2 (eapply steps_cons; [apply readd_event_step; vm_compute; reflexivity|]);
     apply steps_one; eapply run_one_step; vm_compute; reflexivity).
Qed.

Definition lost (x : tgen.udpStream) (w : world) : Prop :=
  forgotten ok_env "default" "pod-a" "node-a" 0 x w.

(** The first stream, running, is held by no pair then. *)
Lemma readd_is_lost rate :
  rate = "500" \/ rate = "1000" -> exists x, tgen.stop x = false /\ lost x (readd_lost rate).
Proof.
  intros Hr.
  assert (option_map tgen.stop (streams (w_ext (readd_lost rate) : process) !! 0%nat) = Some false) as Es
    by (destruct Hr as [-> | ->]; vm_compute; reflexivity).
  destruct (streams (w_ext (readd_lost rate) : process) !! 0%nat) as [x|] eqn:Ex; [|discriminate Es].
  exists x. split; [by injection Es|]. split; [|exists (tgen.pair x); by rewrite set_pair_same].
  assert (forallb (fun p => negb (bool_decide (ClientConnection p = Some 0%nat))) (w_pairs (readd_lost rate)) = true) as Ef
    by (destruct Hr as [-> | ->]; vm_compute; reflexivity).
  apply Forall_forall. intros p Hp Hc. apply list_elem_of_In in Hp.
  pose proof (proj1 (List.forallb_forall _ _) Ef p Hp) as Hn. simpl in Hn. by rewrite bool_decide_eq_true_2 in Hn.
Qed.


(** ** A second client for the pair of TGenDemo, both of its requests pending

    The reply to the second request then comes, and is not counted. *)
Definition again0 : world :=
  mkWorld (NewPodTGController "pod-a" "default" 200) [tgen.pair demo_c2] []
    (mkProcess [demo_c2] [0%nat] [] demo_q2 tgen.defaultConfig (tapp.mkConfig 0)).
Definition again : outcome (option task) * world := run_task (TCreate 0) again0.
Definition again_w : stream.world := stream.with_pair (default demo_pair (w_pairs again.2 !! 0%nat)) demo_w2.
Definition again_reply : outcome (option Z * list byte) * tgen.state :=
  tgen.SocketRead_datagram 4000000 demo_reply demo_buf (stream.w_c again_w, stream.w_p again_w).
Definition with_reader (rd : stream.reader_pc) (b : list byte) (s : tgen.state) (w : stream.world) : stream.world :=
  stream.mkWorld s.1 s.2 (stream.w_conf w) (stream.w_snd w) (stream.w_tpc w) (stream.w_t w) rd b (stream.w_td w).
Definition again_end : stream.world :=
  with_reader stream.RHead (ok_or (None, []) again_reply.1).2 again_reply.2 again_w.

Lemma again_ok : again = (Ok (Some (TSetup 0)), again.2).
Proof.
  assert (again.1 = Ok (Some (TSetup 0))) as <- by (vm_compute; reflexivity). apply surjective_pairing.
Qed.

Lemma reader_reads (w : stream.world) now data b' s' :
  stream.w_rd w = stream.RHead -> tgen.stop (stream.w_c w) = false -> stream.conn_open (stream.w_c w) = true ->
  tgen.SocketRead_datagram now data (stream.w_buf w) (stream.w_c w, stream.w_p w) = (Ok (None, b'), s') ->
  steps stream.alone_step w [stream.LTau; stream.LTau] (with_reader stream.RHead b' s' w).
Proof.
  intros Hrd Hs Ho E. destruct w as [c p cf x tpc t rd b td], s' as [c' p']. simpl in *. subst rd.
  eapply steps_cons; [by apply stream.step_reader, stream.rd_enter|].
  apply steps_one, stream.step_reader. exact (stream.rd_datagram now data b c p None b' (c', p') Ho E).
Qed.

Lemma again_reply_ok :
  again_reply = (Ok (None, (ok_or (None, []) again_reply.1).2), again_reply.2).
Proof.
  assert (match again_reply.1 with Ok (None, _) => true | _ => false end = true) as Hx by (vm_compute; reflexivity).
  by destruct again_reply as [[[[|] ?]|?|?] ?].
Qed.

Lemma again_runs : steps stream.alone_step again_w [stream.LTau; stream.LTau] again_end.
Proof.
  apply (reader_reads again_w 4000000 demo_reply); [reflexivity|vm_compute; reflexivity|vm_compute; reflexivity|].
  exact again_reply_ok.
Qed.

Lemma again_calm : phase_of (stream.s_pc (stream.w_snd demo_w2)) = PIdle.
Proof. vm_compute. reflexivity. Qed.

Lemma second_client_forgets_requests_witness :
  tgen.packetSequence (stream.w_c again_end) = 2 /\
  tgen.packetReceivedVal (tgen.vals (stream.w_c again_end)) + tgen.packetDroppedVal (tgen.vals (stream.w_c again_end)) +
    tgen.packetSendFailedVal (tgen.vals (stream.w_c again_end)) +
    Z.of_nat (size (tgen.pending (stream.w_c again_end))) +
    slack (phase_of (stream.s_pc (stream.w_snd again_end))) = 0.
Proof.
  assert (tgen.packetSequence (stream.w_c again_end) = 2) as E by (vm_compute; reflexivity). split; [exact E|].
  destruct (second_client_forgets_requests ok_env "default" "pod-a" "node-a" demo_conf demo_c demo_q demo_labels_sent demo_w2
    again0 again.2 (Some (TSetup 0)) demo_set_up demo_sends) as (b & Hb & _ & Hx).
  - rewrite again_calm. discriminate.
  - rewrite again_calm. discriminate.
  - reflexivity.
  - exact again_ok.
  - assert (default demo_pair (w_pairs again.2 !! 0%nat) = b) as Eb by exact (f_equal (default demo_pair) Hb).
    etransitivity.
    + apply (Hx [stream.LTau; stream.LTau] again_end).
      * rewrite <- Eb. exact again_runs.
      * apply answers_ok_honest. vm_compute. reflexivity.
      * rewrite E. lia.
    + rewrite E. vm_compute. reflexivity.
Defined.
