(* ===== verification/Handles.v ===== *)
(** * Whose metrics an operation touches (pkg/tgen/udp.go, pkg/tapp/udp.go)

    A stream and a server change the values of the metrics in their own fields
    only, and a field that gets a new metric gets one that did not exist: so the
    metrics of two objects stay apart, whatever the two do. *)
From S2P Require Import Prelude GoInt Strconv GoStrings Message Metrics Net Pair TApp TAppProofs TGen TGenStep TGenProofs TGenInv.

Section Private.
Context `{PromLaws}.
Implicit Types (G : metric -> Prop) (p q : prom).

(** Between [p] and [q] only values of metrics in [G] moved, and [G'] has
    metrics of [G] and new ones. *)
Record private G p G' q : Prop := mkPrivate {
  pv_live h : prom_live h p -> prom_live h q;
  pv_value h : prom_live h p -> ~ G h -> prom_value h q = prom_value h p;
  pv_new h : G' h -> G h \/ ~ prom_live h p;
  pv_kept h : G' h -> G h \/ prom_live h q
}.

Lemma private_quiet G G' p q : same_values p q -> (forall h, G' h -> G h) -> private G p G' q.
Proof. intros [L V] Hs. split; [done|by intros; apply V; [|intros []]|auto..]. Qed.

Lemma private_touch G m p q : same_values_but (eq m) p q -> G m -> private G p G q.
Proof. intros [L V] Hm. split; [done| |auto..]. intros h Hl Hn. apply V; [done|]. by intros <-. Qed.

Lemma private_trans G1 G2 G3 p q r : private G1 p G2 q -> private G2 q G3 r -> private G1 p G3 r.
Proof.
  intros [L1 V1 N1 K1] [L2 V2 N2 K2]. split.
  - auto.
  - intros h Hl Hn. rewrite V2, V1; auto. by intros [|]%N1.
  - intros h Hh. destruct (N2 h Hh) as [|Hn]; auto.
  - intros h Hh. destruct (K2 h Hh) as [Hk|]; [|by right]. destruct (K1 h Hk); auto.
Qed.

(** The same for an object that holds metrics, all of them live. *)
Section Owned.
Context {X : Type} (holds : X -> metric -> Prop).
Implicit Types s : X * prom.

Definition lives s : Prop := forall h, holds s.1 h -> prom_live h s.2.
Definition owned s s' : Prop := lives s -> private (holds s.1) s.2 (holds s'.1) s'.2.

Lemma owned_lives s s' : owned s s' -> lives s -> lives s'.
Proof. intros Ho Hl h Hh. destruct (pv_kept _ _ _ _ (Ho Hl) h Hh) as [Hk|]; [|done]. apply (pv_live _ _ _ _ (Ho Hl)), Hl, Hk. Qed.

#[global] Instance owned_preorder : PreOrder owned.
Proof.
  split; [intros s _; by apply private_quiet|]. intros s1 s2 s3 H12 H23 Hl.
  eapply private_trans; [by apply H12|]. apply H23. by eapply owned_lives.
Qed.
End Owned.
End Private.

(** ** Streams *)
Section Streams.
Context `{Msgpack} `{PromLaws}.
Import tgen stream.

Definition stream_holds (c : udpStream) (h : metric) : Prop :=
  trafficNotStarted c = Some h \/ packetSent (hs c) = Some h \/ packetSendFailed (hs c) = Some h \/
  packetReceived (hs c) = Some h \/ packetDropped (hs c) = Some h \/ roundTrip (hs c) = Some h \/
  latency (hs c) = Some h.

(** A computation that touches only what the stream holds. *)
Definition minds {A} (m : M A) : Prop := forall s, owned stream_holds s (m s).2.

Lemma minds_out {A} (m : M A) s r s' : minds m -> m s = (r, s') -> owned stream_holds s s'.
Proof. intros Hm E. specialize (Hm s). by rewrite E in Hm. Qed.

Lemma minds_bind {A B} (m : M A) (f : A -> M B) : minds m -> (forall a, minds (f a)) -> minds (bind m f).
Proof.
  intros Hm Hf s. specialize (Hm s). unfold bind. destruct (m s) as [[a|e|w] s1]; [|done..].
  etransitivity; [exact Hm|apply Hf].
Qed.
Lemma minds_pure {A} (m : M A) : (forall s, (m s).2 = s) -> minds m.
Proof. intros E s. rewrite E. reflexivity. Qed.
Lemma minds_ret {A} (a : A) : minds (ret a). Proof. by apply minds_pure. Qed.
Lemma minds_fail {A} e : minds (fail e : M A). Proof. by apply minds_pure. Qed.
Lemma minds_panic {A} e : minds (panic e : M A). Proof. by apply minds_pure. Qed.
Lemma minds_lift {A} (r : outcome A) : minds (lift r). Proof. by apply minds_pure. Qed.
Lemma minds_get {A} (f : udpStream -> A) : minds (get f). Proof. by apply minds_pure. Qed.
Lemma minds_upd f : (forall c h, stream_holds (f c) h -> stream_holds c h) -> minds (upd f).
Proof. intros Hf s _. apply private_quiet; [reflexivity|]. intros h. apply Hf. Qed.
Lemma minds_lib f : (forall p, same_values p (f p)) -> minds (lib f).
Proof. intros Hf s _. by apply private_quiet. Qed.
Lemma minds_recover {A} (m : M A) : minds m -> minds (recover m).
Proof. intros Hm s. specialize (Hm s). unfold recover. by destruct (m s) as [[]]. Qed.
Lemma minds_MustRegister m : minds (MustRegister m).
Proof.
  intros s _. unfold MustRegister. destruct (prom_register m s.2) as [e|q] eqn:E; apply private_quiet; try done.
  by eapply prom_register_same.
Qed.

(** Calls on the metric of a field. *)
Section Field.
Context (field : udpStream -> option metric).
Hypothesis Hfield : forall c h, field c = Some h -> stream_holds c h.

Lemma minds_Inc : minds (Inc field).
Proof.
  intros [c p] _. unfold Inc, get, deref, lib, bind, gets, lift, modify. simpl.
  destruct (field c) as [m|] eqn:E; simpl; [|by apply private_quiet].
  eapply private_touch; [apply prom_inc_same|by apply Hfield].
Qed.
Lemma minds_Observe v : minds (Observe field v).
Proof.
  intros [c p] _. unfold Observe, get, deref, lib, bind, gets, lift, modify. simpl.
  destruct (field c) as [m|] eqn:E; simpl; [|by apply private_quiet].
  eapply private_touch; [apply prom_observe_same|by apply Hfield].
Qed.
Lemma minds_Add v : minds (Add field v).
Proof.
  intros [c p] Hl. unfold Add, get, deref, bind, gets, lift. simpl.
  destruct (field c) as [m|] eqn:E; simpl; [|by apply private_quiet].
  destruct (decide (v < 0)) as [Hv|Hv]; [rewrite prom_add_panics by done; by apply private_quiet|].
  apply Hfield in E. destruct (prom_add_spec m v p (Hl m E)) as (q & -> & Hq & _); [lia|]. by eapply private_touch.
Qed.
End Field.

(** A new metric, put into a field. *)
Lemma minds_create {B} o (put : metric -> udpStream -> udpStream) (k : metric -> M B) :
  (forall m c h, stream_holds (put m c) h -> h = m \/ stream_holds c h) -> (forall m, minds (k m)) ->
  minds (let! m := create (prom_new o) in let! _ := upd (put m) in k m).
Proof.
  intros Hput Hk s. unfold bind at 1, create. destruct (prom_new o s.2) as [m q] eqn:E. unfold bind, upd, modify. simpl.
  trans (put m s.1, q); [|apply Hk]. intros _.
  pose proof (prom_new_fresh o s.2) as Hf. pose proof (prom_new_live o s.2) as Hn. pose proof (prom_new_same o s.2) as [L V].
  rewrite E in *. simpl in *. split; [done|by intros; apply V; [|intros []]|..].
  all: intros h [->|]%Hput; auto.
Qed.
End Streams.

(** Walks through a computation; what is left are the fields. *)
Ltac minds_step :=
  first
    [ assumption | apply minds_ret | apply minds_fail | apply minds_panic | apply minds_lift | apply minds_get
    | apply minds_MustRegister | apply minds_recover
    | apply minds_Inc; intros ? | apply minds_Observe; intros ? | apply minds_Add; intros ?
    | apply minds_upd; intros ? | apply minds_lib; intros ?
    | apply minds_bind; [|intros ?] | case_match ].
Ltac minds_walk := repeat minds_step; unfold stream_holds; simpl; try tauto.

Section Operations.
Context `{Msgpack} `{PromLaws}.
Import tgen stream.

(** The setters of the metric fields. *)
Definition puts (put : option metric -> udpStream -> udpStream) : Prop :=
  forall m c h, stream_holds (put (Some m) c) h -> h = m \/ stream_holds c h.

Lemma puts_all :
  puts set_trafficNotStarted /\ puts set_packetSent /\ puts set_packetSendFailed /\ puts set_packetReceived /\
  puts set_packetDropped /\ puts set_roundTrip /\ puts set_latency.
Proof. split_and!; intros m c h; unfold stream_holds; simpl; naive_solver. Qed.

Lemma minds_registerMetric m : minds (registerMetric m).
Proof. unfold registerMetric. minds_walk. Qed.

Lemma minds_registerCounter name help field set_field val :
  (forall c h, field c = Some h -> stream_holds c h) -> puts set_field ->
  minds (registerCounter name help field set_field val).
Proof.
  intros Hf Hp. unfold registerCounter, NewCounter. do 2 (apply minds_bind; [apply minds_get|intros ?]).
  apply (minds_create _ (fun m => set_field (Some m))); [exact Hp|]. intros m.
  apply minds_bind; [apply minds_registerMetric|]. intros _. apply minds_bind; [apply minds_get|]. intros v.
  case_match; [by apply minds_Add|apply minds_ret].
Qed.

Lemma minds_registerStreamMetrics : minds registerStreamMetrics.
Proof.
  destruct puts_all as (_ & P1 & P2 & P3 & P4 & P5 & P6). unfold registerStreamMetrics.
  do 5 (apply minds_bind; [apply minds_registerCounter; [unfold stream_holds; simpl; tauto|done]|intros _]).
  unfold registerSummary, NewSummary. do 2 (apply minds_bind; [apply minds_get|intros ?]).
  apply (minds_create _ (fun m => set_latency (Some m))); [exact P6|]. apply minds_registerMetric.
Qed.

Lemma unregister_all_same ms p : same_values p (fold_left (fun p m => prom_unregister m p) ms p).
Proof.
  revert p. induction ms as [|m ms IH]; intros p; simpl; [reflexivity|].
  etransitivity; [apply prom_unregister_same|apply IH].
Qed.

Lemma minds_deRegister : minds deRegisterStreamMetrics.
Proof. unfold deRegisterStreamMetrics. minds_walk. by apply unregister_all_same. Qed.

Lemma minds_SetupConnection_begin k : minds (SetupConnection_begin k).
Proof.
  unfold SetupConnection_begin, newTrafficNotStarted, NewCounter.
  apply minds_bind; [|intros m; apply minds_recover, minds_MustRegister].
  apply minds_bind; [minds_walk|intros _]. do 2 (apply minds_bind; [apply minds_get|intros ?]).
  apply (minds_create _ (fun m => set_trafficNotStarted (Some m))); [apply puts_all|]. intros m. apply minds_ret.
Qed.

Lemma minds_orNotStarted {A} (r : outcome A) : minds (orNotStarted r).
Proof. unfold orNotStarted. minds_walk. Qed.

Lemma minds_SetupConnection_end env k : minds (SetupConnection_end env k).
Proof.
  unfold SetupConnection_end, SetupConnection_body. apply minds_recover.
  repeat first [apply minds_registerStreamMetrics | apply minds_orNotStarted | apply minds_get | apply minds_lift
    | apply minds_bind; [|intros ?] | apply minds_upd; unfold stream_holds; simpl; tauto | case_match; [|apply minds_ret]].
Qed.

Lemma minds_settle_reply now msg info : minds (settle_reply now msg info).
Proof.
  pose proof minds_registerStreamMetrics. pose proof minds_deRegister.
  unfold settle_reply, reRegisterStreamMetrics. minds_walk.
Qed.

Lemma minds_handle_datagram now buf : minds (handle_datagram now buf).
Proof.
  unfold handle_datagram. apply minds_bind; [apply minds_get|intros hl]. apply minds_bind; [apply minds_lift|intros h].
  destruct (unmarshal_Message h) as [msg err]. apply minds_bind; [apply minds_lift|intros b].
  destruct (unmarshal_PodInfo b) as [info err1]. do 2 (case_match; [apply minds_ret|]).
  apply minds_bind; [apply minds_settle_reply|intros r; apply minds_ret].
Qed.

Lemma minds_SocketRead_datagram now data buf : minds (SocketRead_datagram now data buf).
Proof.
  unfold SocketRead_datagram. case_decide; [apply minds_ret|].
  apply minds_bind; [apply minds_handle_datagram|intros r; apply minds_ret].
Qed.

Lemma minds_redialDestination env k force : minds (redialDestination env k force).
Proof. unfold redialDestination. minds_walk. Qed.

Lemma minds_timeout_turn now t : minds (timeout_turn now t).
Proof. unfold timeout_turn. minds_walk. Qed.

Lemma minds_after_drop now1 now2 env k t : minds (after_drop now1 now2 env k t).
Proof.
  unfold after_drop. apply minds_bind; [apply minds_get|]. intros isDN. case_match; [|apply minds_ret].
  intros s. pose proof (minds_redialDestination env k false s) as Hm.
  by destruct (redialDestination env k false s) as [[]].
Qed.

Lemma minds_done : minds done.
Proof. unfold done. minds_walk. Qed.

Lemma minds_TearDown_begin : minds TearDownConnection_begin.
Proof. unfold TearDownConnection_begin, deref. minds_walk. apply prom_unregister_same. Qed.

Lemma minds_next_packet : minds next_packet.
Proof. unfold next_packet. minds_walk. Qed.

(** A step of one of the goroutines. *)
Ltac minded :=
  repeat match goal with
    | E : done _ = _ |- _ => apply (minds_out _ _ _ _ minds_done) in E
    | E : redialDestination _ _ _ _ = _ |- _ => apply (minds_out _ _ _ _ (minds_redialDestination _ _ _)) in E
    | E : next_packet _ = _ |- _ => apply (minds_out _ _ _ _ minds_next_packet) in E
    | E : timeout_turn _ _ _ = _ |- _ => apply (minds_out _ _ _ _ (minds_timeout_turn _ _)) in E
    | E : after_drop _ _ _ _ _ _ = _ |- _ => apply (minds_out _ _ _ _ (minds_after_drop _ _ _ _ _)) in E
    | E : SocketRead_datagram _ _ _ _ = _ |- _ => apply (minds_out _ _ _ _ (minds_SocketRead_datagram _ _ _)) in E
    | E : Inc ?f _ = _ |- _ =>
        apply (minds_out _ _ _ _ (minds_Inc f ltac:(unfold stream_holds; simpl; tauto))) in E
    | E : upd ?f _ = _ |- _ =>
        apply (minds_out _ _ _ _ (minds_upd f ltac:(unfold stream_holds; simpl; tauto))) in E
    | E : add_pending _ _ = _ |- _ => unfold add_pending in E
    | E : drop_pending _ = _ |- _ => unfold drop_pending in E
    end.

Lemma own_step_minds w lb w' : own_step w lb w' -> owned stream_holds (w_c w, w_p w) (w_c w', w_p w').
Proof.
  destruct 1 as [c p k x tpc t rd b td lb x' c' p' Hst|c p k x tpc t rd b td lb tpc' t' c' p' Hst
    |c p k x tpc t rd b td lb rd' b' c' p' Hst]; simpl; inversion Hst; subst; minded; try done; by etransitivity.
Qed.
End Operations.

(** ** Servers *)
Section Servers.
Context `{Msgpack} `{PromLaws}.
Import tapp.
Implicit Types (s x : udpServer) (p q : prom).

Lemma owns_map m s h : owns (set_activeClientsMap m s) h <-> owns s h.
Proof. done. Qed.

Lemma account_owned now ip seq s p s' p' :
  account now ip seq s p = Ok (s', p') -> owned owns (s, p) (s', p').
Proof.
  unfold account. intros E. apply bind_outcome_Ok_inv in E as ([c p1] & E1 & E).
  assert (owned owns (s, p) (s, p1)) as Ho.
  { destruct (activeClientsMap s !! ip); [injection E1 as _ <-; reflexivity|].
    apply bind_outcome_Ok_inv in E1 as (g & Eg & E1). injection E1 as _ <-. intros _.
    eapply private_touch; [apply prom_inc_same|]. left. unfold deref, or_panic in Eg. simpl.
    destruct (activeClientStreams s); congruence. }
  etransitivity; [exact Ho|]. intros Hl. case_match; apply bind_outcome_Ok_inv in E as (u & Eu & E); injection E as <- <-.
  - case_match; [|injection Eu as <-; by apply private_quiet].
    apply bind_outcome_Ok_inv in Eu as (m & Em & Eu). unfold deref, or_panic in Em, Eu.
    destruct (packetsMissing s) as [m'|] eqn:Ef; [|done]. injection Em as <-.
    assert (0 <= f64_rnd (sub64 (sub64 seq (arrivedMaxSeq c)) 1)) as Hv by (apply f64_rnd_nonneg; lia).
    assert (owns s m') as Hm by (right; by left).
    destruct (prom_add_spec m' _ p1 (Hl m' Hm) Hv) as (q & E & Hq & _). rewrite E in Eu. injection Eu as <-.
    by eapply private_touch.
  - unfold deref, or_panic in Eu. destruct (packetsLate s) as [l'|] eqn:Ef; [|done]. injection Eu as <-.
    eapply private_touch; [apply prom_inc_same|]. right. by right.
Qed.

Lemma datagram_owned t1 t2 ip data b s p out b' s' p' :
  ReadFromSocket_datagram t1 t2 ip data b s p = Ok (out, b', s', p') -> owned owns (s, p) (s', p').
Proof.
  unfold ReadFromSocket_datagram, handle. case_decide; [intros [= _ _ <- <-]; reflexivity|]. intros E.
  apply bind_outcome_Ok_inv in E as (hdr & _ & E).
  destruct (unmarshal_Message hdr) as [msg []]; [injection E as _ _ <- <-; reflexivity|].
  destruct (marshal_Message _); [|injection E as _ _ <- <-; reflexivity].
  apply bind_outcome_Ok_inv in E as (tail & _ & E). apply bind_outcome_Ok_inv in E as ([x1 q1] & Ea & E).
  apply bind_outcome_Ok_inv in E as (o & _ & E). injection E as _ _ <- <-. by eapply account_owned.
Qed.

Lemma sweep_owned now order s p s' p' : sweep now order s p = Ok (s', p') -> owned owns (s, p) (s', p').
Proof.
  revert s p. induction order as [|[ip c] order IH]; intros s p; simpl; [intros [= <- <-]; reflexivity|].
  case_match; [|apply IH]. intros E. apply bind_outcome_Ok_inv in E as (g & Eg & E). apply IH in E.
  etransitivity; [|exact E]. intros _. eapply private_touch; [apply prom_dec_same|].
  left. unfold deref, or_panic in Eg. simpl in *. destruct (activeClientStreams s); congruence.
Qed.

Lemma unregistered_same s p : same_values p (TearDownServer_end s p).
Proof. apply unregister_all_same. Qed.

(** Every step of a server but those of the others. *)
Lemma server_step_owned w lb w' :
  step w lb w' -> lb <> LEnv -> owned owns (w_srv w, w_prom w) (w_srv w', w_prom w').
Proof.
  destruct 1; simpl; intros Hlb; try reflexivity; try done.
  1, 4: unfold tapp.done in *; case_decide; [done|]; simplify_eq; intros _; by apply private_quiet.
  - by eapply datagram_owned.
  - by eapply sweep_owned.
  - unfold TearDownServer_begin in *. destruct (connection s); [|done]. simplify_eq. intros _. by apply private_quiet.
  - intros _. apply private_quiet; [apply unregistered_same|done].
Qed.

(** A metric made and registered. *)
Lemma made_private G o p m p1 p2 :
  prom_new o p = (m, p1) -> registerMetric m p1 = Ok p2 -> private G p (fun h => h = m \/ G h) p2.
Proof.
  intros E1 E2. unfold registerMetric in E2. destruct (prom_register m p1) as [e|p2'] eqn:E; [done|]. injection E2 as <-.
  apply prom_register_same in E as [L2 V2].
  pose proof (prom_new_fresh o p) as Hf. pose proof (prom_new_live o p) as Hn. pose proof (prom_new_same o p) as [L V].
  rewrite E1 in *. simpl in *. split.
  - auto.
  - intros h Hh _. rewrite V2, V; [done|done|by intros []|auto|by intros []].
  - intros h [->|]; auto.
  - intros h [->|]; auto.
Qed.

(** What is made with a server is its own. *)
Lemma CreateServer_private env k ns pn nn ip ifn n p x q :
  CreateServer env k ns pn nn ip ifn n p = Ok (x, q) -> private (fun _ => False) p (owns x) q.
Proof.
  unfold CreateServer, SetupServerConnection, NewGauge, NewCounter. intros E.
  apply bind_outcome_Ok_inv in E as (x0 & _ & E).
  do 3 (apply bind_outcome_Ok_inv in E as (? & _ & E)).
  destruct (prom_new _ p) as [g p1] eqn:Eg in E. apply bind_outcome_Ok_inv in E as (p2 & Rg & E).
  destruct (prom_new _ p2) as [m p3] eqn:Em in E. apply bind_outcome_Ok_inv in E as (p4 & Rm & E).
  destruct (prom_new _ p4) as [l p5] eqn:El in E. apply bind_outcome_Ok_inv in E as (p6 & Rl & E). injection E as <- <-.
  eapply private_trans; [by eapply made_private|]. eapply private_trans; [by eapply made_private|].
  eapply private_trans; [by eapply made_private|]. apply private_quiet; [reflexivity|].
  intros h. unfold owns. simpl. naive_solver.
Qed.
End Servers.
