(* ===== verification/Pod.v ===== *)
(** * A pod: the controller, its streams and its servers in one relation

    The handlers of the controller (cut at their waits by [plan]), the
    goroutines that bring clients up, and the goroutines of every stream and
    every server ever made take turns on one state: the process of Streams,
    with what the goroutines have in hand beside it.  A handler that tears a
    client down waits here until the stream's goroutines are gone, and
    [SetupConnection] is left while names are resolved.  The pairs are shared:
    a stream works on what its [pairAt] points to in the controller's store, as
    the goroutine that makes clients does, and other streams on that pair.  Each
    locked region, or access, is one step; that the two streams on a pair hold
    different mutexes, so that the Go runtime may also notice a concurrent map
    write and end the process, is not modelled. *)
From S2P Require Import Prelude GoInt Strconv Message Metrics Net Pair Pairing TApp TGen TGenStep TGenRefine TGenInv TGenShared Config TGC TGCTheorems Plan TGCRuns Streams.

Module pod.
Import tgc.

Section Pod.
Context `{Msgpack} `{PromLib} `{JsonSource} `{Yaml} {env : NetEnv} {namespace podName nodeName : string}.
#[local] Instance pod_Protocols : Protocols := stream_Protocols env namespace podName nodeName.

(** What the three goroutines of a stream have in hand, and the two of a server. *)
Record goroutines := mkGo {
  g_snd : stream.sender;
  g_tpc : stream.timeout_pc;
  g_t : tgen.timeouts;
  g_rd : stream.reader_pc;
  g_buf : list byte
}.
Record server_goroutines := mkServerGo {
  g_buffer : list byte;
  g_reader : tapp.reader_pc;
  g_sweeper : bool
}.

Definition first_go (x : tgen.udpStream) : goroutines :=
  mkGo (stream.mkSender stream.SStart 0 [] 0 0) stream.TStart (tgen.mkTimeouts 0 0 0 1 0 0) stream.RHead
    (replicate (Z.to_nat (tgen.readBufferSize x)) Byte.x00).
Definition first_server_go (x : tapp.udpServer) : server_goroutines :=
  mkServerGo (replicate (Z.to_nat (tapp.readBufferSize x)) Byte.x00) tapp.RHead true.

Inductive waiting := WClient (c : nat) | WServer (a : nat).

(** [p_go] and [p_server_go] have the goroutines that have moved since they
    were started: those of a stream by the stream and how many times it had
    been started before. [p_todo] is what is left of the handler that has the
    lock, [p_wait] whom it waits for. [p_connecting] are the pairs whose client
    is between the two parts of its [SetupConnection]. *)
Record pod := mkPod {
  p_w : world;
  p_go : gmap (nat * nat) goroutines;
  p_server_go : gmap nat server_goroutines;
  p_connecting : list (nat * nat);
  p_todo : option (list action);
  p_wait : option waiting
}.

Definition p_ext (P : pod) : process := w_ext (p_w P).

(** The process with a stream, or a server, and the metrics changed. *)
Definition put_stream (c : nat) (x : tgen.udpStream) (q : prom) (s : process) : process :=
  mkProcess (<[c := x]> (streams s)) (going s) (servers s) q (conf s) (srv_conf s).
Definition put_server (a : nat) (x : tapp.udpServer) (q : prom) (s : process) : process :=
  mkProcess (streams s) (going s) (<[a := x]> (servers s)) q (conf s) (srv_conf s).
(** A stream that may have written its pair. *)
Definition with_stream (c : nat) (x : tgen.udpStream) (q : prom) (w : world) : world :=
  mkWorld (w_tg w) (put_back x (w_pairs w)) (w_tasks w) (put_stream c x q (w_ext w)).
Definition with_ext (s : process) (w : world) : world :=
  mkWorld (w_tg w) (w_pairs w) (w_tasks w) s.
Definition with_tasks (ts : list task) (w : world) : world :=
  mkWorld (w_tg w) (w_pairs w) ts (w_ext w).

(** A stream and a server as their own relations see them. *)
Definition stream_world (x : tgen.udpStream) (q : prom) (k : tgen.config) (g : goroutines)
    (td : stream.teardown_pc) : stream.world :=
  stream.mkWorld x q k (g_snd g) (g_tpc g) (g_t g) (g_rd g) (g_buf g) td.
Definition server_world (x : tapp.udpServer) (q : prom) (g : server_goroutines) (td : tapp.teardown_pc)
    : tapp.world :=
  tapp.mkWorld x q (g_buffer g) (g_reader g) (g_sweeper g) td.

Definition server_own (lb : tapp.label) : bool :=
  match lb with tapp.LTearDown | tapp.LEnv => false | _ => true end.

(** How many sets of goroutines a stream has been given. *)
Definition starts (c : nat) (s : process) : nat := count_occ Nat.eq_dec (going s) c.

Inductive label :=
| PEvent (ev : event)                  (* a handler takes the lock, or StopTGC begins *)
| PCode                                (* it runs to its next teardown *)
| PTear (c : nat) | PTorn (c : nat)    (* TearDownConnection, before and after its wait *)
| PTearServer (a : nat) | PTornServer (a : nat)
| PDone                                (* it gives the lock back *)
| PTask (t : task)
| PSetup (c : nat) | PConnect (c : nat)
| PStream (c : nat) (lb : stream.label)
| PServer (a : nat) (lb : tapp.label).

Inductive step : pod -> label -> pod -> Prop :=
| pod_event e ev w w' l go sgo cn :
    env_ok e -> plan e ev w = (Ok l, w') ->
    step (mkPod w go sgo cn None None) (PEvent ev) (mkPod w' go sgo cn (Some l) None)
| pod_code m l w w' go sgo cn :
    m w = (Ok tt, w') ->
    step (mkPod w go sgo cn (Some (ACode m :: l)) None) PCode (mkPod w' go sgo cn (Some l) None)
| pod_done w go sgo cn :
    step (mkPod w go sgo cn (Some []) None) PDone (mkPod w go sgo cn None None)
| pod_tear a p c x b x' q' l w go sgo cn :
    w_pairs w !! a = Some p -> ClientConnection p = Some c ->
    streams (w_ext w : process) !! c = Some x ->
    tgen.TearDownConnection_begin (x, metrics (w_ext w : process)) = (Ok b, (x', q')) ->
    step (mkPod w go sgo cn (Some (AClient a :: l)) None) (PTear c)
      (mkPod (with_ext (put_stream c x' q' (w_ext w)) w) go sgo cn (Some l)
         (if b : bool then Some (WClient c) else None))
| pod_torn c x x' q' l w go sgo cn :
    streams (w_ext w : process) !! c = Some x -> tgen.isStopped x = 0 ->
    tgen.TearDownConnection_end (x, metrics (w_ext w : process)) = (Ok tt, (x', q')) ->
    step (mkPod w go sgo cn l (Some (WClient c))) (PTorn c)
      (mkPod (with_ext (put_stream c x' q' (w_ext w)) w) go sgo cn l None)
| pod_tear_server a x l w go sgo cn :
    servers (w_ext w : process) !! a = Some x ->
    step (mkPod w go sgo cn (Some (AServer a :: l)) None) (PTearServer a)
      (match tapp.TearDownServer_begin x with
       | None => mkPod w go sgo cn (Some l) None
       | Some x' => mkPod (with_ext (put_server a x' (metrics (w_ext w : process)) (w_ext w)) w) go sgo cn
                      (Some l) (Some (WServer a))
       end)
| pod_torn_server a x l w go sgo cn :
    servers (w_ext w : process) !! a = Some x -> tapp.isStopped x = 0 ->
    step (mkPod w go sgo cn l (Some (WServer a))) (PTornServer a)
      (mkPod (with_ext (put_server a x (tapp.TearDownServer_end x (metrics (w_ext w : process))) (w_ext w)) w)
         go sgo cn l None)
| pod_task t w w' go sgo cn l wt :
    (forall a, t <> TSetup a) -> tgc.step w (LTask t) w' ->
    step (mkPod w go sgo cn l wt) (PTask t) (mkPod w' go sgo cn l wt)
| pod_setup a p c x r x' q' l1 l2 w go sgo cn l wt :
    w_tasks w = l1 ++ TSetup a :: l2 ->
    w_pairs w !! a = Some p -> ClientConnection p = Some c ->
    streams (w_ext w : process) !! c ≫= fetch (w_pairs w) = Some x ->
    tgen.SetupConnection_begin (conf (w_ext w : process)) (x, metrics (w_ext w : process)) = (r, (x', q')) ->
    is_panic r = false ->
    step (mkPod w go sgo cn l wt) (PSetup c)
      (mkPod (with_tasks (l1 ++ l2) (with_stream c x' q' w)) go sgo
         (if is_ok r then cn ++ [(a, c)] else cn) l wt)
| pod_connect net a c x r x' q' cn1 cn2 w go sgo l wt :
    streams (w_ext w : process) !! c ≫= fetch (w_pairs w) = Some x ->
    tgen.SetupConnection_end net (conf (w_ext w : process)) (x, metrics (w_ext w : process)) = (r, (x', q')) ->
    is_panic r = false ->
    step (mkPod w go sgo (cn1 ++ (a, c) :: cn2) l wt) (PConnect c)
      (mkPod (with_tasks (if is_ok r then w_tasks w ++ [TStart a] else w_tasks w)
                (with_stream c x' q' w)) go sgo (cn1 ++ cn2) l wt)
| pod_stream c k x lb x' q' g' w go sgo cn l wt :
    streams (w_ext w : process) !! c ≫= fetch (w_pairs w) = Some x -> (k < starts c (w_ext w))%nat ->
    own_step (stream_world x (metrics (w_ext w : process)) (conf (w_ext w : process))
                (default (first_go x) (go !! (c, k))) stream.DIdle) lb
             (stream_world x' q' (conf (w_ext w : process)) g' stream.DIdle) ->
    step (mkPod w go sgo cn l wt) (PStream c lb)
      (mkPod (with_stream c x' q' w) (<[(c, k) := g']> go) sgo cn l wt)
| pod_server a x lb x' q' g' w go sgo cn l wt :
    servers (w_ext w : process) !! a = Some x -> server_own lb = true ->
    tapp.step (server_world x (metrics (w_ext w : process)) (default (first_server_go x) (sgo !! a)) tapp.TIdle) lb
              (server_world x' q' g' tapp.TIdle) ->
    step (mkPod w go sgo cn l wt) (PServer a lb)
      (mkPod (with_ext (put_server a x' q' (w_ext w)) w) go (<[a := g']> sgo) cn l wt).

(** A new pod: nothing made, no handler. *)
Definition pod0 (n : Z) (q : prom) (k : tgen.config) (sk : tapp.config) : pod :=
  mkPod (mkWorld (NewPodTGController podName namespace n) [] [] (mkProcess [] [] [] q k sk)) ∅ ∅ [] None None.
End Pod.
End pod.
