(* ===== verification/PodProofs.v ===== *)
(** * The streams of a pod (lemmas)

    The code of the controller leaves the streams there are as they are, but
    for their pairs, makes new ones, and loads configurations; so each step of
    a pod is, for a stream that has been set up, steps of [stream.step], and of
    [stream.alone_step] where nobody writes its pair. *)
From S2P Require Import Prelude GoInt Strconv Message Metrics Net Pair Pairing TApp TGen TGenStep TGenProofs Ledger TGenRefine TGenInv TGenShared Config TGC TGCTheorems Plan TGCRuns Streams Pod.
Import tgc pod.

#[global] Instance waiting_eq_dec : EqDecision waiting.
Proof. solve_decision. Defined.

(** One call of the client module's LoadBatProfileConfig. *)
Definition loaded (k k' : tgen.config) : Prop := exists m r, tgen.LoadBatProfileConfig m k = (r, k').

(** A server as it is made: both goroutines to come, and a socket. *)
Definition fresh_server `{Msgpack} `{PromLib} (x : tapp.udpServer) : Prop :=
  tapp.isStopped x = 2 /\ is_Some (tapp.connection x).

(** What code of the controller that tears nothing down does to the process. *)
Record grown `{Msgpack} `{PromLib} (s s' : process) : Prop := mkGrown {
  grown_streams : streams s `prefix_of` streams s';
  grown_going : going s' = going s;
  grown_conf : rtc loaded (conf s) (conf s');
  grown_servers : exists new, servers s' = servers s ++ new /\ Forall fresh_server new
}.

Section Grown.
Context `{Msgpack} `{PromLib} `{JsonSource} `{Yaml} (env : NetEnv) (namespace podName nodeName : string).
#[local] Instance grown_Protocols : Protocols := stream_Protocols env namespace podName nodeName.

#[global] Instance grown_preorder : PreOrder grown.
Proof.
  assert (forall s : process, exists new, servers s = servers s ++ new /\ Forall fresh_server new) as Hr.
  { intros s. exists []. by rewrite app_nil_r. }
  split; [intros s; by split|]. intros s1 s2 s3 [A1 B1 C1 (l1 & D1 & F1)] [A2 B2 C2 (l2 & D2 & F2)].
  split; [by etrans|congruence|by etrans|]. exists (l1 ++ l2). rewrite D2, D1, <- app_assoc.
  split; [done|by apply Forall_app].
Qed.

Lemma grown_stream_load m s : grown s (stream_load m s).2.
Proof.
  unfold stream_load. destruct (tgen.LoadBatProfileConfig m (conf s)) as [r k] eqn:E.
  split; [done|done|apply rtc_once; by exists m, r|]. exists []. by rewrite app_nil_r.
Qed.
Lemma grown_server_load m s : grown s (server_load m s).2.
Proof.
  unfold server_load. destruct (tapp.LoadBatProfileConfig m (srv_conf s)). split; [done..|].
  exists []. by rewrite app_nil_r.
Qed.
Lemma created_fresh k ns pn nn ip ifn n p x q :
  tapp.CreateServer env k ns pn nn ip ifn n p = Ok (x, q) -> fresh_server x.
Proof.
  unfold tapp.CreateServer, tapp.newUDPServer. intros E.
  apply bind_outcome_Ok_inv in E as (x0 & Hn & E).
  destruct GetMessageHeaderLength; [|done..]. destruct (marshal_PodInfo _); [|done]. injection Hn as <-.
  unfold tapp.SetupServerConnection in E.
  do 3 (apply bind_outcome_Ok_inv in E as (? & _ & E)).
  do 3 (destruct (_ : metric * prom) in E; apply bind_outcome_Ok_inv in E as (? & _ & E)).
  injection E as <- _. split; simpl; [done|by eexists].
Qed.
Lemma grown_server_Create ip ifName n s : grown s (server_Create env namespace podName nodeName ip ifName n s).2.
Proof.
  unfold server_Create. destruct (tapp.CreateServer _ _ _ _ _ _ _ _ _) as [[x q]| |] eqn:E; [|done..].
  split; [done..|]. exists [x]. split; [done|]. constructor; [by eapply created_fresh|done].
Qed.
Lemma grown_CreateClient a p n s : grown s (stream_CreateClient a p n s).2.
Proof.
  unfold stream_CreateClient. destruct (tgen.CreateClient a p n) as [x|e|w]; [|done..].
  split; simpl; [by apply prefix_app_r|done|done|]. exists []. by rewrite app_nil_r.
Qed.

(** What code of the controller that tears nothing down does to the process is
    made of loads and of what it creates. *)
Class Grows (R : process -> process -> Prop) : Prop := {
  grows_preorder :: PreOrder R;
  grows_stream_load m s : R s (stream_load m s).2;
  grows_server_load m s : R s (server_load m s).2;
  grows_server_Create ip ifName n s : R s (server_Create env namespace podName nodeName ip ifName n s).2;
  grows_CreateClient a p n s : R s (stream_CreateClient a p n s).2
}.

#[export] Instance grown_Grows : Grows grown.
Proof.
  split; [apply _|apply grown_stream_load|apply grown_server_load|apply grown_server_Create|apply grown_CreateClient].
Qed.

Section From.
Context (R : process -> process -> Prop) `{!Grows R} (s0 : process).

Definition from (w : world) : Prop := R s0 (w_ext w).

Lemma from_call {A} (m : ST S A) : (forall s, R s (m s).2) -> preserved from (call m).
Proof.
  intros Hm w Hw. unfold call, from in *. specialize (Hm (w_ext w)).
  destruct (m (w_ext w)) as [r s]. simpl in *. by etrans.
Qed.
Lemma from_tupd f : preserved from (tupd f). Proof. by intros w. Qed.
Lemma from_spawn t : preserved from (spawn t). Proof. by intros w. Qed.
Lemma from_upd_pair a f : preserved from (upd_pair a f). Proof. by intros w. Qed.
Lemma from_alloc ps : preserved from (alloc_pairs ps). Proof. by intros w. Qed.
Lemma from_parsed e cm : preserved from (parsed e cm). Proof. by intros w. Qed.
Lemma from_reload cm k : preserved from (reload cm k).
Proof. intros w Hw. unfold reload. by destruct (util.ReLoadConfig cm k). Qed.
Lemma from_call_server_load p m : preserved from (call (server_LoadBatProfileConfig p m)).
Proof. apply from_call. exact (grows_server_load m). Qed.
Lemma from_call_client_load p m : preserved from (call (client_LoadBatProfileConfig p m)).
Proof. apply from_call. exact (grows_stream_load m). Qed.
Lemma from_call_CreateServer p ip i n : preserved from (call (CreateServer p ip i n)).
Proof. apply from_call. exact (grows_server_Create ip i n). Qed.
Lemma from_call_CreateClient p a b n : preserved from (call (CreateClient p a b n)).
Proof. apply from_call. exact (grows_CreateClient a b n). Qed.

Ltac growing :=
  repeat match goal with
    | H : preserved from ?m |- preserved from ?m => exact H
    | |- preserved _ (ret _) => apply preserved_ret
    | |- preserved _ (lift _) => apply preserved_lift
    | |- preserved _ (gets _) => apply preserved_gets
    | |- preserved _ (tupd _) => apply from_tupd
    | |- preserved _ (spawn _) => apply from_spawn
    | |- preserved _ (upd_pair _ _) => apply from_upd_pair
    | |- preserved _ (alloc_pairs _) => apply from_alloc
    | |- preserved _ (parsed _ _) => apply from_parsed
    | |- preserved _ (reload _ _) => apply from_reload
    | |- preserved _ (call (server_LoadBatProfileConfig _ _)) => apply from_call_server_load
    | |- preserved _ (call (client_LoadBatProfileConfig _ _)) => apply from_call_client_load
    | |- preserved _ (call (CreateServer _ _ _ _)) => apply from_call_CreateServer
    | |- preserved _ (call (CreateClient _ _ _ _)) => apply from_call_CreateClient
    | |- preserved _ (ignore _) => apply preserved_ignore
    | |- preserved _ (for_each _ _) => apply preserved_for_each; intros ?
    | |- preserved _ (bind _ _) => apply preserved_bind; [|intros ?]
    | |- preserved _ (match _ with _ => _ end) => case_match
    end.

Lemma from_createServers protocol ifs : preserved from (createServers protocol ifs).
Proof. induction ifs as [|[i ip] ifs IH]; cbn [createServers]; unfold tget; growing. Qed.
Lemma from_createNetBatTgenClients : preserved from createNetBatTgenClients.
Proof. unfold createNetBatTgenClients, tget. growing. Qed.
Lemma from_pairingAdd e cm : preserved from (handleNetBatPairingAddEvent e cm).
Proof.
  pose proof from_createNetBatTgenClients. unfold handleNetBatPairingAddEvent, tget. growing.
Qed.
Lemma from_add e cm : preserved from (handle e (EAdd cm)).
Proof.
  pose proof (from_pairingAdd e cm). pose proof from_createNetBatTgenClients. cbn [handle].
  unfold AddPairing, AddProfile, handler, the_config, tget, deref. growing. apply from_createServers.
Qed.
Lemma from_plan e ev : preserved from (plan e ev).
Proof.
  destruct ev as [cm|cm|cm|]; cbn [plan];
    unfold plan_delete, plan_restart, plan_servers, updated, the_config, tget, deref; growing.
Qed.
Lemma from_create a : preserved from (run_task (TCreate a)).
Proof. cbn [run_task]. unfold pair_at, tget, deref. growing. Qed.
End From.

(** ** What a plan leaves to be done *)

Definition yields {A} (Q : A -> Prop) (m : M A) : Prop := forall w a w', m w = (Ok a, w') -> Q a.

Lemma yields_ret {A} (Q : A -> Prop) a : Q a -> yields Q (ret a : M A).
Proof. by intros Ha w b w' [= <- _]. Qed.
Lemma yields_bind {A B} (Q : B -> Prop) (m : M A) (f : A -> M B) :
  (forall a, yields Q (f a)) -> yields Q (bind m f).
Proof. intros Hf w b w' E. apply bind_Ok_inv in E as (a & w1 & _ & E). by eapply Hf. Qed.
Lemma yields_after {A B} (Q : A -> Prop) (Q' : B -> Prop) (m : M A) (f : A -> M B) :
  yields Q m -> (forall a, Q a -> yields Q' (f a)) -> yields Q' (bind m f).
Proof.
  intros Hm Hf w b w' E. apply bind_Ok_inv in E as (a & w1 & Ea & E). eapply Hf; [|exact E]. by eapply Hm.
Qed.

(** A property of the code in a plan. *)
Definition coded (Q : M unit -> Prop) (x : action) : Prop :=
  match x with ACode m => Q m | _ => True end.

Section Coded.
Context (Q : M unit -> Prop) (e : tgc.env).
Hypothesis Qpairs : Q (tupd (set_netBatPairs None)).
Hypothesis Qconfig : Q (tupd (set_config None)).
Hypothesis Qclients : Q createNetBatTgenClients.
Hypothesis Qpairing : forall cm, Q (handler (handleNetBatPairingAddEvent e cm)).
Hypothesis Qadd : forall cm, Q (handle e (EAdd cm)).

Lemma coded_clients (l : list nat) m : Q m -> Forall (coded Q) ((AClient <$> l) ++ [ACode m]).
Proof. intros Hm. apply Forall_app. split; [by apply Forall_fmap, Forall_true|]. by constructor. Qed.
Lemma plan_delete_coded : yields (Forall (coded Q)) plan_delete.
Proof. apply yields_bind. intros [l|]; apply yields_ret; [by apply coded_clients|done]. Qed.
Lemma plan_restart_coded : yields (Forall (coded Q)) plan_restart.
Proof. apply yields_bind. intros [l|]; apply yields_ret; [by apply coded_clients|done]. Qed.
Lemma plan_servers_coded walk : yields (Forall (coded Q)) (plan_servers walk).
Proof. apply yields_bind. intros m. apply yields_ret. by apply Forall_fmap, Forall_true. Qed.

Lemma plan_coded ev : yields (Forall (coded Q)) (plan e ev).
Proof.
  destruct ev as [cm|cm|cm|]; cbn [plan].
  - apply yields_ret. constructor; [apply Qadd|done].
  - case_decide.
    { apply yields_bind. intros v. case_decide; [by apply yields_ret|]. apply yields_bind. intros _.
      apply (yields_after _ _ _ _ plan_delete_coded). intros l Hl. apply yields_ret, Forall_app.
      split; [done|]. constructor; [apply Qpairing|done]. }
    case_decide; [|by apply yields_ret]. apply yields_bind. intros c. case_decide; [by apply yields_ret|].
    apply yields_bind. intros [[|]|]; [by apply yields_ret|apply plan_restart_coded|by apply yields_ret].
  - case_decide; [apply yields_bind; intros _; apply plan_delete_coded|].
    case_decide; [|by apply yields_ret]. apply (yields_after _ _ _ _ (plan_servers_coded _)). intros l Hl.
    apply yields_ret, Forall_app. split; [done|]. constructor; [apply Qconfig|done].
  - apply (yields_after _ _ _ _ plan_delete_coded). intros l Hl.
    apply (yields_after _ _ _ _ (plan_servers_coded _)). intros l' Hl'. apply yields_ret. by apply Forall_app.
Qed.
End Coded.

(** None of it does more to the process, or to the pairs, than add to them. *)
Definition tame : action -> Prop :=
  coded (fun m => longer m /\ forall R, Grows R -> forall s0, preserved (from R s0) m).

Lemma plan_tame e ev : yields (Forall tame) (plan e ev).
Proof.
  apply plan_coded; [| | |intros cm|intros cm]; split.
  - apply longer_keeps, keeps_tupd.
  - intros R HR s0. apply from_tupd.
  - apply longer_keeps, keeps_tupd.
  - intros R HR s0. apply from_tupd.
  - apply longer_keeps, keeps_clients.
  - intros R HR s0. by apply from_createNetBatTgenClients.
  - apply longer_handler, longer_pairingAdd.
  - intros R HR s0. unfold handler.
    apply preserved_bind; [by apply preserved_ignore, from_pairingAdd|intros; apply preserved_ret].
  - apply longer_add.
  - intros R HR s0. by apply from_add.
Qed.

(** ** A stream in a pod *)
#[local] Abbreviation pod := (@pod.pod _ _ env namespace podName nodeName).

Definition td_of (c : nat) (x : tgen.udpStream) (P : pod) : stream.teardown_pc :=
  if decide (p_wait P = Some (WClient c)) then stream.DWaiting
  else if tgen.stop x then stream.DFinished else stream.DIdle.

(** The stream and its first set of goroutines. *)
Definition view (c : nat) (P : pod) : option stream.world :=
  x ← streams (p_ext P) !! c ≫= fetch (w_pairs (p_w P));
  Some (stream_world x (metrics (p_ext P)) (conf (p_ext P))
          (default (first_go x) (p_go P !! (c, 0%nat))) (td_of c x P)).

(** What others do: the metrics move, configurations are loaded, and the pair
    is written, if it is shared. *)
Lemma drift x b q q' k k' g td :
  rtc loaded k k' ->
  exists ls, steps stream.step (stream_world x q k g td) ls (stream_world (tgen.set_pair b x) q' k' g td) /\
    (b = tgen.pair x -> steps stream.alone_step (stream_world x q k g td) ls (stream_world (tgen.set_pair b x) q' k' g td)).
Proof.
  intros Hk. assert (exists ls, steps stream.alone_step (stream_world x q k g td) ls (stream_world x q' k' g td)) as [ls Hls].
  { assert (exists ls, steps stream.alone_step (stream_world x q k g td) ls (stream_world x q k' g td)) as [ls Hls].
    { induction Hk as [k|k1 k2 k3 (m & r & E) _ [ls IH]]; [exists []; apply steps_nil|].
      exists (stream.LConf :: ls). eapply steps_cons; [|exact IH]. by apply (stream.step_conf m r). }
    exists (ls ++ [stream.LEnv]). eapply steps_snoc; [exact Hls|]. apply stream.step_env. }
  exists (ls ++ [stream.LEnv]). split.
  - eapply steps_snoc; [apply alone_steps, Hls|].
    exact (stream.step_pair b (stream_world x q' k' g td)).
  - intros ->. rewrite set_pair_same. eapply steps_snoc; [exact Hls|]. apply stream.step_env.
Qed.

Lemma fetched (ss : list tgen.udpStream) ps c x :
  ss !! c ≫= fetch ps = Some x <->
  exists y b, ss !! c = Some y /\ ps !! tgen.pairAt y = Some b /\ x = tgen.set_pair b y.
Proof.
  unfold fetch. split.
  - intros (y & Hy & (b & Hb & ->)%fmap_Some)%bind_Some. eauto.
  - intros (y & b & Hy & Hb & ->). rewrite Hy. simpl. by rewrite Hb.
Qed.

Lemma view_inv c (P : pod) v :
  view c P = Some v -> exists x, streams (p_ext P) !! c ≫= fetch (w_pairs (p_w P)) = Some x /\
    v = stream_world x (metrics (p_ext P)) (conf (p_ext P)) (default (first_go x) (p_go P !! (c, 0%nat))) (td_of c x P).
Proof. unfold view. intros (x & Hx & [= <-])%bind_Some. eauto. Qed.

Lemma view_of c (P : pod) x :
  streams (p_ext P) !! c ≫= fetch (w_pairs (p_w P)) = Some x ->
  view c P = Some (stream_world x (metrics (p_ext P)) (conf (p_ext P)) (default (first_go x) (p_go P !! (c, 0%nat))) (td_of c x P)).
Proof. intros E. unfold view. by rewrite E. Qed.

(** A step that leaves the stream and its goroutines alone. *)
Lemma view_drift c (P P' : pod) v :
  view c P = Some v ->
  streams (p_ext P') !! c = streams (p_ext P) !! c -> p_go P' !! (c, 0%nat) = p_go P !! (c, 0%nat) ->
  rtc loaded (conf (p_ext P)) (conf (p_ext P')) ->
  (p_wait P' = Some (WClient c) <-> p_wait P = Some (WClient c)) ->
  (length (w_pairs (p_w P)) <= length (w_pairs (p_w P')))%nat ->
  exists ls v', steps stream.step v ls v' /\ view c P' = Some v' /\
    (w_pairs (p_w P') !! tgen.pairAt (stream.w_c v) = w_pairs (p_w P) !! tgen.pairAt (stream.w_c v) ->
     steps stream.alone_step v ls v').
Proof.
  intros (x & Hx & ->)%view_inv Hs Hg Hk Hw Hl. apply fetched in Hx as (y & b & Hy & Hb & ->). simpl.
  assert (is_Some (w_pairs (p_w P') !! tgen.pairAt y)) as [b' Hb'].
  { apply lookup_lt_is_Some. apply lookup_lt_Some in Hb. lia. }
  destruct (drift (tgen.set_pair b y) b' (metrics (p_ext P)) (metrics (p_ext P')) _ _
    (default (first_go (tgen.set_pair b y)) (p_go P !! (c, 0%nat))) (td_of c (tgen.set_pair b y) P) Hk) as (ls & Hls & Ha).
  assert (td_of c (tgen.set_pair b' y) P' = td_of c (tgen.set_pair b y) P) as Etd.
  { unfold td_of. destruct (decide (p_wait P = Some (WClient c))) as [E|E].
    - by rewrite decide_True by (by apply Hw).
    - rewrite decide_False; [done|]. by intros E'%Hw. }
  exists ls. eexists. split; [exact Hls|]. split.
  - unfold view, fetch. rewrite Hs, Hy. simpl. rewrite Hb'. simpl. rewrite Hg, Etd. done.
  - intros E. apply Ha. simpl. congruence.
Qed.

(** Code of the controller. *)
Lemma grown_view c s s' x : grown s s' -> streams s !! c = Some x ->
  streams s' !! c = Some x /\ rtc loaded (conf s) (conf s').
Proof. intros [[l Hl] _ Hk _] Hx. split; [|done]. rewrite Hl. by apply lookup_app_l_Some. Qed.

Lemma stream_world_own x q k g lb w' td :
  own_step (stream_world x q k g stream.DIdle) lb w' ->
  own_step (stream_world x q k g td) lb
    (stream.mkWorld (stream.w_c w') (stream.w_p w') (stream.w_conf w') (stream.w_snd w') (stream.w_tpc w')
       (stream.w_t w') (stream.w_rd w') (stream.w_buf w') td).
Proof. unfold stream_world. intros Hst. inversion Hst; subst; simpl; by econstructor. Qed.

Lemma own_conf w lb w' : own_step w lb w' -> stream.w_conf w' = stream.w_conf w.
Proof. by destruct 1. Qed.
Definition todo_tame (P : pod) : Prop :=
  match p_todo P with Some l => Forall tame l | None => True end.

Lemma todo_tame_step (P : pod) lb P' : step P lb P' -> todo_tame P -> todo_tame P'.
Proof.
  unfold todo_tame. destruct 1; simpl; try done; try (by intros [_ Ht]%Forall_cons).
  - intros _. by eapply plan_tame.
  - intros [_ Ht]%Forall_cons. by destruct (tapp.TearDownServer_begin x).
Qed.

Lemma begin_false s s' : tgen.TearDownConnection_begin s = (Ok false, s') -> s'.1 = s.1.
Proof.
  unfold tgen.TearDownConnection_begin. intros E.
  apply bind_Ok_inv in E as (o & s1 & [= _ <-] & E). apply bind_Ok_inv in E as (m & s2 & E2 & E).
  unfold tgen.deref, lift in E2. injection E2 as _ <-.
  apply bind_Ok_inv in E as (? & s3 & [= _ <-] & E). apply bind_Ok_inv in E as (k & s4 & [= <- <-] & E).
  simpl in E. destruct (tgen.connection s.1); [by injection E|by injection E as <-].
Qed.

Section Does.
Context (R : process -> process -> Prop) `{!Grows R}.

(** A task other than a set-up makes a client, or starts one. *)
Lemma task_does t w w' :
  (forall a, t <> TSetup a) -> tgc.step w (LTask t) w' ->
  R (w_ext w) (w_ext w') \/ exists b, w_ext w' = (stream_start b (w_ext w)).2.
Proof.
  intros Hn Hst. inversion Hst as [|l1 t' l2 tg ps s next w1 Hr]; subst. simpl in *.
  destruct t as [a|a|a]; [left|by destruct (Hn a)|right].
  - pose proof (from_create R s a (mkWorld tg ps (l1 ++ l2) s) ltac:(unfold from; reflexivity)) as Hg. by rewrite Hr in Hg.
  - cbn [run_task] in Hr. apply bind_Ok_inv in Hr as (p & w2 & E2 & Hr). apply bind_Ok_inv in Hr as (b & w3 & E3 & Hr).
    apply bind_Ok_inv in Hr as (u & w4 & E4 & Hr). injection Hr as _ <-.
    unfold pair_at in E2. apply bind_Ok_inv in E2 as (ps' & w5 & [= _ <-] & E2).
    unfold deref, lift in E2, E3. injection E2 as _ <-. injection E3 as _ <-.
    unfold call in E4. simpl in E4. injection E4 as _ <-. by exists b.
Qed.

(** A handler's plan, and the code of a plan. *)
Lemma plan_does e ev w l w' : plan e ev w = (Ok l, w') -> R (w_ext w) (w_ext w').
Proof.
  intros Hp. pose proof (from_plan R (w_ext w) e ev w ltac:(unfold from; reflexivity)) as Hg.
  change (R (w_ext w) (w_ext (plan e ev w).2)) in Hg. by rewrite Hp in Hg.
Qed.
Lemma code_does (m : M unit) w w' : tame (ACode m) -> m w = (Ok tt, w') -> R (w_ext w) (w_ext w').
Proof. intros [_ Hm] E. pose proof (Hm R _ (w_ext w) w ltac:(unfold from; reflexivity)) as Hg. by rewrite E in Hg. Qed.
End Does.

Lemma plan_pairs e ev w l w' : plan e ev w = (Ok l, w') -> w_pairs w' = w_pairs w.
Proof. intros Hp. pose proof (plan_keeps e ev w) as Hk. by rewrite Hp in Hk. Qed.
Lemma code_pairs (m : M unit) w w' : tame (ACode m) -> m w = (Ok tt, w') -> w_pairs w `prefix_of` w_pairs w'.
Proof. intros [Hm _] E. specialize (Hm w). by rewrite E in Hm. Qed.

Lemma task_effect t w w' :
  (forall a, t <> TSetup a) -> tgc.step w (LTask t) w' ->
  grown (w_ext w) (w_ext w') \/ exists b, w_ext w' = (stream_start b (w_ext w)).2.
Proof. apply (task_does grown). Qed.
Lemma plan_grows e ev w l w' : plan e ev w = (Ok l, w') -> grown (w_ext w) (w_ext w').
Proof. apply (plan_does grown). Qed.
Lemma code_grows (m : M unit) w w' : tame (ACode m) -> m w = (Ok tt, w') -> grown (w_ext w) (w_ext w').
Proof. apply (code_does grown). Qed.

Lemma task_grows t w w' c x :
  (forall a, t <> TSetup a) -> tgc.step w (LTask t) w' -> streams (w_ext w : process) !! c = Some x ->
  streams (w_ext w' : process) !! c = Some x /\ rtc loaded (conf (w_ext w : process)) (conf (w_ext w' : process)).
Proof.
  intros Hn Hst Hx. destruct (task_effect t w w' Hn Hst) as [Hg|[b ->]]; [by eapply grown_view|by split].
Qed.

Lemma lookup_put_ne c c' x q s : c <> c' -> streams (put_stream c x q s) !! c' = streams s !! c'.
Proof. intros Hne. simpl. by rewrite list_lookup_insert_ne. Qed.
Lemma lookup_put_eq c x y q s : streams s !! c = Some y -> streams (put_stream c x q s) !! c = Some x.
Proof. intros Hc. simpl. apply list_lookup_insert_eq. by eapply lookup_lt_Some. Qed.

(** Who writes the pair at [a]. *)
Definition writer (P : pod) (lb : label) (a : nat) : Prop :=
  match lb with
  | PTask (TCreate b) => b = a
  | PSetup c | PConnect c | PStream c _ => exists x, streams (p_ext P) !! c = Some x /\ tgen.pairAt x = a
  | _ => False
  end.

Lemma put_back_pairs x y (b : BatPair) ps :
  fixed x = fixed (tgen.set_pair b y) ->
  length (put_back x ps) = length ps /\ forall a, a <> tgen.pairAt y -> put_back x ps !! a = ps !! a.
Proof.
  intros [= E _ _ _ _]. unfold put_back. rewrite E. split; [apply length_insert|]. intros a Ha. by apply list_lookup_insert_ne.
Qed.

Lemma written_pair (ss : list tgen.udpStream) ps c x x' a p :
  ss !! c ≫= fetch ps = Some x -> fixed x' = fixed x ->
  ps !! a = Some p -> ~ (exists y, ss !! c = Some y /\ tgen.pairAt y = a) -> put_back x' ps !! a = Some p.
Proof.
  intros (y & b & Hy & Hb & ->)%fetched Hf Hp Hn. rewrite (proj2 (put_back_pairs _ _ _ _ Hf)); [done|]. intros ->. eauto.
Qed.
Lemma written_length (ss : list tgen.udpStream) ps c x x' :
  ss !! c ≫= fetch ps = Some x -> fixed x' = fixed x -> length (put_back x' ps) = length ps.
Proof. intros (y & b & Hy & Hb & ->)%fetched Hf. by apply (put_back_pairs _ y b). Qed.

(** Pairs are added, and one is written at a time. *)
Lemma pod_pairs (P : pod) lb P' :
  step P lb P' -> todo_tame P ->
  (length (w_pairs (p_w P)) <= length (w_pairs (p_w P')))%nat /\
  (forall a p, w_pairs (p_w P) !! a = Some p -> ~ writer P lb a -> w_pairs (p_w P') !! a = Some p).
Proof.
  intros Hst Ht.
  destruct Hst as [e ev w w' l go sgo cn He Hp|m l w w' go sgo cn Hm|w go sgo cn
    |a p c' y b y' q' l w go sgo cn Hp Hc Hy Hb|c' y y' q' l w go sgo cn Hy Hi Hb
    |a y l w go sgo cn Hy|a y l w go sgo cn Hy Hi|t w w' go sgo cn l wt Hn Hst
    |a p c' y r y' q' l1 l2 w go sgo cn l wt Hts Hp Hc Hy Hb Hr|net a c' y r y' q' cn1 cn2 w go sgo l wt Hy Hb Hr
    |c' k y lb y' q' g' w go sgo cn l wt Hy Hk Hown|a y lb y' q' g' w go sgo cn l wt Hy Hlb Hown];
    simpl; try (by split; auto).
  - pose proof (plan_pairs _ _ _ _ _ Hp) as E. split; [exact (Nat.eq_le_incl _ _ (eq_sym (f_equal length E)))|].
    intros a p Ha _. exact (eq_trans (f_equal (lookup a) E) Ha).
  - apply Forall_cons in Ht as [Hm' _]. pose proof (code_pairs _ _ _ Hm' Hm) as Hx. split; [exact (prefix_length _ _ Hx)|].
    intros a p Ha _. exact (prefix_lookup_Some _ _ _ _ Ha Hx).
  - destruct (tapp.TearDownServer_begin y); simpl; by split; auto.
  - destruct (task_pairs t w w' Hn Hst) as [El Hx]. split; [exact (Nat.eq_le_incl _ _ (eq_sym El))|].
    intros a p Ha Hw. refine (eq_trans (Hx a _) Ha). intros ->. by apply Hw.
  - pose proof (fixed_out _ _ _ _ (SetupConnection_begin_fixed _) Hb) as Hf. simpl in Hf.
    rewrite (written_length _ _ _ _ _ Hy Hf). split; [done|]. intros a' p' Ha Hw. by apply (written_pair _ _ _ _ _ _ _ Hy Hf).
  - pose proof (fixed_out _ _ _ _ (SetupConnection_end_fixed _ _) Hb) as Hf. simpl in Hf.
    rewrite (written_length _ _ _ _ _ Hy Hf). split; [done|]. intros a' p' Ha Hw. by apply (written_pair _ _ _ _ _ _ _ Hy Hf).
  - pose proof (own_step_fixed _ _ _ Hown) as Hf. simpl in Hf.
    rewrite (written_length _ _ _ _ _ Hy Hf). split; [done|]. intros a' p' Ha Hw. by apply (written_pair _ _ _ _ _ _ _ Hy Hf).
Qed.

(** A stream stays on its pair. *)
Lemma pod_streams (P : pod) lb P' c x :
  step P lb P' -> todo_tame P -> streams (p_ext P) !! c = Some x ->
  exists x', streams (p_ext P') !! c = Some x' /\ tgen.pairAt x' = tgen.pairAt x.
Proof.
  assert (forall (s : process) c' y y' q, streams s !! c = Some x -> streams s !! c' = Some y ->
    tgen.pairAt y' = tgen.pairAt y -> exists x', streams (put_stream c' y' q s) !! c = Some x' /\ tgen.pairAt x' = tgen.pairAt x) as Hput.
  { intros s c' y y' q Hx Hy E. destruct (decide (c' = c)) as [->|Hne].
    - exists y'. rewrite (lookup_put_eq _ _ _ _ _ Hy). split; [done|congruence].
    - exists x. by rewrite lookup_put_ne. }
  intros Hst Ht Hx.
  destruct Hst as [e ev w w' l go sgo cn He Hp|m l w w' go sgo cn Hm|w go sgo cn
    |a p c' y b y' q' l w go sgo cn Hp Hc Hy Hb|c' y y' q' l w go sgo cn Hy Hi Hb
    |a y l w go sgo cn Hy|a y l w go sgo cn Hy Hi|t w w' go sgo cn l wt Hn Hst
    |a p c' y r y' q' l1 l2 w go sgo cn l wt Hts Hp Hc Hy Hb Hr|net a c' y r y' q' cn1 cn2 w go sgo l wt Hy Hb Hr
    |c' k y lb y' q' g' w go sgo cn l wt Hy Hk Hown|a y lb y' q' g' w go sgo cn l wt Hy Hlb Hown];
    unfold p_ext in *; simpl in *; try (by exists x).
  - exists x. by destruct (grown_view c _ _ x (plan_grows _ _ _ _ _ Hp) Hx).
  - apply Forall_cons in Ht as [Hm' _]. exists x. by destruct (grown_view c _ _ x (code_grows _ _ _ Hm' Hm) Hx).
  - apply (Hput _ c' y); [done..|]. by injection (fixed_out _ _ _ _ TearDownConnection_begin_fixed Hb).
  - apply (Hput _ c' y); [done..|]. by injection (fixed_out _ _ _ _ deRegisterStreamMetrics_fixed Hb).
  - exists x. by destruct (tapp.TearDownServer_begin y).
  - exists x. by destruct (task_grows t w w' c x Hn Hst Hx).
  - apply fetched in Hy as (z & b & Hz & _ & ->). apply (Hput _ c' z); [done..|].
    by injection (fixed_out _ _ _ _ (SetupConnection_begin_fixed _) Hb).
  - apply fetched in Hy as (z & b & Hz & _ & ->). apply (Hput _ c' z); [done..|].
    by injection (fixed_out _ _ _ _ (SetupConnection_end_fixed _ _) Hb).
  - apply fetched in Hy as (z & b & Hz & _ & ->). apply (Hput _ c' z); [done..|].
    by injection (own_step_fixed _ _ _ Hown).
Qed.

(** A teardown does not look at the pair. *)
Lemma begin_pair b y q r y' q' :
  tgen.TearDownConnection_begin (y, q) = (r, (y', q')) ->
  tgen.TearDownConnection_begin (tgen.set_pair b y, q) = (r, (tgen.set_pair b y', q')).
Proof.
  unfold tgen.TearDownConnection_begin, tgen.get, tgen.deref, tgen.lib, tgen.upd, bind, gets, lift, modify, ret. simpl.
  destruct (tgen.trafficNotStarted y); simpl; [|by intros [= <- <- <-]].
  destruct (tgen.connection y); simpl; by intros [= <- <- <-].
Qed.

Lemma fetch_put y y' c q (s : process) ps b :
  streams s !! c = Some y -> ps !! tgen.pairAt y = Some b -> tgen.pairAt y' = tgen.pairAt y ->
  streams (put_stream c y' q s) !! c ≫= fetch ps = Some (tgen.set_pair b y').
Proof. intros Hy Hb E. rewrite (lookup_put_eq _ _ _ _ _ Hy). unfold fetch. simpl. by rewrite E, Hb. Qed.

(** The two halves of the stream's own teardown. *)
Lemma view_torn_begin c (w : world) go sgo cn l l' y r y' q' v :
  view c (mkPod w go sgo cn l None) = Some v -> streams (w_ext w : process) !! c = Some y ->
  tgen.TearDownConnection_begin (y, metrics (w_ext w : process)) = (Ok r, (y', q')) ->
  exists ls v', steps stream.alone_step v ls v' /\
    view c (mkPod (with_ext (put_stream c y' q' (w_ext w)) w) go sgo cn l' (if r : bool then Some (WClient c) else None)) = Some v'.
Proof.
  intros (x & Hx & ->)%view_inv Hy Hb. unfold p_ext in *. simpl in *.
  apply fetched in Hx as (y0 & b & Hy0 & Hp & ->). pose proof (eq_trans (eq_sym Hy0) Hy) as [= ->]. clear Hy0.
  pose proof (fixed_out _ _ _ _ TearDownConnection_begin_fixed Hb) as [= Ea _ _ _ _].
  pose proof (fetch_put y y' c q' (w_ext w) (w_pairs w) b Hy Hp Ea) as Hf.
  apply (begin_pair b) in Hb as Hb'. destruct r.
  - exists [stream.LTau]. eexists. split; [apply steps_one, stream.step_teardown_begin; [|exact Hb']|].
    + unfold td_of. simpl. by destruct (tgen.stop y).
    + rewrite (view_of _ _ (tgen.set_pair b y')); [|exact Hf]. unfold td_of. simpl. rewrite decide_True by done.
      apply TearDownConnection_begin_inv in Hb as (k & m & _ & _ & [= -> ->]). done.
  - apply begin_false in Hb. simpl in Hb. subst y'.
    exists [stream.LEnv]. eexists. split; [apply steps_one, stream.step_env|].
    rewrite (view_of _ _ (tgen.set_pair b y)); [done|exact Hf].
Qed.

Lemma view_torn_end c (w : world) go sgo cn l y y' q' v :
  view c (mkPod w go sgo cn l (Some (WClient c))) = Some v -> world_ok v ->
  streams (w_ext w : process) !! c = Some y -> tgen.isStopped y = 0 ->
  tgen.TearDownConnection_end (y, metrics (w_ext w : process)) = (Ok tt, (y', q')) ->
  exists v', stream.alone_step v stream.LTau v' /\
    view c (mkPod (with_ext (put_stream c y' q' (w_ext w)) w) go sgo cn l None) = Some v' /\
    stream.w_c v' = stream.w_c v /\ stream.w_conf v' = stream.w_conf v /\ stream.w_snd v' = stream.w_snd v /\
    running v' = running v.
Proof.
  intros (x & Hx & ->)%view_inv Hok Hy Hi Hb. unfold p_ext in *. simpl in *.
  apply fetched in Hx as (y0 & b & Hy0 & Hp & ->). pose proof (eq_trans (eq_sym Hy0) Hy) as [= ->]. clear Hy0.
  injection Hb as <- <-. unfold td_of in *. simpl in *. rewrite decide_True in Hok |- * by done.
  eexists. split_and!; [by apply stream.step_teardown_end| |done..].
  rewrite (view_of _ _ (tgen.set_pair b y)); [|exact (fetch_put y y c _ (w_ext w) (w_pairs w) b Hy Hp eq_refl)].
  do 2 f_equal. unfold td_of. simpl. pose proof (ok_stop _ Hok) as Hs. simpl in Hs. by rewrite Hs.
Qed.

(** A stream's own step writes its pair. *)
Lemma fetch_written x x' c q (w : world) :
  streams (w_ext w : process) !! c ≫= fetch (w_pairs w) = Some x -> fixed x' = fixed x ->
  streams (w_ext (with_stream c x' q w) : process) !! c ≫= fetch (w_pairs (with_stream c x' q w)) = Some x'.
Proof.
  intros (y & b & Hy & Hp & ->)%fetched [= Ea _ _ _ _]. simpl. rewrite list_lookup_insert_eq by (by eapply lookup_lt_Some).
  simpl. unfold fetch, put_back. rewrite list_lookup_insert_eq.
  - simpl. by rewrite set_pair_same.
  - rewrite Ea. by eapply lookup_lt_Some.
Qed.

Lemma view_own c (w : world) go sgo cn l wt x lb x' q' g' v :
  view c (mkPod w go sgo cn l wt) = Some v -> world_ok v ->
  streams (w_ext w : process) !! c ≫= fetch (w_pairs w) = Some x ->
  own_step (stream_world x (metrics (w_ext w : process)) (conf (w_ext w : process))
              (default (first_go x) (go !! (c, 0%nat))) stream.DIdle) lb
           (stream_world x' q' (conf (w_ext w : process)) g' stream.DIdle) ->
  exists v', own_step v lb v' /\
    view c (mkPod (with_stream c x' q' w) (<[(c, 0%nat) := g']> go) sgo cn l wt) = Some v'.
Proof.
  intros (y & Hy & Ev)%view_inv Hok Hx Hown. pose proof (eq_trans (eq_sym Hy) Hx) as [= ->]. clear Hy. unfold p_ext in *. simpl in *.
  pose proof (own_step_fixed _ _ _ Hown) as Hf. simpl in Hf.
  apply (stream_world_own _ _ _ _ _ _ (td_of c x (mkPod w go sgo cn l wt))) in Hown.
  eexists. split; [rewrite Ev; exact Hown|].
  rewrite (view_of _ _ x'); [|exact (fetch_written x x' c q' w Hx Hf)]. simpl.
  rewrite lookup_insert_eq. simpl. do 2 f_equal. unfold td_of. simpl.
  apply own_stop in Hown; [|rewrite Ev in Hok; apply Hok]. simpl in Hown. by rewrite Hown.
Qed.

(** Who moves the stream itself. *)
Definition own_of (c : nat) (lb : label) : Prop := exists l, lb = PStream c l.

(** Closes the conditions of [view_drift]. *)
Ltac drifting x Hdrift :=
  apply (Hdrift x); first [done | by apply list_lookup_insert_ne | by intros [? [=]] | by apply lookup_insert_ne; congruence | naive_solver congruence].

(** A step of a pod, seen by a stream that is not being set up: steps of
    [stream.step], and of [stream.alone_step] when it is its own or nobody
    writes its pair. *)
Lemma view_step c (P : pod) lb P' v :
  todo_tame P -> step P lb P' -> lb <> PSetup c -> lb <> PConnect c -> (starts c (p_ext P') <= 1)%nat ->
  view c P = Some v -> world_ok v ->
  exists ls v', steps stream.step v ls v' /\ view c P' = Some v' /\
    (own_of c lb \/ ~ writer P lb (tgen.pairAt (stream.w_c v)) -> steps stream.alone_step v ls v').
Proof.
  intros Ht Hst Hns Hnc Hs Hv Hok. destruct (pod_pairs _ _ _ Hst Ht) as [Hlen Hpairs].
  assert (forall x, streams (p_ext P') !! c = streams (p_ext P) !! c -> streams (p_ext P) !! c = Some x ->
    p_go P' !! (c, 0%nat) = p_go P !! (c, 0%nat) -> rtc loaded (conf (p_ext P)) (conf (p_ext P')) ->
    (p_wait P' = Some (WClient c) <-> p_wait P = Some (WClient c)) -> ~ own_of c lb ->
    exists ls v', steps stream.step v ls v' /\ view c P' = Some v' /\
      (own_of c lb \/ ~ writer P lb (tgen.pairAt (stream.w_c v)) -> steps stream.alone_step v ls v')) as Hdrift.
  { intros x0 E1 _ E2 E3 E4 Hno. destruct (view_drift c P P' v Hv E1 E2 E3 E4 Hlen) as (ls & v' & Hr & Hv' & Ha).
    exists ls, v'. split_and!; [done|done|]. intros [|Hw]; [done|]. apply Ha.
    destruct (view_inv _ _ _ Hv) as (x & Hx & ->). simpl in *. apply fetched in Hx as (y & b & _ & Hb & ->). simpl in *.
    by rewrite Hb, (Hpairs _ _ Hb Hw). }
  assert (exists x, streams (p_ext P) !! c = Some x) as [x Hx].
  { destruct (view_inv _ _ _ Hv) as (x & Hx & _). apply fetched in Hx as (y & b & Hy & _). eauto. }
  clear Hlen Hpairs.
  destruct Hst as [e ev w w' l go sgo cn He Hp|m l w w' go sgo cn Hm|w go sgo cn
    |a p c' y b y' q' l w go sgo cn Hp Hc Hy Hb|c' y y' q' l w go sgo cn Hy Hi Hb
    |a y l w go sgo cn Hy|a y l w go sgo cn Hy Hi|t w w' go sgo cn l wt Hn Hst
    |a p c' y r y' q' l1 l2 w go sgo cn l wt Hts Hp Hc Hy Hb Hr|net a c' y r y' q' cn1 cn2 w go sgo l wt Hy Hb Hr
    |c' k y lb y' q' g' w go sgo cn l wt Hy Hk Hown|a y lb y' q' g' w go sgo cn l wt Hy Hlb Hown];
    unfold p_ext in *; simpl in *;
    try (assert (c' <> c) as Hne by congruence;
         by apply (Hdrift x); [by apply list_lookup_insert_ne|..|intros [? [=]]]).
  - destruct (grown_view c _ _ x (plan_grows _ _ _ _ _ Hp) Hx) as [Hx' Hk].
    apply (Hdrift x (eq_trans Hx' (eq_sym Hx)) Hx eq_refl Hk); [done|by intros [? [=]]].
  - apply Forall_cons in Ht as [Hm' _].
    destruct (grown_view c _ _ x (code_grows _ _ _ Hm' Hm) Hx) as [Hx' Hk].
    apply (Hdrift x (eq_trans Hx' (eq_sym Hx)) Hx eq_refl Hk); [done|by intros [? [=]]].
  - drifting x Hdrift.
  - destruct (decide (c' = c)) as [->|Hne].
    + destruct (view_torn_begin c w go sgo cn (Some (AClient a :: l)) (Some l) y b y' q' v Hv Hy Hb) as (ls & v' & Hr & Hv').
      exists ls, v'. split_and!; [by apply alone_steps|done|done].
    + destruct b; drifting x Hdrift.
  - destruct (decide (c' = c)) as [->|Hne].
    + destruct (view_torn_end c w go sgo cn l y y' q' v Hv Hok Hy Hi Hb) as (v' & Hst & Hv' & _).
      exists [stream.LTau], v'. split_and!; [by apply steps_one, stream.step_alone|done|intros _; by apply steps_one].
    + drifting x Hdrift.
  - destruct (tapp.TearDownServer_begin y); drifting x Hdrift.
  - drifting x Hdrift.
  - destruct (task_grows t w w' c x Hn Hst Hx) as [Hx' Hk].
    apply (Hdrift x (eq_trans Hx' (eq_sym Hx)) Hx eq_refl Hk); [done|by intros [? [=]]].
  - destruct (decide (c' = c)) as [->|Hne].
    + unfold starts in *. simpl in Hs. assert (k = 0%nat) as -> by lia.
      destruct (view_own c w go sgo cn l wt y lb y' q' g' v Hv Hok Hy Hown) as (v' & Hst & Hv').
      exists [lb], v'. apply own_step_step in Hst.
      split_and!; [by apply steps_one, stream.step_alone|done|intros _; by apply steps_one].
    + drifting x Hdrift.
  - drifting x Hdrift.
Qed.

Lemma starts_grown c s s' : grown s s' -> (starts c s <= starts c s')%nat.
Proof. intros Hg. unfold starts. by rewrite (grown_going _ _ Hg). Qed.

(** Goroutines are started, and never taken back. *)
Lemma starts_mono c (P : pod) lb P' : step P lb P' -> todo_tame P -> (starts c (p_ext P) <= starts c (p_ext P'))%nat.
Proof.
  intros Hst Ht. destruct Hst; unfold p_ext; simpl; try done.
  - rename select (plan _ _ _ = _) into Hp. exact (starts_grown c _ _ (plan_grows _ _ _ _ _ Hp)).
  - unfold todo_tame in Ht. simpl in Ht. apply Forall_cons in Ht as [Hm' _]. rename select (m w = _) into Hm.
    exact (starts_grown c _ _ (code_grows _ _ _ Hm' Hm)).
  - by destruct (tapp.TearDownServer_begin x).
  - rename select (tgc.step _ _ _) into Hst. rename select (forall a, _ <> _) into Hn.
    destruct (task_effect t w w' Hn Hst) as [Hg|[b E]]; [exact (starts_grown c _ _ Hg)|].
    trans (starts c (stream_start b (w_ext w : process)).2); [|exact (Nat.eq_le_incl _ _ (f_equal (starts c) (eq_sym E)))].
    unfold starts. simpl. case_match; lia.
Qed.

Lemma starts_run c (P : pod) ls P' :
  steps step P ls P' -> todo_tame P -> (starts c (p_ext P) <= starts c (p_ext P'))%nat /\ todo_tame P'.
Proof.
  induction 1 as [|P lb P1 ls P2 Hst _ IH]; intros Ht; [done|].
  destruct (IH (todo_tame_step _ _ _ Hst Ht)). pose proof (starts_mono c _ _ _ Hst Ht). split; [lia|done].
Qed.

Lemma streams_run (P : pod) ls P' c x :
  steps step P ls P' -> todo_tame P -> streams (p_ext P) !! c = Some x ->
  exists x', streams (p_ext P') !! c = Some x' /\ tgen.pairAt x' = tgen.pairAt x.
Proof.
  intros Hr. revert x. induction Hr as [P|P lb P1 ls P2 Hst _ IH]; intros x Ht Hx; [by exists x|].
  destruct (pod_streams _ _ _ _ _ Hst Ht Hx) as (x1 & Hx1 & E1).
  destruct (IH x1 (todo_tame_step _ _ _ Hst Ht) Hx1) as (x2 & Hx2 & E2). exists x2. split; [done|congruence].
Qed.

(** No other stream of the pod is on the pair at [a]. *)
Definition sole (c a : nat) (P : pod) : Prop :=
  forall c' x, streams (p_ext P) !! c' = Some x -> tgen.pairAt x = a -> c' = c.

Lemma sole_writer c a (P : pod) lb P' ls P2 :
  todo_tame P -> steps step P' ls P2 -> step P lb P' -> sole c a P2 -> lb <> PSetup c -> lb <> PConnect c ->
  lb <> PTask (TCreate a) -> own_of c lb \/ ~ writer P lb a.
Proof.
  intros Ht Hr Hst Hsole Hns Hnc Hc.
  assert (forall c', (exists x, streams (p_ext P) !! c' = Some x /\ tgen.pairAt x = a) -> c' = c) as Hx.
  { intros c' (x & Hx & E). pose proof (steps_cons step _ _ _ _ _ Hst Hr) as Hr'.
    destruct (streams_run _ _ _ _ _ Hr' Ht Hx) as (x' & Hx' & E'). apply (Hsole c' x' Hx'). congruence. }
  destruct lb as [ev| |c'|c'|a'|a'| |t|c'|c'|c' l|a' l]; try (right; by intros []).
  - right. destruct t as [b|b|b]; simpl; [|by intros []..]. intros ->. by apply Hc.
  - right. intros ->%Hx. by apply Hns.
  - right. intros ->%Hx. by apply Hnc.
  - destruct (decide (c' = c)) as [->|Hne]; [left; by exists l|right]. intros E%Hx. done.
Qed.

Lemma alone_fixed w lb w' : stream.alone_step w lb w' -> fixed (stream.w_c w') = fixed (stream.w_c w).
Proof.
  intros Hst. destruct Hst; [by eapply own_step_fixed; econstructor..| | |done|done]; simpl.
  - rename select (tgen.TearDownConnection_begin _ = _) into E. by apply (fixed_out _ _ _ _ TearDownConnection_begin_fixed) in E.
  - rename select (tgen.TearDownConnection_end _ = _) into E. by apply (fixed_out _ _ _ _ deRegisterStreamMetrics_fixed) in E.
Qed.
Lemma step_at w lb w' : stream.step w lb w' -> tgen.pairAt (stream.w_c w') = tgen.pairAt (stream.w_c w).
Proof. intros [v l v' Hst|b v]; [|done]. by injection (alone_fixed _ _ _ Hst). Qed.

Lemma view_run c (P : pod) ls P' v :
  steps step P ls P' -> todo_tame P -> PSetup c ∉ ls -> PConnect c ∉ ls -> (starts c (p_ext P') <= 1)%nat ->
  view c P = Some v -> world_ok v ->
  exists ls' v', steps stream.step v ls' v' /\ view c P' = Some v' /\ world_ok v' /\
    (PTask (TCreate (tgen.pairAt (stream.w_c v))) ∉ ls -> sole c (tgen.pairAt (stream.w_c v)) P' ->
     steps stream.alone_step v ls' v').
Proof.
  intros Hr. revert v. induction Hr as [P|P lb P1 ls P2 Hst Hr IH]; intros v Ht Hns Hnc Hs Hv Hok.
  { exists [], v. split_and!; [apply steps_nil|done|done|]. intros _ _. apply steps_nil. }
  apply not_elem_of_cons in Hns as [Hns1 Hns], Hnc as [Hnc1 Hnc].
  pose proof (todo_tame_step _ _ _ Hst Ht) as Ht1. destruct (starts_run c _ _ _ Hr Ht1) as [Hle _].
  destruct (view_step c _ _ _ v Ht Hst) as (ls1 & v1 & Hr1 & Hv1 & Ha1); [congruence|congruence|lia|done|done|].
  assert (world_ok v1 /\ tgen.pairAt (stream.w_c v1) = tgen.pairAt (stream.w_c v)) as [Hok1 Eat].
  { apply (steps_invariant stream.step (fun u => world_ok u /\ tgen.pairAt (stream.w_c u) = tgen.pairAt (stream.w_c v)) v) with ls1;
      [done| |done]. intros s l s' [Hx E] Hst1. split; [by eapply step_ok|]. by rewrite (step_at _ _ _ Hst1). }
  destruct (IH v1 Ht1 Hns Hnc Hs Hv1 Hok1) as (ls2 & v2 & Hr2 & Hv2 & Hok2 & Ha2). rewrite Eat in Ha2.
  exists (ls1 ++ ls2), v2. split_and!; [by eapply steps_app|done|done|].
  intros [Hc1 Hc]%not_elem_of_cons Hsole. eapply steps_app; [|by apply Ha2]. apply Ha1.
  eapply sole_writer; [exact Ht|exact Hr|exact Hst|exact Hsole|congruence..].
Qed.

(** ** A handler that waits for a stream *)

(** What steps of one stream, or of one server, leave alone. *)
Record elsewhere (who : waiting) (P P' : pod) : Prop := mkElsewhere {
  el_tg : w_tg (p_w P') = w_tg (p_w P);
  el_pairs : length (w_pairs (p_w P')) = length (w_pairs (p_w P));
  el_client a : client_of (w_pairs (p_w P')) a = client_of (w_pairs (p_w P)) a;
  el_going : going (p_ext P') = going (p_ext P);
  el_conf : conf (p_ext P') = conf (p_ext P);
  el_streams c : who <> WClient c -> streams (p_ext P') !! c = streams (p_ext P) !! c;
  el_go c k : who <> WClient c -> p_go P' !! (c, k) = p_go P !! (c, k);
  el_length : length (servers (p_ext P')) = length (servers (p_ext P));
  el_servers a : who <> WServer a -> servers (p_ext P') !! a = servers (p_ext P) !! a;
  el_server_go a : who <> WServer a -> p_server_go P' !! a = p_server_go P !! a
}.

#[global] Instance elsewhere_preorder who : PreOrder (elsewhere who).
Proof.
  split; [done|]. intros P1 P2 P3 [A1 A2 A3 A4 A5 A6 A7 A8 A9 A10] [B1 B2 B3 B4 B5 B6 B7 B8 B9 B10].
  split; try congruence; intros.
  - by rewrite B6, A6.
  - by rewrite B7, A7.
  - by rewrite B9, A9.
  - by rewrite B10, A10.
Qed.

Lemma elsewhere_put c x q (w : world) go go' sgo cn l l' wt wt' :
  (forall c' k, c' <> c -> go' !! (c', k) = go !! (c', k)) ->
  elsewhere (WClient c) (mkPod w go sgo cn l wt) (mkPod (with_ext (put_stream c x q (w_ext w)) w) go' sgo cn l' wt').
Proof.
  intros Hg. split; try done; unfold p_ext; simpl.
  - intros c' Hne. apply list_lookup_insert_ne. congruence.
  - intros c' k Hne. apply Hg. congruence.
Qed.

Lemma client_written (ss : list tgen.udpStream) ps c x x' a :
  ss !! c ≫= fetch ps = Some x -> fixed x' = fixed x -> client_of (put_back x' ps) a = client_of ps a.
Proof.
  intros (y & b & Hy & Hb & ->)%fetched [= Ea _ _ _ Ec]. unfold client_of, put_back. rewrite Ea.
  destruct (decide (a = tgen.pairAt y)) as [->|Hne]; [|by rewrite list_lookup_insert_ne].
  rewrite list_lookup_insert_eq by (by eapply lookup_lt_Some). by rewrite Hb.
Qed.

Lemma elsewhere_own c x x' q (w : world) go g sgo cn l wt :
  streams (w_ext w : process) !! c ≫= fetch (w_pairs w) = Some x -> fixed x' = fixed x ->
  elsewhere (WClient c) (mkPod w go sgo cn l wt) (mkPod (with_stream c x' q w) (<[(c, 0%nat) := g]> go) sgo cn l wt).
Proof.
  intros Hx Hf. split; try done; unfold p_ext; simpl.
  - exact (written_length _ _ _ _ _ Hx Hf).
  - intros a. exact (client_written _ _ _ _ _ a Hx Hf).
  - intros c' Hne. apply list_lookup_insert_ne. congruence.
  - intros c' k Hne. apply lookup_insert_ne. congruence.
Qed.

(** Steps of the stream's goroutines alone, made in the pod. *)
Lemma own_in_pod c (P : pod) v ls v' :
  steps own_step v ls v' -> view c P = Some v -> (0 < starts c (p_ext P))%nat -> world_ok v ->
  exists P', steps step P (PStream c <$> ls) P' /\ view c P' = Some v' /\
    p_wait P' = p_wait P /\ p_todo P' = p_todo P /\ elsewhere (WClient c) P P'.
Proof.
  intros Hr. revert P. induction Hr as [v|v lb v1 ls v2 Hst Hr IH]; intros P Hv Hs Hok.
  { exists P. split_and!; [apply steps_nil|done..]. }
  destruct (view_inv _ _ _ Hv) as (x & Hx & Ev). destruct (own_ok _ _ _ Hst Hok) as [Hok1 Htd].
  pose proof (own_conf _ _ _ Hst) as Hk. pose proof (own_stop _ _ _ Hst (ok_equipped _ Hok)) as Hstop.
  pose proof (own_step_fixed _ _ _ Hst) as Hf.
  destruct P as [w go sgo cn l wt]. unfold p_ext in *. simpl in *.
  destruct v1 as [x1 q1 k1 sn1 tp1 t1 rd1 b1 td1]. rewrite Ev in Hst, Htd, Hk, Hstop, Hf. simpl in *. subst k1.
  assert (own_step (stream_world x (metrics (w_ext w)) (conf (w_ext w)) (default (first_go x) (go !! (c, 0%nat))) stream.DIdle) lb
    (stream_world x1 q1 (conf (w_ext w)) (mkGo sn1 tp1 t1 rd1 b1) stream.DIdle)) as Hown.
  { unfold stream_world in *. inversion Hst; subst; by econstructor. }
  set (P1 := mkPod (with_stream c x1 q1 w) (<[(c, 0%nat) := mkGo sn1 tp1 t1 rd1 b1]> go) sgo cn l wt : pod).
  destruct (IH P1) as (P2 & Hr2 & Hv2 & Hw2 & Ht2 & Hel); [|done|done|].
  - rewrite (view_of _ _ x1); [|exact (fetch_written x x1 c q1 w Hx Hf)]. unfold P1, p_ext. simpl.
    rewrite lookup_insert_eq. simpl. unfold stream_world. simpl. rewrite Htd. unfold td_of. simpl. by rewrite Hstop.
  - exists P2. split_and!; [|done|done|done|].
    + csimpl. eapply steps_cons; [|exact Hr2]. by eapply (pod_stream c 0%nat).
    + etrans; [|exact Hel]. by eapply elsewhere_own.
Qed.
End Grown.
