(* ===== verification/PodHandles.v ===== *)
(** * The metrics of a pod

    In every state a pod reaches, each metric that a stream or a server holds
    belongs to it alone; so what one of them does leaves the values of the
    others' metrics as they are. *)
From S2P Require Import Prelude GoInt Strconv Message Metrics Net Pair Pairing TApp TGen TGenStep TGenProofs Ledger TGenRefine TGenInv Config TGC TGCTheorems Plan TGCRuns Streams Handles Pod PodProofs.
Import tgc pod.

Section Apart.
Context `{Msgpack} `{PromLaws}.
Implicit Types (s : process) (who : waiting).

Definition holds s who (h : metric) : Prop :=
  match who with
  | WClient c => exists x, streams s !! c = Some x /\ stream_holds x h
  | WServer a => exists x, servers s !! a = Some x /\ tapp.owns x h
  end.

Record apart s : Prop := mkApart {
  ap_live who h : holds s who h -> prom_live h (metrics s);
  ap_one who1 who2 h : holds s who1 h -> holds s who2 h -> who1 = who2
}.

(** Only [who] acts. *)
Record acts who s s' : Prop := mkActs {
  ac_private : private (holds s who) (metrics s) (holds s' who) (metrics s');
  ac_others who' h : who' <> who -> holds s' who' h -> holds s who' h
}.

Lemma acts_apart who s s' : acts who s s' -> apart s -> apart s'.
Proof.
  intros [[L V N K] O] [Al A1].
  assert (forall who' h, holds s' who' h -> prom_live h (metrics s')) as Hl.
  { intros who' h Hh. destruct (decide (who' = who)) as [->|Hne]; [|by apply L, (Al who'), O].
    destruct (K h Hh) as [Hk|]; [|done]. by apply L, (Al who). }
  assert (forall who' h, who' <> who -> holds s' who h -> holds s' who' h -> False) as Hx.
  { intros who' h Hne Hh Hh'. apply O in Hh'; [|done]. destruct (N h Hh) as [Hs|Hn]; [by apply Hne, (A1 who' who h)|].
    by apply Hn, (Al who'). }
  split; [done|]. intros who1 who2 h Hh1 Hh2.
  destruct (decide (who1 = who)) as [->|H1'], (decide (who2 = who)) as [->|H2']; [done|by destruct (Hx who2 h)|by destruct (Hx who1 h)|].
  by apply (A1 who1 who2 h); apply O.
Qed.

(** What that is for a server that does not act. *)
Lemma acts_spares who s s' a x :
  acts who s s' -> apart s -> who <> WServer a -> servers s !! a = Some x ->
  same_values_but (fun h => ~ tapp.owns x h) (metrics s) (metrics s').
Proof.
  intros [[L V _ _] _] [_ A1] Hne Hx. split; [done|]. intros h Hl Hh. apply V; [done|]. intros Hw.
  apply Hh. intros Ho. apply Hne. apply (A1 who (WServer a) h Hw). by exists x.
Qed.

Lemma quiet_acts who s s' :
  same_values (metrics s) (metrics s') -> (forall who' h, holds s' who' h -> holds s who' h) -> acts who s s'.
Proof. intros Hq Hh. split; [by apply private_quiet; [|apply Hh]|auto]. Qed.

(** A stream, or a server, changed by its own doing. *)
Lemma owned_acts {X} (hold : X -> metric -> Prop) x x' who s s' :
  (forall h, holds s who h <-> hold x h) -> (forall h, holds s' who h -> hold x' h) ->
  (forall who' h, who' <> who -> holds s' who' h -> holds s who' h) ->
  apart s -> owned hold (x, metrics s) (x', metrics s') -> acts who s s'.
Proof.
  intros Hs Hs' Ho [Al _] Hx. destruct Hx as [L V N K]; [by intros h Hh%Hs; apply (Al who)|]. simpl in *.
  split; [split|]; [done| | | |exact Ho].
  - intros h Hl Hn. apply V; [done|]. by intros Hh%Hs.
  - intros h [Hh|]%Hs'%N; [left; by apply Hs|by right].
  - intros h [Hh|]%Hs'%K; [left; by apply Hs|by right].
Qed.

Lemma looked_up {X} (hold : X -> metric -> Prop) (l : list X) (n : nat) x h :
  l !! n = Some x -> (exists y, l !! n = Some y /\ hold y h) <-> hold x h.
Proof. intros Hx. split; [by intros (y & Hy & Hh); simplify_eq|by exists x]. Qed.

Lemma stream_acts c x x' q' s :
  streams s !! c = Some x -> apart s -> owned stream_holds (x, metrics s) (x', q') ->
  acts (WClient c) s (put_stream c x' q' s).
Proof.
  intros Hx Ha Ho. pose proof (lookup_lt_Some _ _ _ Hx) as Hlt. apply (owned_acts stream_holds x x'); [..|done|done].
  - intros h. by apply looked_up.
  - intros h. apply looked_up. simpl. by rewrite list_lookup_insert_eq.
  - intros [c'|a] h Hne; simpl; [|done]. rewrite list_lookup_insert_ne by congruence. done.
Qed.

(** The pair holds no metrics. *)
Lemma fetched_acts c ps x x' q' s :
  streams s !! c ≫= fetch ps = Some x -> apart s -> owned stream_holds (x, metrics s) (x', q') ->
  acts (WClient c) s (put_stream c x' q' s).
Proof. intros (y & b & Hy & _ & ->)%fetched. apply (stream_acts c y x' q' s Hy). Qed.

Lemma server_acts a x x' q' s :
  servers s !! a = Some x -> apart s -> owned tapp.owns (x, metrics s) (x', q') ->
  acts (WServer a) s (put_server a x' q' s).
Proof.
  intros Hx Ha Ho. pose proof (lookup_lt_Some _ _ _ Hx) as Hlt. apply (owned_acts tapp.owns x x'); [..|done|done].
  - intros h. by apply looked_up.
  - intros h. apply looked_up. simpl. by rewrite list_lookup_insert_eq.
  - intros [c'|b] h Hne; simpl; [done|]. rewrite list_lookup_insert_ne by congruence. done.
Qed.
End Apart.

Section Kept.
Context `{Msgpack} `{PromLaws} `{JsonSource} `{Yaml} (env : NetEnv) (namespace podName nodeName : string).
#[local] Instance kept_Protocols : Protocols := stream_Protocols env namespace podName nodeName.
Implicit Types (s : process) (q : prom).

(** Servers made one after the other, and nothing else done to the metrics. *)
Inductive makes : prom -> list tapp.udpServer -> prom -> Prop :=
| makes_nil q q' : same_values q q' -> makes q [] q'
| makes_cons q q0 k ip ifn n x q1 l q' :
    same_values q q0 -> tapp.CreateServer env k namespace podName nodeName ip ifn n q0 = Ok (x, q1) ->
    makes q1 l q' -> makes q (x :: l) q'.

(** A server as it was made, at some time since. *)
Definition made (x : tapp.udpServer) q : Prop :=
  exists k ip ifn n q0 q1,
    tapp.CreateServer env k namespace podName nodeName ip ifn n q0 = Ok (x, q1) /\ same_values q1 q.

Lemma created_same k ip ifn n q x q' :
  tapp.CreateServer env k namespace podName nodeName ip ifn n q = Ok (x, q') -> same_values q q'.
Proof. intros [L V _ _]%CreateServer_private. split; [done|]. intros h Hl _. by apply V; [|intros []]. Qed.

Lemma makes_same q l q' : makes q l q' -> same_values q q'.
Proof.
  induction 1 as [|q q0 k ip ifn n x q1 l q' Hq E _ IH]; [done|].
  etransitivity; [exact Hq|]. etransitivity; [by eapply created_same|done].
Qed.

Lemma makes_after q0 q l q' : same_values q0 q -> makes q l q' -> makes q0 l q'.
Proof. intros Hq. destruct 1; [apply makes_nil|eapply makes_cons; [|done..]]; (etransitivity; [exact Hq|done]). Qed.

Lemma makes_app q l q' l' q'' : makes q l q' -> makes q' l' q'' -> makes q (l ++ l') q''.
Proof. induction 1; intros Hm; simpl; [by eapply makes_after|]. econstructor; eauto. Qed.

Lemma makes_made q l q' a x : makes q l q' -> l !! a = Some x -> made x q'.
Proof.
  intros Hm. revert a. induction Hm as [|q q0 k ip ifn n y q1 l q' Hq E Hm IH]; intros a Ha; [done|].
  destruct a as [|a]; simpl in Ha; [|by eapply IH]. injection Ha as ->. do 6 eexists. split; [exact E|].
  by eapply makes_same.
Qed.

Definition bare (x : tgen.udpStream) : Prop := forall h, ~ stream_holds x h.

(** What code of the controller does to streams, servers and metrics. *)
Record kept s s' : Prop := mkKept {
  kept_streams : exists new, streams s' = streams s ++ new /\ Forall bare new;
  kept_servers : exists new, servers s' = servers s ++ new /\ makes (metrics s) new (metrics s')
}.

Lemma kept_same s s' :
  streams s' = streams s -> servers s' = servers s -> same_values (metrics s) (metrics s') -> kept s s'.
Proof.
  intros Es Ev Hq. split; exists []; rewrite app_nil_r; [done|]. split; [done|by apply makes_nil].
Qed.

#[export] Instance kept_Grows : Grows env namespace podName nodeName kept.
Proof.
  split.
  - split; [intros s; by apply kept_same|]. intros s1 s2 s3 [(l1 & E1 & B1) (k1 & F1 & M1)] [(l2 & E2 & B2) (k2 & F2 & M2)].
    split; [exists (l1 ++ l2)|exists (k1 ++ k2)]; (split; [rewrite ?E2, ?E1, ?F2, ?F1; by rewrite <- app_assoc|]).
    + by apply Forall_app.
    + by eapply makes_app.
  - intros m s. unfold stream_load. destruct (tgen.LoadBatProfileConfig m (conf s)). by apply kept_same.
  - intros m s. unfold server_load. destruct (tapp.LoadBatProfileConfig m (srv_conf s)). by apply kept_same.
  - intros ip ifn n s. unfold server_Create.
    destruct (tapp.CreateServer _ _ _ _ _ _ _ _ _) as [[x q]|e|w] eqn:E; [|by apply kept_same..].
    split; [exists []; by rewrite app_nil_r|]. exists [x]. split; [done|]. eapply makes_cons; [reflexivity|exact E|].
    by apply makes_nil.
  - intros a p n s. unfold stream_CreateClient, tgen.CreateClient, tgen.newStream.
    destruct GetMessageHeaderLength; [|by apply kept_same..].
    split; [|exists []; rewrite app_nil_r; split; [done|by apply makes_nil]].
    eexists. split; [done|]. constructor; [|done]. intros h. unfold stream_holds. simpl. naive_solver.
Qed.

(** ** It keeps the metrics apart *)
Lemma apart_same s s' :
  streams s' = streams s -> servers s' = servers s -> same_values (metrics s) (metrics s') -> apart s -> apart s'.
Proof.
  intros Es Ev Hq. apply (acts_apart (WClient 0)), quiet_acts; [done|].
  intros [c|a] h; simpl; by rewrite ?Es, ?Ev.
Qed.

Lemma apart_bare s new :
  Forall bare new -> apart s ->
  apart (mkProcess (streams s ++ new) (going s) (servers s) (metrics s) (conf s) (srv_conf s)).
Proof.
  intros Hb. apply (acts_apart (WClient 0)), quiet_acts; [reflexivity|]. intros [c|a] h; simpl; [|done].
  intros (x & Hx & Hh). apply lookup_app_Some in Hx as [Hx|[_ Hx]]; [by exists x|].
  by destruct (proj1 (Forall_lookup _ _) Hb _ _ Hx h).
Qed.

Lemma apart_created s k ip ifn n x q :
  tapp.CreateServer env k namespace podName nodeName ip ifn n (metrics s) = Ok (x, q) -> apart s ->
  apart (mkProcess (streams s) (going s) (servers s ++ [x]) q (conf s) (srv_conf s)).
Proof.
  intros [L V N K]%CreateServer_private. apply (acts_apart (WServer (length (servers s)))).
  assert (forall h, holds (mkProcess (streams s) (going s) (servers s ++ [x]) q (conf s) (srv_conf s))
    (WServer (length (servers s))) h -> tapp.owns x h) as Hh.
  { intros h. apply looked_up. simpl. by apply list_lookup_middle. }
  split; [split|]; simpl in *.
  - done.
  - intros h Hl _. by apply V; [|intros []].
  - intros h [[]|Hn]%Hh%N. by right.
  - intros h [[]|Hl]%Hh%K. by right.
  - intros [c|a] h Hne; [done|]. intros (y & Hy & Ho). exists y. split; [|done].
    apply lookup_app_Some in Hy as [Hy|[Hle Hy]]; [done|]. destruct (a - length (servers s))%nat eqn:Ea; [|done].
    destruct Hne. f_equal. lia.
Qed.

Lemma apart_makes q l q' : makes q l q' -> forall s, metrics s = q -> apart s ->
  apart (mkProcess (streams s) (going s) (servers s ++ l) q' (conf s) (srv_conf s)).
Proof.
  induction 1 as [q q' Hq|q q0 k ip ifn n x q1 l q' Hq E _ IH]; intros s <- Ha.
  - apply (apart_same s); [done|simpl; by rewrite app_nil_r|done|done].
  - set (s0 := mkProcess (streams s) (going s) (servers s) q0 (conf s) (srv_conf s)).
    assert (apart s0) as Ha0 by by apply (apart_same s).
    pose proof (IH (mkProcess (streams s) (going s) (servers s ++ [x]) q1 (conf s) (srv_conf s)) eq_refl
      (apart_created s0 k ip ifn n x q1 E Ha0)) as Hl. simpl in Hl.
    by rewrite <- app_assoc in Hl.
Qed.

Lemma kept_apart s s' : kept s s' -> apart s -> apart s'.
Proof.
  intros [(new & Es & Hb) (l & Ev & Hm)] Ha.
  pose proof (apart_makes _ _ _ Hm (mkProcess (streams s ++ new) (going s) (servers s) (metrics s) (conf s) (srv_conf s))
    eq_refl (apart_bare s new Hb Ha)) as Hl. simpl in Hl.
  eapply apart_same; [..|exact Hl]; simpl; [by rewrite Es|by rewrite Ev|reflexivity].
Qed.

Lemma kept_spares s s' : kept s s' -> same_values (metrics s) (metrics s').
Proof. intros [_ (l & _ & Hm)]. by eapply makes_same. Qed.

Lemma kept_made s s' a x :
  kept s s' -> servers s' !! a = Some x -> servers s !! a = Some x \/ (length (servers s) <= a)%nat /\ made x (metrics s').
Proof.
  intros [_ (l & Ev & Hm)]. rewrite Ev. intros [Hx|[Hle Hx]]%lookup_app_Some; [by left|right].
  split; [done|]. by eapply makes_made.
Qed.
End Kept.
