(* ===== verification/PodServers.v ===== *)
(** * The servers of a pod

    In every state a pod reaches, the counter of a server's WaitGroup is the
    number of its goroutines that have not ended, and the addresses the
    controller keeps are those of servers; so a teardown of a server comes to
    its end. *)
From S2P Require Import Prelude GoInt Strconv Message Metrics Net Pair Pairing TApp TGen TGenStep TGenProofs Ledger TGenRefine TGenInv Config TGC TGCTheorems Plan TGCRuns Streams Pod PodProofs.
Import tgc pod.

Section Servers.
Context `{Msgpack} `{PromLib} `{JsonSource} `{Yaml} (env : NetEnv) (namespace podName nodeName : string).
#[local] Instance servers_Protocols : Protocols := stream_Protocols env namespace podName nodeName.
#[local] Abbreviation pod := (@pod.pod _ _ env namespace podName nodeName).

(** ** The addresses in [serversMap] *)
Definition known (w : world) : Prop :=
  map_Forall (fun _ l => Forall (fun a => a < length (servers (w_ext w : process)))%nat l) (serversMap (w_tg w)).

Lemma known_more (w w' : world) :
  serversMap (w_tg w') = serversMap (w_tg w) ->
  (length (servers (w_ext w : process)) <= length (servers (w_ext w' : process)))%nat ->
  known w -> known w'.
Proof.
  intros Em Hl Hk p l. rewrite Em. intros Hp. eapply Forall_impl; [exact (Hk p l Hp)|].
  intros a Ha. simpl in *. lia.
Qed.

Lemma servers_grow s s' : grown s s' -> (length (servers s) <= length (servers s'))%nat.
Proof. intros [_ _ _ (new & E & _)]. rewrite E, length_app. lia. Qed.

Lemma known_call {A} (m : ST S A) : (forall s, grown s (m s).2) -> preserved known (call m).
Proof.
  intros Hm w Hw. unfold call. specialize (Hm (w_ext w)). destruct (m (w_ext w)) as [r s].
  by apply (known_more w), Hw; [|apply servers_grow].
Qed.
Lemma known_tupd f : (forall tg, serversMap (f tg) = serversMap tg) -> preserved known (tupd f).
Proof. intros Hf w. by apply known_more; simpl; rewrite ?Hf. Qed.
Lemma known_reload cm k : preserved known (reload cm k).
Proof. intros w. unfold reload. destruct (util.ReLoadConfig cm k). by apply known_more. Qed.

(** The servers made are known. *)
Lemma createServers_known protocol ifs w l w' :
  createServers protocol ifs w = (Ok l, w') ->
  grown (w_ext w) (w_ext w') /\ w_tg w' = w_tg w /\ Forall (fun a => a < length (servers (w_ext w' : process)))%nat l.
Proof.
  revert w l w'. induction ifs as [|[ifName ip] ifs IH]; intros w l w' E; cbn [createServers] in E.
  { injection E as <- <-. split_and!; [reflexivity|done|done]. }
  apply bind_Ok_inv in E as (n & w1 & [= <- <-] & E). apply bind_Ok_inv in E as (r & w1 & Er & E).
  apply bind_Ok_inv in E as (rest & w2 & E2 & E). injection E as <- <-.
  destruct (IH _ _ _ E2) as (Hg & Ht & Hl).
  pose proof (grown_server_Create env namespace podName nodeName ip ifName (socketReadBufferSize (w_tg w)) (w_ext w)) as Hg1.
  unfold ignore, call in Er. simpl in Er. unfold server_Create in *.
  destruct (tapp.CreateServer _ _ _ _ _ _ _ _ _) as [[x q]|e|m]; simpl in Er; [| |done]; injection Er as <- <-; simpl in *.
  - split_and!; [by etrans|done|]. constructor; [|done]. apply servers_grow in Hg. simpl in Hg.
    rewrite length_app in Hg. simpl in Hg. lia.
  - by split_and!.
Qed.

Ltac knowing :=
  repeat match goal with
    | H : preserved known ?m |- preserved known ?m => exact H
    | H : forall p i, preserved known (bind (createServers p i) _) |- preserved known (bind (createServers _ _) _) =>
        apply H
    | |- preserved _ (ret _) => apply preserved_ret
    | |- preserved _ (lift _) => apply preserved_lift
    | |- preserved _ (gets _) => apply preserved_gets
    | |- preserved _ (tupd _) => apply known_tupd; done
    | |- preserved _ (spawn _) => by intros w
    | |- preserved _ (upd_pair _ _) => by intros w
    | |- preserved _ (alloc_pairs _) => by intros w
    | |- preserved _ (parsed _ _) => by intros w
    | |- preserved _ (reload _ _) => apply known_reload
    | |- preserved _ (call (server_LoadBatProfileConfig _ ?m)) => apply known_call; exact (grown_server_load m)
    | |- preserved _ (call (client_LoadBatProfileConfig _ ?m)) => apply known_call; exact (grown_stream_load m)
    | |- preserved _ (call (CreateClient _ ?a ?b ?n)) => apply known_call; exact (grown_CreateClient a b n)
    | |- preserved _ (call (CreateServer _ ?ip ?i ?n)) =>
        apply known_call; exact (grown_server_Create env namespace podName nodeName ip i n)
    | |- preserved _ (ignore _) => apply preserved_ignore
    | |- preserved _ (for_each _ _) => apply preserved_for_each; intros ?
    | |- preserved _ (bind _ _) => apply preserved_bind; [|intros ?]
    | |- preserved _ (match _ with _ => _ end) => case_match
    end.

Lemma known_clients : preserved known createNetBatTgenClients.
Proof. unfold createNetBatTgenClients, tget. knowing. Qed.
Lemma known_pairing e cm : preserved known (handleNetBatPairingAddEvent e cm).
Proof. pose proof known_clients. unfold handleNetBatPairingAddEvent, tget. knowing. Qed.

Lemma known_createServers protocol ifs : preserved known (createServers protocol ifs).
Proof. induction ifs as [|[i ip] ifs IH]; cbn [createServers]; unfold tget; knowing. Qed.

Lemma known_servers protocol ifs :
  preserved known (let! servers := createServers protocol ifs in
    tupd (fun tg => set_serversMap (<[protocol := servers]> (serversMap tg)) tg)).
Proof.
  intros w Hw. pose proof (known_createServers protocol ifs w Hw) as Hk. unfold bind.
  destruct (createServers protocol ifs w) as [[l|e|m] w1] eqn:E; simpl in *; [|done..].
  destruct (createServers_known _ _ _ _ _ E) as (_ & _ & Hl). unfold known. simpl.
  by apply map_Forall_insert_2.
Qed.

Lemma known_add e cm : preserved known (handle e (EAdd cm)).
Proof.
  pose proof (known_pairing e cm). pose proof known_clients. pose proof known_servers as Hs. cbn [handle].
  unfold AddPairing, AddProfile, handler, the_config, tget, deref. knowing.
Qed.

Lemma known_plan e ev : preserved known (plan e ev).
Proof.
  destruct ev as [cm|cm|cm|]; cbn [plan];
    unfold plan_delete, plan_restart, plan_servers, updated, the_config, tget, deref; knowing.
Qed.

Lemma known_task t : (forall a, t <> TSetup a) -> preserved known (run_task t).
Proof.
  intros Hn. destruct t as [a|a|a]; [|by destruct (Hn a)|]; cbn [run_task]; unfold pair_at, tget, deref; knowing.
  intros w. unfold call. simpl. by apply known_more.
Qed.

Definition knows : action -> Prop := coded env namespace podName nodeName (preserved known).

Lemma plan_knows e ev : yields env namespace podName nodeName (Forall knows) (plan e ev).
Proof.
  apply plan_coded; [by apply known_tupd|by apply known_tupd|apply known_clients|intros cm|apply known_add].
  unfold handler. apply preserved_bind; [apply preserved_ignore, known_pairing|intros; apply preserved_ret].
Qed.

(** ** The goroutines of the servers *)
Definition server_running (g : server_goroutines) : Z :=
  (match g_reader g with tapp.RExited => 0 | _ => 1 end) + (if g_sweeper g then 1 else 0).

Definition sound (x : tapp.udpServer) (g : server_goroutines) : Prop :=
  tapp.isStopped x = server_running g /\ is_Some (tapp.connection x).

Lemma account_keeps now ip seq x q x' q' :
  tapp.account now ip seq x q = Ok (x', q') ->
  tapp.isStopped x' = tapp.isStopped x /\ tapp.connection x' = tapp.connection x /\ tapp.stop x' = tapp.stop x.
Proof.
  unfold tapp.account. intros E. apply bind_outcome_Ok_inv in E as ([c q1] & _ & E).
  case_match; apply bind_outcome_Ok_inv in E as (? & _ & E); by injection E as <- _.
Qed.

Lemma datagram_keeps t1 t2 ip data b x q out b' x' q' :
  tapp.ReadFromSocket_datagram t1 t2 ip data b x q = Ok (out, b', x', q') ->
  tapp.isStopped x' = tapp.isStopped x /\ tapp.connection x' = tapp.connection x /\ tapp.stop x' = tapp.stop x.
Proof.
  unfold tapp.ReadFromSocket_datagram, tapp.handle. case_decide; [by intros [= _ _ <- _]|]. intros E.
  apply bind_outcome_Ok_inv in E as (hdr & _ & E). destruct (unmarshal_Message hdr) as [msg []]; [by injection E as _ _ <- _|].
  destruct (marshal_Message _); [|by injection E as _ _ <- _].
  apply bind_outcome_Ok_inv in E as (tail & _ & E). apply bind_outcome_Ok_inv in E as ([x1 q1] & Ea & E).
  apply bind_outcome_Ok_inv in E as (o & _ & E). injection E as _ _ <- _. by eapply account_keeps.
Qed.

Lemma server_sweep_keeps now order x q x' q' :
  tapp.sweep now order x q = Ok (x', q') ->
  tapp.isStopped x' = tapp.isStopped x /\ tapp.connection x' = tapp.connection x /\ tapp.stop x' = tapp.stop x.
Proof.
  revert x q. induction order as [|[ip c] order IH]; intros x q; simpl; [by intros [= <- _]|].
  case_match; [|apply IH]. intros E. apply bind_outcome_Ok_inv in E as (g & _ & E). by apply IH in E.
Qed.

Lemma server_step_sound x q g lb x' q' g' :
  tapp.step (server_world x q g tapp.TIdle) lb (server_world x' q' g' tapp.TIdle) -> sound x g -> sound x' g'.
Proof.
  intros Hst [Hi Hc]. destruct g as [b rd sw], g' as [b' rd' sw']. unfold sound, server_running in *.
  inversion Hst; subst; simpl in *; try done;
    repeat match goal with
    | E : tapp.done _ = _ |- _ => unfold tapp.done in E; case_decide; [done|injection E as <-]; simpl
    | E : tapp.ReadFromSocket_datagram _ _ _ _ _ _ _ = _ |- _ => apply datagram_keeps in E as (-> & -> & _)
    | E : tapp.sweep _ _ _ _ = _ |- _ => apply server_sweep_keeps in E as (-> & -> & _)
    end; split; done || lia.
Qed.

Definition server_go (P : pod) (a : nat) (x : tapp.udpServer) : server_goroutines :=
  default (first_server_go x) (p_server_go P !! a).

(** The servers of a process, and what its goroutines have in hand. *)
Record sound_all (s : process) (sgo : gmap nat server_goroutines) : Prop := mkSoundAll {
  sa_sound a x : servers s !! a = Some x -> sound x (default (first_server_go x) (sgo !! a));
  sa_go a : is_Some (sgo !! a) -> (a < length (servers s))%nat
}.

Lemma sound_all_same s s' sgo : servers s' = servers s -> sound_all s sgo -> sound_all s' sgo.
Proof. intros E [H1' H2']. split; rewrite E; done. Qed.

Lemma sound_all_grown s s' sgo : grown s s' -> sound_all s sgo -> sound_all s' sgo.
Proof.
  intros Hg [Hs Hl]. pose proof (servers_grow _ _ Hg) as Hle. destruct Hg as [_ _ _ (new & E & Hn)].
  split; [|intros a Ha; specialize (Hl a Ha); lia].
  intros a x Hx. rewrite E in Hx. apply lookup_app_Some in Hx as [Hx|[Ha Hx]]; [by apply Hs|].
  assert (sgo !! a = None) as ->.
  { apply eq_None_not_Some. intros Hgo%Hl. lia. }
  pose proof (proj1 (Forall_lookup _ _) Hn _ _ Hx) as [Hi Hc]. by split.
Qed.

Lemma sound_all_put s sgo a x y q g :
  servers s !! a = Some x -> sound y g -> sound_all s sgo -> sound_all (put_server a y q s) (<[a := g]> sgo).
Proof.
  intros Hx Hy [Hs Hl]. pose proof (lookup_lt_Some _ _ _ Hx) as Ha. split; simpl.
  - intros b z Hz. destruct (decide (a = b)) as [<-|Hne].
    + rewrite list_lookup_insert_eq in Hz by done. injection Hz as <-. by rewrite lookup_insert_eq.
    + rewrite list_lookup_insert_ne in Hz by done. rewrite lookup_insert_ne by done. by apply Hs.
  - intros b Hb. rewrite length_insert. destruct (decide (a = b)) as [<-|Hne]; [done|].
    rewrite lookup_insert_ne in Hb by done. by apply Hl.
Qed.

(** A server changed by its teardown: its goroutines have not moved. *)
Lemma sound_all_torn s sgo a x y q :
  servers s !! a = Some x -> tapp.isStopped y = tapp.isStopped x -> is_Some (tapp.connection y) ->
  first_server_go y = first_server_go x -> sound_all s sgo -> sound_all (put_server a y q s) sgo.
Proof.
  intros Hx Hi Hc Hf [Hs Hl]. pose proof (lookup_lt_Some _ _ _ Hx) as Ha. destruct (Hs a x Hx) as [Hi' _].
  split; simpl; [|intros b Hb; rewrite length_insert; by apply Hl].
  intros b z Hz. destruct (decide (a = b)) as [<-|Hne].
  - rewrite list_lookup_insert_eq in Hz by done. injection Hz as <-. rewrite Hf. split; [by rewrite Hi|done].
  - rewrite list_lookup_insert_ne in Hz by done. by apply Hs.
Qed.

Lemma known_out {A} (m : M A) w r w' : preserved known m -> m w = (r, w') -> known w -> known w'.
Proof. intros Hm E Hk. pose proof (Hm w Hk) as Hk'. by rewrite E in Hk'. Qed.

Record servers_ok (P : pod) : Prop := mkServersOk {
  so_known : known (p_w P);
  so_todo : Forall knows (default [] (p_todo P));
  so_tame : Forall (tame env namespace podName nodeName) (default [] (p_todo P));
  so_sound : sound_all (p_ext P) (p_server_go P)
}.

Lemma servers_ok_step (P : pod) lb P' : step P lb P' -> servers_ok P -> servers_ok P'.
Proof.
  intros Hst [Hk Ht Hm Hs]. unfold p_ext in *.
  destruct Hst as [e ev w w' l go sgo cn He Hp|m l w w' go sgo cn Hcode|w go sgo cn
    |a p c' y b y' q' l w go sgo cn Hp Hc Hy Hb|c' y y' q' l w go sgo cn Hy Hi Hb
    |a y l w go sgo cn Hy|a y l w go sgo cn Hy Hi|t w w' go sgo cn l wt Hn Hst
    |a p c' y r y' q' l1 l2 w go sgo cn l wt Hts Hp Hc Hy Hb Hr|net a c' y r y' q' cn1 cn2 w go sgo l wt Hy Hb Hr
    |c' k y lb y' q' g' w go sgo cn l wt Hy Hk' Hown|a y lb y' q' g' w go sgo cn l wt Hy Hlb Hown]; simpl in *.
  - split; simpl.
    + exact (known_out _ w _ w' (known_plan e ev) Hp Hk).
    + by apply (plan_knows e ev w l w').
    + by apply (plan_tame env namespace podName nodeName e ev w l w').
    + eapply sound_all_grown; [|exact Hs]. exact (plan_grows _ _ _ _ e ev w l w' Hp).
  - apply Forall_cons in Ht as [Hm1 Ht], Hm as [Hm2 Hm]. split; simpl; [|done|done|].
    + exact (known_out m w _ w' Hm1 Hcode Hk).
    + eapply sound_all_grown; [|exact Hs]. exact (code_grows _ _ _ _ m w w' Hm2 Hcode).
  - by split.
  - apply Forall_cons in Ht as [_ Ht], Hm as [_ Hm]. split; simpl; [exact Hk|done|done|by apply (sound_all_same (w_ext w))].
  - split; simpl; [exact Hk|done|done|by apply (sound_all_same (w_ext w))].
  - apply Forall_cons in Ht as [_ Ht], Hm as [_ Hm].
    unfold tapp.TearDownServer_begin. destruct (tapp.connection y) as [k|] eqn:Ek; [|by split].
    split; simpl; [|done|done|].
    + eapply known_more; [| |exact Hk]; simpl; [done|by rewrite length_insert].
    + by apply (sound_all_torn (w_ext w) sgo a y).
  - split; simpl; [|done|done|].
    + eapply known_more; [| |exact Hk]; simpl; [done|by rewrite length_insert].
    + by apply (sound_all_torn (w_ext w) sgo a y), Hs; [..|apply (sa_sound _ _ Hs a y Hy)|].
  - assert (grown (w_ext w) (w_ext w') \/ exists b, w_ext w' = (stream_start b (w_ext w)).2) as He
      by exact (task_effect env namespace podName nodeName t w w' Hn Hst).
    split; simpl; [|done|done|].
    + inversion Hst as [|l1 t' l2 tg ps s next w1 Hr]; subst. simpl in *.
      exact (known_out _ (mkWorld tg ps (l1 ++ l2) s) _ w1 (known_task t Hn) Hr Hk).
    + destruct He as [Hg|[b E]]; [by eapply sound_all_grown|].
      by apply (sound_all_same (w_ext w)); [exact (f_equal servers E)|].
  - split; simpl; [exact Hk|done|done|by apply (sound_all_same (w_ext w))].
  - split; simpl; [exact Hk|done|done|by apply (sound_all_same (w_ext w))].
  - split; simpl; [exact Hk|done|done|by apply (sound_all_same (w_ext w))].
  - split; simpl; [|done|done|].
    + eapply known_more; [| |exact Hk]; simpl; [done|by rewrite length_insert].
    + eapply sound_all_put; [exact Hy| |exact Hs]. eapply server_step_sound; [exact Hown|]. by apply (sa_sound _ _ Hs).
Qed.

Lemma servers_ok_start n q k sk : servers_ok (pod0 n q k sk : pod).
Proof.
  split; [by apply map_Forall_empty|done|done|]. split; simpl; [by intros a x|].
  intros a [g Hg]. by rewrite lookup_empty in Hg.
Qed.

Lemma servers_ok_run n q k sk ls (P : pod) : steps step (pod0 n q k sk) ls P -> servers_ok P.
Proof.
  intros Hr. apply (steps_invariant step servers_ok (pod0 n q k sk)) with ls; [apply servers_ok_start| |done].
  intros s l s' Hs Hst. by eapply servers_ok_step.
Qed.

(** ** A handler that waits for a server *)

(** The socket closed and both goroutines gone. *)
Definition server_gone (a : nat) (P : pod) : Prop :=
  exists x k, servers (p_ext P) !! a = Some x /\ tapp.connection x = Some k /\ conn_closed k = true /\
    tapp.stop x = true /\ tapp.isStopped x = 0 /\ g_reader (server_go P a x) = tapp.RExited /\
    g_sweeper (server_go P a x) = false.
End Servers.
