(* ===== verification/PodEcho.v ===== *)
(** * The servers of a pod are runs of [tapp.step]

    Seen by one server, a step of a pod is a step of its own goroutines or of
    its teardown, or something that leaves its metrics alone. *)
From S2P Require Import Prelude GoInt Strconv Message Metrics Net Pair Pairing TApp TAppProofs TGen TGenStep TGenProofs Ledger TGenRefine TGenInv Config TGC TGCTheorems Plan TGCRuns Streams Handles Pod PodProofs PodHandles PodServers.
Import tgc pod.

Section Echo.
Context `{MsgpackLaws} `{PromLaws} `{JsonSource} `{Yaml} {env : NetEnv} {namespace podName nodeName : string}.
#[local] Instance echo_Protocols : Protocols := stream_Protocols env namespace podName nodeName.
#[local] Abbreviation pod := (@pod.pod _ _ env namespace podName nodeName).
#[local] Abbreviation todo_tame := (todo_tame env namespace podName nodeName).
#[local] Abbreviation kept := (kept env namespace podName nodeName).
#[local] Abbreviation made := (made env namespace podName nodeName).

(** Whose step it is. *)
Definition actor (lb : label) : option waiting :=
  match lb with
  | PTear c | PTorn c | PSetup c | PConnect c | PStream c _ => Some (WClient c)
  | PTearServer a | PTornServer a | PServer a _ => Some (WServer a)
  | PEvent _ | PCode | PDone | PTask _ => None
  end.

Lemma acts_refl who (s : process) : acts who s s.
Proof. by apply quiet_acts. Qed.

Lemma pod_step_acts (P : pod) lb P' :
  step P lb P' -> todo_tame P -> apart (p_ext P) ->
  match actor lb with None => kept (p_ext P) (p_ext P') | Some who => acts who (p_ext P) (p_ext P') end.
Proof.
  intros Hst Ht Ha.
  destruct Hst as [e ev w w' l go sgo cn He Hp|m l w w' go sgo cn Hm|w go sgo cn
    |a p c' y b y' q' l w go sgo cn Hp Hc Hy Hb|c' y y' q' l w go sgo cn Hy Hi Hb
    |a y l w go sgo cn Hy|a y l w go sgo cn Hy Hi|t w w' go sgo cn l wt Hn Hst
    |a p c' y r y' q' l1 l2 w go sgo cn l wt Hts Hp Hc Hy Hb Hr|net a c' y r y' q' cn1 cn2 w go sgo l wt Hy Hb Hr
    |c' k y lb y' q' g' w go sgo cn l wt Hy Hk Hown|a y lb y' q' g' w go sgo cn l wt Hy Hlb Hown];
    unfold p_ext in *; simpl in *.
  - exact (plan_does env namespace podName nodeName kept e ev w l w' Hp).
  - apply Forall_cons in Ht as [Hm' _]. exact (code_does env namespace podName nodeName kept m w w' Hm' Hm).
  - by apply kept_same.
  - apply (stream_acts c' y); [done|done|]. exact (minds_out _ _ _ _ minds_TearDown_begin Hb).
  - apply (stream_acts c' y); [done|done|]. exact (minds_out _ _ _ _ minds_deRegister Hb).
  - unfold tapp.TearDownServer_begin. destruct (tapp.connection y); [|apply acts_refl].
    apply (server_acts a y); [done|done|]. intros _. by apply private_quiet.
  - apply (server_acts a y); [done|done|]. intros _. apply private_quiet; [apply unregistered_same|done].
  - destruct (task_does env namespace podName nodeName kept t w w' Hn Hst) as [Hk|[b E]]; [done|].
    pose proof (f_equal streams E) as E1. pose proof (f_equal servers E) as E2. pose proof (f_equal metrics E) as E3.
    apply kept_same; [exact E1|exact E2|]. change (metrics (w_ext w') = metrics (w_ext w)) in E3. by rewrite E3.
  - exact (fetched_acts c' _ y y' q' (w_ext w) Hy Ha (minds_out _ _ _ _ (minds_SetupConnection_begin _) Hb)).
  - exact (fetched_acts c' _ y y' q' (w_ext w) Hy Ha (minds_out _ _ _ _ (minds_SetupConnection_end _ _) Hb)).
  - exact (fetched_acts c' _ y y' q' (w_ext w) Hy Ha (own_step_minds _ _ _ Hown)).
  - apply (server_acts a y); [done|done|]. apply (server_step_owned _ _ _ Hown). by destruct lb.
Qed.

Lemma apart_step (P : pod) lb P' : step P lb P' -> todo_tame P -> apart (p_ext P) -> apart (p_ext P').
Proof.
  intros Hst Ht Ha. pose proof (pod_step_acts _ _ _ Hst Ht Ha) as Hx.
  destruct (actor lb); [by eapply acts_apart|by eapply kept_apart].
Qed.

(** A server whose step it is not. *)
Lemma server_else a (P : pod) lb P' :
  step P lb P' -> actor lb <> Some (WServer a) ->
  p_server_go P' !! a = p_server_go P !! a /\ (p_wait P' = Some (WServer a) <-> p_wait P = Some (WServer a)).
Proof.
  intros Hst Hl.
  destruct Hst as [| | |a' p c' y b y' q' l w go sgo cn Hp Hc Hy Hb|c' y y' q' l w go sgo cn Hy Hi Hb
    |a' y l w go sgo cn Hy|a' y l w go sgo cn Hy Hi| | | | |a' y lb y' q' g' w go sgo cn l wt Hy Hlb Hown];
    simpl in *; try done.
  - by destruct b.
  - destruct (tapp.TearDownServer_begin y); simpl; [|done]. split; [done|split; intros; congruence].
  - split; [|done]. apply lookup_insert_ne. congruence.
Qed.

(** One whose step it is. *)
Lemma server_acted a (P : pod) lb P' :
  step P lb P' -> actor lb = Some (WServer a) -> (a < length (servers (p_ext P')))%nat.
Proof.
  intros Hst Hl.
  destruct Hst as [| | | | |a' y l w go sgo cn Hy|a' y l w go sgo cn Hy Hi| | | | |a' y lb y' q' g' w go sgo cn l wt Hy Hlb Hown];
    try done; injection Hl as ->; apply lookup_lt_Some in Hy; unfold p_ext; simpl.
  - destruct (tapp.TearDownServer_begin y); simpl; [by rewrite length_insert|done].
  - by rewrite length_insert.
  - by rewrite length_insert.
Qed.

Lemma servers_length (P : pod) lb P' :
  step P lb P' -> actor lb <> None -> length (servers (p_ext P')) = length (servers (p_ext P)).
Proof.
  intros Hst Hl. destruct Hst; try done; unfold p_ext; simpl; rewrite ?length_insert; try done.
  destruct (tapp.TearDownServer_begin x); simpl; by rewrite ?length_insert.
Qed.

Lemma servers_stay (P : pod) lb P' :
  step P lb P' -> todo_tame P -> apart (p_ext P) -> (length (servers (p_ext P)) <= length (servers (p_ext P')))%nat.
Proof.
  intros Hst Ht Ha. pose proof (pod_step_acts _ _ _ Hst Ht Ha) as Hact. pose proof (servers_length _ _ _ Hst) as Hl.
  destruct (actor lb); [by rewrite Hl|]. destruct Hact as [_ (new & -> & _)]. rewrite length_app. lia.
Qed.

(** A server that was not there has just been made. *)
Lemma server_new a x (P : pod) lb P' :
  step P lb P' -> todo_tame P -> apart (p_ext P) -> servers (p_ext P') !! a = Some x ->
  (length (servers (p_ext P)) <= a)%nat -> made x (metrics (p_ext P')) /\ actor lb <> Some (WServer a).
Proof.
  intros Hst Ht Ha Hx Hle. pose proof (pod_step_acts _ _ _ Hst Ht Ha) as Hact. pose proof (servers_length _ _ _ Hst) as Hl.
  destruct (actor lb).
  - apply lookup_lt_Some in Hx. rewrite Hl in Hx by done. lia.
  - split; [|done]. destruct (kept_made _ _ _ _ _ _ _ _ Hact Hx) as [Hx'%lookup_lt_Some|[_ Hm]]; [lia|done].
Qed.

Lemma server_still a x (P : pod) lb P' :
  step P lb P' -> todo_tame P -> apart (p_ext P) -> actor lb <> Some (WServer a) -> servers (p_ext P) !! a = Some x ->
  servers (p_ext P') !! a = Some x /\
  same_values_but (fun h => ~ tapp.owns x h) (metrics (p_ext P)) (metrics (p_ext P')).
Proof.
  intros Hst Ht Ha Hl Hx. pose proof (pod_step_acts _ _ _ Hst Ht Ha) as Hact. split.
  - destruct (actor lb) as [who|] eqn:E; [clear Hact|destruct Hact as [_ (new & -> & _)]; by apply lookup_app_l_Some].
    destruct Hst as [| | | | |a' y l w go sgo cn Hy|a' y l w go sgo cn Hy Hi| | | | |a' y lb y' q' g' w go sgo cn l wt Hy Hlb Hown];
      try done; unfold p_ext in *; simpl in *; assert (a' <> a) as Hne by congruence.
    + destruct (tapp.TearDownServer_begin y); simpl; [|done]. by rewrite list_lookup_insert_ne.
    + by rewrite list_lookup_insert_ne.
    + by rewrite list_lookup_insert_ne.
  - destruct (actor lb) as [who|]; [eapply acts_spares; [exact Hact|done| |exact Hx]; by intros ->|].
    apply kept_spares in Hact as [L V]. split; [done|]. intros h Hh _. apply V; [done|by intros []].
Qed.

(** ** What a server sees of a pod *)
Definition server_td (a : nat) (x : tapp.udpServer) (P : pod) : tapp.teardown_pc :=
  if decide (p_wait P = Some (WServer a)) then tapp.TWaiting
  else if tapp.stop x then tapp.TFinished else tapp.TIdle.

Definition server_view (a : nat) (P : pod) : option tapp.world :=
  x ← servers (p_ext P) !! a;
  Some (server_world x (metrics (p_ext P)) (default (first_server_go x) (p_server_go P !! a)) (server_td a x P)).

Lemma server_view_of a (P : pod) x :
  servers (p_ext P) !! a = Some x ->
  server_view a P = Some (server_world x (metrics (p_ext P)) (default (first_server_go x) (p_server_go P !! a)) (server_td a x P)).
Proof. intros E. unfold server_view. by rewrite E. Qed.

Lemma server_view_inv a (P : pod) v :
  server_view a P = Some v -> exists x, servers (p_ext P) !! a = Some x /\
    v = server_world x (metrics (p_ext P)) (default (first_server_go x) (p_server_go P !! a)) (server_td a x P).
Proof. unfold server_view. intros (x & Hx & [= <-])%bind_Some. eauto. Qed.

(** Steps of others. *)
Lemma server_view_still a (P : pod) lb P' v :
  step P lb P' -> todo_tame P -> apart (p_ext P) -> actor lb <> Some (WServer a) -> server_view a P = Some v ->
  exists v', tapp.step v tapp.LEnv v' /\ server_view a P' = Some v'.
Proof.
  intros Hst Ht Ha Hl (x & Hx & ->)%server_view_inv.
  destruct (server_still a x P lb P' Hst Ht Ha Hl Hx) as [Hx' Hq]. destruct (server_else a P lb P' Hst Hl) as [Hg Hw].
  rewrite (server_view_of a P' x Hx'), Hg.
  assert (server_td a x P' = server_td a x P) as ->.
  { unfold server_td. destruct (decide (p_wait P = Some (WServer a))) as [E|E].
    - by rewrite decide_True by (by apply Hw).
    - rewrite decide_False; [done|]. by intros E'%Hw. }
  eexists. split; [by apply tapp.step_env|done].
Qed.

(** Its own. *)
Lemma server_world_td x q g lb x' q' g' td :
  tapp.step (server_world x q g tapp.TIdle) lb (server_world x' q' g' tapp.TIdle) -> server_own lb = true ->
  tapp.step (server_world x q g td) lb (server_world x' q' g' td) /\ tapp.stop x' = tapp.stop x.
Proof.
  intros Hst Hl. unfold server_world in *. destruct g as [b rd sw], g' as [b' rd' sw']. simpl in *.
  inversion Hst; subst; try done.
  - split; [by apply tapp.step_reader_enter|done].
  - rename select (tapp.done _ = _) into E. split; [by apply tapp.step_reader_exit|].
    unfold tapp.done in E. case_decide; [done|by injection E as <-].
  - split; [by apply tapp.step_reader_err|done].
  - rename select (tapp.ReadFromSocket_datagram _ _ _ _ _ _ _ = _) into E.
    split; [eapply tapp.step_reader_data; [eassumption|eassumption|..|exact E]; assumption|by apply datagram_keeps in E as (_ & _ & ->)].
  - rename select (tapp.sweep _ _ _ _ = _) into E. split; [|by apply server_sweep_keeps in E as (_ & _ & ->)].
    by apply (tapp.step_sweep now order).
  - rename select (tapp.done _ = _) into E. split; [by apply tapp.step_sweeper_exit|].
    unfold tapp.done in E. case_decide; [done|by injection E as <-].
Qed.

(** A step of the server itself, or of its teardown. *)
Lemma server_view_acts a (P : pod) lb P' v :
  step P lb P' -> actor lb = Some (WServer a) -> server_view a P = Some v ->
  (tapp.w_teardown v <> tapp.TIdle -> tapp.stop (tapp.w_srv v) = true) ->
  exists ls v', steps tapp.step v ls v' /\ (length ls <= 1)%nat /\ server_view a P' = Some v'.
Proof.
  intros Hst Hl (x & Hx & ->)%server_view_inv Hstop. pose proof (lookup_lt_Some _ _ _ Hx) as Hlt.
  destruct Hst as [| | | | |a' y l w go sgo cn Hy|a' y l w go sgo cn Hy Hi| | | | |a' y lb y' q' g' w go sgo cn l wt Hy Hlb Hown];
    try done; injection Hl as ->; unfold p_ext in *; simpl in *; assert (y = x) as -> by congruence.
  - unfold server_td. simpl. destruct (tapp.TearDownServer_begin x) as [x'|] eqn:Eb.
    + exists [tapp.LTearDown]. eexists. split_and!; [|done|].
      * apply steps_one, tapp.step_teardown_begin; [by destruct (tapp.stop x)|exact Eb].
      * unfold server_view, p_ext. simpl. rewrite list_lookup_insert_eq by done. simpl. do 2 f_equal.
        unfold server_world, server_td. simpl. rewrite decide_True by done.
        unfold tapp.TearDownServer_begin in Eb. destruct (tapp.connection x); [|done]. by injection Eb as <-.
    + exists []. eexists. split_and!; [apply steps_nil|simpl; lia|]. unfold server_view, p_ext. simpl. by rewrite Hx.
  - unfold server_td in *. simpl in *. rewrite decide_True in Hstop |- * by done.
    exists [tapp.LTearDown]. eexists. split_and!; [by apply steps_one, tapp.step_teardown_end|done|].
    unfold server_view, p_ext. simpl. rewrite list_lookup_insert_eq by done. simpl. do 2 f_equal.
    unfold server_world, server_td. simpl. by rewrite Hstop.
  - destruct (server_world_td _ _ _ _ _ _ _ (server_td a x (mkPod w go sgo cn l wt)) Hown Hlb) as [Hst Hs].
    exists [lb]. eexists. split_and!; [by apply steps_one|done|].
    unfold server_view, p_ext. simpl. rewrite list_lookup_insert_eq, lookup_insert_eq by done. simpl. do 2 f_equal.
    unfold server_world, server_td. simpl. by rewrite Hs.
Qed.

(** ** From the start of the pod *)

(** Server [a] is in a state its own relation reaches in at most [n] steps from
    the one [CreateServer] made. *)
Definition echoing (n : nat) (a : nat) (P : pod) : Prop :=
  exists x k ip ifn m q q0 ls v,
    tapp.CreateServer env k namespace podName nodeName ip ifn m q = Ok (x, q0) /\
    steps tapp.step (tapp.started x q0 (Z.to_nat (tapp.readBufferSize x))) ls v /\ (length ls <= n)%nat /\
    server_view a P = Some v.

Lemma echoing_stop n a (P : pod) :
  echoing n a P -> exists v, server_view a P = Some v /\ (tapp.w_teardown v <> tapp.TIdle -> tapp.stop (tapp.w_srv v) = true).
Proof.
  intros (x & k & ip & ifn & m & q & q0 & ls & v & Hc & Hr & _ & Hv). exists v. split; [done|].
  destruct (CreateServer_started _ _ _ _ _ _ _ _ _ _ _ (Z.to_nat (tapp.readBufferSize x)) Hc) as (g & mm & l & I).
  apply (inv_steps g mm l 0 _ ls v I) in Hr; [|lia]. intros Ht. by apply (inv_teardown _ _ _ _ _ Hr).
Qed.

Lemma echoing_step n a (P : pod) lb P' :
  step P lb P' -> todo_tame P -> apart (p_ext P) -> echoing n a P -> echoing (n + 1) a P'.
Proof.
  intros Hst Ht Ha He. destruct (echoing_stop _ _ _ He) as (v' & Hv' & Hstop).
  destruct He as (x & k & ip & ifn & m & q & q0 & ls & v & Hc & Hr & Hn & Hv). assert (v' = v) as -> by congruence.
  assert (exists ls1 v1, steps tapp.step v ls1 v1 /\ (length ls1 <= 1)%nat /\ server_view a P' = Some v1) as (ls1 & v1 & Hr1 & Hl1 & Hv1).
  { destruct (decide (actor lb = Some (WServer a))) as [E|E]; [by eapply server_view_acts|].
    destruct (server_view_still a P lb P' v Hst Ht Ha E Hv) as (v1 & H1' & Hv1). exists [tapp.LEnv], v1.
    split_and!; [by apply steps_one|done|done]. }
  exists x, k, ip, ifn, m, q, q0, (ls ++ ls1), v1. split_and!; [done|by eapply steps_app|rewrite length_app; lia|done].
Qed.

Lemma echoing_new a x (P : pod) :
  servers (p_ext P) !! a = Some x -> made x (metrics (p_ext P)) -> p_server_go P !! a = None ->
  p_wait P <> Some (WServer a) -> tapp.stop x = false -> echoing 1 a P.
Proof.
  intros Hx (k & ip & ifn & n & q0 & q1 & Hc & L & V) Hg Hw Hs.
  exists x, k, ip, ifn, n, q0, q1, [tapp.LEnv], (server_world x (metrics (p_ext P)) (first_server_go x) tapp.TIdle).
  split_and!; [done| |done|].
  - apply steps_one. apply tapp.step_env. split; [done|]. intros h Hh _. apply V; [done|by intros []].
  - rewrite (server_view_of a P x Hx), Hg. unfold server_td. by rewrite decide_False, Hs.
Qed.

(** The servers there are, and no others, have goroutines and are waited for. *)
Definition present (P : pod) : Prop :=
  forall a, is_Some (p_server_go P !! a) \/ p_wait P = Some (WServer a) -> (a < length (servers (p_ext P)))%nat.

Lemma present_step (P : pod) lb P' : step P lb P' -> todo_tame P -> apart (p_ext P) -> present P -> present P'.
Proof.
  intros Hst Ht Ha Hp a Hin. destruct (decide (actor lb = Some (WServer a))) as [E|E]; [by eapply server_acted|].
  destruct (server_else a P lb P' Hst E) as [Hg Hw]. rewrite Hg, Hw in Hin.
  eapply Nat.lt_le_trans; [exact (Hp a Hin)|]. by eapply servers_stay.
Qed.

Record echo_ok (n : nat) (P : pod) : Prop := mkEchoOk {
  eo_tame : todo_tame P;
  eo_apart : apart (p_ext P);
  eo_present : present P;
  eo_echo a x : servers (p_ext P) !! a = Some x -> echoing n a P
}.

Lemma made_running x q : made x q -> tapp.stop x = false.
Proof.
  intros (k & ip & ifn & n & q0 & q1 & Hc & _). unfold tapp.CreateServer, tapp.newUDPServer in Hc.
  apply bind_outcome_Ok_inv in Hc as (x0 & Hn & Hs). destruct GetMessageHeaderLength; [|done..].
  destruct (marshal_PodInfo _); [|done]. injection Hn as <-.
  apply Setup_started in Hs as (g & mm & ml & cc & _ & _ & _ & _ & _ & _ & _ & -> & _). done.
Qed.

Lemma echo_ok_step n (P : pod) lb P' : step P lb P' -> echo_ok n P -> echo_ok (n + 1) P'.
Proof.
  intros Hst [Ht Ha Hp He]. split; [by eapply todo_tame_step|by eapply apart_step|by eapply present_step|].
  intros a x Hx. destruct (lt_dec a (length (servers (p_ext P)))) as [Hlt|Hge].
  { apply lookup_lt_is_Some_2 in Hlt as [y Hy]. eapply echoing_step; eauto. }
  destruct (server_new a x P lb P' Hst Ht Ha Hx) as [Hm Hl]; [lia|].
  destruct (server_else a P lb P' Hst Hl) as [Hg Hw].
  destruct (echoing_new a x P' Hx Hm) as (x0 & k & ip & ifn & m & q & q0 & ls & v & H1' & H2' & H3' & H4').
  - rewrite Hg. apply eq_None_not_Some. intros Hin. apply Hge, Hp. by left.
  - intros Hin%Hw. apply Hge, Hp. by right.
  - by eapply made_running.
  - exists x0, k, ip, ifn, m, q, q0, ls, v. split_and!; [done|done|lia|done].
Qed.

Lemma echo_ok_run ls n q k sk (P : pod) : steps step (pod0 n q k sk) ls P -> echo_ok (length ls) P.
Proof.
  revert ls P. apply steps_ind_r.
  - split; [done| | |done].
    + split; [by intros [c|a] h (x & Hx & _)|by intros [c|a] who h (x & Hx & _)].
    + by intros a [[g Hg]|].
  - intros ls P lb P' _ IH Hst. rewrite length_app. simpl. by eapply echo_ok_step.
Qed.

(** C7: a server of a pod is left alone by the rest of the pod: whatever the
    controller, the streams and the other servers do, and whoever tears the
    server down, the server with its two goroutines, its metrics and its
    teardown is at every moment in a state that [tapp.step] reaches by itself
    from what CreateServer made, in no more steps than the pod has made. So all
    that is proved of runs of [tapp.step] holds in a pod; in particular what the
    gauge of each server exports is the number of the clients in its map. *)
Theorem pod_servers_are_servers n q k sk ls (P : pod) a x :
  steps step (pod0 n q k sk) ls P -> servers (p_ext P) !! a = Some x ->
  exists x0 k0 ip ifn m q0 q1 ls' v,
    tapp.CreateServer env k0 namespace podName nodeName ip ifn m q0 = Ok (x0, q1) /\
    steps tapp.step (tapp.started x0 q1 (Z.to_nat (tapp.readBufferSize x0))) ls' v /\
    server_view a P = Some v /\ (length ls' <= length ls)%nat /\
    (zlen ls <= 2 ^ 53 -> exists g, tapp.activeClientStreams x = Some g /\
       prom_value g (metrics (p_ext P)) = Z.of_nat (size (tapp.activeClientsMap x))).
Proof.
  intros Hr Hx. destruct (eo_echo _ _ (echo_ok_run _ _ _ _ _ _ Hr) a x Hx)
    as (x0 & k0 & ip & ifn & m & q0 & q1 & ls' & v & Hc & Hr' & Hn & Hv).
  exists x0, k0, ip, ifn, m, q0, q1, ls', v. split_and!; [done..|]. intros Hz.
  destruct (CreateServer_started _ _ _ _ _ _ _ _ _ _ _ (Z.to_nat (tapp.readBufferSize x0)) Hc) as (g & mm & l & I).
  apply (inv_steps g mm l 0 _ ls' v I) in Hr'; [|lia].
  apply server_view_inv in Hv as (y & Hy & ->). assert (y = x) as -> by congruence.
  exists g. split; [apply Hr'|]. apply (inv_gauge _ _ _ _ _ Hr'). unfold zlen in *. lia.
Qed.
End Echo.
