(* ===== verification/PodStop.v ===== *)
(** * Shutting a pod down

    Each teardown of a handler's plan comes to its end by the steps of the
    goroutines it waits for, and leaves what the others do as it was; hence a
    pod whose streams are up can stop. *)
From S2P Require Import Prelude GoInt Strconv Message Metrics Net Pair Pairing TApp TGen TGenStep TGenProofs Ledger TGenRefine TGenInv Config TGC TGCTheorems Plan TGCRuns Streams Pod PodProofs PodServers.
Import tgc pod.

Section Stop.
Context `{Msgpack} `{PromLib} `{JsonSource} `{Yaml} {env : NetEnv} {namespace podName nodeName : string}.
#[local] Instance stop_Protocols : Protocols := stream_Protocols env namespace podName nodeName.
#[local] Abbreviation pod := (@pod.pod _ _ env namespace podName nodeName).
#[local] Abbreviation view := (view env namespace podName nodeName).
#[local] Abbreviation servers_ok := (servers_ok env namespace podName nodeName).
#[local] Abbreviation server_go := (server_go env namespace podName nodeName).
#[local] Abbreviation server_gone := (server_gone env namespace podName nodeName).
#[local] Abbreviation elsewhere := (elsewhere env namespace podName nodeName).

(** ** Servers *)
Definition server_left (g : server_goroutines) : nat :=
  (match g_reader g with tapp.RReading => 2 | tapp.RHead => 1 | tapp.RExited => 0 end +
   if g_sweeper g then 1 else 0)%nat.

Lemma server_left_0 g : server_left g = 0%nat -> g_reader g = tapp.RExited /\ g_sweeper g = false.
Proof. destruct g as [b [] []]; by unfold server_left. Qed.

Lemma server_progress x q g :
  tapp.stop x = true -> sound x g -> server_left g <> 0%nat ->
  exists lb x' g', tapp.step (server_world x q g tapp.TIdle) lb (server_world x' q g' tapp.TIdle) /\
    server_own lb = true /\ (server_left g' < server_left g)%nat /\
    tapp.stop x' = tapp.stop x /\ tapp.connection x' = tapp.connection x.
Proof.
  intros Hs [Hi _] Hl. destruct g as [b rd sw]. unfold server_left, server_running in *. simpl in *.
  assert (0 < tapp.isStopped x -> tapp.done x = Ok (tapp.set_isStopped (tapp.isStopped x - 1) x)) as Hd.
  { intros. unfold tapp.done. by rewrite decide_False by lia. }
  destruct rd.
  - exists tapp.LReader, (tapp.set_isStopped (tapp.isStopped x - 1) x), (mkServerGo b tapp.RExited sw).
    split_and!; simpl; try done; [|lia]. apply tapp.step_reader_exit; [done|]. apply Hd. destruct sw; lia.
  - exists tapp.LReader, x, (mkServerGo b tapp.RHead sw). split_and!; simpl; try done; [|lia].
    apply tapp.step_reader_err.
  - destruct sw; [|done].
    exists tapp.LSweeperExit, (tapp.set_isStopped (tapp.isStopped x - 1) x), (mkServerGo b tapp.RExited false).
    split_and!; simpl; try done; [|lia]. apply tapp.step_sweeper_exit; [done|]. apply Hd. lia.
Qed.

Lemma elsewhere_put_server a x q (w : world) go sgo sgo' cn l l' wt wt' :
  (forall a', a' <> a -> sgo' !! a' = sgo !! a') ->
  elsewhere (WServer a) (mkPod w go sgo cn l wt) (mkPod (with_ext (put_server a x q (w_ext w)) w) go sgo' cn l' wt').
Proof.
  intros Hg. split; try done; unfold p_ext; simpl.
  - by rewrite length_insert.
  - intros a' Hne. apply list_lookup_insert_ne. congruence.
  - intros a' Hne. apply Hg. congruence.
Qed.

(** The goroutines of a server whose socket has been closed come to their ends. *)
Lemma server_exits a (P : pod) x :
  servers (p_ext P) !! a = Some x -> tapp.stop x = true -> sound x (server_go P a x) ->
  exists ls P' x', steps step P (PServer a <$> ls) P' /\ servers (p_ext P') !! a = Some x' /\
    tapp.connection x' = tapp.connection x /\ tapp.stop x' = true /\ sound x' (server_go P' a x') /\
    server_left (server_go P' a x') = 0%nat /\
    p_wait P' = p_wait P /\ p_todo P' = p_todo P /\ elsewhere (WServer a) P P'.
Proof.
  remember (server_left (server_go P a x)) as n eqn:En. revert P x En.
  induction n as [n IH] using lt_wf_ind. intros P x En Hx Hs Hsnd.
  destruct (decide (n = 0%nat)) as [Hn|Hn].
  { exists [], P, x. split_and!; try done; [apply steps_nil|congruence]. }
  destruct P as [w go sgo cn l wt]. unfold p_ext in *. simpl in *.
  destruct (server_progress x (metrics (w_ext w)) _ Hs Hsnd) as (lb & x1 & g1 & Hst & Hown & Hlt & Hs1 & Hc1);
    [by rewrite <- En|].
  set (P1 := mkPod (with_ext (put_server a x1 (metrics (w_ext w)) (w_ext w)) w) go (<[a := g1]> sgo) cn l wt : pod).
  assert (server_go P1 a x1 = g1) as Hg1 by (unfold PodServers.server_go; simpl; by rewrite lookup_insert_eq).
  destruct (IH (server_left g1)) with (P := P1) (x := x1) as (ls & P2 & x2 & Hr & Hx2 & Hc2 & Hs2 & Hsnd2 & Hl2 & Hw2 & Ht2 & Hel).
  - rewrite En. exact Hlt.
  - by rewrite Hg1.
  - apply list_lookup_insert_eq. by eapply lookup_lt_Some.
  - congruence.
  - rewrite Hg1. by eapply server_step_sound.
  - exists (lb :: ls), P2, x2. split_and!; try done; [|congruence|].
    + csimpl. eapply steps_cons; [|exact Hr]. by apply (pod_server a x).
    + etrans; [|exact Hel]. apply elsewhere_put_server. intros a' Hne. by apply lookup_insert_ne.
Qed.

(** The steps a handler that only tears down needs: its own, and those of the
    goroutines of what it tears down. *)
Definition own_label (lb : label) : bool :=
  match lb with
  | PCode | PTear _ | PTorn _ | PTearServer _ | PTornServer _ | PStream _ _ | PServer _ _ => true
  | _ => false
  end.

Lemma tear_server a l (P : pod) :
  servers_ok P -> p_todo P = Some (AServer a :: l) -> p_wait P = None -> (a < length (servers (p_ext P)))%nat ->
  exists ls P', steps step P ls P' /\ Forall own_label ls /\ p_todo P' = Some l /\ p_wait P' = None /\
    server_gone a P' /\ elsewhere (WServer a) P P'.
Proof.
  intros Hok Ht Hw Ha. apply lookup_lt_is_Some_2 in Ha as [x Hx].
  pose proof (sa_sound _ _ (so_sound _ _ _ _ _ Hok) a x Hx) as [Hi [k Hk]].
  destruct P as [w go sgo cn l0 wt]. unfold p_ext in *. simpl in *. subst l0 wt.
  set (x1 := tapp.set_connection (Some (close_conn k)) (tapp.set_stop true x)).
  set (P1 := mkPod (with_ext (put_server a x1 (metrics (w_ext w)) (w_ext w)) w) go sgo cn (Some l) (Some (WServer a)) : pod).
  assert (step (mkPod w go sgo cn (Some (AServer a :: l)) None) (PTearServer a) P1) as Hst1.
  { pose proof (pod_tear_server a x l w go sgo cn Hx) as Hst. unfold tapp.TearDownServer_begin in Hst.
    by rewrite Hk in Hst. }
  assert (servers (p_ext P1) !! a = Some x1) as Hx1 by (apply list_lookup_insert_eq; by eapply lookup_lt_Some).
  destruct (server_exits a P1 x1 Hx1 eq_refl) as (ls & P2 & x2 & Hr & Hx2 & Hc2 & Hs2 & [Hi2 _] & Hl2 & Hw2 & Ht2 & Hel).
  { split; [exact Hi|by eexists]. }
  apply server_left_0 in Hl2 as [Hl2 Hl3]. unfold server_running in Hi2. rewrite Hl2, Hl3 in Hi2. simpl in Hi2. destruct P2 as [w2 go2 sgo2 cn2 l2 wt2]. unfold p_ext in *. simpl in *. subst.
  set (q3 := tapp.TearDownServer_end x2 (metrics (w_ext w2))).
  exists (PTearServer a :: (PServer a <$> ls) ++ [PTornServer a]),
    (mkPod (with_ext (put_server a x2 q3 (w_ext w2)) w2) go2 sgo2 cn2 (Some l) None).
  split_and!; try done.
  - eapply steps_cons; [exact Hst1|]. eapply steps_snoc; [exact Hr|]. by apply (pod_torn_server a x2).
  - constructor; [done|]. apply Forall_app. split; [by apply Forall_fmap, Forall_true|by constructor].
  - exists x2, (close_conn k). unfold p_ext, PodServers.server_go in *. simpl.
    rewrite list_lookup_insert_eq by (by eapply lookup_lt_Some).
    by split_and!.
  - etrans; [|etrans; [exact Hel|]]; by apply elsewhere_put_server.
Qed.

(** ** Streams *)

(** A stream as the runs of [stream.step] leave it. *)
Definition good (v : stream.world) : Prop :=
  world_ok v /\ sane v /\
  (stream.s_pc (stream.w_snd v) = stream.SStart -> startable (stream.w_conf v) (stream.w_c v)).

(** A stream that has been set up, with its goroutines started. *)
Definition serving (c : nat) (P : pod) : Prop :=
  (0 < starts c (p_ext P))%nat /\ exists v, view c P = Some v /\ good v.

(** The socket closed and the three goroutines gone. *)
Definition client_gone (c : nat) (P : pod) : Prop :=
  exists v, view c P = Some v /\ running v = 0 /\ stream.conn_open (stream.w_c v) = false.

Definition with_prom (q : prom) (v : stream.world) : stream.world :=
  stream.mkWorld (stream.w_c v) q (stream.w_conf v) (stream.w_snd v) (stream.w_tpc v) (stream.w_t v)
    (stream.w_rd v) (stream.w_buf v) (stream.w_td v).

Lemma good_other b q v : good v -> good (stream.with_pair b (with_prom q v)).
Proof. by intros ([] & [] & Hst). Qed.

Lemma view_elsewhere who c (P P' : pod) v :
  elsewhere who P P' -> who <> WClient c -> p_wait P = None -> p_wait P' = None -> view c P = Some v ->
  exists b, view c P' = Some (stream.with_pair b (with_prom (metrics (p_ext P')) v)).
Proof.
  intros Hel Hne Hw Hw' (x & Hx & ->)%view_inv. apply fetched in Hx as (y & b & Hy & Hb & ->).
  assert (is_Some (w_pairs (p_w P') !! tgen.pairAt y)) as [b' Hb'].
  { apply lookup_lt_is_Some. rewrite (el_pairs _ _ _ _ _ _ _ Hel). by eapply lookup_lt_Some. }
  exists b'. rewrite (view_of _ _ _ _ _ _ (tgen.set_pair b' y)).
  - unfold td_of. rewrite Hw, Hw'. simpl.
    by rewrite (el_go _ _ _ _ _ _ _ Hel), (el_conf _ _ _ _ _ _ _ Hel) by done.
  - apply fetched. exists y, b'. by rewrite (el_streams _ _ _ _ _ _ _ Hel).
Qed.

Lemma starts_elsewhere who c (P P' : pod) : elsewhere who P P' -> starts c (p_ext P') = starts c (p_ext P).
Proof. intros Hel. unfold starts. by rewrite (el_going _ _ _ _ _ _ _ Hel). Qed.

Lemma serving_elsewhere who c (P P' : pod) :
  elsewhere who P P' -> who <> WClient c -> p_wait P = None -> p_wait P' = None -> serving c P -> serving c P'.
Proof.
  intros Hel Hne Hw Hw' (Hs & v & Hv & Hg). split; [by rewrite (starts_elsewhere _ _ _ _ Hel)|].
  destruct (view_elsewhere _ _ _ _ _ Hel Hne Hw Hw' Hv) as [b Hv']. eexists. split; [exact Hv'|by apply good_other].
Qed.

Lemma client_gone_elsewhere who c (P P' : pod) :
  elsewhere who P P' -> who <> WClient c -> p_wait P = None -> p_wait P' = None -> client_gone c P -> client_gone c P'.
Proof.
  intros Hel Hne Hw Hw' (v & Hv & Hg). destruct (view_elsewhere _ _ _ _ _ Hel Hne Hw Hw' Hv) as [b Hv'].
  eexists. split; [exact Hv'|done].
Qed.

Lemma equipped_begin x q :
  equipped x -> exists x1 q1, tgen.TearDownConnection_begin (x, q) = (Ok true, (x1, q1)) /\
    stream.conn_open x1 = false /\ tgen.msgHeaderLength x1 = tgen.msgHeaderLength x /\ first_go x1 = first_go x /\
    tgen.stop x1 = true /\ tgen.pairAt x1 = tgen.pairAt x.
Proof.
  intros [Hh [k Hk]]. destruct (proj1 Hh) as [m Hm].
  exists (tgen.set_connection (Some (close_conn k)) (tgen.set_stop true x)), (prom_unregister m q).
  split_and!; try done. unfold tgen.TearDownConnection_begin, tgen.get, tgen.deref, tgen.lib, tgen.upd.
  unfold bind, gets, lift, modify. simpl. rewrite Hm. simpl. by rewrite Hk.
Qed.

Lemma steps_good v ls v' : steps own_step v ls v' -> good v -> good v'.
Proof.
  intros Hr Hg. apply (steps_invariant own_step good v Hg) with ls; [|done].
  intros s l s' (Hok & Hs & Hst) Hx. split_and!.
  - by apply (own_ok s l).
  - by eapply own_sane.
  - by eapply started_startable.
Qed.

(** The stream waits, closed: its goroutines end, and the wait does. *)
Lemma torn_down c (P : pod) v :
  (0 < starts c (p_ext P))%nat -> p_wait P = Some (WClient c) -> view c P = Some v -> good v ->
  stream.conn_open (stream.w_c v) = false -> stream.w_td v = stream.DWaiting ->
  exists ls P', steps step P ((PStream c <$> ls) ++ [PTorn c]) P' /\ p_todo P' = p_todo P /\ p_wait P' = None /\
    serving c P' /\ client_gone c P' /\ elsewhere (WClient c) P P'.
Proof.
  intros Hs Hw Hv (Hok & S & Hst) Ho Htd.
  assert (tgen.stop (stream.w_c v) = true) as Hstop by (apply (ok_stop _ Hok); by rewrite Htd).
  destruct (own_exit v Hok S Hstop Ho Hst) as (ls & v2 & Hr & E & Htd2 & Hc & Hok2 & S2).
  apply (steps_sub _ own_step _ _ _ (fun s l s' Hx => proj1 Hx)) in Hr.
  destruct (steps_good _ _ _ Hr (conj Hok (conj S Hst))) as (_ & _ & Hst2).
  destruct (own_in_pod env namespace podName nodeName c P v ls v2 Hr Hv Hs Hok) as (P2 & HP2 & Hv2 & Hw2 & Ht2 & Hel).
  destruct (view_inv _ _ _ _ _ _ _ Hv2) as (x & (y & b & Hy & Hb & ->)%fetched & Ev).
  pose proof (starts_elsewhere _ c _ _ Hel) as Hs2.
  destruct P2 as [w go sgo cn l wt]. unfold p_ext in *. simpl in *. rewrite Hw in Hw2. subst wt. rewrite Htd in Htd2.
  assert (tgen.isStopped y = 0) as Hi by (pose proof (ok_running _ Hok2) as Hx; rewrite E, Ev in Hx; by symmetry).
  set (r := tgen.TearDownConnection_end (y, metrics (w_ext w))).
  assert (r = (Ok tt, (r.2.1, r.2.2))) as Er by done.
  destruct (view_torn_end env namespace podName nodeName c w go sgo cn l y r.2.1 r.2.2 v2 Hv2 Hok2 Hy Hi Er) as (v3 & Hst3 & Hv3 & E1 & E2 & E3 & E4).
  set (P3 := mkPod (with_ext (put_stream c r.2.1 r.2.2 (w_ext w)) w) go sgo cn l None : pod).
  assert (good v3) as Hg3 by (split_and!; [by eapply alone_ok|by apply (alone_refines _ _ _ Hst3)|by rewrite E1, E2, E3]).
  exists ls, P3. split_and!; try done.
  - eapply steps_snoc; [exact HP2|]. by apply (pod_torn c y).
  - split; [unfold p_ext; simpl; unfold starts in *; simpl; by rewrite Hs2|]. by exists v3.
  - exists v3. split_and!; [done|by rewrite E4|]. rewrite E1. unfold stream.conn_open in *. by rewrite Hc.
  - etrans; [exact Hel|]. by apply elsewhere_put.
Qed.

Lemma tear_client a p c l (P : pod) :
  p_todo P = Some (AClient a :: l) -> p_wait P = None ->
  w_pairs (p_w P) !! a = Some p -> ClientConnection p = Some c -> serving c P ->
  exists ls P', steps step P ls P' /\ Forall own_label ls /\ p_todo P' = Some l /\ p_wait P' = None /\
    serving c P' /\ client_gone c P' /\ elsewhere (WClient c) P P'.
Proof.
  intros Ht Hw Hp Hc (Hs & v & Hv & Hok & S & Hst).
  destruct (view_inv _ _ _ _ _ _ _ Hv) as (x & (y & b & Hy & Hb & ->)%fetched & Ev).
  destruct P as [w go sgo cn l0 wt]. unfold p_ext in *. simpl in *. subst l0 wt.
  pose proof (ok_equipped _ Hok) as He. rewrite Ev in He. simpl in He.
  destruct (equipped_begin y (metrics (w_ext w)) He) as (y1 & q1 & Hd & Ho & Hm & Hf & Hs1 & Ea).
  set (P1 := mkPod (with_ext (put_stream c y1 q1 (w_ext w)) w) go sgo cn (Some l) (Some (WClient c)) : pod).
  set (v1 := stream_world (tgen.set_pair b y1) q1 (conf (w_ext w))
    (default (first_go (tgen.set_pair b y)) (go !! (c, 0%nat))) stream.DWaiting).
  assert (stream.alone_step v stream.LTau v1) as Hst1.
  { rewrite Ev. apply stream.step_teardown_begin; [|exact (begin_pair _ _ _ _ _ _ Hd)].
    unfold td_of. simpl. by destruct (tgen.stop y). }
  assert (view c P1 = Some v1) as Hv1.
  { rewrite (view_of _ _ _ _ _ _ (tgen.set_pair b y1)); [|exact (fetch_put _ _ _ _ _ _ b Hy Hb Ea)].
    unfold v1, td_of, first_go in *. simpl in *. rewrite decide_True by done. by rewrite Hf. }
  destruct (torn_down c P1 v1) as (ls & P' & Hr & Ht' & Hw' & Hsv & Hcg & Hel); try done.
  - split_and!; [by eapply alone_ok|by apply (alone_refines _ _ _ Hst1)|].
    unfold v1, startable in *. simpl. rewrite Hm. rewrite Ev in Hst. exact Hst.
  - exists (PTear c :: (PStream c <$> ls) ++ [PTorn c]), P'. split_and!; try done.
    + eapply steps_cons; [|exact Hr]. by apply (pod_tear a p c y true y1 q1).
    + constructor; [done|]. apply Forall_app. split; [by apply Forall_fmap, Forall_true|by constructor].
    + etrans; [|exact Hel]. by apply elsewhere_put.
Qed.

(** ** A whole plan *)
Definition torn (P : pod) (x : action) : Prop :=
  match x with
  | AClient a => exists c, client_of (w_pairs (p_w P)) a = Some c /\ client_gone c P
  | AServer a => server_gone a P
  | ACode _ => True
  end.

(** What a teardown needs. *)
Definition can_tear (P : pod) (x : action) : Prop :=
  match x with
  | AClient a => exists c, client_of (w_pairs (p_w P)) a = Some c /\ serving c P
  | AServer a => (a < length (servers (p_ext P)))%nat
  | ACode m => m = tupd (set_netBatPairs None)
  end.

Lemma server_gone_elsewhere who a (P P' : pod) :
  elsewhere who P P' -> who <> WServer a -> server_gone a P -> server_gone a P'.
Proof.
  intros Hel Hne (x & k & Hx & Hg). exists x, k. rewrite (el_servers _ _ _ _ _ _ _ Hel) by done.
  unfold PodServers.server_go in *. by rewrite (el_server_go _ _ _ _ _ _ _ Hel) by done.
Qed.

(** A property of the streams survives the teardown of [who]. *)
Lemma clients_elsewhere (Q : nat -> pod -> Prop) who (P P' : pod) a :
  client_of (w_pairs (p_w P')) a = client_of (w_pairs (p_w P)) a -> (forall c, who <> WClient c -> Q c P -> Q c P') ->
  (forall c, who = WClient c -> Q c P') ->
  (exists c, client_of (w_pairs (p_w P)) a = Some c /\ Q c P) ->
  exists c, client_of (w_pairs (p_w P')) a = Some c /\ Q c P'.
Proof.
  intros Ep Hn He (c & Hc & Hq). exists c. rewrite Ep. split; [done|].
  destruct (decide (who = WClient c)); auto.
Qed.

(** Forgetting the pairs does nothing to them. *)
Lemma forget_pairs l (P : pod) :
  p_todo P = Some (ACode (tupd (set_netBatPairs None)) :: l) -> p_wait P = None ->
  exists P', step P PCode P' /\ p_todo P' = Some l /\ p_wait P' = None /\
    (forall y, can_tear P y -> can_tear P' y) /\ (forall y, torn P y -> torn P' y) /\
    (forall b, client_of (w_pairs (p_w P')) b = client_of (w_pairs (p_w P)) b).
Proof.
  destruct P as [w go sgo cn l0 wt]. simpl. intros -> ->.
  exists (mkPod (mkWorld (set_netBatPairs None (w_tg w)) (w_pairs w) (w_tasks w) (w_ext w)) go sgo cn (Some l) None).
  split_and!; try done; [by apply pod_code|..].
Qed.

(** The next teardown of a plan, and what it does to the others. *)
Lemma tear_one x l (P : pod) :
  servers_ok P -> p_todo P = Some (x :: l) -> p_wait P = None -> can_tear P x ->
  exists ls P', steps step P ls P' /\ Forall own_label ls /\ p_todo P' = Some l /\ p_wait P' = None /\
    torn P' x /\ (forall y, can_tear P y -> can_tear P' y) /\ (forall y, torn P y -> torn P' y) /\
    (forall b, client_of (w_pairs (p_w P')) b = client_of (w_pairs (p_w P)) b).
Proof.
  intros Hok Ht Hw Hx. destruct x as [a|a|m].
  - destruct Hx as (c & (p & Hp & Hc)%bind_Some & Hs).
    destruct (tear_client a p c l P Ht Hw Hp Hc Hs) as (ls & P' & Hr & Hl & Ht' & Hw' & Hs' & Hg & Hel).
    exists ls, P'. pose proof (el_client _ _ _ _ _ _ _ Hel) as Ep. split_and!; try done.
    + exists c. rewrite Ep. unfold client_of. by rewrite Hp.
    + intros [b|b|m]; simpl; [|by rewrite (el_length _ _ _ _ _ _ _ Hel)|done].
      apply (clients_elsewhere serving (WClient c)); [done|intros; by eapply serving_elsewhere|by intros ? [= <-]].
    + intros [b|b|m]; simpl; [|by apply (server_gone_elsewhere _ _ _ _ Hel)|done].
      apply (clients_elsewhere client_gone (WClient c)); [done|intros; by eapply client_gone_elsewhere|by intros ? [= <-]].
  - destruct (tear_server a l P Hok Ht Hw Hx) as (ls & P' & Hr & Hl & Ht' & Hw' & Hg & Hel).
    exists ls, P'. pose proof (el_client _ _ _ _ _ _ _ Hel) as Ep. split_and!; try done.
    + intros [b|b|m]; simpl; [|by rewrite (el_length _ _ _ _ _ _ _ Hel)|done].
      apply (clients_elsewhere serving (WServer a)); [done|intros; by eapply serving_elsewhere|done].
    + intros [b|b|m]; simpl; [| |done].
      * apply (clients_elsewhere client_gone (WServer a)); [done|intros; by eapply client_gone_elsewhere|done].
      * destruct (decide (a = b)) as [<-|Hne]; [done|]. apply (server_gone_elsewhere _ _ _ _ Hel). congruence.
  - simpl in Hx. subst m. destruct (forget_pairs l P Ht Hw) as (P' & Hst & Ht' & Hw' & Hx).
    exists [PCode], P'. split_and!; try done; [by apply steps_one|by constructor|apply Hx..].
Qed.

Lemma tear_all l (P : pod) :
  servers_ok P -> p_todo P = Some l -> p_wait P = None -> Forall (can_tear P) l ->
  exists ls P', steps step P ls P' /\ Forall own_label ls /\ p_todo P' = Some [] /\ p_wait P' = None /\
    Forall (torn P') l /\ (forall y, torn P y -> torn P' y) /\ (forall b, client_of (w_pairs (p_w P')) b = client_of (w_pairs (p_w P)) b).
Proof.
  revert P. induction l as [|x l IH]; intros P Hok Ht Hw Hl.
  { exists [], P. split_and!; try done. apply steps_nil. }
  apply Forall_cons in Hl as [Hx Hl].
  destruct (tear_one x l P Hok Ht Hw Hx) as (ls1 & P1 & Hr1 & Hl1 & Ht1 & Hw1 & Hx1 & Hc1 & Hn1 & Ep1).
  destruct (IH P1) as (ls2 & P2 & Hr2 & Hl2 & Ht2 & Hw2 & Hx2 & Hn2 & Ep2); try done.
  - apply (steps_invariant step servers_ok P Hok) with ls1; [|done].
    intros s lb s' Hs Hst. by eapply servers_ok_step.
  - eapply Forall_impl; [exact Hl|exact Hc1].
  - exists (ls1 ++ ls2), P2. split_and!; [by eapply steps_app|by apply Forall_app|done|done| | |].
    + constructor; [by apply Hn2|done].
    + intros y Hy. by apply Hn2, Hn1.
    + intros b. by rewrite Ep2.
Qed.
End Stop.
