(* ===== verification/PodTheorems.v ===== *)
(** * Streams and handlers in a pod

    What the relations of the parts say of a pod: a stream is a run of
    [stream.step] whatever the controller and the other streams do, and one of
    [stream.alone_step] if its pair is its own; a handler that waits for a
    stream can go on, and a pod can stop. *)
From S2P Require Import Prelude GoInt Strconv Message Metrics Reference Net Pair Pairing TApp TAppTheorems TGen TGenStep TGenProofs Ledger TGenRefine TGenInv TGenShared TGenTheorems Config TGC TGCTheorems Plan TGCRuns Streams Leaks Pod PodProofs PodServers PodStop.
Import tgc pod.

Section Streams.
Context `{Msgpack} `{PromLib} `{JsonSource} `{Yaml} {env : NetEnv} {namespace podName nodeName : string}.
#[local] Abbreviation pod := (@pod.pod _ _ env namespace podName nodeName).

(** A pod from its start to the moment stream [c] has been set up. *)
Context (n : Z) (q : prom) (k : tgen.config) (sk : tapp.config) (ls0 : list label) (P : pod).
Context (c : nat) (x : tgen.udpStream).
Hypothesis Hstart : steps step (pod0 n q k sk) ls0 P.
Hypothesis Hstream : streams (p_ext P) !! c ≫= fetch (w_pairs (p_w P)) = Some x.
Hypothesis Hset : connected (conf (p_ext P)) x (metrics (p_ext P)).
Hypothesis Hnew : p_wait P <> Some (WClient c) /\ p_go P !! (c, 0%nat) = None.

Lemma pod_tame : todo_tame env namespace podName nodeName P.
Proof. by destruct (starts_run env namespace podName nodeName c _ _ _ Hstart). Qed.

Lemma pod_view : view env namespace podName nodeName c P = Some (stream.started x (metrics (p_ext P)) (conf (p_ext P))).
Proof.
  rewrite (view_of _ _ _ _ _ _ x Hstream). destruct Hnew as [Hw ->]. unfold td_of. rewrite decide_False by done.
  by destruct (connected_spec _ _ _ Hset) as ((_ & _ & _ & ->) & _).
Qed.

(** C6: whatever the handlers, the goroutines of the controller, and those of
    all other streams and servers of the pod do, from the moment a stream has
    been set up, and as long as no goroutine sets it up or starts it a second
    time, the stream with its three goroutines is in a state that
    [stream.step] reaches: all that others can do to it is to write the pair it
    points to, which a second client of the same pair, and the goroutine that
    makes that client, do. So what is proved of runs of [stream.step] holds in
    a pod; in particular each number is sent, failed, or in the sender's hands.
    If nobody makes a client for its pair again, and no other stream points to
    it, the state is one of a stream alone, [stream.alone_step], of which
    TGenTheorems and the files after it speak. *)
Theorem pod_streams_are_streams ls (P' : pod) :
  steps step P ls P' -> PSetup c ∉ ls -> PConnect c ∉ ls -> (starts c (p_ext P') <= 1)%nat ->
  exists ls' v, steps stream.step (stream.started x (metrics (p_ext P)) (conf (p_ext P))) ls' v /\
    view env namespace podName nodeName c P' = Some v /\
    (tgen.packetSequence (stream.w_c v) <= 2 ^ 53 ->
     tgen.packetSentVal (tgen.vals (stream.w_c v)) + tgen.packetSendFailedVal (tgen.vals (stream.w_c v)) +
       inflight (phase_of (stream.s_pc (stream.w_snd v))) = tgen.packetSequence (stream.w_c v)) /\
    (PTask (TCreate (tgen.pairAt x)) ∉ ls -> sole env namespace podName nodeName c (tgen.pairAt x) P' ->
     steps stream.alone_step (stream.started x (metrics (p_ext P)) (conf (p_ext P))) ls' v).
Proof.
  intros Hr Hns Hnc Hs.
  destruct (view_run env namespace podName nodeName c P ls P' _ Hr pod_tame Hns Hnc Hs pod_view) as (ls' & v & Hr' & Hv & _ & Ha).
  { by eapply connected_ok. }
  exists ls', v. split_and!; [done|done| |done]. by apply (shared_sent_or_failed _ _ _ _ _ Hset Hr').
Qed.

(** A handler that tears a stream down is not held up: while it waits, and
    the connection it has closed has not been replaced, the stream's own
    goroutines, once they have been started, can all come to their ends, and
    then it goes on where it stopped; no other part of the pod, and nothing
    from the network, is needed for that. *)
Lemma pod_teardown_completes ls (P' : pod) v :
  steps step P ls P' -> PSetup c ∉ ls -> PConnect c ∉ ls -> starts c (p_ext P') = 1%nat ->
  p_wait P' = Some (WClient c) -> view env namespace podName nodeName c P' = Some v ->
  (stream.s_pc (stream.w_snd v) = stream.SStart -> startable (stream.w_conf v) (stream.w_c v)) ->
  stream.conn_open (stream.w_c v) = false ->
  exists ls2 (P2 : pod), steps step P' (ls2 ++ [PTorn c]) P2 /\
    Forall (fun lb => exists l, lb = PStream c l) ls2 /\ p_wait P2 = None /\ p_todo P2 = p_todo P'.
Proof.
  intros Hr Hns Hnc Hs Hw Hv Hst Ho.
  destruct (view_run env namespace podName nodeName c P ls P' _ Hr pod_tame Hns Hnc ltac:(lia) pod_view)
    as (ls' & v' & Hr' & Hv' & Hok & _); [by eapply connected_ok|].
  assert (v' = v) as -> by congruence.
  destruct (shared_ok _ _ _ _ _ Hset Hr') as [_ S].
  assert (stream.w_td v = stream.DWaiting) as Htd.
  { apply view_inv in Hv as (y & _ & ->). simpl. unfold td_of. by rewrite decide_True. }
  destruct (torn_down c P' v) as (ls2 & P2 & Hr2 & Ht2 & Hw2 & _); [lia|done|done|by split_and!|done|done|].
  exists (PStream c <$> ls2), P2. split_and!; [done| |done|done]. apply Forall_fmap, Forall_true. eauto.
Qed.

Lemma up_serving ls (P' : pod) :
  steps step P ls P' -> PSetup c ∉ ls -> PConnect c ∉ ls -> starts c (p_ext P') = 1%nat ->
  (forall v, view env namespace podName nodeName c P' = Some v ->
     stream.s_pc (stream.w_snd v) = stream.SStart -> startable (stream.w_conf v) (stream.w_c v)) ->
  serving c P'.
Proof.
  intros Hr Hns Hnc Hs Hst.
  destruct (view_run env namespace podName nodeName c P ls P' _ Hr pod_tame Hns Hnc ltac:(lia) pod_view)
    as (ls' & v & Hr' & Hv & Hok & _); [by eapply connected_ok|].
  destruct (shared_ok _ _ _ _ _ Hset Hr') as [_ S].
  split; [lia|]. exists v. split; [done|]. split_and!; auto.
Qed.
End Streams.

Section Stop.
Context `{Msgpack} `{PromLib} `{JsonSource} `{Yaml} {env : NetEnv} {namespace podName nodeName : string}.
#[local] Instance stops_Protocols : Protocols := stream_Protocols env namespace podName nodeName.
#[local] Abbreviation pod := (@pod.pod _ _ env namespace podName nodeName).

(** Stream [c] has been set up once, and its goroutines started, and (if the
    sender is only about to begin) the configuration is one it can begin with. *)
Inductive up (c : nat) (P' : pod) : Prop :=
| up_intro n q k sk ls0 (P : pod) x ls :
    steps step (pod0 n q k sk) ls0 P -> streams (p_ext P) !! c ≫= fetch (w_pairs (p_w P)) = Some x ->
    connected (conf (p_ext P)) x (metrics (p_ext P)) ->
    p_wait P <> Some (WClient c) /\ p_go P !! (c, 0%nat) = None ->
    steps step P ls P' -> PSetup c ∉ ls -> PConnect c ∉ ls -> starts c (p_ext P') = 1%nat ->
    (forall v, view env namespace podName nodeName c P' = Some v ->
       stream.s_pc (stream.w_snd v) = stream.SStart -> startable (stream.w_conf v) (stream.w_c v)) ->
    up c P'.

(** What a shutdown has to do. *)
Definition stop_plan (e : tgc.env) (w : world) : list action :=
  (AClient <$> default [] (netBatPairs (w_tg w))) ++
  (match netBatPairs (w_tg w) with None => [] | Some _ => [ACode (tupd (set_netBatPairs None))] end) ++
  (AServer <$> concat (e_walk e (serversMap (w_tg w))).*2).

Lemma plan_stop e (w : world) : plan e EStop w = (Ok (stop_plan e w), w).
Proof.
  unfold stop_plan, plan, plan_delete, plan_servers, tget, bind, gets, ret. simpl.
  destruct (netBatPairs (w_tg w)); simpl; [by rewrite <- app_assoc|done].
Qed.

Lemma up_up c (P : pod) : up c P -> serving c P.
Proof.
  intros [n q k sk ls0 P0 x ls Hstart Hstream Hset Hnew Hr Hns Hnc Hs Hst].
  by apply (up_serving n q k sk ls0 P0 c x Hstart Hstream Hset Hnew ls P).
Qed.

(** The servers a walk over the map finds. *)
Lemma walked e (m : gmap string (list nat)) a :
  env_ok e -> a ∈ concat (e_walk e m).*2 <-> exists proto l, m !! proto = Some l /\ a ∈ l.
Proof.
  intros (_ & _ & Hw). rewrite list_elem_of_In, in_concat. split.
  - intros (l & Hl%list_elem_of_In & Ha%list_elem_of_In). apply list_elem_of_fmap in Hl as ([proto l'] & -> & Hl). exists proto, l'.
    split; [|done]. apply elem_of_map_to_list. by rewrite <- Hw.
  - intros (proto & l & Hl & Ha). exists l. split; [|by apply list_elem_of_In]. apply list_elem_of_In. apply list_elem_of_fmap. exists (proto, l).
    split; [done|]. rewrite Hw. by apply elem_of_map_to_list.
Qed.

(** C5: a pod can stop. In every state a pod reaches in which no handler runs
    and each pair of the controller has a client that has been set up once and
    started, the shutdown goes through: StopTGC tears down each client and
    each server, each wait coming to an end by the steps of the goroutines it
    waits for alone; and then the goroutines of every client and of every
    server are gone and their sockets are closed. *)
Theorem pod_stops e n q k sk ls (P : pod) :
  env_ok e -> steps step (pod0 n q k sk) ls P -> p_todo P = None -> p_wait P = None ->
  (forall a, a ∈ default [] (netBatPairs (w_tg (p_w P))) ->
     exists p c, w_pairs (p_w P) !! a = Some p /\ ClientConnection p = Some c /\ up c P) ->
  exists ls' P', steps step P (PEvent EStop :: ls' ++ [PDone]) P' /\ Forall own_label ls' /\
    (forall a p c, a ∈ default [] (netBatPairs (w_tg (p_w P))) -> w_pairs (p_w P) !! a = Some p ->
       ClientConnection p = Some c -> client_gone c P') /\
    (forall proto l a, serversMap (w_tg (p_w P)) !! proto = Some l -> a ∈ l ->
       server_gone env namespace podName nodeName a P').
Proof.
  intros He Hr Ht Hw Hup. pose proof (servers_ok_run env namespace podName nodeName n q k sk ls P Hr) as Hok.
  assert (forall a, a ∈ concat (e_walk e (serversMap (w_tg (p_w P)))).*2 -> (a < length (servers (p_ext P)))%nat) as Hservers.
  { intros a (proto & l & Hl & Ha)%(walked e _ _ He).
    exact (proj1 (Forall_forall _ _) (so_known _ _ _ _ _ Hok proto l Hl) a Ha). }
  destruct P as [w go sgo cn l0 wt]. simpl in *. subst l0 wt.
  pose proof (pod_event e EStop w w _ go sgo cn He (plan_stop e w)) as Hst.
  destruct (tear_all (stop_plan e w) (mkPod w go sgo cn (Some (stop_plan e w)) None : pod)) as
    (ls' & P2 & Hr2 & Hl2 & Ht2 & Hw2 & Htorn & _ & Ep); [|done|done| |].
  - eapply servers_ok_step; [exact Hst|exact Hok].
  - unfold stop_plan. apply Forall_app. split; [|apply Forall_app; split].
    + apply Forall_fmap, Forall_forall. intros a Ha. destruct (Hup a Ha) as (p & c & Hp & Hc & Hu).
      exists c. split; [exact (proj2 (bind_Some _ _ _) (ex_intro _ p (conj Hp Hc)))|]. exact (up_up c _ Hu).
    + case_match; [apply Forall_singleton; exact eq_refl|by apply Forall_nil].
    + apply Forall_fmap, Forall_forall. exact Hservers.
  - destruct P2 as [w2 go2 sgo2 cn2 l2 wt2]. simpl in *. subst l2 wt2.
    exists ls', (mkPod w2 go2 sgo2 cn2 None None). split_and!; [|done| |].
    + eapply steps_cons; [exact Hst|]. eapply steps_snoc; [exact Hr2|]. apply pod_done.
    + intros a p c Ha Hp Hc. unfold stop_plan in Htorn. apply Forall_app in Htorn as [Htorn _].
      rewrite Forall_fmap, Forall_forall in Htorn. destruct (Htorn a Ha) as (c' & Hc' & Hg).
      rewrite Ep in Hc'. unfold client_of in Hc'. simpl in Hc'. rewrite Hp in Hc'. simpl in Hc'. assert (c' = c) as -> by congruence. exact Hg.
    + intros proto l a Hl Ha. unfold stop_plan in Htorn. apply Forall_app in Htorn as [_ Htorn].
      apply Forall_app in Htorn as [_ Htorn]. rewrite Forall_fmap, Forall_forall in Htorn.
      exact (Htorn a (proj2 (walked e _ a He) (ex_intro _ proto (ex_intro _ l (conj Hl Ha))))).
Qed.
End Stop.
