(* ===== verification/PodDemo.v ===== *)
(** * A pod at work

    For PodTheorems: both ConfigMaps arrive, the goroutine of the one pair
    brings its stream up, the pairing ConfigMap is deleted, and its handler
    waits for the stream; or the pod is stopped instead. *)
From S2P Require Import Prelude GoInt Strconv Message Metrics Reference Net Pair Pairing TApp TAppTheorems TGen TGenStep TGenProofs Ledger TGenRefine TGenInv TGenShared TGenDemo TGenTheorems Config TGC TGCTheorems Plan TGCRuns Streams Pod PodProofs PodServers PodStop PodTheorems.
Import tgc pod.

(** ** From the set-up of a stream to its teardown, in any pod *)
Section Life.
Context `{Msgpack} `{PromLib} `{JsonSource} `{Yaml} {env : NetEnv} {namespace podName nodeName : string}.
#[local] Instance life_Protocols : Protocols := stream_Protocols env namespace podName nodeName.
#[local] Abbreviation pod := (@pod.pod _ _ env namespace podName nodeName).
#[local] Abbreviation world := (@tgc.world life_Protocols).
#[local] Abbreviation ext w := (w_ext w : process).

Lemma pod_event_code e ev (w w' : world) go sgo cn :
  env_ok e -> plan e ev = ret [ACode (handle e ev)] -> handle e ev w = (Ok tt, w') ->
  steps step (mkPod w go sgo cn None None : pod) [PEvent ev; PCode; PDone] (mkPod w' go sgo cn None None).
Proof.
  intros He Hp Hh. eapply steps_cons; [apply (pod_event e ev w w [ACode (handle e ev)]); [done|exact (f_equal (fun m => m w) Hp)]|].
  eapply steps_cons; [by eapply pod_code|]. apply steps_one, pod_done.
Qed.

Context (net : NetEnv) (p : BatPair) (c0 c1 c2 c3 : tgen.udpStream) (q1 q2 q3 : prom).

(** The process between the two parts of the set-up, after them, with the
    goroutines started, and told to stop. *)
Definition half_up (w : world) : world := with_tasks [] (with_stream 0 c1 q1 w).
Definition whole_up (w : world) : world :=
  with_tasks (w_tasks (half_up w) ++ [TStart 0]) (with_stream 0 c2 q2 (half_up w)).
Definition with_going (w : world) : world :=
  mkWorld (w_tg w) (w_pairs w) []
    (mkProcess (streams (ext w)) (0%nat :: going (ext w)) (servers (ext w)) (metrics (ext w)) (conf (ext w)) (srv_conf (ext w))).
Definition unread (w : world) : world :=
  mkWorld (set_netPairResourceVersion "" (w_tg w)) (w_pairs w) (w_tasks w) (w_ext w).
Definition told (w : world) : world := with_ext (put_stream 0 c3 q3 (ext w)) w.

Lemma half_stream (w : world) :
  streams (ext w) !! 0%nat ≫= fetch (w_pairs w) = Some c0 ->
  tgen.SetupConnection_begin (conf (ext w)) (c0, metrics (ext w)) = (Ok tt, (c1, q1)) ->
  streams (ext (half_up w)) !! 0%nat ≫= fetch (w_pairs (half_up w)) = Some c1.
Proof.
  intros Hs Hb. exact (fetch_written _ _ _ _ c0 c1 0 q1 w Hs (fixed_out _ _ _ _ (SetupConnection_begin_fixed _) Hb)).
Qed.
Lemma whole_stream (w : world) :
  streams (ext (half_up w)) !! 0%nat ≫= fetch (w_pairs (half_up w)) = Some c1 ->
  tgen.SetupConnection_end net (conf (ext w)) (c1, q1) = (Ok tt, (c2, q2)) ->
  streams (ext (whole_up w)) !! 0%nat ≫= fetch (w_pairs (whole_up w)) = Some c2.
Proof.
  intros Hs He. exact (fetch_written _ _ _ _ c1 c2 0 q2 (half_up w) Hs (fixed_out _ _ _ _ (SetupConnection_end_fixed _ _) He)).
Qed.

Lemma comes_up (w : world) :
  w_tasks w = [TSetup 0] -> w_pairs w !! 0%nat = Some p -> ClientConnection p = Some 0%nat ->
  streams (ext w) !! 0%nat ≫= fetch (w_pairs w) = Some c0 ->
  tgen.SetupConnection_begin (conf (ext w)) (c0, metrics (ext w)) = (Ok tt, (c1, q1)) ->
  tgen.SetupConnection_end net (conf (ext w)) (c1, q1) = (Ok tt, (c2, q2)) ->
  steps step (mkPod w ∅ ∅ [] None None : pod) [PSetup 0; PConnect 0] (mkPod (whole_up w) ∅ ∅ [] None None).
Proof.
  intros Ht Hp Hc Hs Hb He. eapply steps_cons.
  { eapply (pod_setup 0 p 0 c0 (Ok tt) c1 q1 [] []); [exact Ht|exact Hp|exact Hc|exact Hs|exact Hb|done]. }
  apply steps_one. eapply (pod_connect net 0 0 c1 (Ok tt) c2 q2 [] []); [|exact He|done].
  exact (half_stream w Hs Hb).
Qed.

Lemma gets_started (w : world) :
  w_tasks w = [TStart 0] -> w_pairs w !! 0%nat = Some p -> ClientConnection p = Some 0%nat ->
  steps step (mkPod w ∅ ∅ [] None None : pod) [PTask (TStart 0)] (mkPod (with_going w) ∅ ∅ [] None None).
Proof.
  intros Ht Hp Hc. apply steps_one, pod_task; [done|]. destruct w as [tg ps ts s]. cbn in Ht, Hp. subst ts.
  apply (step_task [] (TStart 0) [] tg ps s None (with_going (mkWorld tg ps [] s))).
  simpl. unfold bind, pair_at, bind, gets, lift. simpl. rewrite Hp. simpl. by rewrite Hc.
Qed.

Lemma plan_gone e v text (w : world) :
  netBatPairs (w_tg w) = Some [0%nat] ->
  plan e (EDelete (pairing_cm v text)) w =
    (Ok [AClient 0; ACode (tupd (set_netBatPairs None))],
     unread w).
Proof. intros E. unfold plan. rewrite decide_True by done. unfold plan_delete, bind, tget, gets. simpl. by rewrite E. Qed.

(** What is left of the stream on the way. *)
Lemma up_tasks (w : world) : w_tasks w = [TSetup 0] -> w_tasks (whole_up w) = [TStart 0].
Proof. done. Qed.
Lemma going_stream (w : world) x :
  streams (ext w) !! 0%nat ≫= fetch (w_pairs w) = Some x ->
  streams (ext (with_going w)) !! 0%nat ≫= fetch (w_pairs (with_going w)) = Some x.
Proof. done. Qed.

Lemma going_pair (w : world) x : w_pairs w !! 0%nat = Some x -> w_pairs (with_going w) !! 0%nat = Some x.
Proof. done. Qed.
Lemma down_pair (w : world) x : w_pairs w !! 0%nat = Some x -> w_pairs (unread (with_going w)) !! 0%nat = Some x.
Proof. done. Qed.

Lemma gets_told ev e l (w w' : world) :
  env_ok e -> plan e ev w = (Ok (AClient 0 :: l), w') ->
  w_pairs w' !! 0%nat = Some p -> ClientConnection p = Some 0%nat -> streams (ext w') !! 0%nat = Some c2 ->
  tgen.TearDownConnection_begin (c2, metrics (ext w')) = (Ok true, (c3, q3)) ->
  steps step (mkPod w ∅ ∅ [] None None : pod) [PEvent ev; PTear 0]
    (mkPod (told w') ∅ ∅ [] (Some l) (Some (WClient 0))).
Proof.
  intros Hev Hpl Hp Hc Hs Hb. eapply steps_cons; [by eapply pod_event|]. apply steps_one.
  exact (pod_tear 0 p 0 c2 true c3 q3 l w' ∅ ∅ [] Hp Hc Hs Hb).
Qed.

(** The world in which a goroutine goes on to the set-up. *)
Definition after (r : outcome (option task) * world) : world :=
  mkWorld (w_tg r.2) (w_pairs r.2) (w_tasks r.2 ++ [TSetup 0]) (w_ext r.2).
Lemma after_ext r : w_ext (after r) = w_ext r.2.
Proof. done. Qed.

Lemma created_inv a tg ps ts s t w' :
  run_task (TCreate a) (mkWorld tg ps ts s) = (Ok (Some t), w') ->
  exists p n x, tgen.CreateClient a p n = Ok x /\ streams (ext w') = streams s ++ [x].
Proof.
  set (w := mkWorld tg ps ts s).
  cbn [run_task]. intros E. apply bind_Ok_inv in E as ([] & w1 & [= <-] & E).
  apply bind_Ok_inv in E as (b & w2 & Ep & E).
  unfold pair_at in Ep. apply bind_Ok_inv in Ep as (ps' & w3 & [= <- <-] & Ep).
  unfold deref, lift, or_panic in Ep. destruct (alter _ a ps !! a) as [b'|] eqn:Eb; [|discriminate Ep].
  injection Ep as -> <-.
  destruct (decide _); [|discriminate E].
  apply bind_Ok_inv in E as (n & w4 & [= <- <-] & E). apply bind_Ok_inv in E as (r & w5 & Er & E).
  unfold ignore, call in Er. simpl in Er. unfold stream_CreateClient in Er.
  destruct (tgen.CreateClient a b _) as [x|err|m] eqn:Hx; simpl in Er; [|by injection Er as <- <-|done].
  injection Er as <- <-. apply bind_Ok_inv in E as ([] & w6 & [= <-] & E). injection E as _ <-.
  by exists b, (socketReadBufferSize (w_tg w)), x.
Qed.

Lemma created_pair a b0 b n x : tgen.CreateClient a b0 n = Ok x -> tgen.CreateClient a b n = Ok (tgen.set_pair b x).
Proof. unfold tgen.CreateClient, tgen.newStream. destruct GetMessageHeaderLength; [|done..]. by intros [= <-]. Qed.

Lemma life_connected a n b0 y (w : world) :
  tgen.CreateClient a b0 n = Ok y -> (exists b, c0 = tgen.set_pair b y) ->
  tgen.SetupConnection_begin (conf (ext w)) (c0, metrics (ext w)) = (Ok tt, (c1, q1)) ->
  tgen.SetupConnection_end net (conf (ext w)) (c1, q1) = (Ok tt, (c2, q2)) ->
  let P := mkPod (whole_up w) ∅ ∅ [] None None : pod in
  connected (conf (p_ext P)) c2 (metrics (p_ext P)).
Proof.
  intros Hc [b ->] Hb He. apply (created_pair a b0 b) in Hc. rewrite <- (set_pair_same c1) in He.
  exact (connected_intro _ _ _ a b n (tgen.pair c1) _ net _ _ _ _ _ Hc Hb He).
Qed.
End Life.

(** ** The demonstration *)
#[local] Existing Instance demo_Source.
#[local] Existing Instance demo_Yaml.
#[local] Existing Instance demo_Streams.
#[local] Abbreviation pod := (@pod.pod _ _ ok_env "default" "pod-a" "node-a").
#[local] Abbreviation ext w := (w_ext w : process).

Definition stream0 (w : world) : tgen.udpStream := default demo_client (streams (ext w) !! 0%nat ≫= fetch (w_pairs w)).
Definition raw0 (w : world) : tgen.udpStream := default demo_client (streams (ext w) !! 0%nat).
Definition pair0 (w : world) : BatPair := default demo_pair (w_pairs w !! 0%nat).

Definition half : outcome unit * tgen.state :=
  tgen.SetupConnection_begin (conf (ext stream_w3)) (stream0 stream_w3, metrics (ext stream_w3)).
Definition whole : outcome unit * tgen.state :=
  tgen.SetupConnection_end ok_env (conf (ext stream_w3)) (half.2.1, half.2.2).
Definition pod_w5 : world := whole_up half.2.1 whole.2.1 half.2.2 whole.2.2 stream_w3.
Definition pod_w6 : world := with_going pod_w5.
Definition gone : event := EDelete (pairing_cm "1" udp_line).
Definition pod_w7 : world := unread pod_w6.
Definition telling : outcome bool * tgen.state :=
  tgen.TearDownConnection_begin (raw0 pod_w7, metrics (ext pod_w7)).
Definition pod_rest : list action := [ACode (tupd (set_netBatPairs None))].
Definition pod_up : pod := mkPod pod_w5 ∅ ∅ [] None None.
Definition pod_waits : pod := mkPod (told telling.2.1 telling.2.2 pod_w7) ∅ ∅ [] (Some pod_rest) (Some (WClient 0)).

Lemma half_ok : half = (Ok tt, (half.2.1, half.2.2)).
Proof. apply run_unit. vm_compute. reflexivity. Qed.
Lemma whole_ok : whole = (Ok tt, (whole.2.1, whole.2.2)).
Proof. apply run_unit. vm_compute. reflexivity. Qed.
Lemma telling_ok : telling = (Ok true, (telling.2.1, telling.2.2)).
Proof.
  assert (telling.1 = Ok true) as <- by (vm_compute; reflexivity). by destruct telling as [? [? ?]].
Qed.

Lemma raw_there w : (0 < length (streams (ext w)))%nat -> streams (ext w) !! 0%nat = Some (raw0 w).
Proof. intros [y Hy]%lookup_lt_is_Some_2. unfold raw0. by rewrite Hy. Qed.
Lemma stream_there w :
  is_Some (streams (ext w) !! 0%nat ≫= fetch (w_pairs w)) -> streams (ext w) !! 0%nat ≫= fetch (w_pairs w) = Some (stream0 w).
Proof. intros [y Hy]. unfold stream0. by rewrite Hy. Qed.
Lemma pair_there w : (0 < length (w_pairs w))%nat -> w_pairs w !! 0%nat = Some (pair0 w).
Proof. intros [y Hy]%lookup_lt_is_Some_2. unfold pair0. by rewrite Hy. Qed.

Lemma handled ev w : is_ok (handle demo_env ev w).1 = true -> handle demo_env ev w = (Ok tt, (handle demo_env ev w).2).
Proof. by destruct (handle demo_env ev w) as [[[]|?|?] ?]. Qed.

(** The pair and the stream of the demonstration. *)
Lemma w3_pair : w_pairs stream_w3 !! 0%nat = Some (pair0 stream_w3).
Proof. apply pair_there. vm_compute. lia. Qed.
Lemma w3_client : ClientConnection (pair0 stream_w3) = Some 0%nat.
Proof. vm_compute. reflexivity. Qed.
Lemma w3_stream : streams (ext stream_w3) !! 0%nat ≫= fetch (w_pairs stream_w3) = Some (stream0 stream_w3).
Proof. apply stream_there, is_Some_alt. vm_compute. exact I. Qed.
Lemma w3_tasks : w_tasks stream_w3 = [TSetup 0].
Proof. vm_compute. reflexivity. Qed.
Lemma w5_pair : w_pairs pod_w5 !! 0%nat = Some (pair0 pod_w5).
Proof. apply pair_there. vm_compute. lia. Qed.
Lemma w5_client : ClientConnection (pair0 pod_w5) = Some 0%nat.
Proof. vm_compute. reflexivity. Qed.
Lemma w5_tasks : w_tasks pod_w5 = [TStart 0].
Proof. exact (up_tasks _ _ _ _ stream_w3 w3_tasks). Qed.
Lemma w5_stream : streams (ext pod_w5) !! 0%nat ≫= fetch (w_pairs pod_w5) = Some whole.2.1.
Proof.
  exact (whole_stream ok_env _ _ _ _ stream_w3 (half_stream (stream0 stream_w3) half.2.1 half.2.2 stream_w3 w3_stream half_ok) whole_ok).
Qed.
Lemma w7_pair : w_pairs pod_w7 !! 0%nat = Some (pair0 pod_w5).
Proof. exact (down_pair pod_w5 _ w5_pair). Qed.
Lemma w7_raw : streams (ext pod_w7) !! 0%nat = Some (raw0 pod_w7).
Proof. apply raw_there. vm_compute. lia. Qed.
Lemma w6_pairs : netBatPairs (w_tg pod_w6) = Some [0%nat].
Proof. vm_compute. reflexivity. Qed.

Definition up_labels : list label :=
  ([PEvent (EAdd (pairing_cm "1" udp_line)); PCode; PDone] ++ [PEvent (EAdd (profile_cm "2" "")); PCode; PDone]) ++
  PTask (TCreate 0) :: [PSetup 0; PConnect 0].

Lemma pod_comes_up : steps step (pod0 200 ref_prom0 tgen.defaultConfig (tapp.mkConfig 0) : pod) up_labels pod_up.
Proof.
  eapply steps_app; [eapply steps_app|].
  - apply (pod_event_code demo_env _ stream_w0 stream_w1); [exact demo_env_ok|reflexivity|].
    apply handled. vm_compute. reflexivity.
  - apply (pod_event_code demo_env _ stream_w1 stream_w2); [exact demo_env_ok|reflexivity|].
    apply handled. vm_compute. reflexivity.
  - eapply steps_cons; [apply pod_task; [discriminate|exact stream_created]|].
    exact (comes_up ok_env (pair0 stream_w3) (stream0 stream_w3) half.2.1 whole.2.1 half.2.2 whole.2.2 stream_w3
      w3_tasks w3_pair w3_client w3_stream half_ok whole_ok).
Qed.

Definition down_labels : list label := [PTask (TStart 0)] ++ [PEvent gone; PTear 0].

Lemma pod_goes_down : steps step pod_up down_labels pod_waits.
Proof.
  eapply steps_app.
  - exact (gets_started (pair0 pod_w5) pod_w5 w5_tasks w5_pair w5_client).
  - exact (gets_told (pair0 pod_w5) (raw0 pod_w7) telling.2.1 telling.2.2 gone demo_env pod_rest pod_w6 pod_w7 demo_env_ok
      (plan_gone demo_env "1" udp_line pod_w6 w6_pairs) w7_pair w5_client w7_raw telling_ok).
Qed.

(** ** Witnesses *)
Lemma w2_streams : streams (ext stream_w2) = [].
Proof. apply nil_length_inv. vm_compute. reflexivity. Qed.
Lemma stream_r_ok : stream_r = (Ok (Some (TSetup 0)), stream_r.2).
Proof.
  assert (stream_r.1 = Ok (Some (TSetup 0))) as <- by (vm_compute; reflexivity). apply surjective_pairing.
Qed.
Lemma only_made (l l1 l2 : list tgen.udpStream) x : l = [] -> l1 = l ++ [x] -> l2 = l1 -> l2 = [x].
Proof. by intros -> -> ->. Qed.
Lemma fetched_only (l : list tgen.udpStream) ps x y :
  l = [x] -> l !! 0%nat ≫= fetch ps = Some y -> exists b, y = tgen.set_pair b x.
Proof. intros -> (z & b & [= <-] & _ & ->)%fetched. by exists b. Qed.

Lemma w3_ext : streams (ext stream_w3) = streams (ext stream_r.2).
Proof. exact (f_equal streams (after_ext stream_r)). Qed.

Lemma stream0_created :
  exists a p n x, tgen.CreateClient a p n = Ok x /\ streams (ext stream_w3) = [x].
Proof.
  destruct (created_inv 0 _ _ _ _ _ _ stream_r_ok) as (p & n & x & Hc & Hs).
  exists 0%nat, p, n, x. exact (conj Hc (only_made _ _ _ x w2_streams Hs w3_ext)).
Qed.

Lemma stream_connected : connected (conf (p_ext pod_up)) whole.2.1 (metrics (p_ext pod_up)).
Proof.
  destruct stream0_created as (a & p & n & x & Hc & Hs).
  exact (life_connected ok_env (stream0 stream_w3) half.2.1 whole.2.1 half.2.2 whole.2.2 a n p x stream_w3 Hc
    (fetched_only _ _ _ _ Hs w3_stream) half_ok whole_ok).
Qed.

Lemma pod_new : p_wait pod_up <> Some (WClient 0) /\ p_go pod_up !! (0%nat, 0%nat) = None.
Proof. by split. Qed.

Lemma not_again : PSetup 0 ∉ down_labels /\ PConnect 0 ∉ down_labels.
Proof. unfold down_labels. split; intros Hin; repeat (apply elem_of_cons in Hin as [Hin|Hin]; [discriminate Hin|]); by apply elem_of_nil in Hin. Qed.

Lemma not_set_again : PSetup 0 ∉ [PTask (TStart 0)].
Proof. intros Hin%list_elem_of_singleton. discriminate. Qed.
Lemma not_connected_again : PConnect 0 ∉ [PTask (TStart 0)].
Proof. intros Hin%list_elem_of_singleton. discriminate. Qed.

Lemma started_once : starts 0 (p_ext pod_waits) = 1%nat.
Proof. vm_compute. reflexivity. Qed.

Lemma no_second_client a : PTask (TCreate a) ∉ down_labels.
Proof. unfold down_labels. intros Hin; repeat (apply elem_of_cons in Hin as [Hin|Hin]; [discriminate Hin|]); by apply elem_of_nil in Hin. Qed.
Lemma one_stream : (length (streams (p_ext pod_waits)) <= 1)%nat.
Proof. vm_compute. constructor. Qed.
Lemma only_stream a : sole ok_env "default" "pod-a" "node-a" 0 a pod_waits.
Proof. intros c' x Hx%lookup_lt_Some _. pose proof one_stream. lia. Qed.

Lemma pod_streams_are_streams_witness :
  exists ls' v, steps stream.step (stream.started whole.2.1 (metrics (p_ext pod_up)) (conf (p_ext pod_up))) ls' v /\
    steps stream.alone_step (stream.started whole.2.1 (metrics (p_ext pod_up)) (conf (p_ext pod_up))) ls' v /\
    view ok_env "default" "pod-a" "node-a" 0 pod_waits = Some v.
Proof.
  destruct (pod_streams_are_streams 200 ref_prom0 tgen.defaultConfig (tapp.mkConfig 0) up_labels pod_up 0 whole.2.1
    pod_comes_up w5_stream stream_connected pod_new down_labels pod_waits pod_goes_down (proj1 not_again) (proj2 not_again)
    (Nat.eq_le_incl _ _ started_once)) as (ls' & v & Hr & Hv & _ & Ha).
  exists ls', v. exact (conj Hr (conj (Ha (no_second_client _) (only_stream _)) Hv)).
Defined.

(** ** The same pod, stopped *)
Definition pod_running : pod := mkPod pod_w6 ∅ ∅ [] None None.

Lemma pod_starts : steps step pod_up [PTask (TStart 0)] pod_running.
Proof. exact (gets_started (pair0 pod_w5) pod_w5 w5_tasks w5_pair w5_client). Qed.

Lemma w6_stream : streams (ext pod_w6) !! 0%nat ≫= fetch (w_pairs pod_w6) = Some whole.2.1.
Proof. exact (going_stream pod_w5 _ w5_stream). Qed.
Lemma w6_pair : w_pairs pod_w6 !! 0%nat = Some (pair0 pod_w5).
Proof. exact (going_pair pod_w5 _ w5_pair). Qed.

Lemma running_once : starts 0 (p_ext pod_running) = 1%nat.
Proof. vm_compute. reflexivity. Qed.
Lemma running_startable : startable (conf (ext pod_w6)) whole.2.1.
Proof. vm_compute. reflexivity. Qed.

Lemma view_startable c x (P : pod) :
  streams (p_ext P) !! c ≫= fetch (w_pairs (p_w P)) = Some x -> startable (conf (p_ext P)) x ->
  forall v, view ok_env "default" "pod-a" "node-a" c P = Some v ->
    stream.s_pc (stream.w_snd v) = stream.SStart -> startable (stream.w_conf v) (stream.w_c v).
Proof. intros Hx Hs v (y & Hy & ->)%view_inv _. simpl. by assert (y = x) as -> by congruence. Qed.

Lemma stream_up : up 0 pod_running.
Proof.
  exact (up_intro 0 pod_running 200 ref_prom0 tgen.defaultConfig (tapp.mkConfig 0) up_labels pod_up whole.2.1
    [PTask (TStart 0)] pod_comes_up w5_stream stream_connected pod_new pod_starts not_set_again not_connected_again running_once
    (view_startable 0 whole.2.1 pod_running w6_stream running_startable)).
Qed.

Lemma running_pairs : netBatPairs (w_tg (p_w pod_running)) = Some [0%nat].
Proof. exact w6_pairs. Qed.
Lemma running_servers : serversMap (w_tg (p_w pod_running)) !! "udp" = Some [0%nat].
Proof. vm_compute. reflexivity. Qed.

Lemma running_clients a :
  a ∈ default [] (netBatPairs (w_tg (p_w pod_running))) ->
  exists p c, w_pairs (p_w pod_running) !! a = Some p /\ ClientConnection p = Some c /\ up c pod_running.
Proof.
  intros Ha. assert (a ∈ [0%nat]) as ->%list_elem_of_singleton.
  { exact (eq_ind _ (fun o => a ∈ default [] o) Ha _ running_pairs). }
  exists (pair0 pod_w5), 0%nat. exact (conj w6_pair (conj w5_client stream_up)).
Qed.

Lemma pod_stops_witness :
  exists ls' (P' : pod), steps step pod_running (PEvent EStop :: ls' ++ [PDone]) P' /\
    client_gone 0 P' /\ server_gone ok_env "default" "pod-a" "node-a" 0 P'.
Proof.
  destruct (pod_stops demo_env 200 ref_prom0 tgen.defaultConfig (tapp.mkConfig 0) (up_labels ++ [PTask (TStart 0)])
    pod_running demo_env_ok (steps_app _ _ _ _ _ _ pod_comes_up pod_starts) eq_refl eq_refl running_clients)
    as (ls' & P' & Hr & _ & Hc & Hs).
  exists ls', P'. split; [exact Hr|split].
  - apply (Hc 0%nat (pair0 pod_w5) 0%nat); [|exact w6_pair|exact w5_client].
    exact (eq_ind_r (fun o => 0%nat ∈ default [] o) (list_elem_of_here 0%nat []) running_pairs).
  - exact (Hs "udp" [0%nat] 0%nat running_servers (list_elem_of_here 0%nat [])).
Defined.
