(* ===== verification/PodEchoDemo.v ===== *)
(** * A client of a pod's server

    For PodEcho: a datagram reaches the server of the pod of PodDemo, whose
    stream has been set up. *)
From S2P Require Import Prelude GoInt Strconv Message Metrics Reference Net Pair Pairing TApp TAppTheorems TGen TGenStep TGenProofs Ledger TGenRefine TGenInv TGenDemo Config TGC TGCTheorems Plan TGCRuns Streams Handles Pod PodProofs PodHandles PodServers PodEcho PodStop PodTheorems PodDemo.
Import tgc pod.

Section Heard.
Context `{Msgpack} `{PromLib} `{JsonSource} `{Yaml} {env : NetEnv} {namespace podName nodeName : string}.
#[local] Instance heard_Protocols : Protocols := stream_Protocols env namespace podName nodeName.
#[local] Abbreviation pod := (@pod.pod _ _ env namespace podName nodeName).
#[local] Abbreviation world := (@tgc.world heard_Protocols).
#[local] Abbreviation ext w := (w_ext w : process).

Definition heard (w : world) (a : nat) (x : tapp.udpServer) (b : list byte) (q : prom) : pod :=
  mkPod (with_ext (put_server a x q (ext w)) w) ∅ {[a := mkServerGo b tapp.RHead true]} [] None None.

Lemma server_hears (w : world) a x k t1 t2 ip data out b' x' q' :
  servers (ext w) !! a = Some x -> tapp.stop x = false -> tapp.connection x = Some k -> conn_closed k = false ->
  in64 t1 -> in64 t2 ->
  tapp.ReadFromSocket_datagram t1 t2 ip data (g_buffer (first_server_go x)) x (metrics (ext w)) = Ok (out, b', x', q') ->
  steps step (mkPod w ∅ ∅ [] None None : pod) [PServer a tapp.LReader; PServer a (tapp.LDatagram ip data out)]
    (heard w a x' b' q').
Proof.
  intros Hx Hs Hk Ho Ht1 Ht2 E. pose proof (lookup_lt_Some _ _ _ Hx) as Hlt.
  set (w1 := with_ext (put_server a x (metrics (ext w)) (ext w)) w).
  set (g := mkServerGo (g_buffer (first_server_go x)) tapp.RReading true).
  apply (steps_cons _ _ _ (mkPod w1 ∅ {[a := g]} [] None None)).
  - apply (pod_server a x tapp.LReader x (metrics (ext w)) g); [done|done|]. rewrite lookup_empty. by apply tapp.step_reader_enter.
  - assert (heard w a x' b' q' = mkPod (with_ext (put_server a x' q' (ext w1)) w1) ∅
      (<[a := mkServerGo b' tapp.RHead true]> {[a := g]}) [] None None) as ->.
    { unfold heard, w1, put_server, with_ext. simpl. by rewrite insert_singleton_eq, list_insert_insert_eq. }
    apply steps_one, (pod_server a x); [simpl; by apply list_lookup_insert_eq|done|]. rewrite lookup_singleton_eq. simpl.
    eapply tapp.step_reader_data; [exact Hk|exact Ho|exact Ht1|exact Ht2|exact E].
Qed.
End Heard.

#[local] Existing Instance demo_Streams.
#[local] Existing Instance demo_Source.
#[local] Existing Instance demo_Yaml.
#[local] Abbreviation ext w := (w_ext w : process).

Definition server0 : tapp.udpServer := default demo_server (servers (ext pod_w5) !! 0%nat).
Definition server_metrics : store.st := metrics (ext pod_w5).
Definition server_conn : UDPConn := default (mkUDPConn (mkUDPAddr "" 0) None false) (tapp.connection server0).
Definition got : outcome (option (list byte) * list byte * tapp.udpServer * store.st) :=
  tapp.ReadFromSocket_datagram 5000 5001 "10.10.10.9" (demo_packet 3 100) (g_buffer (first_server_go server0)) server0 server_metrics.
Definition got_value : option (list byte) * list byte * tapp.udpServer * store.st :=
  ok_or (None, [], server0, server_metrics) got.

Lemma server0_there : servers (ext pod_w5) !! 0%nat = Some server0.
Proof.
  assert (0 < length (servers (ext pod_w5)))%nat as Hl by (vm_compute; lia).
  apply lookup_lt_is_Some_2 in Hl as [y Hy]. unfold server0. exact (eq_trans Hy (f_equal Some (eq_sym (f_equal (default demo_server) Hy)))).
Qed.
Lemma server0_stop : tapp.stop server0 = false.
Proof. vm_compute. reflexivity. Qed.
Lemma server0_conn : tapp.connection server0 = Some server_conn.
Proof. vm_compute. reflexivity. Qed.
Lemma server0_open : conn_closed server_conn = false.
Proof. vm_compute. reflexivity. Qed.
Lemma got_ok : is_ok got = true.
Proof. vm_compute. reflexivity. Qed.
Lemma got_one : size (tapp.activeClientsMap got_value.1.2) = 1%nat.
Proof. vm_compute. reflexivity. Qed.

Definition got_out : option (list byte) := got_value.1.1.1.
Definition got_buf : list byte := got_value.1.1.2.
Definition got_server : tapp.udpServer := got_value.1.2.
Definition got_prom : store.st := got_value.2.
Lemma got_eq : got = Ok (got_out, got_buf, got_server, got_prom).
Proof.
  unfold got_out, got_buf, got_server, got_prom. rewrite <- !surjective_pairing. by apply ok_or_eq, got_ok.
Qed.

Definition pod_heard : @pod.pod _ _ ok_env "default" "pod-a" "node-a" := heard pod_w5 0 got_server got_buf got_prom.
Definition heard_labels : list label := [PServer 0 tapp.LReader; PServer 0 (tapp.LDatagram "10.10.10.9" (demo_packet 3 100) got_out)].

Lemma in64_small z : 0 <= z < 10000 -> in64 z.
Proof. unfold in64. lia. Qed.

Lemma pod_hears : steps step pod_up heard_labels pod_heard.
Proof.
  exact (server_hears pod_w5 0 server0 server_conn 5000 5001 "10.10.10.9" (demo_packet 3 100) got_out got_buf got_server got_prom
    server0_there server0_stop server0_conn server0_open (in64_small 5000 ltac:(lia)) (in64_small 5001 ltac:(lia)) got_eq).
Qed.

Lemma heard_there : servers (p_ext pod_heard) !! 0%nat = Some got_server.
Proof. exact (list_lookup_insert_eq (servers (ext pod_w5)) 0 got_server (lookup_lt_Some _ _ _ server0_there)). Qed.
Lemma heard_short : zlen (up_labels ++ heard_labels) <= 2 ^ 53.
Proof. vm_compute. discriminate. Qed.

Lemma pod_servers_are_servers_witness :
  exists g, tapp.activeClientStreams got_server = Some g /\ prom_value g (metrics (p_ext pod_heard)) = 1.
Proof.
  destruct (pod_servers_are_servers 200 ref_prom0 tgen.defaultConfig (tapp.mkConfig 0) (up_labels ++ heard_labels) pod_heard 0
    got_server (steps_app _ _ _ _ _ _ pod_comes_up pod_hears) heard_there)
    as (x0 & k0 & ip & ifn & m & q0 & q1 & ls' & v & _ & _ & _ & _ & Hg).
  destruct (Hg heard_short) as (g & Eg & Ev). exists g. split; [exact Eg|].
  exact (eq_trans Ev (f_equal Z.of_nat got_one)).
Defined.
