(* ===== verification/Endpoint.v ===== *)
(** * The metrics endpoint (pkg/util/util.go, [RegisterPromHandler])

    A goroutine of the process registers one handler and serves HTTP on every
    interface.  [http.Handle] and [http.ListenAndServe] of net/http, and the
    reading of the listen address in package net, are written out as far as
    the call uses them; what the system answers a [listen] is an input. *)
From S2P Require Import Prelude GoInt Strconv GoStrings.

From Stdlib Require Import Ascii.
#[local] Open Scope Z_scope.

Module endpoint.
Section Endpoint.
Context {Registry Handler : Type} (HandlerFor : Registry -> Handler).

(** [http.DefaultServeMux]: a pattern is registered once. *)
Definition Handle (pattern : string) (h : Handler) (mux : gmap string Handler) : outcome (gmap string Handler) :=
  if decide (pattern = "") then Panic "http: invalid pattern" else
  match mux !! pattern with
  | Some _ => Panic "http: multiple registrations"
  | None => Ok (<[pattern := h]> mux)
  end.

(** The host and the port of a listen address without brackets: the port is
    what follows the only colon, a number of 16 bits. *)
Definition split_port (addr : string) : option (string * Z) :=
  match Split addr ":" with
  | [host; port] =>
      match Atoi port with
      | Some n => if decide (0 <= n <= 65535) then Some (host, n) else None
      | None => None
      end
  | _ => None
  end.

(** How the goroutine ends up: it serves a handler for good, or has logged
    why it does not. *)
Inductive served :=
| Serves (host : string) (port : Z) (mux : gmap string Handler)
| Logged (why : string).

Definition ListenAndServe (listen : string -> Z -> outcome Z) (addr : string) (mux : gmap string Handler)
    : outcome served :=
  match split_port addr with
  | None => Err "listen tcp: invalid port"
  | Some (host, port) => let* bound := listen host port in Ok (Serves host bound mux)
  end.

Definition RegisterPromHandler (listen : string -> Z -> outcome Z) (promPort : Z) (reg : Registry)
    (mux : gmap string Handler) : outcome served :=
  let* mux := Handle "/metrics" (HandlerFor reg) mux in
  match ListenAndServe listen (":" +:+ Itoa promPort) mux with
  | Err e => Ok (Logged e)
  | r => r
  end.

Lemma split_port_Itoa n :
  in64 n -> split_port (":" +:+ Itoa n) = if decide (0 <= n <= 65535) then Some ("", n) else None.
Proof.
  intros Hn. unfold split_port, Split.
  change (chars (":" +:+ Itoa n)) with ([] ++ ":"%char :: chars (Itoa n)).
  change (chars ":") with [":"%char]. rewrite split_chars_at by apply not_elem_of_nil.
  rewrite split_chars_none by (apply Itoa_no_char; [reflexivity|discriminate]).
  simpl. rewrite str_chars. by rewrite Atoi_Itoa.
Qed.

(** With a port of 16 bits that the system binds, the endpoint serves its
    registry under /metrics, on all interfaces, and nothing else; with any
    other port, or when the system refuses, the goroutine logs it and the
    process runs on without an endpoint. *)
Lemma endpoint_served listen promPort reg :
  in64 promPort ->
  RegisterPromHandler listen promPort reg ∅ =
    if decide (0 <= promPort <= 65535)
    then match listen "" promPort with
         | Ok bound => Ok (Serves "" bound {["/metrics" := HandlerFor reg]})
         | Err e => Ok (Logged e)
         | Panic w => Panic w
         end
    else Ok (Logged "listen tcp: invalid port").
Proof.
  intros Hn. unfold RegisterPromHandler, Handle, ListenAndServe. rewrite decide_False by done.
  rewrite lookup_empty. simpl. rewrite split_port_Itoa by done.
  case_decide; [|done]. by destruct (listen "" promPort).
Qed.
End Endpoint.
End endpoint.
