(* ===== verification/Main.v ===== *)
(** * The process (cmd/tgenapp/main.go, and StopTGC's wait in pkg/tgc/tgc.go)

    [main] up to the controller it starts, with the environment, the log file
    and the Kubernetes client as inputs, and the wait for the informer with
    which a shutdown begins. *)
From S2P Require Import Prelude GoInt Strconv Net TGC.

Module main.

Definition PodName : string := "POD_NAME".
Definition NodeName : string := "NODE_NAME".
Definition Namespace : string := "NAMESPACE".
Definition LogFile : string := "/var/log/tgc.log".

(** The command line; the defaults are those [flag.Int] is given. *)
Record flags := mkFlags { readbufsize : Z; promport : Z; version : bool }.
Definition default_flags : flags := mkFlags 1000 2212 false.

(** [initializeLog]: the log file is opened, or its error is returned. *)
Definition initializeLog (OpenFile : string -> outcome unit) (logFile : string) : outcome unit :=
  OpenFile logFile.

(** [getClient]: errors are only logged, so a configuration that could not be
    read is passed on as nil, and a client that could not be made is nil. *)
Section Client.
Context {Config Client : Type}.
Definition getClient (InClusterConfig : outcome Config) (NewForConfig : option Config -> outcome Client)
    : outcome (option Client) :=
  let* config := match InClusterConfig with Ok c => Ok (Some c) | Err _ => Ok None | Panic w => Panic w end in
  match NewForConfig config with
  | Ok c => Ok (Some c)
  | Err _ => Ok None
  | Panic w => Panic w
  end.

(** How the start of the process ends. *)
Inductive startup :=
| VersionPrinted
| Refused (why : string)                              (* logged, and main returns *)
| Serving (tg : tgc.podTGC) (nodeName : string) (client : option Client)
    (maxProcs : option Z)          (* what runtime.GOMAXPROCS is set to, if it is *)
    (promPort : Z).                (* the endpoint is started, for the controller's registry *)

(** [os.Getenv] gives the empty text for a variable that is not set. *)
Definition setMaxProcs (LookupEnv : string -> option string) (NumCPU : Z) : option Z :=
  if decide (default "" (LookupEnv "GOMAXPROCS") = "") then Some NumCPU else None.

Definition main (f : flags) (OpenFile : string -> outcome unit) (LookupEnv : string -> option string)
    (NumCPU : Z) (InClusterConfig : outcome Config) (NewForConfig : option Config -> outcome Client) : outcome startup :=
  if version f then Ok VersionPrinted else
  match initializeLog OpenFile LogFile with
  | Err e => Panic e
  | Panic w => Panic w
  | Ok _ =>
      match LookupEnv PodName with
      | None => Ok (Refused "no pod name set in env variable")
      | Some podName =>
          match LookupEnv NodeName with
          | None => Ok (Refused "no node name set in env variable")
          | Some nodeName =>
              match LookupEnv Namespace with
              | None => Ok (Refused "no namespace set in env variable")
              | Some namespace =>
                  let* clientSet := getClient InClusterConfig NewForConfig in
                  Ok (Serving (tgc.NewPodTGController podName namespace (readbufsize f)) nodeName clientSet
                        (setMaxProcs LookupEnv NumCPU) (promport f))
              end
          end
      end
  end.

(** Once the log is open the process serves exactly when its three names are
    in the environment, provided [getClient] returns, with a client or not. *)
Lemma main_serves f OpenFile LookupEnv NumCPU InClusterConfig NewForConfig client :
  version f = false -> OpenFile LogFile = Ok tt -> getClient InClusterConfig NewForConfig = Ok client ->
  (exists tg node procs port,
     main f OpenFile LookupEnv NumCPU InClusterConfig NewForConfig = Ok (Serving tg node client procs port)) <->
  Forall (fun name => is_Some (LookupEnv name)) [PodName; NodeName; Namespace].
Proof.
  intros Hv Ho Ec. unfold main, initializeLog. rewrite Hv, Ho, Ec, !Forall_cons.
  destruct (LookupEnv PodName) as [p|] eqn:E1; [|split; [by intros (?&?&?&?&?)|by intros [[? ?] _]]].
  destruct (LookupEnv NodeName) as [n|] eqn:E2; [|split; [by intros (?&?&?&?&?)|by intros (_ & [? ?] & _)]].
  destruct (LookupEnv Namespace) as [ns|] eqn:E3; [|split; [by intros (?&?&?&?&?)|by intros (_ & _ & [? ?] & _)]].
  simpl. split; [|by eauto]. intros _. split_and!; [by eexists..|by apply Forall_nil].
Qed.
End Client.

(** ** The wait at the beginning of StopTGC

    [now i] is the clock at the [i]-th turn of the loop, [running i] what the
    load of [isRunning] gives in it.  The result is how many turns are made;
    [fuel] only bounds the recursion. *)
Definition stopTimeout : Z := 3000000000.
Definition stopPause : Z := 600000000.

Fixpoint await_informer (fuel : nat) (tEnd : Z) (now : nat -> Z) (running : nat -> bool) (i : nat) : option nat :=
  match fuel with
  | O => None
  | Datatypes.S fuel =>
      if now i <? tEnd then
        if running i then await_informer fuel tEnd now running (Datatypes.S i) else Some (Datatypes.S i)
      else Some i
  end.

(** A stuck informer delays the shutdown by at most five turns. *)
Lemma await_informer_bound start now running :
  (forall i, start + Z.of_nat i * stopPause <= now i) ->
  exists n, await_informer 6 (start + stopTimeout) now running 0 = Some n /\ (n <= 5)%nat.
Proof.
  intros Hc. assert (forall fuel i, (i + fuel = 6)%nat -> (i <= 5)%nat ->
    exists n, await_informer fuel (start + stopTimeout) now running i = Some n /\ (n <= 5)%nat) as Hw.
  { induction fuel as [|fuel IH]; intros i Hi Hb; [lia|]. simpl.
    destruct (Z.ltb_spec (now i) (start + stopTimeout)) as [Hlt|]; [|by exists i].
    assert (i < 5)%nat by (specialize (Hc i); unfold stopPause, stopTimeout in *; lia).
    destruct (running i); [|by exists (Datatypes.S i)]. apply IH; lia. }
  apply Hw; lia.
Qed.

End main.
