(* ===== verification/Process.v ===== *)
(** * The process from its start to its end (cmd/tgenapp/main.go, pkg/tgc/tgc.go)

    After [main.main] has started the controller four goroutines are left: the
    informer's, which calls the handlers; the one that waits for a signal;
    [main] itself, which waits for that one and then runs [StopTGC]; and those
    of [createNetBatTgenClients].  [step] interleaves them.  When [main]
    returns, the process is gone. *)
From S2P Require Import Prelude GoInt Net Pair Pairing Config TGC TGCTheorems Main.

Module process.

(** The goroutine at the end of [StartTGC]: before its first store, in
    [informer.Run], between that and its second store, ended. *)
Inductive informer_pc := IBegin | IRun | IReturned | IEnd.

(** The goroutine that reads [sigs]. *)
Inductive signal_pc := GReceive | GSend | GEnd.

(** [main]: at [<-done], at [close(tg.stopper)], at the head of the wait for
    the informer, at the teardowns, returned. *)
Inductive main_pc :=
| MWaiting
| MClose
| MLoop (tEnd : Z)
| MTearDown (tEnd : Z)
| MReturned (tEnd : Z).

Section Process.
Context `{JsonSource} `{Yaml} `{Protocols}.

(** [w_sigs] is the channel that [signal.Notify] fills, [w_done] the channel
    [done]: both have room for one.  [w_clock] is the last reading of the
    clock. *)
Record world := mkWorld {
  w_ctl : tgc.world;
  w_sigs : list Z;
  w_done : list bool;
  w_stopper : bool;             (* closed *)
  w_isRunning : Z;
  w_inf : informer_pc;
  w_sig : signal_pc;
  w_main : main_pc;
  w_clock : Z
}.

Definition started (ctl : tgc.world) (now : Z) : world :=
  mkWorld ctl [] [] false 0 IBegin GReceive MWaiting now.

(** [signal.Notify] does not block: a signal for which there is no room is lost. *)
Definition notify (sig : Z) (sigs : list Z) : list Z :=
  if decide (length sigs < 1)%nat then sigs ++ [sig] else sigs.

Inductive label :=
| LSignal (sig : Z)            (* the process is sent a signal *)
| LSig                         (* the goroutine that reads it moves *)
| LInformer
| LEvent (ev : tgc.event)      (* a handler, called by the informer *)
| LTask (t : tgc.task)
| LMain                        (* main moves *)
| LTurn                        (* main finds the informer running, and sleeps *)
| LStop.                       (* main tears clients and servers down *)

Definition returned (m : main_pc) : bool := match m with MReturned _ => true | _ => false end.

(** A step of the other goroutines. *)
Inductive other_step : world -> label -> world -> Prop :=
| other_signal sig ctl sigs d st r i g m now :
    other_step (mkWorld ctl sigs d st r i g m now) (LSignal sig)
      (mkWorld ctl (notify sig sigs) d st r i g m now)
| other_receive sig sigs ctl d st r i m now :
    other_step (mkWorld ctl (sig :: sigs) d st r i GReceive m now) LSig
      (mkWorld ctl sigs d st r i GSend m now)
| other_send ctl sigs st r i m now :
    other_step (mkWorld ctl sigs [] st r i GSend m now) LSig
      (mkWorld ctl sigs [true] st r i GEnd m now)
| other_begin ctl sigs d st r g m now :
    other_step (mkWorld ctl sigs d st r IBegin g m now) LInformer
      (mkWorld ctl sigs d st 1 IRun g m now)
| other_event ev ctl ctl' sigs d st r g m now :
    tgc.step ctl (tgc.LEvent ev) ctl' -> ev <> tgc.EStop ->
    other_step (mkWorld ctl sigs d st r IRun g m now) (LEvent ev)
      (mkWorld ctl' sigs d st r IRun g m now)
| other_stopped ctl sigs d r g m now :
    other_step (mkWorld ctl sigs d true r IRun g m now) LInformer
      (mkWorld ctl sigs d true r IReturned g m now)
| other_ended ctl sigs d st r g m now :
    other_step (mkWorld ctl sigs d st r IReturned g m now) LInformer
      (mkWorld ctl sigs d st 0 IEnd g m now)
| other_task t ctl ctl' sigs d st r i g m now :
    tgc.step ctl (tgc.LTask t) ctl' ->
    other_step (mkWorld ctl sigs d st r i g m now) (LTask t)
      (mkWorld ctl' sigs d st r i g m now).

(** A step of [main], of which [StopTGC] is the last part.  [now] is what the
    clock says: it does not go back. *)
Inductive main_step : world -> label -> world -> Prop :=
| main_done b d ctl sigs st r i g now :
    main_step (mkWorld ctl sigs (b :: d) st r i g MWaiting now) LMain
      (mkWorld ctl sigs d st r i g MClose now)
| main_close now ctl sigs d st r i g now0 :
    now0 <= now ->
    main_step (mkWorld ctl sigs d st r i g MClose now0) LMain
      (mkWorld ctl sigs d true r i g (MLoop (now + main.stopTimeout)) now)
| main_running now tEnd ctl sigs d st r i g now0 :
    now0 <= now -> now < tEnd -> r <> 0 ->
    main_step (mkWorld ctl sigs d st r i g (MLoop tEnd) now0) LTurn
      (mkWorld ctl sigs d st r i g (MLoop tEnd) (now + main.stopPause))
| main_not_running now tEnd ctl sigs d st i g now0 :
    now0 <= now -> now < tEnd ->
    main_step (mkWorld ctl sigs d st 0 i g (MLoop tEnd) now0) LMain
      (mkWorld ctl sigs d st 0 i g (MTearDown tEnd) now)
| main_timeout now tEnd ctl sigs d st r i g now0 :
    now0 <= now -> tEnd <= now ->
    main_step (mkWorld ctl sigs d st r i g (MLoop tEnd) now0) LMain
      (mkWorld ctl sigs d st r i g (MTearDown tEnd) now)
| main_stop ctl ctl' tEnd sigs d st r i g now :
    tgc.step ctl (tgc.LEvent tgc.EStop) ctl' ->
    main_step (mkWorld ctl sigs d st r i g (MTearDown tEnd) now) LStop
      (mkWorld ctl' sigs d st r i g (MReturned tEnd) now).

Inductive step (w : world) (lb : label) (w' : world) : Prop :=
| step_other : returned (w_main w) = false -> other_step w lb w' -> step w lb w'
| step_main : main_step w lb w' -> step w lb w'.

(** ** What holds at every moment *)

Definition is_turn (lb : label) : bool := match lb with LTurn => true | _ => false end.
Definition turns (ls : list label) : Z := zlen (List.filter is_turn ls).

Lemma turns_snoc ls lb : turns (ls ++ [lb]) = turns ls + (if is_turn lb then 1 else 0).
Proof.
  unfold turns, zlen. rewrite List.filter_app, length_app. simpl.
  destruct (is_turn lb); simpl; lia.
Qed.

(** A label of [main] itself, or of the goroutine it waits for. *)
Definition own (lb : label) : Prop := lb = LSig \/ lb = LMain \/ lb = LStop.

Definition signalled (ls : list label) : Prop := exists sig, LSignal sig ∈ ls.

Record inv (ls : list label) (w : world) : Prop := mkInv {
  inv_signalled : signalled ls <-> w_sigs w <> [] \/ w_sig w <> GReceive;
  inv_done :
    match w_sig w with
    | GEnd => w_done w = [true] /\ w_main w = MWaiting \/ w_done w = [] /\ w_main w <> MWaiting
    | _ => w_done w = [] /\ w_main w = MWaiting
    end;
  inv_running : w_isRunning w = match w_inf w with IRun | IReturned => 1 | _ => 0 end;
  inv_stopper : w_stopper w = true -> w_main w <> MWaiting /\ w_main w <> MClose;
  inv_turns :
    match w_main w with
    | MWaiting | MClose => turns ls = 0
    | MLoop tEnd => turns ls <= 5 /\ tEnd - main.stopTimeout + turns ls * main.stopPause <= w_clock w
    | MTearDown _ | MReturned _ => turns ls <= 5
    end
}.

Lemma signalled_snoc ls lb :
  signalled (ls ++ [lb]) <-> signalled ls \/ exists sig, lb = LSignal sig.
Proof.
  unfold signalled. split.
  - intros (sig & [Hin|<-%list_elem_of_singleton]%elem_of_app); eauto.
  - intros [(sig & Hin)|(sig & ->)]; exists sig; apply elem_of_app; [by left|right; by apply list_elem_of_singleton].
Qed.

Lemma notify_some sig sigs : notify sig sigs <> [].
Proof. unfold notify. case_decide; destruct sigs; simpl in *; (done || lia). Qed.

Lemma inv_started ctl now : inv [] (started ctl now).
Proof.
  split; simpl; try done. split; [intros (sig & Hin); by apply not_elem_of_nil in Hin|by intros []].
Qed.

Lemma step_inv ls w lb w' : inv ls w -> step w lb w' -> inv (ls ++ [lb]) w'.
Proof.
  intros [I1 I2 I3 I4 I5] [_ Hst|Hst]; destruct Hst; simpl in *;
    (split; simpl; rewrite ?signalled_snoc, ?turns_snoc, ?I1; simpl; rewrite ?Z.add_0_r).
  all: try (split; [intros [Hx|[? Hx]]; try discriminate Hx; auto|intros Hx; auto]; fail).
  all: try done.
  all: try (destruct g; naive_solver congruence).
  all: try (unfold main.stopTimeout, main.stopPause in *; naive_solver lia).
  pose proof (notify_some sig sigs). naive_solver.
Qed.

Lemma run_inv ctl now ls w : steps step (started ctl now) ls w -> inv ls w.
Proof.
  revert ls w. apply steps_ind_r; [apply inv_started|]. intros. by eapply step_inv.
Qed.

(** ** The shutdown *)

(** [StopTGC]'s teardowns return. *)
Definition can_stop (ctl : tgc.world) : Prop := exists ctl', tgc.step ctl (tgc.LEvent tgc.EStop) ctl'.

(** From [w] the process can end by steps of [main] and of the goroutine it
    waits for alone. *)
Definition can_end (w : world) : Prop :=
  exists ls w', steps step w ls w' /\ returned (w_main w') = true /\ Forall own ls.

Lemma can_end_step w lb w' : step w lb w' -> own lb -> can_end w' -> can_end w.
Proof.
  intros Hst Ho (ls & w2 & Hr & Hret & Hown). exists (lb :: ls), w2.
  split_and!; [by eapply steps_cons|done|by constructor].
Qed.

Lemma can_end_main w w' : main_step w LMain w' -> can_end w' -> can_end w.
Proof. intros. eapply can_end_step; [by apply step_main|by right; left|done]. Qed.

Lemma teardown_can_end ctl sigs d st r i g tEnd now :
  can_stop ctl -> can_end (mkWorld ctl sigs d st r i g (MTearDown tEnd) now).
Proof.
  intros (ctl' & Hs). eapply can_end_step; [by eapply step_main, main_stop|by right; right|].
  eexists [], _. split_and!; [by apply steps_nil|done|done].
Qed.

Lemma loop_can_end ctl sigs d st r i g tEnd now :
  can_stop ctl -> can_end (mkWorld ctl sigs d st r i g (MLoop tEnd) now).
Proof.
  intros. eapply can_end_main; [apply (main_timeout (Z.max now tEnd)); lia|]. by apply teardown_can_end.
Qed.

Lemma close_can_end ctl sigs d st r i g now :
  can_stop ctl -> can_end (mkWorld ctl sigs d st r i g MClose now).
Proof. intros. eapply can_end_main; [by apply (main_close now)|]. by apply loop_can_end. Qed.

Lemma signalled_can_end ls w :
  inv ls w -> signalled ls -> can_stop (w_ctl w) -> returned (w_main w) = false -> can_end w.
Proof.
  destruct w as [ctl sigs d st r i g m now]. intros [I1 I2 _ _ _] Hs Hc Hret. simpl in *.
  assert (forall sigs d, can_end (mkWorld ctl sigs (true :: d) st r i GEnd MWaiting now)) as Hend.
  { intros. eapply can_end_main; [apply main_done|]. by apply close_can_end. }
  assert (forall sigs, can_end (mkWorld ctl sigs [] st r i GSend MWaiting now)) as Hsend.
  { intros. eapply can_end_step; [apply step_other; [done|apply other_send]|by left|]. apply Hend. }
  destruct g; simpl in *.
  - destruct I2 as [-> ->]. destruct sigs as [|s sigs]; [naive_solver|].
    eapply can_end_step; [apply step_other; [done|apply other_receive]|by left|]. apply Hsend.
  - destruct I2 as [-> ->]. apply Hsend.
  - destruct I2 as [[-> ->]|[-> Hm]]; [apply Hend|]. destruct m as [| |tEnd|tEnd|tEnd]; try done.
    all: auto using close_can_end, loop_can_end, teardown_can_end.
Qed.
(** C15: the process ends when it is told to. [main] begins the shutdown only
    after a signal. It looks for the informer at most five times, and leaves
    that wait when the informer's goroutine has ended, has not begun, or three
    seconds have passed. Nothing runs once [main] has returned. And from every
    moment after a signal, the process can end by the steps of [main] and of
    the goroutine that reads the signal alone, provided the teardowns of the
    clients and servers return: no other goroutine, and no further signal, is
    in the way. *)
Theorem shutdown_completes ctl now ls w :
  steps step (started ctl now) ls w ->
  (w_main w <> MWaiting -> signalled ls) /\
  turns ls <= 5 /\
  (forall lb w' tEnd, step w lb w' -> w_main w = MLoop tEnd -> w_main w' = MTearDown tEnd ->
     w_inf w' = IEnd \/ w_inf w' = IBegin \/ tEnd <= w_clock w') /\
  (returned (w_main w) = true -> forall lb w', ~ step w lb w') /\
  (signalled ls -> can_stop (w_ctl w) -> returned (w_main w) = false -> can_end w).
Proof.
  intros Hr%run_inv. pose proof Hr as [I1 I2 I3 _ I5]. split_and!.
  - intros Hm. apply I1. right. intros E. rewrite E in I2. by destruct I2.
  - destruct (w_main w); lia.
  - intros lb w' tEnd [_ Hst|Hst]; destruct Hst; simpl in *; intros E E'; try congruence.
    + destruct i; auto; lia.
    + injection E as ->. auto.
  - intros Hret lb w' [Hn Hst|Hst]; [congruence|]. by destruct Hst.
  - by apply signalled_can_end.
Qed.
End Process.
End process.

(** ** A process that is told to end

    Both ConfigMaps come, the goroutine of the one pair brings its client up, a
    signal is sent and read. *)
Import process.
#[local] Existing Instance demo_Source.
#[local] Existing Instance demo_Yaml.
#[local] Existing Instance log_Protocols.

Definition told_labels : list label :=
  [LInformer; LEvent (tgc.EAdd (pairing_cm "1" udp_line)); LEvent (tgc.EAdd (profile_cm "2" ""));
   LTask (tgc.TCreate 0); LTask (tgc.TSetup 0); LTask (tgc.TStart 0); LSignal 15; LSig].
Definition told_world : world := mkWorld demo_up [] [] false 1 IRun GSend MWaiting 0.

Lemma told_event ev ctl sigs d st r g m now :
  is_ok (tgc.handle demo_env ev ctl).1 = true -> ev <> tgc.EStop -> returned m = false ->
  step (mkWorld ctl sigs d st r IRun g m now) (LEvent ev) (mkWorld (do_event ev ctl) sigs d st r IRun g m now).
Proof. intros. apply step_other; [done|]. apply other_event; [by apply do_event_step|done]. Qed.

Lemma told_task t l ctl sigs d st r i g m now :
  tgc.w_tasks ctl = t :: l ->
  is_ok (tgc.run_task t (tgc.mkWorld (tgc.w_tg ctl) (tgc.w_pairs ctl) l (tgc.w_ext ctl))).1 = true ->
  returned m = false ->
  step (mkWorld ctl sigs d st r i g m now) (LTask t) (mkWorld (do_task ctl) sigs d st r i g m now).
Proof. intros. apply step_other; [done|]. apply other_task. by eapply do_task_step. Qed.

Lemma told_run : steps step (started demo_tgc 0) told_labels told_world.
Proof.
  unfold told_labels, told_world, demo_up, started.
  eapply steps_cons; [apply step_other; [done|apply other_begin]|].
  do 2 (eapply steps_cons; [apply told_event; [vm_compute; reflexivity|discriminate|reflexivity]|]).
  do 3 (eapply steps_cons; [eapply told_task; [vm_compute; reflexivity|vm_compute; reflexivity|reflexivity]|]).
  eapply steps_cons; [apply step_other; [done|apply (other_signal 15)]|].
  apply steps_one, step_other; [done|]. apply other_receive.
Qed.

Lemma shutdown_completes_witness : turns told_labels <= 5 /\ can_end told_world.
Proof.
  destruct (shutdown_completes demo_tgc 0 told_labels told_world told_run) as (_ & Ht & _ & _ & He).
  split; [exact Ht|]. apply He; [|exists (do_event tgc.EStop demo_up)|reflexivity].
  - exists 15. unfold told_labels. apply list_elem_of_In. simpl. tauto.
  - apply do_event_step. vm_compute. reflexivity.
Defined.
